(** * CreateWOBJ: a shallow embedding of the asset compiler core

    The development follows the sources file by file:
    - [Common]        : common.h (integer types, [clamp], the [*_max] constants)
    - [Float]         : binary32 / binary64 arithmetic on [spec_float]
    - [Ieee754]       : ieee754_2008.h (the 16-bit float codec)
    - [VertexFormat]  : VertexFormat.h (attribute layout, index width)
    - [Assimp]        : the importer's scene graph, as Main.cpp reads it
    - [Main]          : Main.cpp (counting pass, mesh loading, skinning,
                        tree flattening, key-frame compression, emission)
    - [TreeLayout], [MeshSubsets], [BoneTable], [KeyArrays], [Cells],
      [Corners]       : what the passes of Main.cpp leave in the tree array,
                        the subset table, the bone table, the key-frame
                        blocks and the two buffers
    - [Formats]       : VertexFormat.h (runs of [addAttribute] and [set])
    - [HalfBits]      : ieee754_2008.h, half_float.h (the [double]
                        conversions, negation)
    - [Bounds]        : BBox.h (tests and set operations of [BBox3D])
    - [HalfCast]      : ieee754_2008.h (the encoder past the range of its
                        cast to [uint16_t])
    - [SkinPass]      : Main.cpp (the skinning loops of [loadMesh])
    - [ByteBlock]     : VertexFormat.h ([VertexBuffer] over the bytes of
                        its block)

    Definitions come first, the theorems about them follow. *)

From Stdlib Require Import ZArith Lia List Bool String QArith Qcanon.
From Stdlib Require Import Sorting.Sorted.
From Stdlib Require Import Floats.SpecFloat.
From stdpp Require Import gmap strings list.

Local Open Scope Z_scope.

(** ** common.h *)
Module Common.

(** Conversions to the fixed-width integer types (two's complement wrap). *)
Definition to_uchar (z : Z) : Z := z mod 2 ^ 8.
Definition to_ushort (z : Z) : Z := z mod 2 ^ 16.
Definition to_uint (z : Z) : Z := z mod 2 ^ 32.
Definition to_short (z : Z) : Z := (z + 2 ^ 15) mod 2 ^ 16 - 2 ^ 15.
Definition to_int (z : Z) : Z := (z + 2 ^ 31) mod 2 ^ 32 - 2 ^ 31.

(** [const uchar uchar_max = uchar(-1)] and [const ushort ushort_max = ushort(-1)]. *)
Definition uchar_max : Z := to_uchar (-1).
Definition ushort_max : Z := to_ushort (-1).
Definition uint_max : Z := to_uint (-1).

(** [clamp(e, l, h) = (e > l) ? ((e > h) ? h : e) : l] at type [int]. *)
Definition clamp (e l h : Z) : Z :=
  if e >? l then (if e >? h then h else e) else l.

(** An unsigned bit-field of [w] bits keeps the low [w] bits of what is stored. *)
Definition bitfield (w : Z) (z : Z) : Z := Z.land z (Z.ones w).

End Common.

(** ** Floating point

    [float] and [double] values are [spec_float]s of the binary32 and
    binary64 formats, computed on with the Standard Library's executable
    IEEE 754 operations (round to nearest, ties to even). *)
Module Float.

Definition prec32 : Z := 24.
Definition emax32 : Z := 128.
Definition prec64 : Z := 53.
Definition emax64 : Z := 1024.

Definition f32_add : spec_float -> spec_float -> spec_float := SFadd prec32 emax32.
Definition f32_sub : spec_float -> spec_float -> spec_float := SFsub prec32 emax32.
Definition f32_mul : spec_float -> spec_float -> spec_float := SFmul prec32 emax32.
Definition f32_div : spec_float -> spec_float -> spec_float := SFdiv prec32 emax32.
Definition f64_add : spec_float -> spec_float -> spec_float := SFadd prec64 emax64.
Definition f64_sub : spec_float -> spec_float -> spec_float := SFsub prec64 emax64.
Definition f64_mul : spec_float -> spec_float -> spec_float := SFmul prec64 emax64.
Definition f64_div : spec_float -> spec_float -> spec_float := SFdiv prec64 emax64.

(** [(float)z] and [(double)z] for an integer [z]. *)
Definition f32_of_Z (z : Z) : spec_float := binary_normalize prec32 emax32 z 0 false.
Definition f64_of_Z (z : Z) : spec_float := binary_normalize prec64 emax64 z 0 false.

(** [(float)d] for a double [d] (rounds), and [(double)f] for a float [f] (exact). *)
Definition f32_of_f64 (d : spec_float) : spec_float :=
  match d with
  | S754_finite s m e => binary_round prec32 emax32 s m e
  | _ => d
  end.
Definition f64_of_f32 (f : spec_float) : spec_float :=
  match f with
  | S754_finite s m e => binary_round prec64 emax64 s m e
  | _ => f
  end.

Definition f_zero : spec_float := S754_zero false.
Definition f32_one : spec_float := f32_of_Z 1.
Definition f64_one : spec_float := f64_of_Z 1.
Definition f_inf : spec_float := S754_infinity false.

(** The literal [0.00001] (a double) and its value as a [float] argument. *)
Definition d_0_00001 : spec_float := f64_div (f64_of_Z 1) (f64_of_Z 100000).
Definition f_0_00001 : spec_float := f32_of_f64 d_0_00001.

(** [static_cast<uint16_t>(val)]: the value truncated toward zero; the
    conversion is undefined ([None]) when the truncated value does not fit
    the destination type, and for NaN and the infinities. *)
Definition trunc_to_Z (val : spec_float) : option Z :=
  match val with
  | S754_zero _ => Some 0
  | S754_finite s m e =>
      let a := if 0 <=? e then Z.shiftl (Zpos m) e else Z.shiftr (Zpos m) (- e) in
      Some (if s then - a else a)
  | _ => None
  end.
Definition static_cast_uint16 (val : spec_float) : option Z :=
  match trunc_to_Z val with
  | Some z => if (0 <=? z) && (z <=? Common.ushort_max) then Some z else None
  | None => None
  end.

(** The union [IEEE754_float] of ieee754_2008.h: the three bit-fields of a
    32-bit float, and the value they denote. *)
Record IEEE754_float := { f_mantissa : Z; f_e : Z; f_sign : Z }.

Definition float_binary (f : IEEE754_float) : Z :=
  Z.lor (f_mantissa f) (Z.lor (Z.shiftl (f_e f) 23) (Z.shiftl (f_sign f) 31)).

Definition float_of_binary (b : Z) : IEEE754_float :=
  {| f_mantissa := Common.bitfield 23 b;
     f_e := Common.bitfield 8 (Z.shiftr b 23);
     f_sign := Common.bitfield 1 (Z.shiftr b 31) |}.

Definition float_value (f : IEEE754_float) : spec_float :=
  let s := f_sign f =? 1 in
  if f_e f =? 255 then
    if f_mantissa f =? 0 then S754_infinity s else S754_nan
  else if f_e f =? 0 then
    match f_mantissa f with
    | Zpos m => S754_finite s m (-149)
    | _ => S754_zero s
    end
  else
    match f_mantissa f + 2 ^ 23 with
    | Zpos m => S754_finite s m (f_e f - 150)
    | _ => S754_zero s
    end.

(** The three fields hold 23, 8 and 1 bits. *)
Definition float_fields (f : IEEE754_float) : Prop :=
  0 <= f_mantissa f < 2 ^ 23 /\ 0 <= f_e f < 2 ^ 8 /\ 0 <= f_sign f < 2.

End Float.

(** ** Scalars of the vector templates

    vec.h is generic in the component type [E]; the operators it uses are
    collected in a class, instantiated at [float] (what Main.cpp runs) and
    at the rationals (exact arithmetic, without rounding). *)
Class Scalar (E : Type) := {
  s_zero : E;
  s_one : E;
  s_add : E -> E -> E;
  s_mul : E -> E -> E;
  s_div : E -> E -> E;
  s_eqb : E -> E -> bool;
  s_of_uint : Z -> E
}.

#[export] Instance float_Scalar : Scalar spec_float := {|
  s_zero := Float.f_zero;
  s_one := Float.f32_one;
  s_add := Float.f32_add;
  s_mul := Float.f32_mul;
  s_div := Float.f32_div;
  s_eqb := SFeqb;
  s_of_uint := Float.f32_of_Z
|}.

#[export] Instance Qc_Scalar : Scalar Qc := {|
  s_zero := Q2Qc 0;
  s_one := Q2Qc 1;
  s_add := Qcplus;
  s_mul := Qcmult;
  s_div := Qcdiv;
  s_eqb := Qc_eq_bool;
  s_of_uint := fun z => Q2Qc (inject_Z z)
|}.

(** ** ieee754_2008.h: the 16-bit float codec *)
Module Ieee754.
Import Common Float.

(** [union IEEE754_half]: [mantissa:10], [e:5], [sign:1], with the
    enumerators [MANTISSA], [E_MIN], [E_MAX] and [E_NAN]. *)
Record IEEE754_half := { mantissa : Z; e : Z; sign : Z }.

Definition MANTISSA : Z := 10.
Definition E_MIN : Z := -14.
Definition E_MAX : Z := 15.
Definition E_NAN : Z := 31.

Definition binary (h : IEEE754_half) : Z :=
  Z.lor (mantissa h) (Z.lor (Z.shiftl (e h) 10) (Z.shiftl (sign h) 15)).

(** [convertToIEEE754<IEEE754_half>(float val)].  [frexp] and [ldexp] are
    exact here: the scaled value stays in the normal range of [float].  The
    result is [None] where the cast of the scaled value to [uint16_t] is
    undefined. *)
Definition convertToIEEE754 (val : spec_float) : option IEEE754_half :=
  let ret_sign := if SFltb val f_zero then 1 else 0 in
  let val := if ret_sign =? 1 then SFopp val else val in
  if negb (SFeqb val val) then
    let ones := to_ushort 0xFFFFFFFFFFFFFFFF in
    Some {| mantissa := bitfield 10 ones; e := bitfield 5 (to_ushort E_NAN); sign := ret_sign |}
  else if SFeqb val f_inf then
    Some {| mantissa := bitfield 10 0; e := bitfield 5 E_NAN; sign := ret_sign |}
  else if SFeqb val f_zero then
    Some {| mantissa := bitfield 10 0; e := bitfield 5 0; sign := ret_sign |}
  else
    let '(fr, e) := SFfrexp prec32 emax32 val in
    let exp := clamp e E_MIN E_MAX in
    let val := SFldexp prec32 emax32 fr
                 (MANTISSA + (if negb (exp =? E_MIN) then 1 else 0) + e - exp) in
    match static_cast_uint16 val with
    | Some m =>
        Some {| mantissa := bitfield 10 m; e := bitfield 5 (exp - E_MIN); sign := ret_sign |}
    | None => None
    end.

(** [convertToFloat(IEEE754_half val)]. *)
Definition convertToFloat (val : IEEE754_half) : spec_float :=
  if e val =? E_NAN then
    if negb (mantissa val =? 0) then S754_nan
    else if negb (sign val =? 0) then SFopp f_inf else f_inf
  else
    let ret :=
      if e val =? 0 then
        SFldexp prec32 emax32 (f32_of_Z (mantissa val)) (E_MIN - MANTISSA)
      else
        SFldexp prec32 emax32
          (f32_add (f32_of_Z (mantissa val)) (SFldexp prec32 emax32 f32_one MANTISSA))
          (e val + E_MIN - MANTISSA - 1) in
    if negb (sign val =? 0) then SFopp ret else ret.

(** [half_float(float f)] and [operator float()] of half_float.h. *)
Definition half_float (f : spec_float) : option IEEE754_half := convertToIEEE754 f.
Definition half_to_float (h : IEEE754_half) : spec_float := convertToFloat h.

End Ieee754.

(** ** TypeToken.h and VertexFormat.h *)
Module VertexFormat.
Import Common.

Inductive TypeToken :=
| TYPE_CHAR | TYPE_UCHAR | TYPE_SHORT | TYPE_USHORT
| TYPE_INT | TYPE_UINT | TYPE_HALF_FLOAT | TYPE_FLOAT.

Definition sizeof (t : TypeToken) : Z :=
  match t with
  | TYPE_CHAR | TYPE_UCHAR => 1
  | TYPE_SHORT | TYPE_USHORT | TYPE_HALF_FLOAT => 2
  | TYPE_INT | TYPE_UINT | TYPE_FLOAT => 4
  end.

(** [class AttribType]: [offset:6], [bpa:6], [numElements:3], [normalized:1]
    and the element type (which also selects the get/set pair). *)
Record AttribType := {
  offset : Z;
  bpa : Z;
  numElements : Z;
  normalized : bool;
  elementType : TypeToken
}.

Definition createAttribType (TYPE : TypeToken) (n_elem : Z) (norm : bool) (_offset : Z)
  : AttribType :=
  {| offset := bitfield 6 _offset;
     bpa := bitfield 6 (sizeof TYPE * n_elem);
     numElements := bitfield 3 n_elem;
     normalized := norm;
     elementType := TYPE |}.

(** [class VertexFormat]: the attribute list and [uchar bpv]. *)
Record VertexFormat := { attributes : list AttribType; bpv : Z }.

Definition VertexFormat_new : VertexFormat := {| attributes := []; bpv := 0 |}.

Definition addAttribute (TYPE : TypeToken) (n_elem : Z) (norm : bool) (fmt : VertexFormat)
  : VertexFormat :=
  let type := createAttribType TYPE n_elem norm (bpv fmt) in
  {| attributes := attributes fmt ++ [type];
     bpv := to_uchar (bpv fmt + bpa type) |}.

Definition getBytesPerVertex (fmt : VertexFormat) : Z := bpv fmt.

(** [class IndexFormat]: [uchar bpi] and the index type the get/set pair
    is instantiated at. *)
Record IndexFormat := { bpi : Z; index_type : TypeToken }.

Definition IndexFormat_new (vertex_count : Z) : IndexFormat :=
  if vertex_count <? uchar_max then {| bpi := 1; index_type := TYPE_UCHAR |}
  else if vertex_count <? ushort_max then {| bpi := 2; index_type := TYPE_USHORT |}
  else {| bpi := 4; index_type := TYPE_UINT |}.

(** [setIndex<TYPE>] stores [(TYPE)value]. *)
Definition setIndex (t : TypeToken) (value : Z) : Z :=
  match t with
  | TYPE_UCHAR => to_uchar value
  | TYPE_USHORT => to_ushort value
  | _ => to_uint value
  end.

End VertexFormat.

(** ** vec.h: the vector templates, and [interp] of common.h *)
Module Vec.

Record vec3 (E : Type) := make3 { vec3_x : E; vec3_y : E; vec3_z : E }.
Record vec4 (E : Type) := make4 { vec4_x : E; vec4_y : E; vec4_z : E; vec4_w : E }.
Arguments make3 {E} _ _ _.
Arguments vec3_x {E} _.
Arguments vec3_y {E} _.
Arguments vec3_z {E} _.
Arguments make4 {E} _ _ _ _.
Arguments vec4_x {E} _.
Arguments vec4_y {E} _.
Arguments vec4_z {E} _.
Arguments vec4_w {E} _.

Section Templates.
Context {E : Type} `{Scalar E}.

(** [operator[](int i)], reading and writing; only 0 to 3 are valid
    indices, any other one is treated as the last component. *)
Definition vec4_get (v : vec4 E) (i : Z) : E :=
  if i =? 0 then vec4_x v else if i =? 1 then vec4_y v
  else if i =? 2 then vec4_z v else vec4_w v.

Definition vec4_put (v : vec4 E) (i : Z) (a : E) : vec4 E :=
  if i =? 0 then make4 a (vec4_y v) (vec4_z v) (vec4_w v)
  else if i =? 1 then make4 (vec4_x v) a (vec4_z v) (vec4_w v)
  else if i =? 2 then make4 (vec4_x v) (vec4_y v) a (vec4_w v)
  else make4 (vec4_x v) (vec4_y v) (vec4_z v) a.

(** [vec4<E>::operator/=(E v)]. *)
Definition vec4_div (u : vec4 E) (v : E) : vec4 E :=
  make4 (s_div (vec4_x u) v) (s_div (vec4_y u) v) (s_div (vec4_z u) v) (s_div (vec4_w u) v).

(** [vec3<E>::operator*(E v)], [operator+(const vec3<E>&)], [operator/=(E v)] and [dot]. *)
Definition vec3_scale (u : vec3 E) (v : E) : vec3 E :=
  make3 (s_mul (vec3_x u) v) (s_mul (vec3_y u) v) (s_mul (vec3_z u) v).
Definition vec3_add (u v : vec3 E) : vec3 E :=
  make3 (s_add (vec3_x u) (vec3_x v)) (s_add (vec3_y u) (vec3_y v)) (s_add (vec3_z u) (vec3_z v)).
Definition vec3_div (u : vec3 E) (v : E) : vec3 E :=
  make3 (s_div (vec3_x u) v) (s_div (vec3_y u) v) (s_div (vec3_z u) v).
Definition dot3 (u v : vec3 E) : E :=
  s_add (s_add (s_mul (vec3_x u) (vec3_x v)) (s_mul (vec3_y u) (vec3_y v)))
        (s_mul (vec3_z u) (vec3_z v)).

End Templates.

Abbreviation float3 := (vec3 spec_float).
Abbreviation float4 := (vec4 spec_float).

(** [interp<float3, double>(a, b, f) = a*(Scalar(1)-f) + b*f]: the factors
    are computed in [double] and converted to [float] by [operator*]. *)
Definition interp (a b : float3) (f : spec_float) : float3 :=
  vec3_add (vec3_scale a (Float.f32_of_f64 (Float.f64_sub Float.f64_one f)))
           (vec3_scale b (Float.f32_of_f64 f)).

(** [normalize_m(v)]: [v /= length(v)] with [length(v) = sqrt((double)dot(v, v))]. *)
Definition length3 (v : float3) : spec_float :=
  SFsqrt Float.prec64 Float.emax64 (Float.f64_of_f32 (dot3 v v)).
Definition normalize_m (v : float3) : float3 :=
  vec3_div v (Float.f32_of_f64 (length3 v)).

End Vec.

(** ** The importer's scene graph

    The importer's headers are not part of the repository: the types below
    carry the fields Main.cpp reads, arrays with their element counts
    being lists, and [Has...()] being "the array is there and not empty". *)
Module Assimp.

Record aiVector3D := { vx : spec_float; vy : spec_float; vz : spec_float }.
Record aiQuaternion := { qw : spec_float; qx : spec_float; qy : spec_float; qz : spec_float }.

Record aiMatrix4x4 := {
  a1 : spec_float; a2 : spec_float; a3 : spec_float; a4 : spec_float;
  b1 : spec_float; b2 : spec_float; b3 : spec_float; b4 : spec_float;
  c1 : spec_float; c2 : spec_float; c3 : spec_float; c4 : spec_float;
  d1 : spec_float; d2 : spec_float; d3 : spec_float; d4 : spec_float
}.
Record aiMatrix3x3 := {
  m_a1 : spec_float; m_a2 : spec_float; m_a3 : spec_float;
  m_b1 : spec_float; m_b2 : spec_float; m_b3 : spec_float;
  m_c1 : spec_float; m_c2 : spec_float; m_c3 : spec_float
}.

(** The importer's own arithmetic, used but not defined by the repository:
    the 4x4 product and inverse, the matrix
    [aiMatrix3x3(t).Inverse().Transpose()] and [aiQuaternion::Interpolate]. *)
Class AssimpMath := {
  mat4_mul : aiMatrix4x4 -> aiMatrix4x4 -> aiMatrix4x4;
  mat4_inverse : aiMatrix4x4 -> aiMatrix4x4;
  mat3_inverse_transpose : aiMatrix4x4 -> aiMatrix3x3;
  Interpolate : aiQuaternion -> aiQuaternion -> spec_float -> aiQuaternion
}.

(** Key frames: [mTime] is a [double], the values are [float]s. *)
Record aiVectorKey := { vk_mTime : spec_float; vk_mValue : aiVector3D }.
Record aiQuatKey := { qk_mTime : spec_float; qk_mValue : aiQuaternion }.

Record aiNodeAnim := {
  mNodeName : string;
  mPositionKeys : list aiVectorKey;
  mRotationKeys : list aiQuatKey;
  mScalingKeys : list aiVectorKey
}.
Definition mNumPositionKeys (n : aiNodeAnim) : nat := length (mPositionKeys n).
Definition mNumRotationKeys (n : aiNodeAnim) : nat := length (mRotationKeys n).
Definition mNumScalingKeys (n : aiNodeAnim) : nat := length (mScalingKeys n).

Record aiAnimation := {
  anim_mName : string;
  mDuration : spec_float;
  mChannels : list aiNodeAnim
}.
Definition mNumChannels (a : aiAnimation) : Z := Z.of_nat (length (mChannels a)).

Record aiVertexWeight := { mVertexId : Z; mWeight : spec_float }.
Record aiBone := {
  bone_mName : string;
  mWeights : list aiVertexWeight;
  mOffsetMatrix : aiMatrix4x4
}.
Record aiFace := { mIndices : list Z }.

Record aiMesh := {
  mesh_mName : string;
  mPrimitiveTypes : Z;
  mVertices : list aiVector3D;
  mNormals : option (list aiVector3D);
  mTextureCoords0 : option (list aiVector3D);
  mFaces : list aiFace;
  mBones : list aiBone
}.
Definition aiPrimitiveType_TRIANGLE : Z := 4.
Definition mNumVertices (m : aiMesh) : Z := Z.of_nat (length (mVertices m)).
Definition mNumFaces (m : aiMesh) : Z := Z.of_nat (length (mFaces m)).
Definition mNumBones (m : aiMesh) : Z := Z.of_nat (length (mBones m)).
Definition HasPositions (m : aiMesh) : bool := 0 <? mNumVertices m.
Definition HasFaces (m : aiMesh) : bool := 0 <? mNumFaces m.
Definition HasNormals (m : aiMesh) : bool :=
  match mNormals m with Some _ => 0 <? mNumVertices m | None => false end.
Definition HasTextureCoords0 (m : aiMesh) : bool :=
  match mTextureCoords0 m with Some _ => 0 <? mNumVertices m | None => false end.
Definition HasBones (m : aiMesh) : bool := 0 <? mNumBones m.

Unset Elimination Schemes.
Inductive aiNode := Build_aiNode {
  mName : string;
  mTransformation : aiMatrix4x4;
  mMeshes : list Z;
  mChildren : list aiNode
}.
Set Elimination Schemes.
Definition mNumMeshes (n : aiNode) : Z := Z.of_nat (length (mMeshes n)).
Definition mNumChildren (n : aiNode) : Z := Z.of_nat (length (mChildren n)).

(** Induction on a node, the property being known for each of its children. *)
Fixpoint aiNode_children_ind (P : aiNode -> Prop)
    (step : forall n : aiNode, Forall P (mChildren n) -> P n) (n : aiNode) {struct n} : P n :=
  match n as n0 return (Forall P (mChildren n0) -> P n0) -> P n0 with
  | Build_aiNode nm t ms cs =>
      fun k =>
        k ((fix all (l : list aiNode) : Forall P l :=
              match l with
              | [] => @List.Forall_nil aiNode P
              | c :: rest => @List.Forall_cons aiNode P c rest (aiNode_children_ind P step c) (all rest)
              end) cs)
  end (step n).

(** The number of nodes below [n], and of the whole tree under [n]. *)
Fixpoint descendants (n : aiNode) : Z :=
  match n with
  | Build_aiNode _ _ _ cs => fold_right (fun c acc => 1 + descendants c + acc) 0 cs
  end.
Definition tree_size (n : aiNode) : Z := 1 + descendants n.

Record aiScene := {
  scene_mMeshes : list aiMesh;
  mRootNode : aiNode;
  mAnimations : list aiAnimation
}.
Definition mNumAnimations (s : aiScene) : Z := Z.of_nat (length (mAnimations s)).
Definition HasAnimations (s : aiScene) : bool := 0 <? mNumAnimations s.

End Assimp.

(** ** VertexFormat.h: [VertexBuffer] and [IndexBuffer]

    Main.cpp declares [float], non-normalized attributes only, whose
    bytes do not overlap, so a vertex is stored as one run of [float]
    cells per attribute (zero-filled by the constructor's [memset]).
    The cells are the block of the code for the vertices of the buffer
    and the attributes of such a format; the module [ByteBlock] has the
    block itself, addressed by the byte offsets the code computes.  Outside
    the buffer the code reads and writes past its block: here such a
    [get] reads an empty cell and such a [set] changes no cell.  Both
    buffers also keep a trace of the slots handed to [set], in call
    order, outside the buffer too; the trace is not program state, it is
    what the statements about visited slots are made of. *)
Module Buffers.
Import Common Vec VertexFormat.

(** [l[i]] for a signed index: nothing below 0 or past the end. *)
Definition lookupZ {A : Type} (l : list A) (i : Z) : option A :=
  if i <? 0 then None else l !! Z.to_nat i.

Definition updateZ {A : Type} (l : list A) (i : Z) (a : A) : list A :=
  if i <? 0 then l else <[Z.to_nat i := a]> l.

Record VertexBuffer := {
  vb_format : VertexFormat;
  vb_vertices : Z;
  vb_data : list (list (list spec_float));
  vb_trace : list (Z * Z)
}.

Definition VertexBuffer_new (fmt : VertexFormat) (vert : Z) : VertexBuffer :=
  {| vb_format := fmt;
     vb_vertices := vert;
     vb_data := replicate (Z.to_nat vert)
                  (map (fun a => replicate (Z.to_nat (numElements a)) Float.f_zero)
                       (attributes fmt));
     vb_trace := [] |}.

(** [VertexAttrib<float, n, false>::getAttrib] for the [n] stored cells. *)
Definition getAttrib (cell : list spec_float) : float4 :=
  match cell with
  | [a] => make4 a Float.f_zero Float.f_zero Float.f32_one
  | [a; b] => make4 a b Float.f_zero Float.f32_one
  | [a; b; c] => make4 a b c Float.f32_one
  | [a; b; c; d] => make4 a b c d
  | _ => make4 Float.f_zero Float.f_zero Float.f_zero Float.f32_one
  end.

(** [VertexAttrib<float, n, false>::setAttrib]: the first [n] components. *)
Definition setAttrib (n : nat) (val : float4) : list spec_float :=
  take n [vec4_x val; vec4_y val; vec4_z val; vec4_w val].

Definition vb_get (vb : VertexBuffer) (vertex attribute : Z) : float4 :=
  match lookupZ (vb_data vb) vertex with
  | Some attrs =>
      match lookupZ attrs attribute with
      | Some cell => getAttrib cell
      | None => getAttrib []
      end
  | None => getAttrib []
  end.

Definition vb_set (vb : VertexBuffer) (vertex attribute : Z) (value : float4) : VertexBuffer :=
  let data :=
    match lookupZ (vb_data vb) vertex with
    | Some attrs =>
        match lookupZ attrs attribute with
        | Some cell =>
            updateZ (vb_data vb) vertex (updateZ attrs attribute (setAttrib (length cell) value))
        | None => vb_data vb
        end
    | None => vb_data vb
    end in
  {| vb_format := vb_format vb;
     vb_vertices := vb_vertices vb;
     vb_data := data;
     vb_trace := vb_trace vb ++ [(vertex, attribute)] |}.

Definition vb_getVertexCount (vb : VertexBuffer) : Z := vb_vertices vb.
Definition vb_getSize (vb : VertexBuffer) : Z := bpv (vb_format vb) * vb_vertices vb.

Record IndexBuffer := {
  ib_format : IndexFormat;
  ib_indices : Z;
  ib_data : list Z;
  ib_trace : list Z
}.

Definition IndexBuffer_new (fmt : IndexFormat) (count : Z) : IndexBuffer :=
  {| ib_format := fmt; ib_indices := count;
     ib_data := replicate (Z.to_nat count) 0; ib_trace := [] |}.

Definition ib_set (ib : IndexBuffer) (i : Z) (value : Z) : IndexBuffer :=
  {| ib_format := ib_format ib;
     ib_indices := ib_indices ib;
     ib_data := updateZ (ib_data ib) i (setIndex (index_type (ib_format ib)) value);
     ib_trace := ib_trace ib ++ [i] |}.

Definition ib_get (ib : IndexBuffer) (i : Z) : Z :=
  match lookupZ (ib_data ib) i with Some v => v | None => 0 end.

Definition ib_getSize (ib : IndexBuffer) : Z := bpi (ib_format ib) * ib_indices ib.

End Buffers.

(** ** BBox.h: [BBox3D<double>], as far as Main.cpp uses it *)
Module BBox.
Import Float Vec.

Record BBox3D := { botLeft : vec3 spec_float; topRight : vec3 spec_float }.

(** [min<E>(a, b) = (a < b) ? a : b] and [max<E>(a, b) = (a > b) ? a : b]. *)
Definition min (a b : spec_float) : spec_float := if SFltb a b then a else b.
Definition max (a b : spec_float) : spec_float := if SFltb b a then a else b.

Definition MAX_VALUE : spec_float := SFmax_float prec64 emax64.
Definition MIN_VALUE : spec_float := SFopp MAX_VALUE.

Definition BBox3D_new : BBox3D :=
  {| botLeft := make3 MAX_VALUE MAX_VALUE MAX_VALUE;
     topRight := make3 MIN_VALUE MIN_VALUE MIN_VALUE |}.

(** [operator+=(const vec3<E>& v)]. *)
Definition add_point (b : BBox3D) (v : vec3 spec_float) : BBox3D :=
  {| botLeft := make3 (min (vec3_x (botLeft b)) (vec3_x v))
                      (min (vec3_y (botLeft b)) (vec3_y v))
                      (min (vec3_z (botLeft b)) (vec3_z v));
     topRight := make3 (max (vec3_x (topRight b)) (vec3_x v))
                       (max (vec3_y (topRight b)) (vec3_y v))
                       (max (vec3_z (topRight b)) (vec3_z v)) |}.

End BBox.

(** ** Main.cpp: the per-vertex bone slots

    The slot search and the weight normalisation only use the vector
    template and its scalar operators, so they are stated for any scalar
    type; Main.cpp runs them at [float]. *)
Module Skin.
Import Vec.

Section Slots.
Context {E : Type} `{Scalar E}.

(** [uchar minidx = 4;
     for (uchar c = 0; c < 4; c++) if (wt[c] == 0 || idx[c] == bidx) { minidx = c; break; }] *)
Definition slot_free (wt idx : vec4 E) (bidx : Z) (c : Z) : bool :=
  s_eqb (vec4_get wt c) s_zero || s_eqb (vec4_get idx c) (s_of_uint bidx).

Definition find_slot (wt idx : vec4 E) (bidx : Z) : Z :=
  if slot_free wt idx bidx 0 then 0
  else if slot_free wt idx bidx 1 then 1
  else if slot_free wt idx bidx 2 then 2
  else if slot_free wt idx bidx 3 then 3
  else 4.

(** One (bone, weight) contribution on the slots [(idx, wt)] of a vertex:
    [if (minidx >= 4) continue; idx[minidx] = (float)bidx; wt[minidx] = vw.mWeight;] *)
Definition add_weight (slots : vec4 E * vec4 E) (bidx : Z) (weight : E) : vec4 E * vec4 E :=
  let '(idx, wt) := slots in
  let minidx := find_slot wt idx bidx in
  if minidx >=? 4 then (idx, wt)
  else (vec4_put idx minidx (s_of_uint bidx), vec4_put wt minidx weight).

(** The slots of a vertex no bone has touched (the buffer is zero-filled). *)
Definition no_slots : vec4 E * vec4 E :=
  (make4 s_zero s_zero s_zero s_zero, make4 s_zero s_zero s_zero s_zero).

(** [wt.x + wt.y + wt.z + wt.w] and [wt /= (wt.x + wt.y + wt.z + wt.w)]. *)
Definition weight_sum (wt : vec4 E) : E :=
  s_add (s_add (s_add (vec4_x wt) (vec4_y wt)) (vec4_z wt)) (vec4_w wt).
Definition normalize_weights (wt : vec4 E) : vec4 E := vec4_div wt (weight_sum wt).

(** The post-pass on the slots of one vertex, [default_bone] being the id
    [getNodeBone] returns for the fallback bone. *)
Definition post_slots (default_bone : Z) (slots : vec4 E * vec4 E) : vec4 E * vec4 E :=
  let '(idx, wt) := slots in
  if s_eqb (vec4_x wt) s_zero then
    (make4 (s_of_uint default_bone) s_zero s_zero s_zero, make4 s_one s_zero s_zero s_zero)
  else (idx, normalize_weights wt).

End Slots.

(** A run of (bone id, weight) contributions to one vertex, at [float]. *)
Definition contribute (s : vec4 spec_float * vec4 spec_float) (bw : Z * spec_float)
  : vec4 spec_float * vec4 spec_float :=
  add_weight s (fst bw) (snd bw).

End Skin.

(** ** Main.cpp *)
Module Main.
Import Common Float Vec VertexFormat Buffers Assimp Skin.

(** [enum {POSITION = 0, NORMAL = 1, TEX_COORD = 2, BONE_IDX = 3, BONE_WEIGHT = 4}] *)
Definition POSITION : Z := 0.
Definition NORMAL : Z := 1.
Definition TEX_COORD : Z := 2.
Definition BONE_IDX : Z := 3.
Definition BONE_WEIGHT : Z := 4.

(** Slot [v] of the buffer has the two bone attributes, four cells each. *)
Definition skinned_slot (vb : VertexBuffer) (v : Z) : Prop :=
  exists attrs ci cw,
    lookupZ (vb_data vb) v = Some attrs
    /\ lookupZ attrs BONE_IDX = Some ci /\ length ci = 4%nat
    /\ lookupZ attrs BONE_WEIGHT = Some cw /\ length cw = 4%nat.

Record Bone := { id : Z; transform : aiMatrix4x4 }.
Record MeshSubset := { name : string; start : Z; end_ : Z }.

(** [int + unsigned]: computed at [unsigned], then converted back to [int]. *)
Definition uadd (a b : Z) : Z := to_int (to_uint (a + b)).

(** *** The counting pass: [getVertexCount]

    The state is the global [meshes] and the two counters passed by
    reference.  A mesh id outside [scene->mMeshes] is skipped by both passes. *)
Record CountState := { meshes : list MeshSubset; vcount : Z; icount : Z }.

Definition count_mesh (scene : aiScene) (st : CountState) (mesh_id : Z) : CountState :=
  match lookupZ (scene_mMeshes scene) mesh_id with
  | None => st
  | Some mesh =>
      if negb (mPrimitiveTypes mesh =? aiPrimitiveType_TRIANGLE)
         || negb (HasPositions mesh) || negb (HasFaces mesh)
      then st
      else
        {| meshes := meshes st ++
             [ {| name := mesh_mName mesh; start := icount st;
                  end_ := uadd (icount st) (to_uint (mNumFaces mesh * 3)) |} ];
           vcount := uadd (vcount st) (mNumVertices mesh);
           icount := uadd (icount st) (to_uint (mNumFaces mesh * 3)) |}
  end.

Fixpoint getVertexCount (scene : aiScene) (node : aiNode) (st : CountState) {struct node}
  : CountState :=
  let st := fold_left (count_mesh scene) (mMeshes node) st in
  fold_left (fun st child => getVertexCount scene child st) (mChildren node) st.

(** *** [mul], [getNodeBone] *)
Definition mul4 (t : aiMatrix4x4) (p : float4) : float4 :=
  let row a b c d :=
    f32_add (f32_add (f32_add (f32_mul a (vec4_x p)) (f32_mul b (vec4_y p)))
                     (f32_mul c (vec4_z p))) (f32_mul d (vec4_w p)) in
  make4 (row (a1 t) (a2 t) (a3 t) (a4 t)) (row (b1 t) (b2 t) (b3 t) (b4 t))
        (row (c1 t) (c2 t) (c3 t) (c4 t)) (row (d1 t) (d2 t) (d3 t) (d4 t)).

Definition mul3 (t : aiMatrix3x3) (p : float3) : float3 :=
  let row a b c :=
    f32_add (f32_add (f32_mul a (vec3_x p)) (f32_mul b (vec3_y p))) (f32_mul c (vec3_z p)) in
  make3 (row (m_a1 t) (m_a2 t) (m_a3 t)) (row (m_b1 t) (m_b2 t) (m_b3 t))
        (row (m_c1 t) (m_c2 t) (m_c3 t)).

Section Generate.
Context `{AssimpMath}.

(** Returns the bone id, the bone table and the next free id. *)
Definition getNodeBone (bones : gmap string Bone) (index : Z) (nm : string) (t : aiMatrix4x4)
  : Z * gmap string Bone * Z :=
  match bones !! nm with
  | None =>
      let bidx := to_uint index in
      (bidx, <[nm := {| id := bidx; transform := mat4_inverse t |}]> bones, to_int (index + 1))
  | Some b => (id b, bones, index)
  end.

(** *** The emission pass: [loadMesh] and [generateMesh] *)
Record GenState := {
  vertices : VertexBuffer;
  indices : IndexBuffer;
  index : Z;
  voff : Z;
  ioff : Z;
  bounds : BBox.BBox3D;
  bones : gmap string Bone
}.

Definition with_vertices (st : GenState) (vs : VertexBuffer) : GenState :=
  {| vertices := vs; indices := indices st; index := index st; voff := voff st;
     ioff := ioff st; bounds := bounds st; bones := bones st |}.
Definition with_indices (st : GenState) (ib : IndexBuffer) : GenState :=
  {| vertices := vertices st; indices := ib; index := index st; voff := voff st;
     ioff := ioff st; bounds := bounds st; bones := bones st |}.
Definition with_bounds (st : GenState) (b : BBox.BBox3D) : GenState :=
  {| vertices := vertices st; indices := indices st; index := index st; voff := voff st;
     ioff := ioff st; bounds := b; bones := bones st |}.
Definition with_bones (st : GenState) (bs : gmap string Bone) (ix : Z) : GenState :=
  {| vertices := vertices st; indices := indices st; index := ix; voff := voff st;
     ioff := ioff st; bounds := bounds st; bones := bs |}.
Definition with_offsets (st : GenState) (vo io : Z) : GenState :=
  {| vertices := vertices st; indices := indices st; index := index st; voff := vo;
     ioff := io; bounds := bounds st; bones := bones st |}.

Definition zero3 : aiVector3D := {| vx := f_zero; vy := f_zero; vz := f_zero |}.

(** Lines 81-91: the body of the loop over the vertices of the mesh. *)
Definition load_vertex (mesh : aiMesh) (t : aiMatrix4x4) (normalMat : aiMatrix3x3)
    (st : GenState) (i : Z) : GenState :=
  let v := nth (Z.to_nat i) (mVertices mesh) zero3 in
  let pos := make4 (vx v) (vy v) (vz v) f32_one in
  let bpos := mul4 t pos in
  let st := with_bounds st
    (BBox.add_point (bounds st)
       (make3 (f64_of_f32 (vec4_x bpos)) (f64_of_f32 (vec4_y bpos)) (f64_of_f32 (vec4_z bpos)))) in
  let st := with_vertices st
    (vb_set (vertices st) (uadd (voff st) i) POSITION
       (make4 (vec4_x bpos) (vec4_y bpos) (vec4_z bpos) f32_one)) in
  let st :=
    if HasNormals mesh then
      let v := nth (Z.to_nat i) (default [] (mNormals mesh)) zero3 in
      let norm := normalize_m (mul3 normalMat (make3 (vx v) (vy v) (vz v))) in
      with_vertices st
        (vb_set (vertices st) (uadd (voff st) i) NORMAL
           (make4 (vec3_x norm) (vec3_y norm) (vec3_z norm) f32_one))
    else st in
  if HasTextureCoords0 mesh then
    let v := nth (Z.to_nat i) (default [] (mTextureCoords0 mesh)) zero3 in
    with_vertices st
      (vb_set (vertices st) (uadd (voff st) i) TEX_COORD (make4 (vx v) (vy v) (vz v) f32_one))
  else st.

(** Lines 93-95: the three indices of face [f]. *)
Definition load_face (mesh : aiMesh) (st : GenState) (f : Z) : GenState :=
  let face := nth (Z.to_nat f) (mFaces mesh) {| mIndices := [] |} in
  fold_left
    (fun st i =>
       with_indices st
         (ib_set (indices st) (to_int (to_uint (ioff st + to_uint (f * 3) + i)))
            (to_uint (nth (Z.to_nat i) (mIndices face) 0 + voff st))))
    (seqZ 0 3) st.

(** Lines 107-117: one vertex weight of a bone whose id is [bidx]. *)
Definition load_weight (bidx : Z) (st : GenState) (vw : aiVertexWeight) : GenState :=
  let v := uadd (voff st) (mVertexId vw) in
  let idx := vb_get (vertices st) v BONE_IDX in
  let wt := vb_get (vertices st) v BONE_WEIGHT in
  let minidx := find_slot wt idx bidx in
  if minidx >=? 4 then st
  else
    let idx := vec4_put idx minidx (f32_of_Z bidx) in
    let wt := vec4_put wt minidx (mWeight vw) in
    with_vertices st (vb_set (vb_set (vertices st) v BONE_IDX idx) v BONE_WEIGHT wt).

(** Lines 99-117: one bone of the mesh. *)
Definition load_bone (t : aiMatrix4x4) (st : GenState) (bone : aiBone) : GenState :=
  let '(bidx, st) :=
    match bones st !! bone_mName bone with
    | None =>
        let bidx := to_uint (index st) in
        (bidx,
         with_bones st
           (<[bone_mName bone :=
                {| id := bidx; transform := mat4_mul (mOffsetMatrix bone) (mat4_inverse t) |}]>
              (bones st))
           (to_int (index st + 1)))
    | Some b => (id b, st)
    end in
  fold_left (load_weight bidx) (mWeights bone) st.

(** Lines 118-128: the post-pass on vertex [i] of the mesh. *)
Definition post_vertex (nm : string) (t : aiMatrix4x4) (st : GenState) (i : Z) : GenState :=
  let v := uadd (voff st) i in
  let wt := vb_get (vertices st) v BONE_WEIGHT in
  if SFeqb (vec4_x wt) f_zero then
    let '(default_bone, bs, ix) := getNodeBone (bones st) (index st) (String.append nm "_auto") t in
    let wt := make4 f32_one (vec4_y wt) (vec4_z wt) (vec4_w wt) in
    let vs := vb_set (vertices st) v BONE_WEIGHT wt in
    let vs := vb_set vs v BONE_IDX (make4 (f32_of_Z default_bone) f_zero f_zero f_zero) in
    let vs := vb_set vs v BONE_WEIGHT (make4 f32_one f_zero f_zero f_zero) in
    with_vertices (with_bones st bs ix) vs
  else
    with_vertices st (vb_set (vertices st) v BONE_WEIGHT (normalize_weights wt)).

(** Lines 130-134: a mesh without bones is bound to the fallback bone. *)
Definition default_vertex (default_bone : Z) (st : GenState) (i : Z) : GenState :=
  let v := uadd (voff st) i in
  let vs := vb_set (vertices st) v BONE_IDX
              (make4 (f32_of_Z default_bone) f_zero f_zero f_zero) in
  with_vertices st (vb_set vs v BONE_WEIGHT (make4 f32_one f_zero f_zero f_zero)).

Definition loadMesh (scene : aiScene) (mesh_id : Z) (nm : string) (t : aiMatrix4x4)
    (st : GenState) : bool * GenState :=
  match lookupZ (scene_mMeshes scene) mesh_id with
  | None => (false, st)
  | Some mesh =>
      if negb (mPrimitiveTypes mesh =? aiPrimitiveType_TRIANGLE)
         || negb (HasPositions mesh) || negb (HasFaces mesh)
      then (false, st)
      else
        let normalMat := mat3_inverse_transpose t in
        let st := fold_left (load_vertex mesh t normalMat) (seqZ 0 (mNumVertices mesh)) st in
        let nFaces := mNumFaces mesh in
        let st := fold_left (load_face mesh) (seqZ 0 nFaces) st in
        let st :=
          if HasAnimations scene then
            if HasBones mesh then
              let st := fold_left (load_bone t) (mBones mesh) st in
              fold_left (post_vertex nm t) (seqZ 0 (mNumVertices mesh)) st
            else
              let '(default_bone, bs, ix) :=
                getNodeBone (bones st) (index st) (String.append nm "_auto") t in
              fold_left (default_vertex default_bone) (seqZ 0 (mNumVertices mesh))
                (with_bones st bs ix)
          else st in
        (true, with_offsets st (uadd (voff st) (mNumVertices mesh))
                 (uadd (ioff st) (to_uint (nFaces * 3))))
  end.

Fixpoint generateMesh (scene : aiScene) (node : aiNode) (t : aiMatrix4x4) (st : GenState)
    {struct node} : GenState :=
  let mat := mat4_mul t (mTransformation node) in
  let st := fold_left (fun st mesh_id => snd (loadMesh scene mesh_id (mName node) mat st))
              (mMeshes node) st in
  fold_left (fun st child => generateMesh scene child mat st) (mChildren node) st.

End Generate.

(** *** The scene flattener: [loadTree]

    [nodes] is the vector of (node, child-block start) pairs; a slot that
    [resize] created and nothing filled holds [(NULL, 0)]. *)
Record TreeState := {
  nodes : list (option aiNode * Z);
  tree_index : Z;
  node_map : gmap string Z
}.

(** [if (nodes.size() <= cur) nodes.resize(cur + 1); nodes[cur] = p;] *)
Definition nodes_put (ns : list (option aiNode * Z)) (cur : Z) (p : option aiNode * Z)
  : list (option aiNode * Z) :=
  let ns :=
    if Z.of_nat (length ns) <=? cur
    then ns ++ replicate (Z.to_nat (cur + 1) - length ns)%nat (None, 0)
    else ns in
  updateZ ns cur p.

(** The loop over the children: child [i] goes to slot [childIdx + i]. *)
Fixpoint loadChildren (rec : aiNode -> Z -> TreeState -> TreeState * option aiNode)
    (childIdx : Z) (children : list aiNode) (i : Z) (acc : TreeState * option aiNode)
    {struct children} : TreeState * option aiNode :=
  match children with
  | [] => acc
  | child :: rest =>
      let '(st, ret) := acc in
      let '(st, r) := rec child (uadd childIdx i) st in
      loadChildren rec childIdx rest (i + 1)
        (st, match ret with None => r | Some _ => ret end)
  end.

Fixpoint loadTree (node : aiNode) (cur : Z) (st : TreeState) {struct node}
  : TreeState * option aiNode :=
  let len := to_int (mNumChildren node) in
  let childIdx := tree_index st in
  let index := to_int (tree_index st + len) in
  let nm :=
    if (mNumMeshes node =? 0) && bool_decide (node_map st !! mName node = None)
    then <[mName node := cur]> (node_map st)
    else node_map st in
  let ns := nodes_put (nodes st) cur (Some node, childIdx) in
  loadChildren (fun child c s => loadTree child c s) childIdx (mChildren node) 0
    ({| nodes := ns; tree_index := index; node_map := nm |}, None).

(** The flattened array [loadScene] builds, and its entry at slot [j]:
    the node there and the start of its child block. *)
Definition flatten (root : aiNode) : list (option aiNode * Z) :=
  nodes (fst (loadTree root 0 {| nodes := []; tree_index := 1; node_map := ∅ |})).

Definition node_at (ns : list (option aiNode * Z)) (j : Z) : option (aiNode * Z) :=
  match lookupZ ns j with
  | Some (Some n, c) => Some (n, c)
  | _ => None
  end.

(** What a call of [loadTree] on [node] at slot [cur] establishes, from
    state [st] to state [st']: the index advances by the number of
    descendants, slot [cur] holds the node with the old index as its child
    block, slots outside [cur] and the new index range are untouched, every
    slot written holds an entry whose child block lies inside the new
    range and after the slot, and the child blocks of the slots written do
    not overlap. *)
Definition entry_ok (ns : list (option aiNode * Z)) (lo hi j : Z) : Prop :=
  exists n c, node_at ns j = Some (n, c) /\ j < c /\ lo <= c /\ c + mNumChildren n <= hi.

Definition blocks_apart (ns : list (option aiNode * Z)) (W : Z -> Prop) : Prop :=
  forall j1 j2 n1 c1 n2 c2, W j1 -> W j2 -> j1 <> j2 ->
    node_at ns j1 = Some (n1, c1) -> node_at ns j2 = Some (n2, c2) ->
    c1 + mNumChildren n1 <= c2 \/ c2 + mNumChildren n2 <= c1.

Definition tree_post (node : aiNode) (cur : Z) (st st' : TreeState) : Prop :=
  tree_index st' = tree_index st + descendants node
  /\ node_at (nodes st') cur = Some (node, tree_index st)
  /\ (forall j, j <> cur -> ~ (tree_index st <= j < tree_index st') ->
        node_at (nodes st') j = node_at (nodes st) j)
  /\ (forall j, j = cur \/ tree_index st <= j < tree_index st' ->
        entry_ok (nodes st') (tree_index st) (tree_index st') j)
  /\ blocks_apart (nodes st') (fun j => j = cur \/ tree_index st <= j < tree_index st').

Definition tree_spec (node : aiNode) : Prop :=
  forall cur st, 0 <= cur < tree_index st -> tree_index st + descendants node < 2 ^ 31 ->
    tree_post node cur st (fst (loadTree node cur st)).

(** The same for the loop over the children, child [i] onwards. *)
Definition sum_desc (cs : list aiNode) : Z :=
  fold_right (fun c acc => descendants c + acc) 0 cs.

Definition children_post (childIdx i : Z) (children : list aiNode) (st st' : TreeState) : Prop :=
  let lo := childIdx + i in
  let hi := lo + Z.of_nat (length children) in
  tree_index st' = tree_index st + sum_desc children
  /\ (forall j, ~ (lo <= j < hi) -> ~ (tree_index st <= j < tree_index st') ->
        node_at (nodes st') j = node_at (nodes st) j)
  /\ (forall j, lo <= j < hi \/ tree_index st <= j < tree_index st' ->
        entry_ok (nodes st') (tree_index st) (tree_index st') j)
  /\ blocks_apart (nodes st') (fun j => lo <= j < hi \/ tree_index st <= j < tree_index st').


(** *** The output stream

    [file] is the sequence of items written so far, one item per
    [file.write]. *)
Inductive item :=
| Byte (c : Z)
| Short (s : Z)
| Int (i : Z)
| FloatItem (f : spec_float)
| Chars (s : string)
| VertexBytes (vb : VertexBuffer) (size : Z)
| IndexBytes (ib : IndexBuffer) (size : Z).

Definition writeByte (file : list item) (f : Z) : list item := file ++ [Byte (to_uchar f)].
Definition writeShort (file : list item) (f : Z) : list item := file ++ [Short (to_short f)].
Definition writeInt (file : list item) (f : Z) : list item := file ++ [Int (to_int f)].
Definition writeFloat (file : list item) (f : spec_float) : list item := file ++ [FloatItem f].
Definition writeUTF (file : list item) (s : string) : list item :=
  let len := to_ushort (Z.of_nat (String.length s)) in
  writeShort file len ++ [Chars s].

(** *** Key-frame compression: [equalsFuzzy], [writeVectorArray], [writeQuatArray] *)

(** [abs<float>(a) = (a < 0) ? -a : a]. *)
Definition abs (a : spec_float) : spec_float := if SFltb a f_zero then SFopp a else a.

Definition equalsFuzzy3 (a b : float3) (d : spec_float) : bool :=
  SFltb (abs (f32_sub (vec3_x a) (vec3_x b))) d
  && SFltb (abs (f32_sub (vec3_y a) (vec3_y b))) d
  && SFltb (abs (f32_sub (vec3_z a) (vec3_z b))) d.

Definition equalsFuzzyQ (a b : aiQuaternion) (d : spec_float) : bool :=
  SFltb (abs (f32_sub (qx a) (qx b))) d
  && SFltb (abs (f32_sub (qy a) (qy b))) d
  && SFltb (abs (f32_sub (qz a) (qz b))) d
  && SFltb (abs (f32_sub (qw a) (qw b))) d.

Definition vkey (keys : list aiVectorKey) (i : Z) : aiVectorKey :=
  nth (Z.to_nat i) keys {| vk_mTime := f_zero; vk_mValue := zero3 |}.
Definition qkey (keys : list aiQuatKey) (i : Z) : aiQuatKey :=
  nth (Z.to_nat i) keys
    {| qk_mTime := f_zero; qk_mValue := {| qw := f_zero; qx := f_zero; qy := f_zero; qz := f_zero |} |}.
Definition value3 (k : aiVectorKey) : float3 :=
  make3 (vx (vk_mValue k)) (vy (vk_mValue k)) (vz (vk_mValue k)).

(** The body of the first loop of [writeVectorArray], on the vector [ar]
    of retained indices. *)
Definition vector_step (keys : list aiVectorKey) (count : Z) (ar : list Z) (i : Z) : list Z :=
  let k := vkey keys i in
  if (i >? 0) && (i <? to_uint (count - 1)) then
    let from := value3 (vkey keys (i - 1)) in
    let to := value3 (vkey keys (i + 1)) in
    if equalsFuzzy3
         (interp from to
            (f64_div (f64_sub (vk_mTime k) (vk_mTime (vkey keys (i - 1))))
                     (f64_sub (vk_mTime (vkey keys (i + 1))) (vk_mTime (vkey keys (i - 1))))))
         (value3 k) f_0_00001
    then ar
    else ar ++ [i]
  else if (i =? to_uint (count - 1)) && (i >? 0)
          && equalsFuzzy3 (value3 (vkey keys (i - 1))) (value3 k) f_0_00001
  then ar
  else ar ++ [i].

(** [ar] after the iterations [0] to [n - 1] of that loop, and at its end. *)
Definition vector_ar_upto (keys : list aiVectorKey) (n : Z) : list Z :=
  fold_left (vector_step keys (Z.of_nat (length keys))) (seqZ 0 n) [].

Definition vector_ar (keys : list aiVectorKey) : list Z :=
  vector_ar_upto keys (Z.of_nat (length keys)).

Definition writeVectorArray (file : list item) (keys : list aiVectorKey) : list item :=
  let ar := vector_ar keys in
  fold_left
    (fun file i =>
       let k := vkey keys i in
       writeFloat (writeFloat (writeFloat (writeFloat file (f32_of_f64 (vk_mTime k)))
                     (vx (vk_mValue k))) (vy (vk_mValue k))) (vz (vk_mValue k)))
    ar (writeInt file (Z.of_nat (length ar) * 4)).

(** The neighbour rule as the specification words it for both kinds of
    track, written out for a vector track: an interior sample is tested
    against the interpolation between the last retained sample,
    [keys[ar[ar.size() - 1]]], and the raw next sample.  It differs from
    [vector_step] in that one place. *)
Definition retained_prev_step (keys : list aiVectorKey) (count : Z) (ar : list Z) (i : Z)
  : list Z :=
  let k := vkey keys i in
  if (i >? 0) && (i <? to_uint (count - 1)) then
    let prev := vkey keys (List.last ar 0) in
    let from := value3 prev in
    let to := value3 (vkey keys (i + 1)) in
    if equalsFuzzy3
         (interp from to
            (f64_div (f64_sub (vk_mTime k) (vk_mTime prev))
                     (f64_sub (vk_mTime (vkey keys (i + 1))) (vk_mTime prev))))
         (value3 k) f_0_00001
    then ar
    else ar ++ [i]
  else if (i =? to_uint (count - 1)) && (i >? 0)
          && equalsFuzzy3 (value3 (vkey keys (i - 1))) (value3 k) f_0_00001
  then ar
  else ar ++ [i].

Definition retained_prev_ar (keys : list aiVectorKey) : list Z :=
  fold_left (retained_prev_step keys (Z.of_nat (length keys)))
    (seqZ 0 (Z.of_nat (length keys))) [].

Section Emit.
Context `{AssimpMath}.

(** The body of the first loop of [writeQuatArray]; [last ar] is
    [ar[ar.size() - 1]]. *)
Definition quat_step (keys : list aiQuatKey) (count : Z) (ar : list Z) (i : Z) : list Z :=
  let k := qkey keys i in
  if (i >? 0) && (i <? to_uint (count - 1)) then
    let prev := qkey keys (List.last ar 0) in
    let from := qk_mValue prev in
    let to := qk_mValue (qkey keys (i + 1)) in
    let est :=
      Interpolate from to
        (f32_of_f64
           (f64_div (f64_sub (qk_mTime k) (qk_mTime prev))
                    (f64_sub (qk_mTime (qkey keys (i + 1))) (qk_mTime prev)))) in
    if equalsFuzzyQ est (qk_mValue k) f_0_00001 then ar else ar ++ [i]
  else if (i =? to_uint (count - 1)) && (i >? 0)
          && equalsFuzzyQ (qk_mValue (qkey keys (List.last ar 0))) (qk_mValue k) f_0_00001
  then ar
  else ar ++ [i].

Definition quat_ar_upto (keys : list aiQuatKey) (n : Z) : list Z :=
  fold_left (quat_step keys (Z.of_nat (length keys))) (seqZ 0 n) [].

Definition quat_ar (keys : list aiQuatKey) : list Z :=
  quat_ar_upto keys (Z.of_nat (length keys)).

Definition writeQuatArray (file : list item) (keys : list aiQuatKey) : list item :=
  let ar := quat_ar keys in
  fold_left
    (fun file i =>
       let k := qkey keys i in
       writeFloat (writeFloat (writeFloat (writeFloat (writeFloat file
         (f32_of_f64 (qk_mTime k))) (qw (qk_mValue k))) (qx (qk_mValue k)))
         (qy (qk_mValue k))) (qz (qk_mValue k)))
    ar (writeInt file (Z.of_nat (length ar) * 5)).

(** *** [loadAnimation]; [NO_SCALE] is the global flag. *)
Definition load_channel (NO_SCALE : bool) (nmap : gmap string Z) (file : list item)
    (n : aiNodeAnim) : list item :=
  match nmap !! mNodeName n with
  | None => file
  | Some second =>
      let file := writeShort file second in
      let file := writeVectorArray file (mPositionKeys n) in
      let file := writeQuatArray file (mRotationKeys n) in
      if NO_SCALE then
        writeFloat (writeFloat (writeFloat (writeFloat (writeInt file 4) f_zero) f32_one)
                      f32_one) f32_one
      else writeVectorArray file (mScalingKeys n)
  end.

Definition loadAnimation (NO_SCALE : bool) (file : list item) (anim : aiAnimation)
    (nmap : gmap string Z) : list item :=
  let file := writeUTF file (anim_mName anim) in
  let file := writeFloat file (f32_of_f64 (mDuration anim)) in
  let file := writeInt file (mNumChannels anim) in
  fold_left (load_channel NO_SCALE nmap) (mChannels anim) file.

(** The per-channel records [loadAnimation] writes after the header: one
    for each channel whose node name is in the map, in channel order. *)
Definition channel_records (NO_SCALE : bool) (nmap : gmap string Z) (anim : aiAnimation)
  : list (list item) :=
  omap (fun n =>
          match nmap !! mNodeName n with
          | Some _ => Some (load_channel NO_SCALE nmap [] n)
          | None => None
          end)
       (mChannels anim).

(** The header of an animation block: name, duration, [channelCount]. *)
Definition animation_header (anim : aiAnimation) : list item :=
  writeInt (writeFloat (writeUTF [] (anim_mName anim)) (f32_of_f64 (mDuration anim)))
           (mNumChannels anim).

(** *** [writeMat4] and [loadScene] *)
Definition writeMat4 (file : list item) (m : aiMatrix4x4) : list item :=
  fold_left writeFloat
    [a1 m; a2 m; a3 m; a4 m; b1 m; b2 m; b3 m; b4 m;
     c1 m; c2 m; c3 m; c4 m; d1 m; d2 m; d3 m; d4 m] file.

(** [short nAnim = scene->HasAnimations() ? (short)scene->mNumAnimations : 0] *)
Definition nAnim (scene : aiScene) : Z :=
  if HasAnimations scene then to_short (mNumAnimations scene) else 0.

(** Lines 224-227: the vertex format [loadScene] declares. *)
Definition scene_format (scene : aiScene) : VertexFormat :=
  let format := addAttribute TYPE_FLOAT 3 false VertexFormat_new in
  let format := addAttribute TYPE_FLOAT 3 false format in
  let format := addAttribute TYPE_FLOAT 2 false format in
  if nAnim scene >? 0
  then addAttribute TYPE_FLOAT 4 false (addAttribute TYPE_FLOAT 4 false format)
  else format.

(** [aiMatrix4x4 identity(1,0,0,0, 0,0,-1,0, 0,1,0,0, 0,0,0,1)] *)
Definition identity : aiMatrix4x4 :=
  let o := f_zero in
  let l := f32_one in
  {| a1 := l; a2 := o; a3 := o; a4 := o;
     b1 := o; b2 := o; b3 := SFopp l; b4 := o;
     c1 := o; c2 := l; c3 := o; c4 := o;
     d1 := o; d2 := o; d3 := o; d4 := l |}.

(** Lines 222-230: the counting pass, the two buffers allocated from its
    totals, and the emission pass over them. *)
Definition scene_counts (scene : aiScene) : CountState :=
  getVertexCount scene (mRootNode scene) {| meshes := []; vcount := 0; icount := 0 |}.

Definition scene_start (scene : aiScene) : GenState :=
  let cs := scene_counts scene in
  {| vertices := VertexBuffer_new (scene_format scene) (vcount cs);
     indices := IndexBuffer_new (IndexFormat_new (vcount cs)) (icount cs);
     index := 0; voff := 0; ioff := 0;
     bounds := BBox.BBox3D_new; bones := ∅ |}.

Definition scene_generate (scene : aiScene) : GenState :=
  generateMesh scene (mRootNode scene) identity (scene_start scene).

(** Lines 244-252: one entry of the skeleton table. *)
Definition write_node (bs : gmap string Bone) (file : list item)
    (jp : Z * (option aiNode * Z)) : list item :=
  let '(j, p) := jp in
  match fst p with
  | None => file
  | Some node =>
      let file := writeByte file (mNumChildren node) in
      let file := if mNumChildren node >? 0 then writeShort file (snd p) else file in
      let file :=
        if j =? 0 then writeMat4 file (mat4_mul identity (mTransformation node))
        else writeMat4 file (mTransformation node) in
      match bs !! (if mNumMeshes node =? 0 then mName node else String.append (mName node) "_auto") with
      | Some b => writeMat4 (writeShort file (id b)) (transform b)
      | None => writeShort file (-1)
      end
  end.

Definition loadScene (NO_SCALE WRITE_MESHES : bool) (file : list item) (scene : aiScene)
  : list item :=
  let cs := scene_counts scene in
  let st := scene_generate scene in
  let file := writeShort (writeInt (writeInt file (vcount cs)) (icount cs)) (nAnim scene) in
  let file := file ++ [VertexBytes (vertices st) (vb_getSize (vertices st))] in
  let file := file ++ [IndexBytes (indices st) (ib_getSize (indices st))] in
  let bl := BBox.botLeft (bounds st) in
  let tr := BBox.topRight (bounds st) in
  let file :=
    fold_left (fun file d => writeFloat file (f32_of_f64 d))
      [vec3_x bl; vec3_y bl; vec3_z bl; vec3_x tr; vec3_y tr; vec3_z tr] file in
  let file :=
    if nAnim scene >? 0 then
      let ts := fst (loadTree (mRootNode scene) 0
                       {| nodes := []; tree_index := 1; node_map := ∅ |}) in
      let file :=
        fold_left (fun file anim => loadAnimation NO_SCALE file anim (node_map ts))
          (take (Z.to_nat (nAnim scene)) (mAnimations scene)) file in
      let len := to_int (Z.of_nat (length (nodes ts))) in
      fold_left (write_node (bones st)) (zip (seqZ 0 len) (nodes ts)) (writeShort file len)
    else file in
  if WRITE_MESHES then
    let nMesh := to_int (Z.of_nat (length (meshes cs))) in
    fold_left
      (fun file m => writeInt (writeInt (writeUTF file (name m)) (start m)) (end_ m))
      (take (Z.to_nat nMesh) (meshes cs)) (writeShort file nMesh)
  else file.

End Emit.
End Main.

(** ** The two passes side by side

    Predicates about [getVertexCount] and [generateMesh] that the theorems
    on the buffers are stated with. *)
Module Passes.
Import Common Float Vec VertexFormat Buffers Assimp Skin Main.

(** The test both passes open with (lines 40 and 78): a mesh that is not
    made of triangles only, or has no positions, or has no faces. *)
Definition skipped (mesh : aiMesh) : bool :=
  negb (mPrimitiveTypes mesh =? aiPrimitiveType_TRIANGLE)
  || negb (HasPositions mesh) || negb (HasFaces mesh).

(** The vertex slots of the position writes of a trace, in order. *)
Definition position_slots (tr : list (Z * Z)) : list Z :=
  omap (fun p => if snd p =? POSITION then Some (fst p) else None) tr.

(** The [mVertexId] of every weight of every bone of a mesh. *)
Definition mesh_vertex_ids (mesh : aiMesh) : list Z :=
  concat (map (fun b => map mVertexId (mWeights b)) (mBones mesh)).

(** The importer's invariant on bone weights: a weight names a vertex of
    its mesh. *)
Definition weights_in_range (scene : aiScene) : Prop :=
  Forall (fun mesh => Forall (fun k => 0 <= k < mNumVertices mesh) (mesh_vertex_ids mesh))
         (scene_mMeshes scene).

(** The totals as plain sums, without wrap-around: vertices and indices
    of the meshes that are not skipped, in traversal order. *)
Definition mesh_totals (scene : aiScene) (acc : Z * Z) (mesh_id : Z) : Z * Z :=
  match lookupZ (scene_mMeshes scene) mesh_id with
  | Some mesh =>
      if skipped mesh then acc
      else (fst acc + mNumVertices mesh, snd acc + mNumFaces mesh * 3)
  | None => acc
  end.

Fixpoint node_totals (scene : aiScene) (node : aiNode) (acc : Z * Z) {struct node} : Z * Z :=
  let acc := fold_left (mesh_totals scene) (mMeshes node) acc in
  fold_left (fun acc child => node_totals scene child acc) (mChildren node) acc.

Definition scene_totals (scene : aiScene) : Z * Z :=
  node_totals scene (mRootNode scene) (0, 0).

(** What the phases of [loadMesh] after the vertex and face loops do to
    the state: offsets and index buffer untouched, and the vertex trace
    extended by entries that satisfy [P], none of them a position write. *)
Definition grows (P : Z * Z -> Prop) (st st' : GenState) : Prop :=
  voff st' = voff st /\ ioff st' = ioff st /\ indices st' = indices st
  /\ vb_vertices (vertices st') = vb_vertices (vertices st)
  /\ exists ext, vb_trace (vertices st') = vb_trace (vertices st) ++ ext
                 /\ Forall P ext /\ position_slots ext = [].

(** A trace entry of a mesh loaded at offset [o]: its slot is [o + k] for
    a vertex number [k] of the mesh or the [mVertexId] of one of its
    weights. *)
Definition touches (mesh : aiMesh) (o : Z) (p : Z * Z) : Prop :=
  exists k, fst p = uadd o k /\ (0 <= k < mNumVertices mesh \/ In k (mesh_vertex_ids mesh)).

(** The trace of one round of the vertex loop (lines 81-92), and the
    index slots of one face (line 95). *)
Definition vertex_entries (mesh : aiMesh) (o i : Z) : list (Z * Z) :=
  [(uadd o i, POSITION)]
  ++ (if HasNormals mesh then [(uadd o i, NORMAL)] else [])
  ++ (if HasTextureCoords0 mesh then [(uadd o i, TEX_COORD)] else []).

Definition face_slots (io f : Z) : list Z :=
  map (fun i => to_int (to_uint (io + to_uint (f * 3) + i))) (seqZ 0 3).

(** What [loadMesh] does to the state for a mesh it does not skip. *)
Definition mesh_loaded (mesh : aiMesh) (st st' : GenState) : Prop :=
  voff st' = uadd (voff st) (mNumVertices mesh)
  /\ ioff st' = uadd (ioff st) (to_uint (mNumFaces mesh * 3))
  /\ vb_vertices (vertices st') = vb_vertices (vertices st)
  /\ ib_indices (indices st') = ib_indices (indices st)
  /\ (exists ext,
        vb_trace (vertices st') = vb_trace (vertices st) ++ ext
        /\ position_slots ext = map (uadd (voff st)) (seqZ 0 (mNumVertices mesh))
        /\ Forall (touches mesh (voff st)) ext)
  /\ ib_trace (indices st')
     = ib_trace (indices st) ++ concat (map (face_slots (ioff st)) (seqZ 0 (mNumFaces mesh))).

(** The emission pass from running totals [acc] to [acc'], when nothing
    wraps: the offsets are the totals, and the slots handed to [set] are
    the next vertices and the next indices, in order. *)
Definition in_step (scene : aiScene) (acc acc' : Z * Z) (st st' : GenState) : Prop :=
  fst acc <= fst acc' /\ snd acc <= snd acc'
  /\ voff st' = fst acc' /\ ioff st' = snd acc'
  /\ vb_vertices (vertices st') = vb_vertices (vertices st)
  /\ ib_indices (indices st') = ib_indices (indices st)
  /\ (exists ext,
        vb_trace (vertices st') = vb_trace (vertices st) ++ ext
        /\ position_slots ext = seqZ (fst acc) (fst acc' - fst acc)
        /\ (weights_in_range scene -> Forall (fun p => fst acc <= fst p < fst acc') ext))
  /\ ib_trace (indices st') = ib_trace (indices st) ++ seqZ (snd acc) (snd acc' - snd acc).

End Passes.

(** ** Sample inputs *)
Module Samples.
Import Common Float Vec VertexFormat Buffers Assimp Skin Main.

Definition v3 (x y z : Z) : aiVector3D :=
  {| vx := f32_of_Z x; vy := f32_of_Z y; vz := f32_of_Z z |}.

Definition unit4 : aiMatrix4x4 :=
  let o := f_zero in
  let l := f32_one in
  {| a1 := l; a2 := o; a3 := o; a4 := o;
     b1 := o; b2 := l; b3 := o; b4 := o;
     c1 := o; c2 := o; c3 := l; c4 := o;
     d1 := o; d2 := o; d3 := o; d4 := l |}.

(** One triangle: three vertices, one face, no normals, no UVs, no bones. *)
Definition triangle_mesh : aiMesh :=
  {| mesh_mName := "triangle";
     mPrimitiveTypes := aiPrimitiveType_TRIANGLE;
     mVertices := [v3 0 0 0; v3 1 0 0; v3 0 1 0];
     mNormals := None;
     mTextureCoords0 := None;
     mFaces := [ {| mIndices := [0; 1; 2] |} ];
     mBones := [] |}.

Definition triangle_scene : aiScene :=
  {| scene_mMeshes := [triangle_mesh];
     mRootNode := Build_aiNode "root" unit4 [0] [];
     mAnimations := [] |}.

(** Trees: a root with two leaves, and a root with an inner node. *)
Definition leaf (nm : string) : aiNode := Build_aiNode nm unit4 [] [].
Definition two_leaves : aiNode := Build_aiNode "root" unit4 [] [leaf "a"; leaf "b"].
Definition small_tree : aiNode :=
  Build_aiNode "root" unit4 []
    [Build_aiNode "a" unit4 [] [leaf "c"; leaf "d"]; leaf "b"].

(** A stand-in for the importer's arithmetic, enough for the samples:
    products and inverses as on unit matrices, and a component-wise linear
    blend of quaternions. *)
Definition blend (a b t : spec_float) : spec_float := f32_add a (f32_mul (f32_sub b a) t).
Definition sample_math : AssimpMath :=
  {| mat4_mul := fun a b => b;
     mat4_inverse := fun a => a;
     mat3_inverse_transpose := fun a =>
       {| m_a1 := a1 a; m_a2 := a2 a; m_a3 := a3 a;
          m_b1 := b1 a; m_b2 := b2 a; m_b3 := b3 a;
          m_c1 := c1 a; m_c2 := c2 a; m_c3 := c3 a |};
     Interpolate := fun a b t =>
       {| qw := blend (qw a) (qw b) t; qx := blend (qx a) (qx b) t;
          qy := blend (qy a) (qy b) t; qz := blend (qz a) (qz b) t |} |}.

(** Key frames at whole seconds; [micro m] is [m] millionths as a [float]. *)
Definition micro (m : Z) : spec_float := f32_div (f32_of_Z m) (f32_of_Z 1000000).
Definition vkey_at (t : Z) (x : spec_float) : aiVectorKey :=
  {| vk_mTime := f64_of_Z t; vk_mValue := {| vx := x; vy := f_zero; vz := f_zero |} |}.
Definition qkey_at (t : Z) (w : spec_float) : aiQuatKey :=
  {| qk_mTime := f64_of_Z t;
     qk_mValue := {| qw := w; qx := f_zero; qy := f_zero; qz := f_zero |} |}.

(** Two equal samples; two different samples; and a track that moves by a
    few millionths before it leaves. *)
Definition still_track : list aiVectorKey := [vkey_at 0 f32_one; vkey_at 1 f32_one].
Definition still_rotations : list aiQuatKey := [qkey_at 0 f32_one; qkey_at 1 f32_one].
Definition moving_track : list aiVectorKey := [vkey_at 0 f_zero; vkey_at 1 f32_one].
Definition moving_rotations : list aiQuatKey := [qkey_at 0 f32_one; qkey_at 1 f_zero].
Definition jitter_track : list aiVectorKey :=
  [vkey_at 0 f_zero; vkey_at 1 (micro 9); vkey_at 2 f_zero; vkey_at 3 (micro (-20))].

(** An animation with a channel for the joint [root] and one for [body],
    a node that carries a mesh and so has no entry in the name map. *)
Definition channel_of (nm : string) : aiNodeAnim :=
  {| mNodeName := nm;
     mPositionKeys := [vkey_at 0 f_zero];
     mRotationKeys := [qkey_at 0 f32_one];
     mScalingKeys := [vkey_at 0 f32_one] |}.
Definition walk : aiAnimation :=
  {| anim_mName := "walk"; mDuration := f64_of_Z 1;
     mChannels := [channel_of "root"; channel_of "body"] |}.
Definition body_tree : aiNode :=
  Build_aiNode "root" unit4 [] [Build_aiNode "body" unit4 [0] []].
Definition body_map : gmap string Z :=
  node_map (fst (loadTree body_tree 0 {| nodes := []; tree_index := 1; node_map := ∅ |})).

(** A buffer of one vertex in the five-attribute layout, nothing loaded
    yet, and the weight one half. *)
Definition skinned_format : VertexFormat :=
  addAttribute TYPE_FLOAT 4 false (addAttribute TYPE_FLOAT 4 false
    (addAttribute TYPE_FLOAT 2 false (addAttribute TYPE_FLOAT 3 false
      (addAttribute TYPE_FLOAT 3 false VertexFormat_new)))).
Definition one_vertex_state : GenState :=
  {| vertices := VertexBuffer_new skinned_format 1;
     indices := IndexBuffer_new (IndexFormat_new 1) 3;
     index := 0; voff := 0; ioff := 0;
     bounds := BBox.BBox3D_new; bones := ∅ |}.
Definition half : spec_float := f32_div f32_one (f32_of_Z 2).

(** The five attributes [loadScene] can declare. *)
Definition position_attrib : AttribType :=
  {| offset := 0; bpa := 12; numElements := 3; normalized := false; elementType := TYPE_FLOAT |}.
Definition normal_attrib : AttribType :=
  {| offset := 12; bpa := 12; numElements := 3; normalized := false; elementType := TYPE_FLOAT |}.
Definition tex_coord_attrib : AttribType :=
  {| offset := 24; bpa := 8; numElements := 2; normalized := false; elementType := TYPE_FLOAT |}.
Definition bone_idx_attrib : AttribType :=
  {| offset := 32; bpa := 16; numElements := 4; normalized := false; elementType := TYPE_FLOAT |}.
Definition bone_weight_attrib : AttribType :=
  {| offset := 48; bpa := 16; numElements := 4; normalized := false; elementType := TYPE_FLOAT |}.

(** A rig of two nodes: the root carries a segment mesh (skipped by both
    passes) and a triangle with one bone; its child carries the plain
    triangle. One animation, so the bone attributes are written. *)
Definition segment_mesh : aiMesh :=
  {| mesh_mName := "segment";
     mPrimitiveTypes := 2;
     mVertices := [v3 0 0 0; v3 1 0 0];
     mNormals := None;
     mTextureCoords0 := None;
     mFaces := [ {| mIndices := [0; 1] |} ];
     mBones := [] |}.
Definition boned_mesh : aiMesh :=
  {| mesh_mName := "arm";
     mPrimitiveTypes := aiPrimitiveType_TRIANGLE;
     mVertices := [v3 0 0 0; v3 1 0 0; v3 0 1 0];
     mNormals := Some [v3 0 0 1; v3 0 0 1; v3 0 0 1];
     mTextureCoords0 := None;
     mFaces := [ {| mIndices := [0; 1; 2] |} ];
     mBones := [ {| bone_mName := "elbow";
                    mWeights := [ {| mVertexId := 0; mWeight := f32_one |};
                                  {| mVertexId := 2; mWeight := half |} ];
                    mOffsetMatrix := unit4 |} ] |}.
Definition rig_scene : aiScene :=
  {| scene_mMeshes := [segment_mesh; boned_mesh; triangle_mesh];
     mRootNode := Build_aiNode "root" unit4 [0; 1] [Build_aiNode "hand" unit4 [2] []];
     mAnimations := [walk] |}.

End Samples.

(** ** The flattened tree, slot by slot

    What [loadTree] leaves in the array and in the name map. *)
Module TreeLayout.
Import Common Float Vec VertexFormat Buffers Assimp Skin Main Passes.

(** The slots a call of [loadTree] at slot [cur] writes, the index going
    from [lo] to [hi]. *)
Definition written (cur lo hi : Z) (j : Z) : Prop := j = cur \/ lo <= j < hi.

(** The entry at slot [j] has its children, in order, in the slots from
    its child block on. *)
Definition children_at (ns : list (option aiNode * Z)) (j : Z) : Prop :=
  forall n c, node_at ns j = Some (n, c) ->
    forall (i : nat) (child : aiNode), mChildren n !! i = Some child ->
      exists c', node_at ns (c + Z.of_nat i) = Some (child, c').

(** A name of the map leads to a slot whose node has that name and no mesh. *)
Definition names_joint (ns : list (option aiNode * Z)) (nm : string) (j : Z) : Prop :=
  exists n c, node_at ns j = Some (n, c) /\ mName n = nm /\ mNumMeshes n = 0.

(** What [loadTree] keeps of the array and the name map, over the slots
    [W] it writes. *)
Definition layout_post (W : Z -> Prop) (st st' : TreeState) : Prop :=
  (Z.of_nat (length (nodes st')) <= Z.max (Z.of_nat (length (nodes st))) (tree_index st'))
  /\ (forall j, W j -> children_at (nodes st') j)
  /\ (forall nm j, node_map st !! nm = Some j -> node_map st' !! nm = Some j)
  /\ (forall nm j, node_map st' !! nm = Some j ->
        node_map st !! nm = Some j \/ (W j /\ names_joint (nodes st') nm j))
  /\ (forall j n c, W j -> node_at (nodes st') j = Some (n, c) -> mNumMeshes n = 0 ->
        is_Some (node_map st' !! mName n)).

Definition layout_spec (node : aiNode) : Prop :=
  forall cur st, 0 <= cur < tree_index st -> tree_index st + descendants node < 2 ^ 31 ->
    layout_post (written cur (tree_index st) (tree_index st + descendants node)) st
      (fst (loadTree node cur st)).

Definition loop_post (childIdx i : Z) (children : list aiNode) (st st' : TreeState) : Prop :=
  layout_post (fun j => childIdx + i <= j < childIdx + i + Z.of_nat (length children)
                        \/ tree_index st <= j < tree_index st + sum_desc children) st st'
  /\ (forall (k : nat) (child : aiNode), children !! k = Some child ->
        exists c', node_at (nodes st') (childIdx + i + Z.of_nat k) = Some (child, c')).

Definition joint_map (root : aiNode) : gmap string Z :=
  node_map (fst (loadTree root 0 {| nodes := []; tree_index := 1; node_map := ∅ |})).

End TreeLayout.

(** ** The table of mesh subsets

    The meshes [getVertexCount] counts and the index ranges it records. *)
Module MeshSubsets.
Import Common Float Vec VertexFormat Buffers Assimp Skin Main Passes TreeLayout.

(** The meshes the counting pass counts, in traversal order. *)
Definition counted (scene : aiScene) (mesh_id : Z) : option aiMesh :=
  match lookupZ (scene_mMeshes scene) mesh_id with
  | Some mesh => if skipped mesh then None else Some mesh
  | None => None
  end.

Fixpoint node_meshes (scene : aiScene) (node : aiNode) {struct node} : list aiMesh :=
  omap (counted scene) (mMeshes node) ++ concat (map (node_meshes scene) (mChildren node)).

Definition index_total (l : list aiMesh) : Z :=
  fold_right (fun mesh acc => mNumFaces mesh * 3 + acc) 0 l.

(** Index ranges laid end to end from [a] on, one per mesh. *)
Fixpoint subsets_from (a : Z) (l : list aiMesh) : list MeshSubset :=
  match l with
  | [] => []
  | mesh :: rest =>
      {| name := mesh_mName mesh; start := a; end_ := a + mNumFaces mesh * 3 |}
      :: subsets_from (a + mNumFaces mesh * 3) rest
  end.

(** Each range starts where the one before ends, from [a] to [b]. *)
Fixpoint tiles (ms : list MeshSubset) (a b : Z) : Prop :=
  match ms with
  | [] => a = b
  | m :: rest => start m = a /\ start m < end_ m /\ tiles rest (end_ m) b
  end.

Definition scene_meshes (scene : aiScene) : list aiMesh := node_meshes scene (mRootNode scene).

End MeshSubsets.

(** ** The bone table of the emission pass *)
Module BoneTable.
Import Common Float Vec VertexFormat Buffers Assimp Skin Main Passes TreeLayout MeshSubsets.

(** The bone table holds the ids 0 to [ix - 1], one name per id, and [ix]
    is the number of its entries. *)
Definition bones_dense (bs : gmap string Bone) (ix : Z) : Prop :=
  ix = Z.of_nat (size bs)
  /\ (forall nm b, bs !! nm = Some b -> 0 <= id b < ix)
  /\ (forall nm1 nm2 b1 b2,
        bs !! nm1 = Some b1 -> bs !! nm2 = Some b2 -> id b1 = id b2 -> nm1 = nm2)
  /\ (forall k, 0 <= k < ix -> exists nm b, bs !! nm = Some b /\ id b = k).

(** From one state of the emission pass to a later one: the table does
    not shrink, and it stays dense as long as it has fewer than 2^31
    entries. *)
Definition table_step (st st' : GenState) : Prop :=
  (size (bones st) <= size (bones st'))%nat
  /\ (Z.of_nat (size (bones st')) < 2 ^ 31 ->
      bones_dense (bones st) (index st) -> bones_dense (bones st') (index st')).

End BoneTable.

(** ** The key-frame blocks, sample by sample *)
Module KeyArrays.
Import Common Float Vec VertexFormat Buffers Assimp Skin Main Passes TreeLayout MeshSubsets
  BoneTable.

(** The floats written for the retained key [i] of a vector track and of
    a rotation track. *)
Definition vector_sample (keys : list aiVectorKey) (i : Z) : list item :=
  let k := vkey keys i in
  [FloatItem (f32_of_f64 (vk_mTime k)); FloatItem (vx (vk_mValue k));
   FloatItem (vy (vk_mValue k)); FloatItem (vz (vk_mValue k))].

Definition quat_sample (keys : list aiQuatKey) (i : Z) : list item :=
  let k := qkey keys i in
  [FloatItem (f32_of_f64 (qk_mTime k)); FloatItem (qw (qk_mValue k));
   FloatItem (qx (qk_mValue k)); FloatItem (qy (qk_mValue k)); FloatItem (qz (qk_mValue k))].

End KeyArrays.

(** ** The cells of the vertex buffer

    What [loadMesh] stores for a vertex, and the cells a step of the
    emission pass may change. *)
Module Cells.
Import Common Float Vec VertexFormat Buffers Assimp Skin Main Passes TreeLayout MeshSubsets
  BoneTable KeyArrays.

(** The cells of attribute [a] of vertex [v], where the buffer has them. *)
Definition cell_at (vb : VertexBuffer) (v a : Z) : option (list spec_float) :=
  match lookupZ (vb_data vb) v with
  | Some attrs => lookupZ attrs a
  | None => None
  end.

(** Vertex [v] has attribute [a], of [n] cells. *)
Definition has_cell (vb : VertexBuffer) (v a : Z) (n : nat) : Prop :=
  exists cell, cell_at vb v a = Some cell /\ length cell = n /\ (n <= 4)%nat.

(** From one state of the emission pass to a later one: the buffer keeps
    its shape, the vertex offset stays, and outside the slots [Q] the
    cells are the same. *)
Definition only (Q : Z -> Z -> Prop) (st st' : GenState) : Prop :=
  voff st' = voff st
  /\ (forall v a n, has_cell (vertices st) v a n -> has_cell (vertices st') v a n)
  /\ (forall v a, ~ Q v a -> cell_at (vertices st') v a = cell_at (vertices st) v a).

Definition bone_attr (a : Z) : Prop := a = BONE_IDX \/ a = BONE_WEIGHT.

(** What the vertex loop stores for vertex [i] of the mesh. *)
Definition position_of (mesh : aiMesh) (t : aiMatrix4x4) (i : Z) : float4 :=
  let v := nth (Z.to_nat i) (mVertices mesh) zero3 in
  let bpos := mul4 t (make4 (vx v) (vy v) (vz v) f32_one) in
  make4 (vec4_x bpos) (vec4_y bpos) (vec4_z bpos) f32_one.

Definition normal_of (mesh : aiMesh) (normalMat : aiMatrix3x3) (i : Z) : float4 :=
  let v := nth (Z.to_nat i) (default [] (mNormals mesh)) zero3 in
  let norm := normalize_m (mul3 normalMat (make3 (vx v) (vy v) (vz v))) in
  make4 (vec3_x norm) (vec3_y norm) (vec3_z norm) f32_one.

Definition uv_of (mesh : aiMesh) (i : Z) : float4 :=
  let v := nth (Z.to_nat i) (default [] (mTextureCoords0 mesh)) zero3 in
  make4 (vx v) (vy v) f_zero f32_one.

(** Slot [v] of the buffer has the three geometry attributes, as
    [loadScene] declares them, and holds vertex [i] of the mesh. *)
Definition geometry_slot (vb : VertexBuffer) (v : Z) : Prop :=
  has_cell vb v POSITION 3 /\ has_cell vb v NORMAL 3 /\ has_cell vb v TEX_COORD 2.

Definition holds_vertex (mesh : aiMesh) (t : aiMatrix4x4) (normalMat : aiMatrix3x3)
    (vb : VertexBuffer) (v i : Z) : Prop :=
  vb_get vb v POSITION = position_of mesh t i
  /\ (HasNormals mesh = true -> vb_get vb v NORMAL = normal_of mesh normalMat i)
  /\ (HasTextureCoords0 mesh = true -> vb_get vb v TEX_COORD = uv_of mesh i).

(** Slot [v] has the two bone attributes, four cells each. *)
Definition bone_slot (vb : VertexBuffer) (v : Z) : Prop :=
  has_cell vb v BONE_IDX 4 /\ has_cell vb v BONE_WEIGHT 4.

Definition bound_to (vb : VertexBuffer) (v : Z) (bone : Z) : Prop :=
  vb_get vb v BONE_IDX = make4 (f32_of_Z bone) f_zero f_zero f_zero
  /\ vb_get vb v BONE_WEIGHT = make4 f32_one f_zero f_zero f_zero.

End Cells.

(** ** The index buffer of the emission pass *)
Module Corners.
Import Common Float Vec VertexFormat Buffers Assimp Skin Main Passes TreeLayout MeshSubsets
  BoneTable KeyArrays Cells.

(** Corner [i] of face [f] of the mesh. *)
Definition corner (mesh : aiMesh) (f i : Z) : Z :=
  nth (Z.to_nat i) (mIndices (nth (Z.to_nat f) (mFaces mesh) {| mIndices := [] |})) 0.

(** From one state of the emission pass to a later one: the index buffer
    and the index offset are the same. *)
Definition same_indices (st st' : GenState) : Prop :=
  indices st' = indices st /\ ioff st' = ioff st /\ voff st' = voff st.

End Corners.

(** ** Runs of [addAttribute] and of [VertexBuffer::set] calls *)
Module Formats.
Import Common Float Vec VertexFormat Buffers Assimp Skin Main Passes TreeLayout MeshSubsets
  BoneTable KeyArrays Cells Corners.

(** *** A run of [addAttribute] calls: the template arguments of each call *)
Record AttribDecl := { decl_type : TypeToken; decl_elems : Z; decl_normalized : bool }.

Definition decl_bytes (d : AttribDecl) : Z := sizeof (decl_type d) * decl_elems d.

Definition add_decl (fmt : VertexFormat) (d : AttribDecl) : VertexFormat :=
  addAttribute (decl_type d) (decl_elems d) (decl_normalized d) fmt.

Definition bytes_of (ds : list AttribDecl) : Z := fold_right (fun d acc => decl_bytes d + acc) 0 ds.

(** *** A run of [VertexBuffer::set] calls on a new buffer *)
Record Write := { w_vertex : Z; w_attribute : Z; w_value : float4 }.

Definition apply_write (vb : VertexBuffer) (w : Write) : VertexBuffer :=
  vb_set vb (w_vertex w) (w_attribute w) (w_value w).

(** The value of the last call for vertex [v] and attribute [a], if any. *)
Definition last_write (ws : list Write) (v a : Z) : option float4 :=
  fold_left (fun acc w => if (w_vertex w =? v) && (w_attribute w =? a)
                          then Some (w_value w) else acc) ws None.

(** What [getAttrib] makes of [n] stored components: the missing ones
    read 0, 0 and 1. *)
Definition widen (n : Z) (val : float4) : float4 :=
  make4 (vec4_x val)
        (if 2 <=? n then vec4_y val else f_zero)
        (if 3 <=? n then vec4_z val else f_zero)
        (if 4 <=? n then vec4_w val else f32_one).

Definition zero4 : float4 := make4 f_zero f_zero f_zero f_zero.

End Formats.

(** ** ieee754_2008.h and half_float.h: the [double] conversions, negation,
    and checks over all bit patterns of a half *)
Module HalfBits.
Import Common Float Vec VertexFormat Buffers Assimp Skin Main Passes TreeLayout MeshSubsets
  BoneTable KeyArrays Cells Corners Formats.
Import Ieee754.

(** The three bit-fields hold 10, 5 and 1 bits. *)
Definition half_fields (h : IEEE754_half) : Prop :=
  0 <= mantissa h < 2 ^ 10 /\ 0 <= e h < 2 ^ 5 /\ 0 <= sign h < 2.

(** [half_float::operator-()]: [h.value.sign = !value.sign]. *)
Definition half_neg (h : IEEE754_half) : IEEE754_half :=
  {| mantissa := mantissa h; e := e h; sign := if sign h =? 0 then 1 else 0 |}.

Definition half_eqb (a b : IEEE754_half) : bool :=
  (mantissa a =? mantissa b) && (e a =? e b) && (sign a =? sign b).

(** A check on every bit pattern with exponent field from [lo] to
    [hi - 1]. *)
Definition all_halves (lo hi : Z) (P : IEEE754_half -> bool) : bool :=
  forallb (fun m =>
    forallb (fun ex =>
      forallb (fun s => P {| mantissa := m; e := ex; sign := s |}) [0; 1])
      (seqZ lo (hi - lo)))
    (seqZ 0 1024).

Definition encodes_to (f : spec_float) (h : IEEE754_half) : bool :=
  match convertToIEEE754 f with
  | Some h' => half_eqb h' h
  | None => false
  end.

Definition sf_same (a b : spec_float) : bool :=
  match a, b with
  | S754_zero s1, S754_zero s2 => Bool.eqb s1 s2
  | S754_infinity s1, S754_infinity s2 => Bool.eqb s1 s2
  | S754_nan, S754_nan => true
  | S754_finite s1 m1 e1, S754_finite s2 m2 e2 => Bool.eqb s1 s2 && (m1 =? m2)%positive && (e1 =? e2)
  | _, _ => false
  end.

(** [convertToDouble(IEEE754_half val)] and
    [convertToIEEE754<IEEE754_half>(double val)], the [double] twins of the
    two conversions. *)
Definition convertToDouble (val : IEEE754_half) : spec_float :=
  if e val =? E_NAN then
    if negb (mantissa val =? 0) then S754_nan
    else if negb (sign val =? 0) then SFopp f_inf else f_inf
  else
    let ret :=
      if e val =? 0 then
        SFldexp prec64 emax64 (f64_of_Z (mantissa val)) (E_MIN - MANTISSA)
      else
        SFldexp prec64 emax64
          (f64_add (f64_of_Z (mantissa val)) (SFldexp prec64 emax64 f64_one MANTISSA))
          (e val + E_MIN - MANTISSA - 1) in
    if negb (sign val =? 0) then SFopp ret else ret.

Definition convertToIEEE754_double (val : spec_float) : option IEEE754_half :=
  let ret_sign := if SFltb val f_zero then 1 else 0 in
  let val := if ret_sign =? 1 then SFopp val else val in
  if negb (SFeqb val val) then
    let ones := to_ushort 0xFFFFFFFFFFFFFFFF in
    Some {| mantissa := bitfield 10 ones; e := bitfield 5 (to_ushort E_NAN); sign := ret_sign |}
  else if SFeqb val f_inf then
    Some {| mantissa := bitfield 10 0; e := bitfield 5 E_NAN; sign := ret_sign |}
  else if SFeqb val f_zero then
    Some {| mantissa := bitfield 10 0; e := bitfield 5 0; sign := ret_sign |}
  else
    let '(fr, e) := SFfrexp prec64 emax64 val in
    let exp := clamp e E_MIN E_MAX in
    let val := SFldexp prec64 emax64 fr
                 (MANTISSA + (if negb (exp =? E_MIN) then 1 else 0) + e - exp) in
    match static_cast_uint16 val with
    | Some m =>
        Some {| mantissa := bitfield 10 m; e := bitfield 5 (exp - E_MIN); sign := ret_sign |}
    | None => None
    end.

Definition option_half_eqb (a b : option IEEE754_half) : bool :=
  match a, b with
  | Some x, Some y => half_eqb x y
  | None, None => true
  | _, _ => false
  end.

End HalfBits.

(** ** BBox.h: the order of [double] values, the tests and the set
    operations of [BBox3D<double>], and the points [loadMesh] adds *)
Module Bounds.
Import Common Float Vec VertexFormat Buffers Assimp Skin Main Passes TreeLayout MeshSubsets
  BoneTable KeyArrays Cells Corners Formats HalfBits.

(** The order of [SFcompare], read off a key: the class of the value
    (the infinities, the two signs of finite values, the zeros), then the
    exponent and the mantissa, both negated for negative values. *)
Definition sf_key (x : spec_float) : Z * Z * Z :=
  match x with
  | S754_infinity true => (-2, 0, 0)
  | S754_finite true m e => (-1, - e, - Zpos m)
  | S754_zero _ | S754_nan => (0, 0, 0)
  | S754_finite false m e => (1, e, Zpos m)
  | S754_infinity false => (2, 0, 0)
  end.

Definition key_le (a b : Z * Z * Z) : Prop :=
  let '(a1, a2, a3) := a in
  let '(b1, b2, b3) := b in
  a1 < b1 \/ (a1 = b1 /\ (a2 < b2 \/ (a2 = b2 /\ a3 <= b3))).

Definition key_lt (a b : Z * Z * Z) : Prop :=
  let '(a1, a2, a3) := a in
  let '(b1, b2, b3) := b in
  a1 < b1 \/ (a1 = b1 /\ (a2 < b2 \/ (a2 = b2 /\ a3 < b3))).

Definition is_nan (x : spec_float) : bool :=
  match x with S754_nan => true | _ => false end.

Definition valid (b : BBox.BBox3D) : bool :=
  SFleb (vec3_x (BBox.botLeft b)) (vec3_x (BBox.topRight b))
  && SFleb (vec3_y (BBox.botLeft b)) (vec3_y (BBox.topRight b))
  && SFleb (vec3_z (BBox.botLeft b)) (vec3_z (BBox.topRight b)).

(** [contains(const E x, AXIS axis)], the two bounds of the axis passed in. *)
Definition contains_axis (lo hi x : spec_float) : bool := SFleb lo x && SFleb x hi.

(** [contains(const vec3<E>& pt)] *)
Definition contains (b : BBox.BBox3D) (pt : vec3 spec_float) : bool :=
  contains_axis (vec3_x (BBox.botLeft b)) (vec3_x (BBox.topRight b)) (vec3_x pt)
  && contains_axis (vec3_y (BBox.botLeft b)) (vec3_y (BBox.topRight b)) (vec3_y pt)
  && contains_axis (vec3_z (BBox.botLeft b)) (vec3_z (BBox.topRight b)) (vec3_z pt).

(** [intersects(const BBox3D<E>& b)] *)
Definition intersects (a b : BBox.BBox3D) : bool :=
  SFleb (vec3_x (BBox.botLeft a)) (vec3_x (BBox.topRight b))
  && SFleb (vec3_x (BBox.botLeft b)) (vec3_x (BBox.topRight a))
  && SFleb (vec3_y (BBox.botLeft a)) (vec3_y (BBox.topRight b))
  && SFleb (vec3_y (BBox.botLeft b)) (vec3_y (BBox.topRight a))
  && SFleb (vec3_z (BBox.botLeft a)) (vec3_z (BBox.topRight b))
  && SFleb (vec3_z (BBox.botLeft b)) (vec3_z (BBox.topRight a)).

(** [min] and [max] of two [vec3<E>] (vec.h), component by component. *)
Definition vec3_min (u v : vec3 spec_float) : vec3 spec_float :=
  make3 (BBox.min (vec3_x u) (vec3_x v)) (BBox.min (vec3_y u) (vec3_y v))
        (BBox.min (vec3_z u) (vec3_z v)).
Definition vec3_max (u v : vec3 spec_float) : vec3 spec_float :=
  make3 (BBox.max (vec3_x u) (vec3_x v)) (BBox.max (vec3_y u) (vec3_y v))
        (BBox.max (vec3_z u) (vec3_z v)).

(** [intersection(const BBox3D<E>& b)] *)
Definition intersection (a b : BBox.BBox3D) : BBox.BBox3D :=
  {| BBox.botLeft := vec3_max (BBox.botLeft a) (BBox.botLeft b);
     BBox.topRight := vec3_min (BBox.topRight a) (BBox.topRight b) |}.

(** No component is a NaN. *)
Definition nan_free (v : vec3 spec_float) : Prop :=
  is_nan (vec3_x v) = false /\ is_nan (vec3_y v) = false /\ is_nan (vec3_z v) = false.

(** Every component is a value of the [double] range. *)
Definition in_range (v : vec3 spec_float) : Prop :=
  (SFleb BBox.MIN_VALUE (vec3_x v) = true /\ SFleb (vec3_x v) BBox.MAX_VALUE = true)
  /\ (SFleb BBox.MIN_VALUE (vec3_y v) = true /\ SFleb (vec3_y v) BBox.MAX_VALUE = true)
  /\ (SFleb BBox.MIN_VALUE (vec3_z v) = true /\ SFleb (vec3_z v) BBox.MAX_VALUE = true).

(** *** The points [loadMesh] adds to the bounds (Main.cpp lines 82-84) *)
Definition world_point (mesh : aiMesh) (t : aiMatrix4x4) (i : Z) : vec3 spec_float :=
  let v := nth (Z.to_nat i) (mVertices mesh) zero3 in
  let bpos := mul4 t (make4 (vx v) (vy v) (vz v) f32_one) in
  make3 (f64_of_f32 (vec4_x bpos)) (f64_of_f32 (vec4_y bpos)) (f64_of_f32 (vec4_z bpos)).

Definition mesh_points (scene : aiScene) (t : aiMatrix4x4) (mesh_id : Z)
  : list (vec3 spec_float) :=
  match lookupZ (scene_mMeshes scene) mesh_id with
  | Some mesh =>
      if skipped mesh then [] else List.map (world_point mesh t) (seqZ 0 (mNumVertices mesh))
  | None => []
  end.

Fixpoint node_points `{AssimpMath} (scene : aiScene) (node : aiNode) (t : aiMatrix4x4)
    {struct node} : list (vec3 spec_float) :=
  let mat := mat4_mul t (mTransformation node) in
  List.concat (List.map (mesh_points scene mat) (mMeshes node))
  ++ List.concat (List.map (fun child => node_points scene child mat) (mChildren node)).

End Bounds.

(** ** ieee754_2008.h: the encoder past the range of its cast

    [static_cast<uint16_t>] of a [float] that does not fit [uint16_t] has
    no defined value, and [convertToIEEE754] of [Ieee754] has no result
    there.  The code sets the [sign] and [e] fields before that cast and
    returns a half in any case; here [cast] is the integer the conversion
    yields where the language leaves it open. *)
Module HalfCast.
Import Common Float Ieee754.

Definition static_cast_uint16_with (cast : spec_float -> Z) (val : spec_float) : Z :=
  match static_cast_uint16 val with
  | Some z => z
  | None => to_ushort (cast val)
  end.

Definition convertToIEEE754_with (cast : spec_float -> Z) (val : spec_float) : IEEE754_half :=
  let ret_sign := if SFltb val f_zero then 1 else 0 in
  let val := if ret_sign =? 1 then SFopp val else val in
  if negb (SFeqb val val) then
    let ones := to_ushort 0xFFFFFFFFFFFFFFFF in
    {| mantissa := bitfield 10 ones; e := bitfield 5 (to_ushort E_NAN); sign := ret_sign |}
  else if SFeqb val f_inf then
    {| mantissa := bitfield 10 0; e := bitfield 5 E_NAN; sign := ret_sign |}
  else if SFeqb val f_zero then
    {| mantissa := bitfield 10 0; e := bitfield 5 0; sign := ret_sign |}
  else
    let '(fr, e) := SFfrexp prec32 emax32 val in
    let exp := clamp e E_MIN E_MAX in
    let val := SFldexp prec32 emax32 fr
                 (MANTISSA + (if negb (exp =? E_MIN) then 1 else 0) + e - exp) in
    {| mantissa := bitfield 10 (static_cast_uint16_with cast val);
       e := bitfield 5 (exp - E_MIN); sign := ret_sign |}.

End HalfCast.

(** ** Main.cpp, [loadMesh]: the skinning of one mesh, loop by loop *)
Module SkinPass.
Import Common Float Vec VertexFormat Buffers Assimp Skin Main Passes TreeLayout MeshSubsets
  BoneTable KeyArrays Cells.




End SkinPass.

(** ** VertexFormat.h: [VertexBuffer] over the bytes of its block

    The block of [bpv * vert] bytes, for formats of non-normalized [float]
    attributes: a list of 4-byte words, zero-filled, a [float] at a byte
    address that is a multiple of 4.  [set] and [get] address the block as
    the code does, at [vertex * bpv + offset] (an [int]); the result is
    [None] where the code reads or writes outside the block or indexes
    [attributes] outside the vector, and for what the words do not cover:
    an attribute that is not a non-normalized [float] of 1 to 4 elements,
    an address that is not a multiple of 4. *)
Module ByteBlock.
Import Common Float Vec VertexFormat Buffers Assimp Skin Main Passes TreeLayout MeshSubsets
  BoneTable KeyArrays Cells Corners Formats.

Record ByteBuffer := {
  bb_format : VertexFormat;
  bb_vertices : Z;
  bb_words : list spec_float
}.

Definition ByteBuffer_new (fmt : VertexFormat) (vert : Z) : ByteBuffer :=
  {| bb_format := fmt; bb_vertices := vert;
     bb_words := replicate (Z.to_nat (to_int (bpv fmt * vert) / 4)) f_zero |}.

Definition word_load (words : list spec_float) (p : Z) : option spec_float :=
  if p mod 4 =? 0 then lookupZ words (p / 4) else None.

Definition word_store (words : list spec_float) (p : Z) (x : spec_float)
  : option (list spec_float) :=
  if p mod 4 =? 0 then
    match lookupZ words (p / 4) with
    | Some _ => Some (updateZ words (p / 4) x)
    | None => None
    end
  else None.

(** [a[0] = ...; a[1] = ...; ...] and the reads [a[0], a[1], ...] of a
    [float* a] at byte address [p]. *)
Fixpoint store_floats (words : list spec_float) (p : Z) (xs : list spec_float)
  : option (list spec_float) :=
  match xs with
  | [] => Some words
  | x :: rest =>
      match word_store words p x with
      | Some words' => store_floats words' (p + 4) rest
      | None => None
      end
  end.

Fixpoint load_floats (words : list spec_float) (p : Z) (n : nat) : option (list spec_float) :=
  match n with
  | O => Some []
  | S n' =>
      match word_load words p, load_floats words (p + 4) n' with
      | Some x, Some rest => Some (x :: rest)
      | _, _ => None
      end
  end.

Definition float_attrib (ty : AttribType) : bool :=
  match elementType ty with
  | TYPE_FLOAT => negb (normalized ty) && (1 <=? numElements ty) && (numElements ty <=? 4)
  | _ => false
  end.

(** [offset(vertex, attribute)], as a byte offset into the block, with
    the attribute found there. *)
Definition bb_offset (bb : ByteBuffer) (vertex attribute : Z) : option (Z * AttribType) :=
  match lookupZ (attributes (bb_format bb)) attribute with
  | Some ty => Some (to_int (vertex * bpv (bb_format bb) + offset ty), ty)
  | None => None
  end.

Definition bb_set (bb : ByteBuffer) (vertex attribute : Z) (value : float4)
  : option ByteBuffer :=
  match bb_offset bb vertex attribute with
  | Some (p, ty) =>
      if float_attrib ty then
        match store_floats (bb_words bb) p (setAttrib (Z.to_nat (numElements ty)) value) with
        | Some words =>
            Some {| bb_format := bb_format bb; bb_vertices := bb_vertices bb;
                    bb_words := words |}
        | None => None
        end
      else None
  | None => None
  end.

Definition bb_get (bb : ByteBuffer) (vertex attribute : Z) : option float4 :=
  match bb_offset bb vertex attribute with
  | Some (p, ty) =>
      if float_attrib ty then
        match load_floats (bb_words bb) p (Z.to_nat (numElements ty)) with
        | Some cell => Some (getAttrib cell)
        | None => None
        end
      else None
  | None => None
  end.

(** A run of [set] calls, as long as each one is defined. *)
Definition run_writes (ws : list Write) (bb : ByteBuffer) : option ByteBuffer :=
  fold_left (fun acc w =>
               match acc with
               | Some b => bb_set b (w_vertex w) (w_attribute w) (w_value w)
               | None => None
               end) ws (Some bb).

(** A declaration of a non-normalized [float] attribute of 1 to 4 elements. *)
Definition float_decl (d : AttribDecl) : Prop :=
  decl_type d = TYPE_FLOAT /\ decl_normalized d = false /\ 1 <= decl_elems d <= 4.

Definition elems_of (ds : list AttribDecl) : Z := fold_right (fun d acc => decl_elems d + acc) 0 ds.

Definition comps (val : float4) : list spec_float :=
  [vec4_x val; vec4_y val; vec4_z val; vec4_w val].

(** The first word of attribute [a] of vertex [v], all attributes being
    [float]s, and what the words hold after the calls [ws]. *)
Definition word_of (ds : list AttribDecl) (v : Z) (a : nat) : Z :=
  v * elems_of ds + elems_of (take a ds).

Definition holds_writes (ds : list AttribDecl) (vert : Z) (ws : list Write)
    (words : list spec_float) : Prop :=
  Z.of_nat (length words) = elems_of ds * vert
  /\ forall (v : Z) (a : nat) (d : AttribDecl) (i : nat),
       0 <= v < vert -> ds !! a = Some d -> (i < Z.to_nat (decl_elems d))%nat ->
       lookupZ words (word_of ds v a + Z.of_nat i)
       = comps (default zero4 (last_write ws v (Z.of_nat a))) !! i.

End ByteBlock.

(** ** More sample inputs *)
Module MoreSamples.
Import Common Float Vec VertexFormat Buffers Assimp Skin Main Passes TreeLayout MeshSubsets
  BoneTable KeyArrays Cells Corners Formats HalfBits Bounds.
Import Samples.

Definition f4 (x y z w : Z) : float4 := make4 (f32_of_Z x) (f32_of_Z y) (f32_of_Z z) (f32_of_Z w).

Definition pt (x y z : Z) : vec3 spec_float := make3 (f64_of_Z x) (f64_of_Z y) (f64_of_Z z).

(** The five attributes of a skinned scene, and three [set] calls. *)
Definition float_n (n : Z) : AttribDecl :=
  {| decl_type := TYPE_FLOAT; decl_elems := n; decl_normalized := false |}.
Definition skinned_decls : list AttribDecl :=
  [float_n 3; float_n 3; float_n 2; float_n 4; float_n 4].
Definition bone_writes : list Write :=
  [ {| w_vertex := 1; w_attribute := POSITION; w_value := f4 9 9 9 9 |};
    {| w_vertex := 1; w_attribute := BONE_WEIGHT; w_value := f4 5 6 7 8 |};
    {| w_vertex := 2; w_attribute := POSITION; w_value := f4 1 2 3 4 |} ].

(** A triangle whose first vertex gets the weights 2, 4 and 1 from three
    bones, in a scene with one animation. *)
Definition bone_on (nm : string) (v : Z) (w : Z) : aiBone :=
  {| bone_mName := nm;
     mWeights := [ {| mVertexId := v; mWeight := f32_of_Z w |} ];
     mOffsetMatrix := unit4 |}.

(** The plain triangle in a scene with 32768 animations; and a triangle
    whose one bone has a weight for vertex 7, in a scene with one
    animation. *)
Definition crowded_scene : aiScene :=
  {| scene_mMeshes := [triangle_mesh];
     mRootNode := Build_aiNode "root" unit4 [0] [];
     mAnimations := replicate (Z.to_nat 32768) walk |}.
Definition stray_mesh : aiMesh :=
  {| mesh_mName := "stray";
     mPrimitiveTypes := aiPrimitiveType_TRIANGLE;
     mVertices := [v3 0 0 0; v3 1 0 0; v3 0 1 0];
     mNormals := None;
     mTextureCoords0 := None;
     mFaces := [ {| mIndices := [0; 1; 2] |} ];
     mBones := [bone_on "elbow" 7 1] |}.
Definition stray_scene : aiScene :=
  {| scene_mMeshes := [stray_mesh];
     mRootNode := Build_aiNode "root" unit4 [0] [];
     mAnimations := [walk] |}.

End MoreSamples.

(** * Theorems *)

Import Common Float Vec VertexFormat Buffers Assimp Skin Main Passes Samples.
Import Ieee754.

(** ** Index width (VertexFormat.h) *)

(** C2, as amended: the index width is 1 byte below 255 vertices, 2 bytes
    from 255 up to 65534 and 4 bytes from 65535 on (the comparison is with
    the largest value of the index type, [uchar_max] and [ushort_max]); for
    the vertex counts 0, 255, 256, 65535 and 65536 the widths are 1, 2, 2,
    4 and 4 bytes. *)
Theorem index_width_by_vertex_count :
  forall v : Z,
    bpi (IndexFormat_new v) = (if v <? 255 then 1 else if v <? 65535 then 2 else 4)
    /\ map (fun n => bpi (IndexFormat_new n)) [0; 255; 256; 65535; 65536] = [1; 2; 2; 4; 4].
Proof.
  intros v. split; [| reflexivity].
  unfold IndexFormat_new.
  change uchar_max with 255. change ushort_max with 65535.
  destruct (v <? 255); [reflexivity |].
  destruct (v <? 65535); reflexivity.
Qed.

(** C2 as stated fails: 255 vertices are fewer than 256, and the width
    chosen for them is 2 bytes; 65535 vertices get 4 bytes. *)
Lemma index_width_255_is_not_1 :
  255 < 256 /\ bpi (IndexFormat_new 255) = 2 /\ bpi (IndexFormat_new 255) <> 1
  /\ 65535 < 65536 /\ bpi (IndexFormat_new 65535) = 4.
Proof. repeat split; try reflexivity; try lia; discriminate. Qed.

(** ** Vertex layout (Main.cpp, loadScene) *)

Lemma nAnim_positive_has_animations (scene : aiScene) :
  (nAnim scene >? 0) = true -> HasAnimations scene = true.
Proof.
  unfold nAnim. destruct (HasAnimations scene); [reflexivity |].
  intros Hpos. discriminate Hpos.
Qed.

(** C3, as amended: whatever the meshes carry, the layout is position,
    normal, UV (3, 3 and 2 floats, 32 bytes), followed by bone index and
    bone weight (4 floats each, 64 bytes in all) exactly when [nAnim] is
    positive, which needs the scene to have an animation. *)
Theorem scene_format_layout :
  forall scene : aiScene,
    attributes (scene_format scene)
      = [position_attrib; normal_attrib; tex_coord_attrib]
        ++ (if nAnim scene >? 0 then [bone_idx_attrib; bone_weight_attrib] else [])
    /\ getBytesPerVertex (scene_format scene) = (if nAnim scene >? 0 then 64 else 32)
    /\ ((nAnim scene >? 0) = true -> HasAnimations scene = true).
Proof.
  intros scene. unfold scene_format.
  split; [| split].
  - destruct (nAnim scene >? 0); reflexivity.
  - destruct (nAnim scene >? 0); reflexivity.
  - apply nAnim_positive_has_animations.
Qed.

(** C3 as stated fails: the triangle scene has no normals, no UVs and no
    animations, and its vertices are still 32 bytes wide, with a normal
    and a UV channel in the layout. *)
Lemma triangle_scene_stride_is_not_12 :
  HasNormals triangle_mesh = false
  /\ HasTextureCoords0 triangle_mesh = false
  /\ HasAnimations triangle_scene = false
  /\ getBytesPerVertex (scene_format triangle_scene) = 32
  /\ getBytesPerVertex (scene_format triangle_scene) <> 12
  /\ attributes (scene_format triangle_scene)
     = [position_attrib; normal_attrib; tex_coord_attrib].
Proof. repeat split; try reflexivity; discriminate. Qed.

(** ** The 16-bit float codec (ieee754_2008.h) *)

Lemma digits2_pos_size (p : positive) : digits2_pos p = Pos.size p.
Proof. induction p; simpl; congruence. Qed.

Lemma digits2_pos_bounds (p : positive) :
  2 ^ (Zpos (digits2_pos p) - 1) <= Zpos p < 2 ^ Zpos (digits2_pos p).
Proof.
  rewrite digits2_pos_size.
  pose proof (Pos.size_gt p) as Hgt. pose proof (Pos.size_le p) as Hle.
  apply Pos2Z.pos_lt_pos in Hgt. apply Pos2Z.pos_le_pos in Hle.
  rewrite Pos2Z.inj_pow in Hgt, Hle.
  split; [| exact Hgt].
  assert (Hs : 0 < Zpos (Pos.size p)) by lia.
  replace (Zpos (Pos.size p)) with (Z.succ (Zpos (Pos.size p) - 1)) in Hle by lia.
  rewrite Z.pow_succ_r in Hle by lia. lia.
Qed.

Lemma digits2_pos_unique (p : positive) (n : Z) :
  2 ^ (n - 1) <= Zpos p < 2 ^ n -> Zpos (digits2_pos p) = n.
Proof.
  intros [Hlo Hhi]. pose proof (digits2_pos_bounds p) as [Dlo Dhi].
  set (d := Zpos (digits2_pos p)) in *.
  assert (Hd : 0 < d) by (unfold d; lia).
  assert (Hn : 0 < n).
  { destruct (Z.lt_trichotomy n 0) as [Hneg | [Hz | Hpos]]; [| | exact Hpos].
    - rewrite Z.pow_neg_r in Hhi by lia. lia.
    - subst n. simpl in Hhi. lia. }
  destruct (Z.lt_trichotomy d n) as [Hlt | [Heq | Hgt]]; [| exact Heq |].
  - assert (2 ^ d <= 2 ^ (n - 1)) by (apply Z.pow_le_mono_r; lia). lia.
  - assert (2 ^ n <= 2 ^ (d - 1)) by (apply Z.pow_le_mono_r; lia). lia.
Qed.

Lemma digits2_pos_iter_xO (m d : positive) :
  digits2_pos (Pos.iter xO m d) = (digits2_pos m + d)%positive.
Proof.
  induction d as [| d IH] using Pos.peano_ind.
  - simpl. lia.
  - rewrite Pos.iter_succ. simpl. rewrite IH. lia.
Qed.

(** [ldexp] of a 24-digit mantissa is exact inside the normal range. *)
Lemma SFldexp_exact (s : bool) (m : positive) (k : Z) :
  digits2_pos m = 24%positive -> -125 <= k <= 128 ->
  SFldexp prec32 emax32 (S754_finite s m (-24)) k = S754_finite s m (k - 24).
Proof.
  intros Hd Hk. unfold SFldexp, binary_round, prec32, emax32.
  rewrite Hd.
  assert (Hf : fexp 24 128 (24 + (-24 + k)) = -24 + k).
  { unfold fexp, emin. lia. }
  rewrite Hf. unfold shl_align. rewrite Z.sub_diag.
  unfold binary_round_aux, shr_fexp. cbn [Zdigits2]. rewrite Hd, Hf.
  rewrite Z.sub_diag. cbn [shr_record_of_loc shr shr_m loc_of_shr_record round_nearest_even].
  cbn [Zdigits2]. rewrite Hd, Hf, Z.sub_diag. cbn [shr shr_m].
  replace (-24 + k <=? 128 - 24) with true by (symmetry; apply Z.leb_le; lia).
  f_equal. lia.
Qed.

Lemma convert_sign (v : spec_float) (h : IEEE754_half) :
  convertToIEEE754 v = Some h -> sign h = (if SFltb v f_zero then 1 else 0).
Proof.
  unfold convertToIEEE754.
  set (rs := if SFltb v f_zero then 1 else 0).
  set (v' := if rs =? 1 then SFopp v else v).
  destruct (negb (SFeqb v' v')); [intros [= <-]; reflexivity |].
  destruct (SFeqb v' f_inf); [intros [= <-]; reflexivity |].
  destruct (SFeqb v' f_zero); [intros [= <-]; reflexivity |].
  destruct (SFfrexp prec32 emax32 v') as [fr ex].
  destruct (static_cast_uint16 _); [intros [= <-]; reflexivity | discriminate].
Qed.

Lemma SFeqb_finite_refl (s : bool) (m : positive) (ex : Z) :
  SFeqb (S754_finite s m ex) (S754_finite s m ex) = true.
Proof.
  unfold SFeqb, SFcompare. rewrite Z.compare_refl.
  assert (Hm : Pos.compare_cont Eq m m = Eq) by apply Pos.compare_refl.
  rewrite Hm. destruct s; reflexivity.
Qed.

(** The encoder on a positive finite value with frexp exponent at most 20. *)
Lemma convert_finite_defined (s : bool) (m : positive) (ex : Z) :
  Zpos (digits2_pos m) <= 24 -> -149 <= ex ->
  ex + Zpos (digits2_pos m) <= 20 ->
  exists h, convertToIEEE754 (S754_finite s m ex) = Some h.
Proof.
  intros Hd Hex Hmax. unfold convertToIEEE754.
  assert (Hlt : SFltb (S754_finite s m ex) f_zero = s) by (destruct s; reflexivity).
  rewrite Hlt.
  assert (Hv : (if (if s then 1 else 0) =? 1 then SFopp (S754_finite s m ex) else S754_finite s m ex)
               = S754_finite false m ex) by (destruct s; reflexivity).
  rewrite Hv. rewrite SFeqb_finite_refl. cbn [negb].
  change (SFeqb (S754_finite false m ex) f_inf) with false.
  change (SFeqb (S754_finite false m ex) f_zero) with false.
  cbv iota.
  assert (Hfr : exists m', SFfrexp prec32 emax32 (S754_finite false m ex)
                  = (S754_finite false m' (-24), ex + Zpos (digits2_pos m))
                  /\ digits2_pos m' = 24%positive).
  { unfold SFfrexp, prec32, emax32.
    destruct (24 <=? Zpos (digits2_pos m)) eqn:Hle.
    - apply Z.leb_le in Hle. exists m. split; [f_equal; lia | lia].
    - apply Z.leb_gt in Hle.
      exists (Pos.iter xO m (Z.to_pos (24 - Zpos (digits2_pos m)))). split.
      + f_equal. lia.
      + rewrite digits2_pos_iter_xO. lia. }
  destruct Hfr as (m' & -> & Hm').
  set (e := ex + Zpos (digits2_pos m)).
  set (exp := clamp e E_MIN E_MAX).
  set (k := MANTISSA + (if negb (exp =? E_MIN) then 1 else 0) + e - exp).
  assert (He : -148 <= e <= 20) by (unfold e; lia).
  assert (Hk : -125 <= k <= 16).
  { unfold k, exp, clamp, E_MIN, E_MAX, MANTISSA.
    destruct (Z.gtb_spec e (-14)); [destruct (Z.gtb_spec e 15) |];
      repeat match goal with
             | |- context [?a =? ?b] => destruct (Z.eqb_spec a b)
             end; cbn [negb]; lia. }
  rewrite SFldexp_exact by (assumption || lia).
  unfold static_cast_uint16, trunc_to_Z.
  replace (0 <=? k - 24) with false by (symmetry; apply Z.leb_gt; lia).
  pose proof (digits2_pos_bounds m') as [_ Hhi]. rewrite Hm' in Hhi.
  assert (Hsh : 0 <= Z.shiftr (Zpos m') (- (k - 24)) < 2 ^ 16).
  { rewrite Z.shiftr_div_pow2 by lia. split.
    - apply Z.div_pos; [lia | apply Z.pow_pos_nonneg; lia].
    - apply Z.div_lt_upper_bound; [apply Z.pow_pos_nonneg; lia |].
      rewrite <- Z.pow_add_r by lia.
      assert (2 ^ 24 <= 2 ^ (- (k - 24) + 16)) by (apply Z.pow_le_mono_r; lia). lia. }
  change ushort_max with 65535.
  replace ((0 <=? Z.shiftr (Zpos m') (- (k - 24))) && (Z.shiftr (Zpos m') (- (k - 24)) <=? 65535))
    with true.
  - eexists; reflexivity.
  - symmetry. apply andb_true_iff. split; [apply Z.leb_le | apply Z.leb_le]; lia.
Qed.

Lemma float_value_finite (f : IEEE754_float) :
  float_fields f -> f_e f <> 255 -> f_e f <> 0 \/ f_mantissa f <> 0 ->
  exists m ex,
    float_value f = S754_finite (f_sign f =? 1) m ex
    /\ Zpos (digits2_pos m) <= 24 /\ -149 <= ex
    /\ (f_e f <= 146 -> ex + Zpos (digits2_pos m) <= 20).
Proof.
  intros (Hm & He & Hs) Hfin Hnz. unfold float_value.
  destruct (Z.eqb_spec (f_e f) 255) as [| _]; [contradiction |].
  destruct (Z.eqb_spec (f_e f) 0) as [He0 | He0].
  - destruct (f_mantissa f) as [| m | m] eqn:Hman; [lia | | lia].
    exists m, (-149). split; [reflexivity |].
    pose proof (digits2_pos_bounds m) as [Dlo Dhi].
    assert (Hd : Zpos (digits2_pos m) <= 23).
    { destruct (Z.le_gt_cases (Zpos (digits2_pos m)) 23) as [Hle | Hgt]; [exact Hle |].
      assert (2 ^ 23 <= 2 ^ (Zpos (digits2_pos m) - 1)) by (apply Z.pow_le_mono_r; lia). lia. }
    lia.
  - destruct (f_mantissa f + 2 ^ 23) as [| m | m] eqn:Hman; [lia | | lia].
    exists m, (f_e f - 150). split; [reflexivity |].
    assert (Hd : Zpos (digits2_pos m) = 24).
    { apply digits2_pos_unique. rewrite <- Hman. change (2 ^ (24 - 1)) with (2 ^ 23).
      change (2 ^ 24) with (2 ^ 23 + 2 ^ 23). lia. }
    rewrite Hd. lia.
Qed.

Import HalfCast.

(** Where the encoder has a result, the code returns it whatever the
    out-of-range cast would yield; and the sign field never depends on the
    cast. *)
Lemma convert_with_agrees (cast : spec_float -> Z) (v : spec_float) (h : IEEE754_half) :
  convertToIEEE754 v = Some h -> convertToIEEE754_with cast v = h.
Proof.
  unfold convertToIEEE754, convertToIEEE754_with.
  set (rs := if SFltb v f_zero then 1 else 0).
  set (v' := if rs =? 1 then SFopp v else v).
  destruct (negb (SFeqb v' v')); [intros [= <-]; reflexivity |].
  destruct (SFeqb v' f_inf); [intros [= <-]; reflexivity |].
  destruct (SFeqb v' f_zero); [intros [= <-]; reflexivity |].
  destruct (SFfrexp prec32 emax32 v') as [fr ex].
  unfold static_cast_uint16_with.
  destruct (static_cast_uint16 _); [intros [= <-]; reflexivity | discriminate].
Qed.

Lemma convert_with_sign (cast : spec_float -> Z) (v : spec_float) :
  sign (convertToIEEE754_with cast v) = (if SFltb v f_zero then 1 else 0).
Proof.
  unfold convertToIEEE754_with.
  set (rs := if SFltb v f_zero then 1 else 0).
  set (v' := if rs =? 1 then SFopp v else v).
  destruct (negb (SFeqb v' v')); [reflexivity |].
  destruct (SFeqb v' f_inf); [reflexivity |].
  destruct (SFeqb v' f_zero); [reflexivity |].
  destruct (SFfrexp prec32 emax32 v') as [fr ex]. reflexivity.
Qed.

(** C9, as amended: a NaN input encodes with exponent field 31, all ten
    mantissa bits set and sign bit 0; an infinite input encodes with
    exponent field 31, zero mantissa and its own sign bit; decoding gives
    back NaN and the infinity of the same sign; and for every finite
    non-zero input the sign bit of the encoding is the sign bit of the
    input: the encoding is defined for every magnitude below 2^20, and
    from there on, where the cast of the scaled mantissa to [uint16_t] is
    out of range, the half the code returns has the sign bit of the input
    whatever that cast yields. *)
Theorem half_float_special_values :
  forall f : IEEE754_float,
    float_fields f ->
    (f_e f = 255 -> f_mantissa f <> 0 ->
       Ieee754.convertToIEEE754 (float_value f)
         = Some {| Ieee754.mantissa := 2 ^ 10 - 1; Ieee754.e := 31; Ieee754.sign := 0 |}
       /\ Ieee754.convertToFloat
            {| Ieee754.mantissa := 2 ^ 10 - 1; Ieee754.e := 31; Ieee754.sign := 0 |} = S754_nan)
    /\ (f_e f = 255 -> f_mantissa f = 0 ->
       Ieee754.convertToIEEE754 (float_value f)
         = Some {| Ieee754.mantissa := 0; Ieee754.e := 31; Ieee754.sign := f_sign f |}
       /\ Ieee754.convertToFloat
            {| Ieee754.mantissa := 0; Ieee754.e := 31; Ieee754.sign := f_sign f |}
          = float_value f)
    /\ (f_e f <> 255 -> f_e f <> 0 \/ f_mantissa f <> 0 ->
       (forall h, Ieee754.convertToIEEE754 (float_value f) = Some h ->
                  Ieee754.sign h = f_sign f)
       /\ (f_e f <= 146 ->
             exists h, Ieee754.convertToIEEE754 (float_value f) = Some h
                       /\ Ieee754.sign h = f_sign f)
       /\ (forall cast,
             Ieee754.sign (convertToIEEE754_with cast (float_value f)) = f_sign f
             /\ forall h, Ieee754.convertToIEEE754 (float_value f) = Some h ->
                          convertToIEEE754_with cast (float_value f) = h)).
Proof.
  intros f Hf. pose proof Hf as (Hm & He & Hs).
  assert (Hsign : (if f_sign f =? 1 then 1 else 0) = f_sign f).
  { destruct (Z.eqb_spec (f_sign f) 1); lia. }
  split; [| split].
  - intros H255 Hnz. unfold float_value. rewrite H255. cbn [Z.eqb Pos.eqb].
    destruct (Z.eqb_spec (f_mantissa f) 0); [contradiction |]. split; reflexivity.
  - intros H255 Hz. unfold float_value. rewrite H255, Hz. cbn [Z.eqb Pos.eqb].
    assert (Hcase : f_sign f = 0 \/ f_sign f = 1) by lia.
    destruct Hcase as [-> | ->]; split; reflexivity.
  - intros Hfin Hnz.
    destruct (float_value_finite f Hf Hfin Hnz) as (m & ex & Hv & Hd & Hex & Hsum).
    rewrite Hv.
    assert (Hlt : SFltb (S754_finite (f_sign f =? 1) m ex) f_zero = (f_sign f =? 1)).
    { destruct (f_sign f =? 1); reflexivity. }
    assert (Hpart : forall h,
               Ieee754.convertToIEEE754 (S754_finite (f_sign f =? 1) m ex) = Some h ->
               Ieee754.sign h = f_sign f).
    { intros h Hh. apply convert_sign in Hh. rewrite Hh, Hlt. exact Hsign. }
    split; [exact Hpart | split].
    + intros Hmax.
      destruct (convert_finite_defined (f_sign f =? 1) m ex Hd Hex (Hsum Hmax)) as [h Hh].
      exists h. split; [exact Hh | exact (Hpart h Hh)].
    + intros cast. split.
      * rewrite convert_with_sign, Hlt. exact Hsign.
      * intros h Hh. apply convert_with_agrees. exact Hh.
Qed.

(** The theorem at minus infinity, [0xFF800000], at -1.5, [0xBFC00000],
    and at -2^21, [0xCA000000], where the cast is out of range. *)
Lemma half_float_special_values_witness :
  float_fields (float_of_binary 0xFF800000)
  /\ Ieee754.convertToIEEE754 (float_value (float_of_binary 0xFF800000))
     = Some {| Ieee754.mantissa := 0; Ieee754.e := 31; Ieee754.sign := 1 |}
  /\ float_fields (float_of_binary 0xBFC00000)
  /\ (exists h, Ieee754.convertToIEEE754 (float_value (float_of_binary 0xBFC00000)) = Some h
                /\ Ieee754.sign h = 1)
  /\ float_fields (float_of_binary 0xCA000000)
  /\ Ieee754.convertToIEEE754 (float_value (float_of_binary 0xCA000000)) = None
  /\ forall cast,
       Ieee754.sign (convertToIEEE754_with cast (float_value (float_of_binary 0xCA000000))) = 1.
Proof.
  assert (Hf : float_fields (float_of_binary 0xFF800000)).
  { unfold float_fields. repeat split; vm_compute; congruence. }
  assert (Hg : float_fields (float_of_binary 0xBFC00000)).
  { unfold float_fields. repeat split; vm_compute; congruence. }
  assert (Hk : float_fields (float_of_binary 0xCA000000)).
  { unfold float_fields. repeat split; vm_compute; congruence. }
  split; [exact Hf |]. split.
  { destruct (half_float_special_values (float_of_binary 0xFF800000) Hf) as (_ & Hinf & _).
    apply Hinf; reflexivity. }
  split; [exact Hg |]. split.
  { destruct (half_float_special_values (float_of_binary 0xBFC00000) Hg) as (_ & _ & Hfin).
    destruct (Hfin ltac:(vm_compute; discriminate) ltac:(left; vm_compute; discriminate))
      as (_ & Hdef & _).
    apply Hdef. vm_compute. discriminate. }
  split; [exact Hk |]. split; [vm_compute; reflexivity |].
  intros cast.
  destruct (half_float_special_values (float_of_binary 0xCA000000) Hk) as (_ & _ & Hfin).
  destruct (Hfin ltac:(vm_compute; discriminate) ltac:(left; vm_compute; discriminate))
    as (_ & _ & Hcast).
  exact (proj1 (Hcast cast)).
Defined.

(** C9 as stated fails: negative zero, [0x80000000], and the NaN
    [0xFFC00000] have their sign bit set, and both encode with sign bit 0. *)
Lemma half_float_sign_bit_lost :
  f_sign (float_of_binary 0x80000000) = 1
  /\ Ieee754.convertToIEEE754 (float_value (float_of_binary 0x80000000))
     = Some {| Ieee754.mantissa := 0; Ieee754.e := 0; Ieee754.sign := 0 |}
  /\ f_sign (float_of_binary 0xFFC00000) = 1
  /\ Ieee754.convertToIEEE754 (float_value (float_of_binary 0xFFC00000))
     = Some {| Ieee754.mantissa := 1023; Ieee754.e := 31; Ieee754.sign := 0 |}.
Proof. repeat split. Qed.

(** ** The scene flattener (Main.cpp, loadTree) *)

Lemma to_int_small (z : Z) : - 2 ^ 31 <= z < 2 ^ 31 -> to_int z = z.
Proof. intros Hz. unfold to_int. rewrite Z.mod_small; lia. Qed.

Lemma to_uint_small (z : Z) : 0 <= z < 2 ^ 32 -> to_uint z = z.
Proof. intros Hz. unfold to_uint. apply Z.mod_small. lia. Qed.

Lemma uadd_small (a b : Z) : 0 <= a + b < 2 ^ 31 -> uadd a b = a + b.
Proof.
  intros Hab. unfold uadd. rewrite to_uint_small by lia. apply to_int_small. lia.
Qed.

Lemma lookupZ_updateZ_eq {A : Type} (l : list A) (i : Z) (a : A) :
  0 <= i < Z.of_nat (length l) -> lookupZ (updateZ l i a) i = Some a.
Proof.
  intros Hi. unfold lookupZ, updateZ.
  destruct (Z.ltb_spec i 0); [lia |].
  apply list_lookup_insert_eq. lia.
Qed.

Lemma lookupZ_updateZ_ne {A : Type} (l : list A) (i j : Z) (a : A) :
  i <> j -> lookupZ (updateZ l i a) j = lookupZ l j.
Proof.
  intros Hij. unfold lookupZ, updateZ.
  destruct (Z.ltb_spec j 0); [reflexivity |].
  destruct (Z.ltb_spec i 0); [reflexivity |].
  apply list_lookup_insert_ne. lia.
Qed.

Lemma node_at_put_eq (ns : list (option aiNode * Z)) (cur : Z) (n : aiNode) (c : Z) :
  0 <= cur -> node_at (nodes_put ns cur (Some n, c)) cur = Some (n, c).
Proof.
  intros Hcur. unfold node_at, nodes_put.
  rewrite lookupZ_updateZ_eq; [reflexivity |].
  destruct (Z.leb_spec (Z.of_nat (length ns)) cur).
  - rewrite length_app, length_replicate. lia.
  - lia.
Qed.

Lemma node_at_pad (ns : list (option aiNode * Z)) (k : nat) (j : Z) :
  node_at (ns ++ replicate k (None, 0)) j = node_at ns j.
Proof.
  unfold node_at, lookupZ. destruct (Z.ltb_spec j 0); [reflexivity |].
  destruct (Nat.lt_ge_cases (Z.to_nat j) (length ns)) as [Hlt | Hge].
  - rewrite lookup_app_l by exact Hlt. reflexivity.
  - rewrite lookup_app_r by exact Hge.
    rewrite (lookup_ge_None_2 ns) by exact Hge.
    destruct (replicate k (None, 0) !! (Z.to_nat j - length ns)%nat) as [[o c] |] eqn:Hr;
      [| reflexivity].
    apply lookup_replicate in Hr as [[= -> ->] _]. reflexivity.
Qed.

Lemma node_at_put_ne (ns : list (option aiNode * Z)) (cur j : Z) (p : option aiNode * Z) :
  j <> cur -> node_at (nodes_put ns cur p) j = node_at ns j.
Proof.
  intros Hne. unfold nodes_put.
  assert (Hupd : forall l, node_at (updateZ l cur p) j = node_at l j).
  { intros l. unfold node_at. rewrite lookupZ_updateZ_ne by congruence. reflexivity. }
  rewrite Hupd. destruct (Z.of_nat (length ns) <=? cur); [apply node_at_pad | reflexivity].
Qed.

Lemma descendants_nonneg (n : aiNode) : 0 <= descendants n.
Proof.
  induction n as [n IH] using aiNode_children_ind.
  destruct n as [nm t ms cs]. cbn [descendants mChildren] in *.
  induction IH as [| c rest Hc _ IHrest]; cbn [fold_right]; lia.
Qed.

Lemma sum_desc_nonneg (cs : list aiNode) : 0 <= sum_desc cs.
Proof.
  induction cs as [| c rest IH]; cbn [sum_desc fold_right]; [lia |].
  pose proof (descendants_nonneg c). unfold sum_desc in IH. lia.
Qed.

Lemma descendants_children (n : aiNode) :
  descendants n = mNumChildren n + sum_desc (mChildren n).
Proof.
  destruct n as [nm t ms cs]. unfold mNumChildren. cbn [descendants mChildren].
  induction cs as [| c rest IH]; [reflexivity |].
  cbn [fold_right sum_desc length]. unfold sum_desc in IH. rewrite IH. lia.
Qed.

Lemma entry_ok_widen (ns ns' : list (option aiNode * Z)) (lo hi lo' hi' j : Z) :
  entry_ok ns lo hi j -> node_at ns' j = node_at ns j -> lo' <= lo -> hi <= hi' ->
  entry_ok ns' lo' hi' j.
Proof.
  intros (n & c & Hat & Hjc & Hlo & Hhi) Heq Hl Hh.
  exists n, c. rewrite Heq. repeat split; [exact Hat | lia | lia | lia].
Qed.

Lemma loadChildren_spec (children : list aiNode) :
  Forall tree_spec children ->
  forall (childIdx i : Z) (st : TreeState) (ret : option aiNode),
    0 <= childIdx -> 0 <= i ->
    childIdx + i + Z.of_nat (length children) <= tree_index st ->
    tree_index st + sum_desc children < 2 ^ 31 ->
    children_post childIdx i children st
      (fst (loadChildren (fun child c s => loadTree child c s) childIdx children i (st, ret))).
Proof.
  induction 1 as [| child rest Hchild _ IH]; intros childIdx i st ret HcI Hi Hres Hmax.
  - cbn [loadChildren fst]. unfold children_post. cbn [length sum_desc fold_right].
    repeat split.
    + lia.
    + intros j Hj. lia.
    + intros j1 j2 n1 c1 n2 c2 H1. lia.
  - cbn [loadChildren]. cbn [length sum_desc fold_right] in Hres, Hmax.
    fold (sum_desc rest) in Hmax.
    pose proof (descendants_nonneg child) as Hdc.
    pose proof (sum_desc_nonneg rest) as Hdr.
    rewrite uadd_small by lia.
    specialize (Hchild (childIdx + i) st ltac:(lia) ltac:(lia)).
    destruct (loadTree child (childIdx + i) st) as [st1 r] eqn:Hload. cbn [fst] in Hchild.
    destruct Hchild as (Hidx1 & _ & Hframe1 & Hok1 & Hapart1).
    specialize (IH childIdx (i + 1) st1
                  (match ret with Some _ => ret | None => r end)
                  ltac:(lia) ltac:(lia) ltac:(lia) ltac:(lia)).
    set (st' := fst (loadChildren _ childIdx rest (i + 1) (st1, _))) in *.
    destruct IH as (Hidx' & Hframe' & Hok' & Hapart').
    unfold children_post. cbn [length sum_desc fold_right]. fold (sum_desc rest).
    cbv zeta in *.
    assert (Hkeep : forall j, j = childIdx + i \/ tree_index st <= j < tree_index st1 ->
                      node_at (nodes st') j = node_at (nodes st1) j).
    { intros j Hj. apply Hframe'; lia. }
    repeat split.
    + lia.
    + intros j Hj1 Hj2. rewrite Hframe' by lia. apply Hframe1; lia.
    + intros j Hj.
      destruct (Z.eq_dec j (childIdx + i)) as [-> | Hne].
      { eapply entry_ok_widen; [apply Hok1; lia | apply Hkeep; lia | lia | lia]. }
      destruct (Z_lt_le_dec j (tree_index st1)) as [Hlt | Hge].
      * destruct (Z_lt_le_dec j (tree_index st)) as [Hlt2 | Hge2].
        -- eapply entry_ok_widen; [apply Hok'; lia | reflexivity | lia | lia].
        -- eapply entry_ok_widen; [apply Hok1; lia | apply Hkeep; lia | lia | lia].
      * eapply entry_ok_widen; [apply Hok'; lia | reflexivity | lia | lia].
    + intros j1 j2 n1 c1 n2 c2 Hw1 Hw2 Hne Hat1 Hat2.
      (* classify each index: in the child's part or in the rest's part *)
      assert (Hclass : forall j, (childIdx + i <= j < childIdx + i + Z.of_nat (S (length rest))
                                  \/ tree_index st <= j < tree_index st') ->
                (j = childIdx + i \/ tree_index st <= j < tree_index st1)
                \/ (childIdx + (i + 1) <= j < childIdx + (i + 1) + Z.of_nat (length rest)
                    \/ tree_index st1 <= j < tree_index st')) by (intros j Hj; lia).
      destruct (Hclass j1 Hw1) as [Ha1 | Hb1]; destruct (Hclass j2 Hw2) as [Ha2 | Hb2].
      * rewrite Hkeep in Hat1, Hat2 by assumption.
        exact (Hapart1 j1 j2 n1 c1 n2 c2 Ha1 Ha2 Hne Hat1 Hat2).
      * rewrite Hkeep in Hat1 by assumption.
        destruct (Hok1 j1 Ha1) as (n & c & Hn & _ & _ & Hhi). rewrite Hat1 in Hn.
        injection Hn as <- <-.
        destruct (Hok' j2 Hb2) as (n & c & Hn & _ & Hlo & _). rewrite Hat2 in Hn.
        injection Hn as <- <-. lia.
      * rewrite Hkeep in Hat2 by assumption.
        destruct (Hok1 j2 Ha2) as (n & c & Hn & _ & _ & Hhi). rewrite Hat2 in Hn.
        injection Hn as <- <-.
        destruct (Hok' j1 Hb1) as (n & c & Hn & _ & Hlo & _). rewrite Hat1 in Hn.
        injection Hn as <- <-. lia.
      * exact (Hapart' j1 j2 n1 c1 n2 c2 Hb1 Hb2 Hne Hat1 Hat2).
Qed.

Lemma loadTree_spec (node : aiNode) : tree_spec node.
Proof.
  induction node as [node IH] using aiNode_children_ind.
  intros cur st Hcur Hmax.
  pose proof (descendants_children node) as Hdesc.
  pose proof (sum_desc_nonneg (mChildren node)) as Hsum.
  assert (Hlen : 0 <= mNumChildren node) by (unfold mNumChildren; lia).
  destruct node as [nm t ms cs]. cbn [loadTree]. cbn [mChildren] in *.
  set (len := mNumChildren (Build_aiNode nm t ms cs)) in *.
  rewrite (to_int_small len) by lia.
  rewrite (to_int_small (tree_index st + len)) by lia.
  set (st1 := {| nodes := nodes_put (nodes st) cur (Some (Build_aiNode nm t ms cs), tree_index st);
                 tree_index := tree_index st + len;
                 node_map := _ |}).
  pose proof (loadChildren_spec cs IH (tree_index st) 0 st1 None
                ltac:(lia) ltac:(lia)) as Hloop.
  cbn [tree_index st1] in Hloop. fold len in Hloop.
  assert (Hlencs : Z.of_nat (length cs) = len) by reflexivity.
  specialize (Hloop ltac:(unfold st1; cbn [tree_index]; lia)
                    ltac:(unfold st1; cbn [tree_index]; lia)).
  set (st' := fst (loadChildren _ (tree_index st) cs 0 (st1, None))) in *.
  destruct Hloop as (Hidx' & Hframe' & Hok' & Hapart').
  cbv zeta in *. unfold st1 in Hidx', Hframe', Hok', Hapart'. cbn [tree_index nodes] in *.
  rewrite Hlencs in *.
  assert (Hroot : node_at (nodes st') cur = Some (Build_aiNode nm t ms cs, tree_index st)).
  { rewrite Hframe' by lia. apply node_at_put_eq. lia. }
  unfold tree_post. repeat split.
  - lia.
  - exact Hroot.
  - intros j Hj1 Hj2. rewrite Hframe' by lia. apply node_at_put_ne. exact Hj1.
  - intros j Hj. destruct (Z.eq_dec j cur) as [-> | Hne].
    + exists (Build_aiNode nm t ms cs), (tree_index st). fold len.
      repeat split; [exact Hroot | lia | lia | lia].
    + eapply entry_ok_widen; [apply Hok'; lia | reflexivity | lia | lia].
  - intros j1 j2 n1 c1 n2 c2 Hw1 Hw2 Hne Hat1 Hat2.
    destruct (Z.eq_dec j1 cur) as [-> | Hne1]; destruct (Z.eq_dec j2 cur) as [-> | Hne2].
    + contradiction.
    + rewrite Hroot in Hat1. injection Hat1 as <- <-.
      destruct (Hok' j2 ltac:(lia)) as (n & c & Hn & _ & Hlo & _). rewrite Hat2 in Hn.
      injection Hn as <- <-. fold len. lia.
    + rewrite Hroot in Hat2. injection Hat2 as <- <-.
      destruct (Hok' j1 ltac:(lia)) as (n & c & Hn & _ & Hlo & _). rewrite Hat1 in Hn.
      injection Hn as <- <-. fold len. lia.
    + apply (Hapart' j1 j2 n1 c1 n2 c2); [lia | lia | exact Hne | exact Hat1 | exact Hat2].
Qed.

Lemma node_at_nil (j : Z) : node_at [] j = None.
Proof.
  unfold node_at, lookupZ. destruct (j <? 0); [reflexivity |].
  rewrite lookup_nil. reflexivity.
Qed.

(** C8, as amended: in the array [loadTree] builds for a tree of fewer
    than 2^31 nodes, the root is at index 0 with its child block at 1, the
    child-block start recorded for a node is strictly greater than the
    node's own index, and no two nodes that have children share a
    child-block start. *)
Theorem flatten_child_blocks :
  forall root : aiNode,
    tree_size root < 2 ^ 31 ->
    node_at (flatten root) 0 = Some (root, 1)
    /\ (forall j n c, node_at (flatten root) j = Some (n, c) -> j < c)
    /\ (forall j1 j2 n1 c1 n2 c2,
          j1 <> j2 ->
          node_at (flatten root) j1 = Some (n1, c1) ->
          node_at (flatten root) j2 = Some (n2, c2) ->
          0 < mNumChildren n1 -> 0 < mNumChildren n2 -> c1 <> c2).
Proof.
  intros root Hsize. unfold tree_size in Hsize. unfold flatten.
  set (st0 := {| nodes := []; tree_index := 1; node_map := ∅ |}).
  pose proof (loadTree_spec root 0 st0 ltac:(cbn; lia) ltac:(cbn; lia)) as Hpost.
  set (st' := fst (loadTree root 0 st0)) in *.
  destruct Hpost as (Hidx & Hroot & Hframe & Hok & Hapart). cbn [tree_index nodes st0] in *.
  assert (Hin : forall j n c, node_at (nodes st') j = Some (n, c) ->
                  j = 0 \/ 1 <= j < tree_index st').
  { intros j n c Hat.
    destruct (Z.eq_dec j 0) as [-> | Hne]; [left; reflexivity |].
    destruct (Z_lt_le_dec j 1) as [Hlt | Hge];
      [| destruct (Z_lt_le_dec j (tree_index st')) as [Hlt' | Hge']; [right; lia |]].
    - rewrite Hframe in Hat by lia. rewrite node_at_nil in Hat. discriminate.
    - rewrite Hframe in Hat by lia. rewrite node_at_nil in Hat. discriminate. }
  split; [| split].
  - exact Hroot.
  - intros j n c Hat. destruct (Hok j (Hin j n c Hat)) as (n' & c' & Hn & Hjc & _).
    rewrite Hat in Hn. injection Hn as <- <-. exact Hjc.
  - intros j1 j2 n1 c1 n2 c2 Hne Hat1 Hat2 Hl1 Hl2 Heq.
    destruct (Hapart j1 j2 n1 c1 n2 c2 (Hin _ _ _ Hat1) (Hin _ _ _ Hat2) Hne Hat1 Hat2); lia.
Qed.

(** The theorem at a root with an inner node and three leaves. *)
Lemma flatten_child_blocks_witness :
  tree_size small_tree < 2 ^ 31
  /\ node_at (flatten small_tree) 0 = Some (small_tree, 1)
  /\ (forall j n c, node_at (flatten small_tree) j = Some (n, c) -> j < c)
  /\ (forall j1 j2 n1 c1 n2 c2,
        j1 <> j2 ->
        node_at (flatten small_tree) j1 = Some (n1, c1) ->
        node_at (flatten small_tree) j2 = Some (n2, c2) ->
        0 < mNumChildren n1 -> 0 < mNumChildren n2 -> c1 <> c2).
Proof.
  assert (Hsize : tree_size small_tree < 2 ^ 31) by (vm_compute; reflexivity).
  split; [exact Hsize | exact (flatten_child_blocks small_tree Hsize)].
Defined.

(** C8 as stated fails: under a root with two leaves, both leaves are
    recorded with the child-block start 3. *)
Lemma leaves_share_child_block_start :
  node_at (flatten two_leaves) 1 = Some (leaf "a", 3)
  /\ node_at (flatten two_leaves) 2 = Some (leaf "b", 3)
  /\ flatten two_leaves = [(Some two_leaves, 1); (Some (leaf "a"), 3); (Some (leaf "b"), 3)].
Proof. repeat split; vm_compute; reflexivity. Qed.

(** ** Key-frame compression (Main.cpp, writeVectorArray and writeQuatArray) *)

Section RetainedIndices.
Variable step : list Z -> Z -> list Z.
Hypothesis step_keeps_or_appends : forall ar i, step ar i = ar \/ step ar i = ar ++ [i].
Hypothesis step_first : step [] 0 = [0].

Lemma fold_upto_succ (n : Z) :
  0 <= n -> fold_left step (seqZ 0 (n + 1)) [] = step (fold_left step (seqZ 0 n) []) n.
Proof using Type.
  intros Hn. rewrite seqZ_app by lia. rewrite fold_left_app.
  change (seqZ (0 + n) 1) with [0 + n]. cbn [fold_left]. rewrite Z.add_0_l. reflexivity.
Qed.

Lemma fold_upto_bound (n : Z) :
  0 <= n -> forall i, In i (fold_left step (seqZ 0 n) []) -> 0 <= i < n.
Proof using step_keeps_or_appends.
  intros Hn. pattern n. apply natlike_ind; [| | exact Hn].
  - intros i Hi. cbn in Hi. contradiction.
  - intros m Hm IH i Hi. unfold Z.succ in Hi. rewrite fold_upto_succ in Hi by exact Hm.
    destruct (step_keeps_or_appends (fold_left step (seqZ 0 m) []) m) as [Heq | Heq];
      rewrite Heq in Hi.
    + apply IH in Hi. lia.
    + apply in_app_or in Hi as [Hi | [<- | []]]; [apply IH in Hi |]; lia.
Qed.

Lemma fold_upto_head (n : Z) :
  0 < n -> exists rest, fold_left step (seqZ 0 n) [] = 0 :: rest.
Proof using step_keeps_or_appends step_first.
  intros Hn. replace n with ((n - 1) + 1) by lia.
  assert (Hm : 0 <= n - 1) by lia. revert Hm. generalize (n - 1). clear n Hn.
  intros m Hm. pattern m. apply natlike_ind; [| | exact Hm].
  - exists []. cbn. exact step_first.
  - intros k Hk [rest IH]. unfold Z.succ. rewrite fold_upto_succ by lia. rewrite IH.
    destruct (step_keeps_or_appends (0 :: rest) (k + 1)) as [-> | ->];
      [exists rest | exists (rest ++ [k + 1])]; reflexivity.
Qed.

End RetainedIndices.

Lemma vector_step_cases (keys : list aiVectorKey) (count : Z) (ar : list Z) (i : Z) :
  vector_step keys count ar i = ar \/ vector_step keys count ar i = ar ++ [i].
Proof.
  unfold vector_step.
  destruct ((i >? 0) && (i <? to_uint (count - 1))).
  - destruct (equalsFuzzy3 _ _ _); [left | right]; reflexivity.
  - destruct ((i =? to_uint (count - 1)) && (i >? 0) && equalsFuzzy3 _ _ _);
      [left | right]; reflexivity.
Qed.

Lemma vector_step_first (keys : list aiVectorKey) (count : Z) :
  vector_step keys count [] 0 = [0].
Proof.
  unfold vector_step. cbn [Z.gtb Z.compare andb].
  rewrite andb_false_r. reflexivity.
Qed.

Lemma vector_step_last (keys : list aiVectorKey) (count : Z) (ar : list Z) :
  0 < count < 2 ^ 32 ->
  vector_step keys count ar (count - 1)
  = if (count - 1 >? 0)
       && equalsFuzzy3 (value3 (vkey keys (count - 1 - 1))) (value3 (vkey keys (count - 1)))
            f_0_00001
    then ar else ar ++ [count - 1].
Proof.
  intros Hc. unfold vector_step. rewrite (to_uint_small (count - 1)) by lia.
  rewrite Z.ltb_irrefl, andb_false_r, Z.eqb_refl. cbn [andb]. reflexivity.
Qed.

Lemma quat_step_cases `{AssimpMath} (keys : list aiQuatKey) (count : Z) (ar : list Z) (i : Z) :
  quat_step keys count ar i = ar \/ quat_step keys count ar i = ar ++ [i].
Proof.
  unfold quat_step.
  destruct ((i >? 0) && (i <? to_uint (count - 1))).
  - destruct (equalsFuzzyQ _ _ _); [left | right]; reflexivity.
  - destruct ((i =? to_uint (count - 1)) && (i >? 0) && equalsFuzzyQ _ _ _);
      [left | right]; reflexivity.
Qed.

Lemma quat_step_first `{AssimpMath} (keys : list aiQuatKey) (count : Z) :
  quat_step keys count [] 0 = [0].
Proof.
  unfold quat_step. cbn [Z.gtb Z.compare andb].
  rewrite andb_false_r. reflexivity.
Qed.

Lemma quat_step_last `{AssimpMath} (keys : list aiQuatKey) (count : Z) (ar : list Z) :
  0 < count < 2 ^ 32 ->
  quat_step keys count ar (count - 1)
  = if (count - 1 >? 0)
       && equalsFuzzyQ (qk_mValue (qkey keys (List.last ar 0))) (qk_mValue (qkey keys (count - 1)))
            f_0_00001
    then ar else ar ++ [count - 1].
Proof.
  intros Hc. unfold quat_step. rewrite (to_uint_small (count - 1)) by lia.
  rewrite Z.ltb_irrefl, andb_false_r, Z.eqb_refl. cbn [andb]. reflexivity.
Qed.

(** Membership of the last index, for any loop of that shape. *)
Lemma last_index_retained (step : list Z -> Z -> list Z) (count : Z) (close : bool) :
  (forall ar i, step ar i = ar \/ step ar i = ar ++ [i]) ->
  0 < count ->
  step (fold_left step (seqZ 0 (count - 1)) []) (count - 1)
    = (if (count - 1 >? 0) && close
       then fold_left step (seqZ 0 (count - 1)) []
       else fold_left step (seqZ 0 (count - 1)) [] ++ [count - 1]) ->
  In (count - 1) (fold_left step (seqZ 0 count) []) <-> ~ (1 < count /\ close = true).
Proof.
  intros Hcases Hc Hlast.
  replace (seqZ 0 count) with (seqZ 0 (count - 1 + 1)) by (f_equal; lia).
  rewrite fold_upto_succ by lia. rewrite Hlast.
  destruct (Z.gtb_spec (count - 1) 0) as [Hgt | Hle]; cbn [andb].
  - destruct close.
    + split.
      * intros Hin. apply (fold_upto_bound step Hcases) in Hin; lia.
      * intros Hno. exfalso. apply Hno. split; [lia | reflexivity].
    + split.
      * intros _ [_ Hf]. discriminate Hf.
      * intros _. apply in_or_app. right. left. reflexivity.
  - split.
    + intros _ [Hlt _]. lia.
    + intros _. apply in_or_app. right. left. reflexivity.
Qed.

(** C4, as amended: on every non-empty track the first sample is retained;
    the last sample is retained unless the track has at least two samples
    and the last one is within 1e-5, in every component, of the sample it
    is compared with (the sample before it on a vector track, the last
    sample retained before it on a quaternion track). *)
Theorem first_kept_last_kept_unless_close :
  forall (M : AssimpMath) (vkeys : list aiVectorKey) (qkeys : list aiQuatKey),
    let vcount := Z.of_nat (length vkeys) in
    let qcount := Z.of_nat (length qkeys) in
    0 < vcount < 2 ^ 32 ->
    0 < qcount < 2 ^ 32 ->
    (exists rest, vector_ar vkeys = 0 :: rest)
    /\ (In (vcount - 1) (vector_ar vkeys) <->
        ~ (1 < vcount
           /\ equalsFuzzy3 (value3 (vkey vkeys (vcount - 2))) (value3 (vkey vkeys (vcount - 1)))
                f_0_00001 = true))
    /\ (exists rest, quat_ar qkeys = 0 :: rest)
    /\ (In (qcount - 1) (quat_ar qkeys) <->
        ~ (1 < qcount
           /\ equalsFuzzyQ
                (qk_mValue (qkey qkeys (List.last (quat_ar_upto qkeys (qcount - 1)) 0)))
                (qk_mValue (qkey qkeys (qcount - 1))) f_0_00001 = true)).
Proof.
  intros M vkeys qkeys vcount qcount Hv Hq.
  split; [| split; [| split]].
  - apply fold_upto_head; [apply vector_step_cases | apply vector_step_first | lia].
  - apply last_index_retained; [apply vector_step_cases | lia |].
    rewrite vector_step_last by exact Hv.
    replace (vcount - 1 - 1) with (vcount - 2) by lia. reflexivity.
  - apply fold_upto_head; [apply quat_step_cases | apply quat_step_first | lia].
  - apply last_index_retained; [apply quat_step_cases | lia |].
    rewrite quat_step_last by exact Hq. reflexivity.
Qed.

(** The theorem at two tracks of two different samples each. *)
Lemma first_kept_last_kept_unless_close_witness :
  0 < Z.of_nat (length moving_track) < 2 ^ 32
  /\ 0 < Z.of_nat (length moving_rotations) < 2 ^ 32
  /\ (exists rest, vector_ar moving_track = 0 :: rest)
  /\ In 1 (vector_ar moving_track)
  /\ (exists rest, @quat_ar sample_math moving_rotations = 0 :: rest)
  /\ In 1 (@quat_ar sample_math moving_rotations).
Proof.
  assert (Hv : 0 < Z.of_nat (length moving_track) < 2 ^ 32)
    by (unfold moving_track; cbn [length]; lia).
  assert (Hq : 0 < Z.of_nat (length moving_rotations) < 2 ^ 32)
    by (unfold moving_rotations; cbn [length]; lia).
  destruct (first_kept_last_kept_unless_close sample_math moving_track moving_rotations Hv Hq)
    as (Hv0 & Hvlast & Hq0 & Hqlast).
  split; [exact Hv | split; [exact Hq |]].
  split; [exact Hv0 | split; [| split; [exact Hq0 |]]].
  - apply Hvlast. intros [_ Hclose]. vm_compute in Hclose. discriminate Hclose.
  - apply Hqlast. intros [_ Hclose]. vm_compute in Hclose. discriminate Hclose.
Defined.

(** C4 as stated fails: of two equal samples only the first is retained,
    on a vector track and on a quaternion track alike. *)
Lemma equal_last_sample_is_dropped :
  length still_track = 2%nat
  /\ vector_ar still_track = [0]
  /\ ~ In 1 (vector_ar still_track)
  /\ length still_rotations = 2%nat
  /\ @quat_ar sample_math still_rotations = [0]
  /\ ~ In 1 (@quat_ar sample_math still_rotations).
Proof.
  assert (Hv : vector_ar still_track = [0]) by (vm_compute; reflexivity).
  assert (Hq : @quat_ar sample_math still_rotations = [0]) by (vm_compute; reflexivity).
  rewrite Hv, Hq.
  repeat split; try reflexivity; intros [Hin | []]; discriminate Hin.
Qed.

(** C5, the vector path at [jitter_track]: sample 1 is dropped, and sample
    2 is then tested between the dropped sample 1 and sample 3 and dropped as
    well, where the rule of the specification (last retained sample 0,
    next sample 3) retains it.  The last-sample test is the same in both. *)
Theorem vector_track_tests_against_raw_previous :
  vector_ar jitter_track = [0; 3]
  /\ retained_prev_ar jitter_track = [0; 2; 3]
  /\ vector_ar_upto jitter_track 2 = [0].
Proof. repeat split; vm_compute; reflexivity. Qed.

(** ** Animation blocks (Main.cpp, loadAnimation) *)

Lemma fold_left_appender {A : Type} (h : list item -> A -> list item) :
  (forall a file, h file a = file ++ h [] a) ->
  forall l file, fold_left h l file = file ++ fold_left h l [].
Proof.
  intros Hh l. induction l as [| a l IH]; intros file; cbn [fold_left].
  - rewrite app_nil_r. reflexivity.
  - rewrite (IH (h file a)), (IH (h [] a)), (Hh a file). rewrite app_assoc. reflexivity.
Qed.

Lemma writeVectorArray_appends (file : list item) (keys : list aiVectorKey) :
  writeVectorArray file keys = file ++ writeVectorArray [] keys.
Proof.
  unfold writeVectorArray.
  rewrite fold_left_appender with (file := writeInt file _).
  - rewrite fold_left_appender with (file := writeInt [] _).
    + unfold writeInt. rewrite <- !app_assoc. reflexivity.
    + intros i f. unfold writeFloat. rewrite <- !app_assoc. reflexivity.
  - intros i f. unfold writeFloat. rewrite <- !app_assoc. reflexivity.
Qed.

Lemma writeQuatArray_appends `{AssimpMath} (file : list item) (keys : list aiQuatKey) :
  writeQuatArray file keys = file ++ writeQuatArray [] keys.
Proof.
  unfold writeQuatArray.
  rewrite fold_left_appender with (file := writeInt file _).
  - rewrite fold_left_appender with (file := writeInt [] _).
    + unfold writeInt. rewrite <- !app_assoc. reflexivity.
    + intros i f. unfold writeFloat. rewrite <- !app_assoc. reflexivity.
  - intros i f. unfold writeFloat. rewrite <- !app_assoc. reflexivity.
Qed.

Lemma load_channel_appends `{AssimpMath} (NO_SCALE : bool) (nmap : gmap string Z)
    (n : aiNodeAnim) (file : list item) :
  load_channel NO_SCALE nmap file n = file ++ load_channel NO_SCALE nmap [] n.
Proof.
  unfold load_channel. destruct (nmap !! mNodeName n) as [second |].
  - destruct NO_SCALE.
    + rewrite (writeQuatArray_appends (writeVectorArray _ _)).
      rewrite (writeVectorArray_appends (writeShort file _)).
      rewrite (writeQuatArray_appends (writeVectorArray (writeShort [] _) _)).
      rewrite (writeVectorArray_appends (writeShort [] _)).
      unfold writeFloat, writeInt, writeShort. rewrite <- !app_assoc. reflexivity.
    + rewrite (writeVectorArray_appends (writeQuatArray _ _)).
      rewrite (writeQuatArray_appends (writeVectorArray _ _)).
      rewrite (writeVectorArray_appends (writeShort file _)).
      rewrite (writeVectorArray_appends (writeQuatArray (writeVectorArray (writeShort [] _) _) _)).
      rewrite (writeQuatArray_appends (writeVectorArray (writeShort [] _) _)).
      rewrite (writeVectorArray_appends (writeShort [] _)).
      unfold writeShort. rewrite <- !app_assoc. reflexivity.
  - rewrite app_nil_r. reflexivity.
Qed.

Lemma channels_are_records `{AssimpMath} (NO_SCALE : bool) (nmap : gmap string Z)
    (channels : list aiNodeAnim) :
  fold_left (load_channel NO_SCALE nmap) channels []
  = concat (omap (fun n =>
                    match nmap !! mNodeName n with
                    | Some _ => Some (load_channel NO_SCALE nmap [] n)
                    | None => None
                    end) channels).
Proof.
  induction channels as [| n rest IH]; [reflexivity |].
  cbn [fold_left omap list_omap].
  rewrite fold_left_appender by (intros a f; apply load_channel_appends).
  rewrite IH. unfold load_channel at 1.
  destruct (nmap !! mNodeName n) as [second |] eqn:Hn.
  - cbn [concat]. f_equal. unfold load_channel. rewrite Hn. reflexivity.
  - reflexivity.
Qed.

(** An animation block is the header, whose last item is the channel
    count of the source animation, followed by the records of the channels
    the name map resolves. *)
Lemma loadAnimation_layout `{AssimpMath} (NO_SCALE : bool) (file : list item)
    (anim : aiAnimation) (nmap : gmap string Z) :
  loadAnimation NO_SCALE file anim nmap
  = file ++ animation_header anim ++ concat (channel_records NO_SCALE nmap anim).
Proof.
  unfold loadAnimation, channel_records.
  rewrite fold_left_appender by (intros a f; apply load_channel_appends).
  rewrite channels_are_records.
  unfold animation_header, writeInt, writeFloat, writeUTF, writeShort.
  rewrite <- !app_assoc. reflexivity.
Qed.

(** C1 at the animation [walk]: the channel for the mesh-bearing node
    [body] is dropped, one record follows the header, and the header's
    channel count is 2. *)
Theorem walk_channel_count_mismatch :
  forall M : AssimpMath,
    body_map !! "body"%string = None
    /\ loadAnimation false [] walk body_map
       = animation_header walk ++ concat (channel_records false body_map walk)
    /\ animation_header walk
       = [Short 4; Chars "walk"; FloatItem f32_one; Int 2]
    /\ length (channel_records false body_map walk) = 1%nat.
Proof.
  intros M. split; [vm_compute; reflexivity |].
  split; [apply (loadAnimation_layout false []) |].
  split; vm_compute; reflexivity.
Qed.

(** ** Bone slots (Main.cpp, loadMesh) *)

Lemma Zpos_iter_xO (m p : positive) : Zpos (Pos.iter xO m p) = Zpos m * 2 ^ Zpos p.
Proof.
  induction p as [| p IH] using Pos.peano_ind.
  - cbn [Pos.iter]. lia.
  - rewrite Pos.iter_succ, Pos2Z.inj_xO, IH, Pos2Z.inj_succ, Z.pow_succ_r by lia. lia.
Qed.

(** [(float)z] of a positive integer of at most 24 binary digits: the
    digits moved up to a 24-bit mantissa, nothing rounded. *)
Lemma f32_of_Z_pos (m : positive) :
  Zpos (digits2_pos m) <= 24 ->
  exists mz, f32_of_Z (Zpos m) = S754_finite false mz (Zpos (digits2_pos m) - 24)
             /\ Zpos mz = Zpos m * 2 ^ (24 - Zpos (digits2_pos m)).
Proof.
  intros Hd. unfold f32_of_Z, binary_normalize, binary_round, prec32, emax32.
  set (d := Zpos (digits2_pos m)) in *.
  assert (Hdpos : 0 < d) by (unfold d; lia).
  assert (Hf : fexp 24 128 (d + 0) = d - 24) by (unfold fexp, emin; lia).
  rewrite Hf. unfold shl_align.
  assert (Haux : forall mz, Zpos (digits2_pos mz) = 24 ->
            binary_round_aux 24 128 false (Zpos mz) (d - 24) loc_Exact
            = S754_finite false mz (d - 24)).
  { intros mz Hmz. unfold binary_round_aux, shr_fexp. cbn [Zdigits2]. rewrite Hmz.
    assert (Hf2 : fexp 24 128 (24 + (d - 24)) = d - 24) by (unfold fexp, emin; lia).
    rewrite Hf2, Z.sub_diag.
    cbn [shr_record_of_loc shr shr_m loc_of_shr_record round_nearest_even Zdigits2].
    rewrite Hmz, Hf2, Z.sub_diag. cbn [shr shr_m].
    replace (d - 24 <=? 128 - 24) with true by (symmetry; apply Z.leb_le; lia).
    reflexivity. }
  destruct (d - 24 - 0) as [| p | p] eqn:Hsub; [| lia |].
  - exists m. assert (d = 24) by lia. split.
    + replace 0 with (d - 24) at 1 by lia. apply Haux. lia.
    + replace (24 - d) with 0 by lia. lia.
  - exists (Pos.iter xO m p). split.
    + apply Haux. rewrite digits2_pos_iter_xO. fold d. lia.
    + rewrite Zpos_iter_xO. f_equal. f_equal. lia.
Qed.

Lemma f32_of_Z_trunc (z : Z) : 0 <= z < 2 ^ 24 -> trunc_to_Z (f32_of_Z z) = Some z.
Proof.
  intros Hz. destruct z as [| m | m]; [reflexivity | | lia].
  assert (Hd : Zpos (digits2_pos m) <= 24).
  { pose proof (digits2_pos_bounds m) as [Hlo _].
    destruct (Z.le_gt_cases (Zpos (digits2_pos m)) 24) as [Hle | Hgt]; [exact Hle |].
    assert (2 ^ 24 <= 2 ^ (Zpos (digits2_pos m) - 1)) by (apply Z.pow_le_mono_r; lia). lia. }
  destruct (f32_of_Z_pos m Hd) as (mz & -> & Hmz). unfold trunc_to_Z.
  set (d := Zpos (digits2_pos m)) in *.
  destruct (Z.leb_spec 0 (d - 24)) as [Hge | Hlt].
  - assert (d = 24) by lia. replace (d - 24) with 0 by lia.
    rewrite Z.shiftl_0_r, Hmz. replace (24 - d) with 0 by lia. f_equal. lia.
  - rewrite Z.shiftr_div_pow2 by lia. rewrite Hmz.
    replace (- (d - 24)) with (24 - d) by lia.
    rewrite Z.div_mul by (apply Z.pow_nonzero; lia). reflexivity.
Qed.

Lemma SFeqb_positive_finite (m1 m2 : positive) (e1 e2 : Z) :
  SFeqb (S754_finite false m1 e1) (S754_finite false m2 e2) = true -> e1 = e2 /\ m1 = m2.
Proof.
  unfold SFeqb, SFcompare.
  destruct (Z.compare_spec e1 e2) as [He | He | He]; try discriminate.
  destruct (Pos.compare_cont Eq m1 m2) eqn:Hm; try discriminate.
  intros _. split; [exact He |]. apply Pos.compare_eq. exact Hm.
Qed.

(** Distinct bone ids below 2^24 stay distinct as [float]s. *)
Lemma f32_of_Z_distinct (a b : Z) :
  0 <= a < 2 ^ 24 -> 0 <= b < 2 ^ 24 -> a <> b -> SFeqb (f32_of_Z a) (f32_of_Z b) = false.
Proof.
  intros Ha Hb Hab.
  pose proof (f32_of_Z_trunc a Ha) as Hta. pose proof (f32_of_Z_trunc b Hb) as Htb.
  destruct (SFeqb (f32_of_Z a) (f32_of_Z b)) eqn:Heq; [| reflexivity].
  exfalso. apply Hab.
  destruct (f32_of_Z a) as [sa | sa | | sa ma ea] eqn:Hfa;
    destruct (f32_of_Z b) as [sb | sb | | sb mb eb] eqn:Hfb;
    try discriminate.
  - cbn in Hta, Htb. congruence.
  - destruct sa, sb; discriminate Heq.
  - destruct sa, sb; discriminate Heq.
  - assert (sa = false /\ sb = false) as [-> ->].
    { destruct a as [| pa | pa]; [discriminate Hfa | | lia].
      destruct b as [| pb | pb]; [discriminate Hfb | | lia].
      split.
      - destruct (f32_of_Z_pos pa) as (mz & Hmz & _).
        { pose proof (digits2_pos_bounds pa) as [Hlo _].
          destruct (Z.le_gt_cases (Zpos (digits2_pos pa)) 24) as [Hle | Hgt]; [exact Hle |].
          assert (2 ^ 24 <= 2 ^ (Zpos (digits2_pos pa) - 1)) by (apply Z.pow_le_mono_r; lia).
          lia. }
        congruence.
      - destruct (f32_of_Z_pos pb) as (mz & Hmz & _).
        { pose proof (digits2_pos_bounds pb) as [Hlo _].
          destruct (Z.le_gt_cases (Zpos (digits2_pos pb)) 24) as [Hle | Hgt]; [exact Hle |].
          assert (2 ^ 24 <= 2 ^ (Zpos (digits2_pos pb) - 1)) by (apply Z.pow_le_mono_r; lia).
          lia. }
        congruence. }
    apply SFeqb_positive_finite in Heq as [-> ->]. congruence.
Qed.

Lemma find_slot_first_free {E : Type} `{Scalar E} (wt idx : vec4 E) (bidx : Z) :
  0 <= find_slot wt idx bidx <= 4
  /\ (forall c, 0 <= c < find_slot wt idx bidx -> slot_free wt idx bidx c = false)
  /\ (find_slot wt idx bidx < 4 -> slot_free wt idx bidx (find_slot wt idx bidx) = true).
Proof.
  unfold find_slot.
  destruct (slot_free wt idx bidx 0) eqn:H0;
    [| destruct (slot_free wt idx bidx 1) eqn:H1;
       [| destruct (slot_free wt idx bidx 2) eqn:H2;
          [| destruct (slot_free wt idx bidx 3) eqn:H3]]].
  all: split; [lia | split; [| first [intros _; assumption | lia]]].
  all: intros c Hc.
  all: assert (Hcase : c = 0 \/ c = 1 \/ c = 2 \/ c = 3) by lia.
  all: destruct Hcase as [-> | [-> | [-> | ->]]]; first [assumption | lia].
Qed.

(** What [load_weight] stores is [add_weight] on the slots it read. *)
Lemma load_weight_slots (bidx : Z) (st : GenState) (vw : aiVertexWeight) :
  load_weight bidx st vw
  = (let v := uadd (voff st) (mVertexId vw) in
     let s := (vb_get (vertices st) v BONE_IDX, vb_get (vertices st) v BONE_WEIGHT) in
     if find_slot (snd s) (fst s) bidx >=? 4 then st
     else with_vertices st
            (vb_set (vb_set (vertices st) v BONE_IDX (fst (add_weight s bidx (mWeight vw))))
                    v BONE_WEIGHT (snd (add_weight s bidx (mWeight vw))))).
Proof.
  unfold load_weight, add_weight. cbv zeta. cbn [fst snd].
  destruct (find_slot _ _ bidx >=? 4); reflexivity.
Qed.

(** C6, as amended: the slot a contribution uses is the first of the four
    whose weight is 0 or which already holds the bone id; with no such
    slot the contribution is dropped and the slots stay as they are; and a
    vertex that receives five contributions from distinct bones (ids
    below 2^24), the first four with a weight that is not zero, keeps
    exactly the first four. *)
Theorem bone_slot_assignment :
  (forall (wt idx : float4) (bidx : Z) (weight : spec_float),
      0 <= find_slot wt idx bidx <= 4
      /\ (forall c, 0 <= c < find_slot wt idx bidx -> slot_free wt idx bidx c = false)
      /\ (find_slot wt idx bidx < 4 ->
          slot_free wt idx bidx (find_slot wt idx bidx) = true
          /\ add_weight (idx, wt) bidx weight
             = (vec4_put idx (find_slot wt idx bidx) (f32_of_Z bidx),
                vec4_put wt (find_slot wt idx bidx) weight))
      /\ (find_slot wt idx bidx = 4 -> add_weight (idx, wt) bidx weight = (idx, wt)))
  /\ (forall (bidx : Z) (st : GenState) (vw : aiVertexWeight),
      let v := uadd (voff st) (mVertexId vw) in
      let s := (vb_get (vertices st) v BONE_IDX, vb_get (vertices st) v BONE_WEIGHT) in
      load_weight bidx st vw
      = if find_slot (snd s) (fst s) bidx >=? 4 then st
        else with_vertices st
               (vb_set (vb_set (vertices st) v BONE_IDX (fst (add_weight s bidx (mWeight vw))))
                       v BONE_WEIGHT (snd (add_weight s bidx (mWeight vw)))))
  /\ (forall (b1 b2 b3 b4 b5 : Z) (w1 w2 w3 w4 w5 : spec_float),
      Forall (fun b => 0 <= b < 2 ^ 24) [b1; b2; b3; b4; b5] ->
      NoDup [b1; b2; b3; b4; b5] ->
      Forall (fun w => SFeqb w f_zero = false) [w1; w2; w3; w4] ->
      fold_left contribute [(b1, w1); (b2, w2); (b3, w3); (b4, w4); (b5, w5)] no_slots
      = (make4 (f32_of_Z b1) (f32_of_Z b2) (f32_of_Z b3) (f32_of_Z b4), make4 w1 w2 w3 w4)).
Proof.
  split; [| split].
  - intros wt idx bidx weight.
    destruct (find_slot_first_free wt idx bidx) as (Hrange & Hbefore & Hfree).
    split; [exact Hrange | split; [exact Hbefore | split]].
    + intros Hlt. split; [apply Hfree; exact Hlt |].
      unfold add_weight. destruct (Z.geb_spec (find_slot wt idx bidx) 4); [lia | reflexivity].
    + intros H4. unfold add_weight. rewrite H4. reflexivity.
  - intros bidx st vw. apply load_weight_slots.
  - intros b1 b2 b3 b4 b5 w1 w2 w3 w4 w5 Hb Hnd Hw.
    repeat match goal with
           | H : Forall _ (_ :: _) |- _ => apply Forall_cons_1 in H as [? H]
           end.
    repeat match goal with
           | H : NoDup (_ :: _) |- _ => apply NoDup_cons in H as [? H]
           end.
    repeat match goal with
           | H : _ ∉ _ :: _ |- _ => apply not_elem_of_cons in H as [? H]
           end.
    assert (Hne12 : SFeqb (f32_of_Z b1) (f32_of_Z b2) = false) by (apply f32_of_Z_distinct; tauto).
    assert (Hne13 : SFeqb (f32_of_Z b1) (f32_of_Z b3) = false) by (apply f32_of_Z_distinct; tauto).
    assert (Hne14 : SFeqb (f32_of_Z b1) (f32_of_Z b4) = false) by (apply f32_of_Z_distinct; tauto).
    assert (Hne15 : SFeqb (f32_of_Z b1) (f32_of_Z b5) = false) by (apply f32_of_Z_distinct; tauto).
    assert (Hne23 : SFeqb (f32_of_Z b2) (f32_of_Z b3) = false) by (apply f32_of_Z_distinct; tauto).
    assert (Hne24 : SFeqb (f32_of_Z b2) (f32_of_Z b4) = false) by (apply f32_of_Z_distinct; tauto).
    assert (Hne25 : SFeqb (f32_of_Z b2) (f32_of_Z b5) = false) by (apply f32_of_Z_distinct; tauto).
    assert (Hne34 : SFeqb (f32_of_Z b3) (f32_of_Z b4) = false) by (apply f32_of_Z_distinct; tauto).
    assert (Hne35 : SFeqb (f32_of_Z b3) (f32_of_Z b5) = false) by (apply f32_of_Z_distinct; tauto).
    assert (Hne45 : SFeqb (f32_of_Z b4) (f32_of_Z b5) = false) by (apply f32_of_Z_distinct; tauto).
    assert (Hzero : SFeqb f_zero f_zero = true) by reflexivity.
    unfold no_slots, contribute. cbn [fold_left fst snd].
    unfold add_weight, find_slot, slot_free.
    cbn [vec4_get vec4_put vec4_x vec4_y vec4_z vec4_w Z.eqb Pos.eqb Z.geb Z.compare
         s_eqb s_zero s_of_uint float_Scalar].
    repeat (rewrite ?Hzero, ?Hne12, ?Hne13, ?Hne14, ?Hne15, ?Hne23, ?Hne24, ?Hne25, ?Hne34, ?Hne35, ?Hne45;
            repeat match goal with
                   | Hw : SFeqb ?w f_zero = false |- _ => rewrite !Hw
                   end;
            cbn [orb vec4_get vec4_put vec4_x vec4_y vec4_z vec4_w Z.eqb Pos.eqb Z.geb Z.compare
                 Pos.compare Pos.compare_cont]).
    reflexivity.
Qed.

(** The theorem at the bones 1 to 5, each with weight one half. *)
Lemma bone_slot_assignment_witness :
  Forall (fun b => 0 <= b < 2 ^ 24) [1; 2; 3; 4; 5]
  /\ NoDup [1; 2; 3; 4; 5]
  /\ Forall (fun w => SFeqb w f_zero = false) [half; half; half; half]
  /\ fold_left contribute [(1, half); (2, half); (3, half); (4, half); (5, half)] no_slots
     = (make4 (f32_of_Z 1) (f32_of_Z 2) (f32_of_Z 3) (f32_of_Z 4), make4 half half half half).
Proof.
  assert (Hb : Forall (fun b => 0 <= b < 2 ^ 24) [1; 2; 3; 4; 5])
    by (repeat constructor; lia).
  assert (Hnd : NoDup [1; 2; 3; 4; 5])
    by (refine (bool_decide_unpack _ _); vm_compute; exact I).
  assert (Hw : Forall (fun w => SFeqb w f_zero = false) [half; half; half; half])
    by (repeat constructor).
  split; [exact Hb | split; [exact Hnd | split; [exact Hw |]]].
  destruct bone_slot_assignment as (_ & _ & Hfive).
  exact (Hfive 1 2 3 4 5 half half half half half Hb Hnd Hw).
Defined.

(** C6 as stated fails: when the first of five contributions from
    distinct bones has weight 0, its slot is taken again, and the
    vertex keeps bones 2, 3, 4 and 5, not the first four. *)
Lemma zero_weight_slot_is_reused :
  NoDup [1; 2; 3; 4; 5]
  /\ fold_left contribute [(1, f_zero); (2, half); (3, half); (4, half); (5, half)] no_slots
     = (make4 (f32_of_Z 2) (f32_of_Z 3) (f32_of_Z 4) (f32_of_Z 5), make4 half half half half)
  /\ fst (fold_left contribute
            [(1, f_zero); (2, half); (3, half); (4, half); (5, half)] no_slots)
     <> make4 (f32_of_Z 1) (f32_of_Z 2) (f32_of_Z 3) (f32_of_Z 4).
Proof.
  split; [| split].
  - refine (bool_decide_unpack _ _). vm_compute. exact I.
  - vm_compute. reflexivity.
  - vm_compute. discriminate.
Qed.

(** ** The post-pass (Main.cpp, loadMesh) *)

Lemma lookupZ_Some_range {A : Type} (l : list A) (i : Z) (a : A) :
  lookupZ l i = Some a -> 0 <= i < Z.of_nat (length l).
Proof.
  unfold lookupZ. destruct (Z.ltb_spec i 0); [discriminate |].
  intros Hl. apply lookup_lt_Some in Hl. lia.
Qed.

Lemma getAttrib_setAttrib_4 (val : float4) : getAttrib (setAttrib 4 val) = val.
Proof. destruct val. reflexivity. Qed.

Lemma length_setAttrib_4 (val : float4) : length (setAttrib 4 val) = 4%nat.
Proof. reflexivity. Qed.

(** Reading back what [set] wrote to a four-cell attribute. *)
Lemma vb_get_set_same (vb : VertexBuffer) (v a : Z) (val : float4) (attrs : list (list spec_float))
    (cell : list spec_float) :
  lookupZ (vb_data vb) v = Some attrs -> lookupZ attrs a = Some cell -> length cell = 4%nat ->
  vb_get (vb_set vb v a val) v a = val.
Proof.
  intros Hv Ha Hlen. unfold vb_get, vb_set. cbn [vb_data]. rewrite Hv, Ha, Hlen.
  rewrite lookupZ_updateZ_eq by (eapply lookupZ_Some_range; exact Hv).
  rewrite lookupZ_updateZ_eq by (eapply lookupZ_Some_range; exact Ha).
  apply getAttrib_setAttrib_4.
Qed.

Lemma vb_get_set_other (vb : VertexBuffer) (v a a' : Z) (val : float4) :
  a <> a' -> vb_get (vb_set vb v a val) v a' = vb_get vb v a'.
Proof.
  intros Hne. unfold vb_get, vb_set. cbn [vb_data].
  destruct (lookupZ (vb_data vb) v) as [attrs |] eqn:Hv; [| rewrite Hv; reflexivity].
  destruct (lookupZ attrs a) as [cell |] eqn:Ha; [| rewrite Hv; reflexivity].
  rewrite lookupZ_updateZ_eq by (eapply lookupZ_Some_range; exact Hv).
  rewrite lookupZ_updateZ_ne by exact Hne. reflexivity.
Qed.

Lemma skinned_slot_set (vb : VertexBuffer) (v a : Z) (val : float4) :
  skinned_slot vb v -> a = BONE_IDX \/ a = BONE_WEIGHT -> skinned_slot (vb_set vb v a val) v.
Proof.
  intros (attrs & ci & cw & Hv & Hi & Hli & Hw & Hlw) Ha.
  unfold skinned_slot, vb_set. cbn [vb_data]. rewrite Hv.
  pose proof (lookupZ_Some_range _ _ _ Hv) as Hvr.
  destruct Ha as [-> | ->].
  - rewrite Hi, Hli. exists (updateZ attrs BONE_IDX (setAttrib 4 val)), (setAttrib 4 val), cw.
    rewrite lookupZ_updateZ_eq by exact Hvr.
    rewrite lookupZ_updateZ_eq by (eapply lookupZ_Some_range; exact Hi).
    rewrite lookupZ_updateZ_ne by discriminate.
    repeat split; [exact Hw | exact Hlw].
  - rewrite Hw, Hlw. exists (updateZ attrs BONE_WEIGHT (setAttrib 4 val)), ci, (setAttrib 4 val).
    rewrite lookupZ_updateZ_eq by exact Hvr.
    rewrite lookupZ_updateZ_eq by (eapply lookupZ_Some_range; exact Hw).
    rewrite lookupZ_updateZ_ne by discriminate.
    repeat split; [exact Hi | exact Hli].
Qed.

Lemma vb_get_set_skinned (vb : VertexBuffer) (v a : Z) (val : float4) :
  skinned_slot vb v -> a = BONE_IDX \/ a = BONE_WEIGHT -> vb_get (vb_set vb v a val) v a = val.
Proof.
  intros (attrs & ci & cw & Hv & Hi & Hli & Hw & Hlw) [-> | ->].
  - eapply vb_get_set_same; eassumption.
  - eapply vb_get_set_same; eassumption.
Qed.

Lemma getNodeBone_registers `{AssimpMath} (bs : gmap string Bone) (ix : Z) (nm : string)
    (t : aiMatrix4x4) :
  exists b, snd (fst (getNodeBone bs ix nm t)) !! nm = Some b
            /\ id b = fst (fst (getNodeBone bs ix nm t)).
Proof.
  unfold getNodeBone. destruct (bs !! nm) as [b |] eqn:Hb; cbn [fst snd].
  - exists b. split; [exact Hb | reflexivity].
  - eexists. split; [apply lookup_insert_eq | reflexivity].
Qed.

Lemma Qc_weights_sum_to_one (q : vec4 Qc) :
  weight_sum q <> Q2Qc 0 -> weight_sum (normalize_weights q) = Q2Qc 1.
Proof.
  destruct q as [x y z w]. unfold normalize_weights, weight_sum, vec4_div.
  cbn [vec4_x vec4_y vec4_z vec4_w s_add s_div Qc_Scalar]. intros Hs.
  field. exact Hs.
Qed.

Lemma Qc_weight_sum_nonzero (q : vec4 Qc) :
  (Q2Qc 0 <= vec4_x q)%Qc -> (Q2Qc 0 <= vec4_y q)%Qc -> (Q2Qc 0 <= vec4_z q)%Qc ->
  (Q2Qc 0 <= vec4_w q)%Qc -> vec4_x q <> Q2Qc 0 -> weight_sum q <> Q2Qc 0.
Proof.
  destruct q as [x y z w]. unfold weight_sum.
  cbn [vec4_x vec4_y vec4_z vec4_w s_add Qc_Scalar]. intros Hx Hy Hz Hw Hne.
  assert (Hpos : (Q2Qc 0 < x)%Qc).
  { destruct (Qcle_lt_or_eq _ _ Hx) as [Hlt | Heq]; [exact Hlt | congruence]. }
  assert (Hle : (x <= x + y + z + w)%Qc).
  { replace x with (x + Q2Qc 0 + Q2Qc 0 + Q2Qc 0)%Qc at 1 by ring.
    repeat apply Qcplus_le_compat; try assumption. apply Qcle_refl. }
  intros Hsum. rewrite Hsum in Hle.
  exact (Qclt_not_le _ _ Hpos Hle).
Qed.

(** One round of the post-pass, on a slot that has the two bone
    attributes: a vertex whose first weight is exactly 0 gets the id of
    the bone registered as [<nodeName>_auto] in its first index slot and
    the weights (1, 0, 0, 0); any other vertex keeps its bone ids and has
    its four weights divided by their sum [x + y + z + w]; and weights
    that are not negative, the first not zero, divided by their exact sum
    add up to 1 (the same operator at the rationals). *)
Lemma post_vertex_binds_or_normalises :
  forall (M : AssimpMath) (nm : string) (t : aiMatrix4x4) (st : GenState) (i : Z),
    let v := uadd (voff st) i in
    let wt := vb_get (vertices st) v BONE_WEIGHT in
    let st' := post_vertex nm t st i in
    skinned_slot (vertices st) v ->
    (SFeqb (vec4_x wt) f_zero = true ->
       exists b, bones st' !! String.append nm "_auto" = Some b
         /\ vb_get (vertices st') v BONE_IDX = make4 (f32_of_Z (id b)) f_zero f_zero f_zero
         /\ vb_get (vertices st') v BONE_WEIGHT = make4 f32_one f_zero f_zero f_zero)
    /\ (SFeqb (vec4_x wt) f_zero = false ->
       vb_get (vertices st') v BONE_WEIGHT = normalize_weights wt
       /\ normalize_weights wt
          = vec4_div wt (f32_add (f32_add (f32_add (vec4_x wt) (vec4_y wt)) (vec4_z wt))
                                 (vec4_w wt))
       /\ vb_get (vertices st') v BONE_IDX = vb_get (vertices st) v BONE_IDX)
    /\ (forall q : vec4 Qc,
          (Q2Qc 0 <= vec4_x q)%Qc -> (Q2Qc 0 <= vec4_y q)%Qc ->
          (Q2Qc 0 <= vec4_z q)%Qc -> (Q2Qc 0 <= vec4_w q)%Qc ->
          vec4_x q <> Q2Qc 0 ->
          weight_sum (normalize_weights q) = Q2Qc 1).
Proof.
  intros M nm t st i v wt st' Hslot.
  split; [| split].
  - intros Hzero. unfold st', post_vertex. fold v. fold wt. rewrite Hzero.
    destruct (getNodeBone_registers (bones st) (index st) (String.append nm "_auto") t)
      as (b & Hb & Hid).
    destruct (getNodeBone (bones st) (index st) (String.append nm "_auto") t)
      as [[d bs] ix] eqn:Hg. cbn [fst snd] in Hb, Hid.
    exists b. cbn [with_vertices with_bones bones vertices].
    split; [exact Hb | split].
    + rewrite vb_get_set_other by discriminate.
      rewrite vb_get_set_skinned;
        [rewrite Hid; reflexivity | apply skinned_slot_set; [exact Hslot | right; reflexivity]
         | left; reflexivity].
    + apply vb_get_set_skinned; [| right; reflexivity].
      apply skinned_slot_set; [| left; reflexivity].
      apply skinned_slot_set; [exact Hslot | right; reflexivity].
  - intros Hnz. unfold st', post_vertex. fold v. fold wt. rewrite Hnz.
    cbn [with_vertices vertices]. split; [| split].
    + apply vb_get_set_skinned; [exact Hslot | right; reflexivity].
    + reflexivity.
    + apply vb_get_set_other. discriminate.
  - intros q Hx Hy Hz Hw Hne. apply Qc_weights_sum_to_one.
    apply Qc_weight_sum_nonzero; assumption.
Qed.

(** The round at a fresh one-vertex buffer: the fallback binding. *)
Lemma post_vertex_binds_or_normalises_at_fresh_vertex :
  skinned_slot (vertices one_vertex_state) 0
  /\ exists b,
       bones (@post_vertex sample_math "node" unit4 one_vertex_state 0) !! "node_auto"%string
         = Some b
       /\ vb_get (vertices (@post_vertex sample_math "node" unit4 one_vertex_state 0)) 0 BONE_IDX
          = make4 (f32_of_Z (id b)) f_zero f_zero f_zero
       /\ vb_get (vertices (@post_vertex sample_math "node" unit4 one_vertex_state 0)) 0 BONE_WEIGHT
          = make4 f32_one f_zero f_zero f_zero.
Proof.
  assert (Hslot : skinned_slot (vertices one_vertex_state) (uadd (voff one_vertex_state) 0)).
  { unfold skinned_slot. do 3 eexists. repeat split; vm_compute; reflexivity. }
  split; [exact Hslot |].
  destruct (post_vertex_binds_or_normalises sample_math "node" unit4 one_vertex_state 0 Hslot)
    as (Hfallback & _ & _).
  apply Hfallback. vm_compute. reflexivity.
Defined.

(** ** The counting pass and the emission pass (Main.cpp lines 37-43, 76-137, 221-230) *)

Lemma grows_refl (P : Z * Z -> Prop) (st : GenState) : grows P st st.
Proof.
  repeat split. exists []. rewrite app_nil_r. repeat split. constructor.
Qed.

Lemma position_slots_app (a b : list (Z * Z)) :
  position_slots (a ++ b) = position_slots a ++ position_slots b.
Proof. unfold position_slots. apply omap_app. Qed.

Lemma grows_trans (P : Z * Z -> Prop) (st1 st2 st3 : GenState) :
  grows P st1 st2 -> grows P st2 st3 -> grows P st1 st3.
Proof.
  intros (Hv1 & Hi1 & Hx1 & Hn1 & e1 & Ht1 & Hp1 & Hs1)
         (Hv2 & Hi2 & Hx2 & Hn2 & e2 & Ht2 & Hp2 & Hs2).
  repeat split; try congruence.
  exists (e1 ++ e2). rewrite Ht2, Ht1, <- app_assoc. repeat split.
  - apply Forall_app. split; assumption.
  - rewrite position_slots_app, Hs1, Hs2. reflexivity.
Qed.

Lemma grows_fold {A : Type} (P : Z -> Z * Z -> Prop) (f : GenState -> A -> GenState)
    (l : list A) :
  (forall st a, In a l -> grows (P (voff st)) st (f st a)) ->
  forall st, grows (P (voff st)) st (fold_left f l st).
Proof.
  induction l as [| a l IH]; intros Hf st; cbn [fold_left].
  - apply grows_refl.
  - pose proof (Hf st a (or_introl eq_refl)) as Ha.
    eapply grows_trans; [exact Ha |].
    assert (Hvo : voff (f st a) = voff st) by (destruct Ha as (Hv & _); exact Hv).
    rewrite <- Hvo. apply IH. intros st' a' Hin. apply Hf. right. exact Hin.
Qed.

Lemma grows_set (P : Z * Z -> Prop) (st : GenState) (v a : Z) (val : float4) :
  P (v, a) -> a <> POSITION -> grows P st (with_vertices st (vb_set (vertices st) v a val)).
Proof.
  intros HP Ha. repeat split. exists [(v, a)]. repeat split.
  - constructor; [exact HP | constructor].
  - unfold position_slots. cbn [omap list_omap snd fst].
    destruct (Z.eqb_spec a POSITION); [contradiction | reflexivity].
Qed.

Lemma grows_bones (P : Z * Z -> Prop) (st : GenState) (bs : gmap string Bone) (ix : Z) :
  grows P st (with_bones st bs ix).
Proof.
  repeat split. exists []. rewrite app_nil_r. repeat split. constructor.
Qed.

Lemma grows_set2 (P : Z * Z -> Prop) (st : GenState) (v a1 a2 : Z) (x1 x2 : float4) :
  P (v, a1) -> P (v, a2) -> a1 <> POSITION -> a2 <> POSITION ->
  grows P st (with_vertices st (vb_set (vb_set (vertices st) v a1 x1) v a2 x2)).
Proof.
  intros H1 H2 Hn1 Hn2.
  eapply grows_trans; [apply (grows_set P st v a1 x1 H1 Hn1) |].
  apply (grows_set P (with_vertices st (vb_set (vertices st) v a1 x1)) v a2 x2 H2 Hn2).
Qed.

Lemma load_weight_grows (mesh : aiMesh) (bidx : Z) (st : GenState) (vw : aiVertexWeight) :
  In (mVertexId vw) (mesh_vertex_ids mesh) ->
  grows (touches mesh (voff st)) st (load_weight bidx st vw).
Proof.
  intros Hin. unfold load_weight.
  destruct (find_slot _ _ bidx >=? 4); [apply grows_refl |].
  assert (Ht : forall a, touches mesh (voff st) (uadd (voff st) (mVertexId vw), a)).
  { intros a. exists (mVertexId vw). split; [reflexivity | right; exact Hin]. }
  apply grows_set2; [apply Ht | apply Ht | discriminate | discriminate].
Qed.

Lemma load_bone_grows `{AssimpMath} (mesh : aiMesh) (t : aiMatrix4x4) (st : GenState)
    (bone : aiBone) :
  In bone (mBones mesh) -> grows (touches mesh (voff st)) st (load_bone t st bone).
Proof.
  intros Hin. unfold load_bone.
  assert (Hids : forall vw, In vw (mWeights bone) -> In (mVertexId vw) (mesh_vertex_ids mesh)).
  { intros vw Hvw. unfold mesh_vertex_ids. apply in_concat.
    exists (map mVertexId (mWeights bone)). split.
    - apply in_map_iff. exists bone. split; [reflexivity | exact Hin].
    - apply in_map. exact Hvw. }
  destruct (bones st !! bone_mName bone) as [b |].
  - apply (grows_fold (touches mesh)). intros st' vw Hvw. apply load_weight_grows.
    apply Hids. exact Hvw.
  - eapply grows_trans; [apply grows_bones |].
    apply (grows_fold (touches mesh) (load_weight (to_uint (index st))) (mWeights bone)
             ltac:(intros st' vw Hvw; apply load_weight_grows; apply Hids; exact Hvw)
             (with_bones st _ _)).
Qed.

Lemma touches_vertex (mesh : aiMesh) (o i a : Z) :
  0 <= i < mNumVertices mesh -> touches mesh o (uadd o i, a).
Proof. intros Hi. exists i. split; [reflexivity | left; exact Hi]. Qed.

Lemma post_vertex_grows `{AssimpMath} (mesh : aiMesh) (nm : string) (t : aiMatrix4x4)
    (st : GenState) (i : Z) :
  0 <= i < mNumVertices mesh -> grows (touches mesh (voff st)) st (post_vertex nm t st i).
Proof.
  intros Hi. unfold post_vertex.
  destruct (SFeqb _ f_zero).
  - destruct (getNodeBone (bones st) (index st) (String.append nm "_auto") t) as [[d bs] ix].
    eapply grows_trans; [apply (grows_bones _ st bs ix) |].
    eapply grows_trans;
      [apply (grows_set _ (with_bones st bs ix) (uadd (voff st) i) BONE_WEIGHT);
       [apply touches_vertex; exact Hi | discriminate] |].
    apply (grows_set2 (touches mesh (voff st))
             (with_vertices (with_bones st bs ix)
                (vb_set (vertices st) (uadd (voff st) i) BONE_WEIGHT _))
             (uadd (voff st) i) BONE_IDX BONE_WEIGHT);
      [apply touches_vertex; exact Hi | apply touches_vertex; exact Hi
       | discriminate | discriminate].
  - apply grows_set; [apply touches_vertex; exact Hi | discriminate].
Qed.

Lemma default_vertex_grows (mesh : aiMesh) (d : Z) (st : GenState) (i : Z) :
  0 <= i < mNumVertices mesh -> grows (touches mesh (voff st)) st (default_vertex d st i).
Proof.
  intros Hi. unfold default_vertex.
  apply grows_set2; [apply touches_vertex; exact Hi | apply touches_vertex; exact Hi
                     | discriminate | discriminate].
Qed.

Lemma load_vertex_effect (mesh : aiMesh) (t : aiMatrix4x4) (nmat : aiMatrix3x3)
    (st : GenState) (i : Z) :
  voff (load_vertex mesh t nmat st i) = voff st
  /\ ioff (load_vertex mesh t nmat st i) = ioff st
  /\ indices (load_vertex mesh t nmat st i) = indices st
  /\ vb_vertices (vertices (load_vertex mesh t nmat st i)) = vb_vertices (vertices st)
  /\ vb_trace (vertices (load_vertex mesh t nmat st i))
     = vb_trace (vertices st) ++ vertex_entries mesh (voff st) i.
Proof.
  unfold load_vertex, vertex_entries.
  destruct (HasNormals mesh), (HasTextureCoords0 mesh);
    cbn [with_vertices with_bounds voff ioff indices vertices vb_set vb_trace vb_vertices];
    rewrite <- ?app_assoc; repeat split; reflexivity.
Qed.

Lemma load_vertices_effect (mesh : aiMesh) (t : aiMatrix4x4) (nmat : aiMatrix3x3)
    (l : list Z) (st : GenState) :
  voff (fold_left (load_vertex mesh t nmat) l st) = voff st
  /\ ioff (fold_left (load_vertex mesh t nmat) l st) = ioff st
  /\ indices (fold_left (load_vertex mesh t nmat) l st) = indices st
  /\ vb_vertices (vertices (fold_left (load_vertex mesh t nmat) l st)) = vb_vertices (vertices st)
  /\ vb_trace (vertices (fold_left (load_vertex mesh t nmat) l st))
     = vb_trace (vertices st) ++ concat (map (vertex_entries mesh (voff st)) l).
Proof.
  revert st. induction l as [| i l IH]; intros st; cbn [fold_left map concat].
  - rewrite app_nil_r. repeat split; reflexivity.
  - destruct (load_vertex_effect mesh t nmat st i) as (Hv & Hi & Hx & Hn & Ht).
    destruct (IH (load_vertex mesh t nmat st i)) as (Hv' & Hi' & Hx' & Hn' & Ht').
    rewrite Hv', Hi', Hx', Hn', Ht', Hv, Hi, Hx, Hn, Ht, <- app_assoc.
    repeat split; reflexivity.
Qed.

Lemma position_slots_vertex_entries (mesh : aiMesh) (o : Z) (l : list Z) :
  position_slots (concat (map (vertex_entries mesh o) l)) = map (uadd o) l.
Proof.
  induction l as [| i l IH]; [reflexivity |].
  cbn [map concat]. rewrite position_slots_app, IH. unfold vertex_entries.
  destruct (HasNormals mesh), (HasTextureCoords0 mesh); reflexivity.
Qed.

Lemma touches_vertex_entries (mesh : aiMesh) (o : Z) (l : list Z) :
  Forall (fun i => 0 <= i < mNumVertices mesh) l ->
  Forall (touches mesh o) (concat (map (vertex_entries mesh o) l)).
Proof.
  induction 1 as [| i l Hi _ IH]; [constructor |].
  cbn [map concat]. apply Forall_app. split; [| exact IH].
  unfold vertex_entries.
  destruct (HasNormals mesh), (HasTextureCoords0 mesh); cbn [app];
    repeat (constructor; [apply touches_vertex; exact Hi |]); constructor.
Qed.

Lemma load_face_effect (mesh : aiMesh) (st : GenState) (f : Z) :
  voff (load_face mesh st f) = voff st
  /\ ioff (load_face mesh st f) = ioff st
  /\ vertices (load_face mesh st f) = vertices st
  /\ ib_indices (indices (load_face mesh st f)) = ib_indices (indices st)
  /\ ib_trace (indices (load_face mesh st f)) = ib_trace (indices st) ++ face_slots (ioff st) f.
Proof.
  unfold load_face, face_slots. change (seqZ 0 3) with [0; 1; 2].
  cbn [fold_left map with_indices voff ioff vertices indices ib_set ib_trace ib_indices].
  rewrite <- !app_assoc. repeat split; reflexivity.
Qed.

Lemma load_faces_effect (mesh : aiMesh) (l : list Z) (st : GenState) :
  voff (fold_left (load_face mesh) l st) = voff st
  /\ ioff (fold_left (load_face mesh) l st) = ioff st
  /\ vertices (fold_left (load_face mesh) l st) = vertices st
  /\ ib_indices (indices (fold_left (load_face mesh) l st)) = ib_indices (indices st)
  /\ ib_trace (indices (fold_left (load_face mesh) l st))
     = ib_trace (indices st) ++ concat (map (face_slots (ioff st)) l).
Proof.
  revert st. induction l as [| f l IH]; intros st; cbn [fold_left map concat].
  - rewrite app_nil_r. repeat split; reflexivity.
  - destruct (load_face_effect mesh st f) as (Hv & Hi & Hx & Hn & Ht).
    destruct (IH (load_face mesh st f)) as (Hv' & Hi' & Hx' & Hn' & Ht').
    rewrite Hv', Hi', Hx', Hn', Ht', Hv, Hi, Hx, Hn, Ht, <- app_assoc.
    repeat split; reflexivity.
Qed.

Lemma seqZ_range (n : Z) : Forall (fun i => 0 <= i < n) (seqZ 0 n).
Proof. apply Forall_forall. intros i Hi. apply elem_of_seqZ in Hi. lia. Qed.

Lemma loadMesh_cases `{AssimpMath} (scene : aiScene) (mesh_id : Z) (nm : string)
    (t : aiMatrix4x4) (st : GenState) :
  match lookupZ (scene_mMeshes scene) mesh_id with
  | None => loadMesh scene mesh_id nm t st = (false, st)
  | Some mesh =>
      if skipped mesh then loadMesh scene mesh_id nm t st = (false, st)
      else fst (loadMesh scene mesh_id nm t st) = true
           /\ mesh_loaded mesh st (snd (loadMesh scene mesh_id nm t st))
  end.
Proof.
  unfold loadMesh, skipped.
  destruct (lookupZ (scene_mMeshes scene) mesh_id) as [mesh |]; [| reflexivity].
  destruct (negb (mPrimitiveTypes mesh =? aiPrimitiveType_TRIANGLE)
            || negb (HasPositions mesh) || negb (HasFaces mesh)); [reflexivity |].
  cbn [fst snd]. split; [reflexivity |].
  set (st1 := fold_left (load_vertex mesh t (mat3_inverse_transpose t))
                (seqZ 0 (mNumVertices mesh)) st).
  set (st2 := fold_left (load_face mesh) (seqZ 0 (mNumFaces mesh)) st1).
  destruct (load_vertices_effect mesh t (mat3_inverse_transpose t)
              (seqZ 0 (mNumVertices mesh)) st) as (Hv1 & Hi1 & Hx1 & Hn1 & Ht1).
  fold st1 in Hv1, Hi1, Hx1, Hn1, Ht1.
  destruct (load_faces_effect mesh (seqZ 0 (mNumFaces mesh)) st1)
    as (Hv2 & Hi2 & Hx2 & Hn2 & Ht2).
  fold st2 in Hv2, Hi2, Hx2, Hn2, Ht2.
  set (st3 := if HasAnimations scene then _ else st2).
  assert (Hgrow : grows (touches mesh (voff st2)) st2 st3).
  { unfold st3. destruct (HasAnimations scene); [| apply grows_refl].
    destruct (HasBones mesh).
    - eapply grows_trans.
      + apply (grows_fold (touches mesh) (load_bone t) (mBones mesh)).
        intros st' bone Hin. apply load_bone_grows. exact Hin.
      + pose proof (grows_fold (touches mesh) (load_bone t) (mBones mesh)
                      ltac:(intros st' bone Hin; apply load_bone_grows; exact Hin) st2)
          as (Hvo & _).
        rewrite <- Hvo.
        apply (grows_fold (touches mesh) (post_vertex nm t) (seqZ 0 (mNumVertices mesh))).
        intros st' i Hin. apply post_vertex_grows.
        apply list_elem_of_In, elem_of_seqZ in Hin. lia.
    - destruct (getNodeBone (bones st2) (index st2) (String.append nm "_auto") t)
        as [[d bs] ix].
      eapply grows_trans; [apply (grows_bones _ st2 bs ix) |].
      apply (grows_fold (touches mesh) (default_vertex d) (seqZ 0 (mNumVertices mesh))
               ltac:(intros st' i Hin; apply default_vertex_grows;
                     apply list_elem_of_In, elem_of_seqZ in Hin; lia)
               (with_bones st2 bs ix)). }
  destruct Hgrow as (Hv3 & Hi3 & Hx3 & Hn3 & ext3 & Ht3 & Hp3 & Hs3).
  unfold mesh_loaded. cbn [with_offsets voff ioff vertices indices].
  rewrite Hv3, Hi3, Hx3, Hn3, Ht3, Hv2, Hi2, Hx2, Hn2, Ht2, Hv1, Hi1, Hx1, Hn1, Ht1.
  rewrite Hv2, Hv1 in Hp3.
  repeat split.
  exists (concat (map (vertex_entries mesh (voff st)) (seqZ 0 (mNumVertices mesh))) ++ ext3).
  rewrite <- app_assoc. split; [reflexivity | split].
  - rewrite position_slots_app, Hs3, app_nil_r. apply position_slots_vertex_entries.
  - apply Forall_app. split; [| exact Hp3].
    apply touches_vertex_entries. apply seqZ_range.
Qed.

Lemma count_mesh_cases (scene : aiScene) (cs : CountState) (mesh_id : Z) :
  match lookupZ (scene_mMeshes scene) mesh_id with
  | None => count_mesh scene cs mesh_id = cs
  | Some mesh =>
      if skipped mesh then count_mesh scene cs mesh_id = cs
      else vcount (count_mesh scene cs mesh_id) = uadd (vcount cs) (mNumVertices mesh)
           /\ icount (count_mesh scene cs mesh_id) = uadd (icount cs) (to_uint (mNumFaces mesh * 3))
           /\ length (meshes (count_mesh scene cs mesh_id)) = S (length (meshes cs))
  end.
Proof.
  unfold count_mesh, skipped.
  destruct (lookupZ (scene_mMeshes scene) mesh_id) as [mesh |]; [| reflexivity].
  destruct (negb (mPrimitiveTypes mesh =? aiPrimitiveType_TRIANGLE)
            || negb (HasPositions mesh) || negb (HasFaces mesh)); [reflexivity |].
  cbn [vcount icount meshes]. rewrite length_app. cbn [length].
  repeat split. lia.
Qed.

(** The two passes keep the same running totals, wrap-around included. *)
Lemma passes_agree_on_meshes `{AssimpMath} (scene : aiScene) (nm : string) (t : aiMatrix4x4)
    (ids : list Z) (st : GenState) (cs : CountState) :
  voff st = vcount cs -> ioff st = icount cs ->
  voff (fold_left (fun st mesh_id => snd (loadMesh scene mesh_id nm t st)) ids st)
    = vcount (fold_left (count_mesh scene) ids cs)
  /\ ioff (fold_left (fun st mesh_id => snd (loadMesh scene mesh_id nm t st)) ids st)
     = icount (fold_left (count_mesh scene) ids cs).
Proof.
  revert st cs. induction ids as [| mesh_id ids IH]; intros st cs Hv Hi; cbn [fold_left].
  - split; assumption.
  - apply IH.
    + pose proof (loadMesh_cases scene mesh_id nm t st) as Hl.
      pose proof (count_mesh_cases scene cs mesh_id) as Hc.
      destruct (lookupZ (scene_mMeshes scene) mesh_id) as [mesh |];
        [destruct (skipped mesh) |].
      * rewrite Hl, Hc. exact Hv.
      * destruct Hl as (_ & Hvo & _). destruct Hc as (Hvc & _). rewrite Hvo, Hvc, Hv.
        reflexivity.
      * rewrite Hl, Hc. exact Hv.
    + pose proof (loadMesh_cases scene mesh_id nm t st) as Hl.
      pose proof (count_mesh_cases scene cs mesh_id) as Hc.
      destruct (lookupZ (scene_mMeshes scene) mesh_id) as [mesh |];
        [destruct (skipped mesh) |].
      * rewrite Hl, Hc. exact Hi.
      * destruct Hl as (_ & _ & Hio & _). destruct Hc as (_ & Hic & _). rewrite Hio, Hic, Hi.
        reflexivity.
      * rewrite Hl, Hc. exact Hi.
Qed.

Lemma passes_agree_on_node `{AssimpMath} (scene : aiScene) (node : aiNode) :
  forall (t : aiMatrix4x4) (st : GenState) (cs : CountState),
    voff st = vcount cs -> ioff st = icount cs ->
    voff (generateMesh scene node t st) = vcount (getVertexCount scene node cs)
    /\ ioff (generateMesh scene node t st) = icount (getVertexCount scene node cs).
Proof.
  induction node as [node IH] using aiNode_children_ind.
  intros t st cs Hv Hi. destruct node as [nm tr ms kids].
  cbn [generateMesh getVertexCount mChildren mMeshes mName mTransformation] in *.
  set (mat := mat4_mul t tr).
  destruct (passes_agree_on_meshes scene nm mat ms st cs Hv Hi) as [Hv1 Hi1].
  revert Hv1 Hi1.
  generalize (fold_left (fun st mesh_id => snd (loadMesh scene mesh_id nm mat st)) ms st).
  generalize (fold_left (count_mesh scene) ms cs).
  clear Hv Hi st cs.
  induction IH as [| kid kids Hkid _ IHkids]; intros cs st Hv Hi; cbn [fold_left].
  - split; assumption.
  - destruct (Hkid mat st cs Hv Hi) as [Hv' Hi']. apply IHkids; assumption.
Qed.

Lemma in_step_refl (scene : aiScene) (acc : Z * Z) (st : GenState) :
  voff st = fst acc -> ioff st = snd acc -> in_step scene acc acc st st.
Proof.
  intros Hv Hi. unfold in_step. rewrite !Z.sub_diag. cbn [seqZ]. rewrite !app_nil_r.
  repeat split; try lia; try assumption.
  exists []. rewrite app_nil_r. repeat split. intros _. constructor.
Qed.

Lemma in_step_trans (scene : aiScene) (a0 a1 a2 : Z * Z) (s0 s1 s2 : GenState) :
  in_step scene a0 a1 s0 s1 -> in_step scene a1 a2 s1 s2 -> in_step scene a0 a2 s0 s2.
Proof.
  intros (Hm1 & Hn1 & Hv1 & Hi1 & Hx1 & Hy1 & (e1 & Ht1 & Hp1 & Hr1) & Hb1)
         (Hm2 & Hn2 & Hv2 & Hi2 & Hx2 & Hy2 & (e2 & Ht2 & Hp2 & Hr2) & Hb2).
  unfold in_step. repeat split; try lia; try congruence.
  - exists (e1 ++ e2). rewrite Ht2, Ht1, <- app_assoc. split; [reflexivity | split].
    + rewrite position_slots_app, Hp1, Hp2.
      replace (fst a2 - fst a0) with ((fst a1 - fst a0) + (fst a2 - fst a1)) by lia.
      rewrite seqZ_app by lia. do 2 f_equal. lia.
    + intros Hw. apply Forall_app. split.
      * eapply Forall_impl; [apply Hr1; exact Hw |]. cbv beta. intros p Hp. lia.
      * eapply Forall_impl; [apply Hr2; exact Hw |]. cbv beta. intros p Hp. lia.
  - rewrite Hb2, Hb1, <- app_assoc. f_equal.
    replace (snd a2 - snd a0) with ((snd a1 - snd a0) + (snd a2 - snd a1)) by lia.
    rewrite seqZ_app by lia. do 2 f_equal. lia.
Qed.

Lemma map_uadd_seqZ (o n : Z) :
  0 <= o -> o + n < 2 ^ 31 -> map (uadd o) (seqZ 0 n) = seqZ o n.
Proof.
  intros Ho Hn. rewrite <- (Z.add_0_r o) at 2. rewrite <- fmap_add_seqZ.
  apply map_ext_in. intros i Hi. apply list_elem_of_In, elem_of_seqZ in Hi.
  apply uadd_small. lia.
Qed.

Lemma face_slots_seqZ (io nf : Z) :
  0 <= io -> 0 <= nf -> io + nf * 3 < 2 ^ 31 ->
  concat (map (face_slots io) (seqZ 0 nf)) = seqZ io (nf * 3).
Proof.
  intros Hio Hnf. pattern nf. apply natlike_ind; [| | exact Hnf].
  - intros _. reflexivity.
  - intros f Hf IH Hmax. unfold Z.succ. rewrite seqZ_app by lia.
    rewrite map_app, concat_app, IH by lia.
    replace ((f + 1) * 3) with (f * 3 + 3) by lia. rewrite (seqZ_app io) by lia.
    f_equal. change (seqZ (0 + f) 1) with [0 + f]. cbn [map concat]. rewrite app_nil_r.
    unfold face_slots. change (seqZ 0 3) with [0; 1; 2].
    change (seqZ (io + f * 3) 3) with [io + f * 3; 1 + (io + f * 3); 2 + (io + f * 3)].
    cbn [map]. rewrite Z.add_0_l.
    rewrite (to_uint_small (f * 3)) by lia.
    rewrite !to_uint_small by lia. rewrite !to_int_small by lia.
    rewrite Z.add_0_r, (Z.add_comm 1), (Z.add_comm 2). reflexivity.
Qed.

Lemma lookupZ_In {A : Type} (l : list A) (i : Z) (a : A) :
  lookupZ l i = Some a -> In a l.
Proof.
  unfold lookupZ. destruct (i <? 0); [discriminate |].
  intros Hl. apply list_elem_of_In. eapply list_elem_of_lookup_2. exact Hl.
Qed.

Lemma mesh_totals_mono (scene : aiScene) (acc : Z * Z) (mesh_id : Z) :
  fst acc <= fst (mesh_totals scene acc mesh_id)
  /\ snd acc <= snd (mesh_totals scene acc mesh_id).
Proof.
  unfold mesh_totals, mNumVertices, mNumFaces.
  destruct (lookupZ (scene_mMeshes scene) mesh_id) as [mesh |]; [| lia].
  destruct (skipped mesh); cbn [fst snd]; lia.
Qed.

Lemma meshes_totals_mono (scene : aiScene) (ids : list Z) (acc : Z * Z) :
  fst acc <= fst (fold_left (mesh_totals scene) ids acc)
  /\ snd acc <= snd (fold_left (mesh_totals scene) ids acc).
Proof.
  revert acc. induction ids as [| mesh_id ids IH]; intros acc; cbn [fold_left]; [lia |].
  pose proof (mesh_totals_mono scene acc mesh_id).
  pose proof (IH (mesh_totals scene acc mesh_id)). lia.
Qed.

Lemma node_totals_mono (scene : aiScene) (node : aiNode) :
  forall acc : Z * Z,
    fst acc <= fst (node_totals scene node acc)
    /\ snd acc <= snd (node_totals scene node acc).
Proof.
  induction node as [node IH] using aiNode_children_ind.
  intros acc. destruct node as [nm tr ms kids].
  cbn [node_totals mChildren mMeshes] in *.
  pose proof (meshes_totals_mono scene ms acc) as Hm. revert Hm.
  generalize (fold_left (mesh_totals scene) ms acc). intros mid Hm.
  enough (fst mid <= fst (fold_left (fun acc child => node_totals scene child acc) kids mid)
          /\ snd mid <= snd (fold_left (fun acc child => node_totals scene child acc) kids mid))
    by lia.
  clear Hm. revert mid.
  induction IH as [| kid kids Hkid _ IHkids]; intros mid; cbn [fold_left]; [lia |].
  pose proof (Hkid mid). pose proof (IHkids (node_totals scene kid mid)). lia.
Qed.

Lemma children_totals_mono (scene : aiScene) (kids : list aiNode) (acc : Z * Z) :
  fst acc <= fst (fold_left (fun acc child => node_totals scene child acc) kids acc)
  /\ snd acc <= snd (fold_left (fun acc child => node_totals scene child acc) kids acc).
Proof.
  revert acc. induction kids as [| kid kids IH]; intros acc; cbn [fold_left]; [lia |].
  pose proof (node_totals_mono scene kid acc).
  pose proof (IH (node_totals scene kid acc)). lia.
Qed.

(** One mesh, no wrap-around: [loadMesh] advances exactly as the totals do. *)
Lemma loadMesh_in_step `{AssimpMath} (scene : aiScene) (mesh_id : Z) (nm : string)
    (t : aiMatrix4x4) (st : GenState) (acc : Z * Z) :
  voff st = fst acc -> ioff st = snd acc -> 0 <= fst acc -> 0 <= snd acc ->
  fst (mesh_totals scene acc mesh_id) < 2 ^ 31 ->
  snd (mesh_totals scene acc mesh_id) < 2 ^ 31 ->
  in_step scene acc (mesh_totals scene acc mesh_id) st (snd (loadMesh scene mesh_id nm t st)).
Proof.
  intros Hv Hi Hv0 Hi0. pose proof (loadMesh_cases scene mesh_id nm t st) as Hl.
  unfold mesh_totals.
  destruct (lookupZ (scene_mMeshes scene) mesh_id) as [mesh |] eqn:Hmesh;
    [destruct (skipped mesh) |].
  - intros _ _. rewrite Hl. apply in_step_refl; assumption.
  - cbn [fst snd]. intros Hvmax Himax.
    destruct Hl as (_ & Hvo & Hio & Hvn & Hin & (ext & Hext & Hpos & Htouch) & Hib).
    assert (Hnv : 0 <= mNumVertices mesh) by (unfold mNumVertices; lia).
    assert (Hnf : 0 <= mNumFaces mesh) by (unfold mNumFaces; lia).
    unfold in_step. cbn [fst snd].
    split; [lia |]. split; [lia |].
    split; [rewrite Hvo, Hv; apply uadd_small; lia |].
    split; [rewrite Hio, Hi, to_uint_small by lia; apply uadd_small; lia |].
    split; [exact Hvn |]. split; [exact Hin |]. split.
    + exists ext. split; [exact Hext |]. split.
      * rewrite Hpos, Hv. replace (fst acc + mNumVertices mesh - fst acc)
          with (mNumVertices mesh) by lia.
        apply map_uadd_seqZ; lia.
      * intros Hw. unfold weights_in_range in Hw. rewrite List.Forall_forall in Hw.
        specialize (Hw mesh (lookupZ_In _ _ _ Hmesh)). rewrite List.Forall_forall in Hw.
        eapply Forall_impl; [exact Htouch |]. cbv beta.
        intros p (k & Hp & Hk).
        assert (Hk' : 0 <= k < mNumVertices mesh) by (destruct Hk as [Hk | Hk]; [exact Hk | exact (Hw k Hk)]).
        rewrite Hp, Hv, uadd_small by lia. lia.
    + rewrite Hib, Hi.
      replace (snd acc + mNumFaces mesh * 3 - snd acc) with (mNumFaces mesh * 3) by lia.
      rewrite face_slots_seqZ by lia. reflexivity.
  - intros _ _. rewrite Hl. apply in_step_refl; assumption.
Qed.

Lemma loadMeshes_in_step `{AssimpMath} (scene : aiScene) (nm : string) (t : aiMatrix4x4)
    (ids : list Z) (st : GenState) (acc : Z * Z) :
  voff st = fst acc -> ioff st = snd acc -> 0 <= fst acc -> 0 <= snd acc ->
  fst (fold_left (mesh_totals scene) ids acc) < 2 ^ 31 ->
  snd (fold_left (mesh_totals scene) ids acc) < 2 ^ 31 ->
  in_step scene acc (fold_left (mesh_totals scene) ids acc) st
          (fold_left (fun st mesh_id => snd (loadMesh scene mesh_id nm t st)) ids st).
Proof.
  revert st acc. induction ids as [| mesh_id ids IH]; intros st acc Hv Hi Hv0 Hi0;
    cbn [fold_left]; intros Hvmax Himax.
  - apply in_step_refl; assumption.
  - pose proof (mesh_totals_mono scene acc mesh_id) as Hm1.
    pose proof (meshes_totals_mono scene ids (mesh_totals scene acc mesh_id)) as Hm2.
    assert (Hstep : in_step scene acc (mesh_totals scene acc mesh_id) st
                            (snd (loadMesh scene mesh_id nm t st)))
      by (apply loadMesh_in_step; try assumption; lia).
    eapply in_step_trans; [exact Hstep |].
    destruct Hstep as (_ & _ & Hv1 & Hi1 & _).
    apply IH; try assumption; lia.
Qed.

Lemma generateMesh_in_step `{AssimpMath} (scene : aiScene) (node : aiNode) :
  forall (t : aiMatrix4x4) (st : GenState) (acc : Z * Z),
    voff st = fst acc -> ioff st = snd acc -> 0 <= fst acc -> 0 <= snd acc ->
    fst (node_totals scene node acc) < 2 ^ 31 ->
    snd (node_totals scene node acc) < 2 ^ 31 ->
    in_step scene acc (node_totals scene node acc) st (generateMesh scene node t st).
Proof.
  induction node as [node IH] using aiNode_children_ind.
  intros t st acc Hv Hi Hv0 Hi0. destruct node as [nm tr ms kids].
  cbn [generateMesh node_totals mChildren mMeshes mName mTransformation] in *.
  set (mat := mat4_mul t tr). intros Hvmax Himax.
  pose proof (meshes_totals_mono scene ms acc) as Hm1.
  pose proof (children_totals_mono scene kids (fold_left (mesh_totals scene) ms acc)) as Hm2.
  assert (Hstep : in_step scene acc (fold_left (mesh_totals scene) ms acc) st
            (fold_left (fun st mesh_id => snd (loadMesh scene mesh_id nm mat st)) ms st))
    by (apply loadMeshes_in_step; try assumption; lia).
  eapply in_step_trans; [exact Hstep |].
  destruct Hstep as (_ & _ & Hv1 & Hi1 & _).
  assert (Hv0' : 0 <= fst (fold_left (mesh_totals scene) ms acc)) by lia.
  assert (Hi0' : 0 <= snd (fold_left (mesh_totals scene) ms acc)) by lia.
  clear Hm1 Hm2. revert Hv1 Hi1 Hv0' Hi0' Hvmax Himax.
  generalize (fold_left (fun st mesh_id => snd (loadMesh scene mesh_id nm mat st)) ms st).
  generalize (fold_left (mesh_totals scene) ms acc).
  clear Hv Hi Hv0 Hi0 st acc.
  induction IH as [| kid kids Hkid _ IHkids]; intros acc st Hv Hi Hv0 Hi0;
    cbn [fold_left]; intros Hvmax Himax.
  - apply in_step_refl; assumption.
  - pose proof (node_totals_mono scene kid acc) as Hm1.
    pose proof (children_totals_mono scene kids (node_totals scene kid acc)) as Hm2.
    assert (Hstep : in_step scene acc (node_totals scene kid acc) st
                            (generateMesh scene kid mat st))
      by (apply Hkid; try assumption; lia).
    eapply in_step_trans; [exact Hstep |].
    destruct Hstep as (_ & _ & Hv1 & Hi1 & _).
    apply IHkids; try assumption; lia.
Qed.

(** When the vertex and index totals of the scene fit an [int] and
    every bone weight names a vertex of its mesh: both passes skip a mesh
    exactly when it is not made of triangles or has no positions or no
    faces; after the traversal the offsets [voff] and [ioff] equal the
    counts of [getVertexCount], which are the totals; the buffers were
    allocated with those counts; the position writes visit the vertex
    slots 0 .. vcount-1 and the index writes the slots 0 .. icount-1, each
    once and in order; and no vertex write falls outside 0 .. vcount-1. *)
Lemma passes_write_buffers_exactly `{AssimpMath} (scene : aiScene) :
  fst (scene_totals scene) < 2 ^ 31 ->
  snd (scene_totals scene) < 2 ^ 31 ->
  weights_in_range scene ->
  let cs := scene_counts scene in
  let st := scene_generate scene in
  (forall mesh_id mesh nm t st0 cs0,
      lookupZ (scene_mMeshes scene) mesh_id = Some mesh ->
      if skipped mesh
      then loadMesh scene mesh_id nm t st0 = (false, st0)
           /\ count_mesh scene cs0 mesh_id = cs0
      else fst (loadMesh scene mesh_id nm t st0) = true
           /\ length (meshes (count_mesh scene cs0 mesh_id)) = S (length (meshes cs0)))
  /\ voff st = vcount cs /\ ioff st = icount cs
  /\ vcount cs = fst (scene_totals scene) /\ icount cs = snd (scene_totals scene)
  /\ vb_vertices (vertices st) = vcount cs /\ ib_indices (indices st) = icount cs
  /\ position_slots (vb_trace (vertices st)) = seqZ 0 (vcount cs)
  /\ ib_trace (indices st) = seqZ 0 (icount cs)
  /\ Forall (fun p => 0 <= fst p < vcount cs) (vb_trace (vertices st)).
Proof.
  intros Hvmax Himax Hw cs st.
  assert (Hagree : voff st = vcount cs /\ ioff st = icount cs).
  { apply passes_agree_on_node; reflexivity. }
  destruct Hagree as [Hv Hi].
  pose proof (generateMesh_in_step scene (mRootNode scene) identity (scene_start scene) (0, 0)
                eq_refl eq_refl ltac:(cbn; lia) ltac:(cbn; lia) Hvmax Himax) as Hstep.
  fold (scene_totals scene) in Hstep. fold (scene_generate scene) in Hstep. fold st in Hstep.
  destruct Hstep as (_ & _ & Hvt & Hit & Hnv & Hni & (ext & Hext & Hpos & Hrange) & Hib).
  cbn [fst snd scene_start vertices indices VertexBuffer_new IndexBuffer_new
       vb_vertices ib_indices vb_trace ib_trace app] in Hnv, Hni, Hext, Hpos, Hrange, Hib.
  fold cs in Hnv, Hni.
  rewrite Z.sub_0_r in Hpos, Hib.
  split.
  { intros mesh_id mesh nm t st0 cs0 Hmesh.
    pose proof (loadMesh_cases scene mesh_id nm t st0) as Hl.
    pose proof (count_mesh_cases scene cs0 mesh_id) as Hc.
    rewrite Hmesh in Hl, Hc. destruct (skipped mesh).
    - split; assumption.
    - split; [apply Hl | apply Hc]. }
  split; [exact Hv |]. split; [exact Hi |].
  split; [congruence |]. split; [congruence |].
  split; [exact Hnv |]. split; [exact Hni |].
  split; [rewrite Hext, Hpos; congruence |].
  split; [rewrite Hib; congruence |].
  rewrite Hext. eapply Forall_impl; [exact (Hrange Hw) |]. cbv beta. intros p Hp.
  rewrite <- Hv, Hvt. exact Hp.
Qed.

(** The lemma at the two-node rig, where both passes count 6 vertices
    and 6 indices. *)
Lemma passes_write_buffers_exactly_at_rig :
  fst (scene_totals rig_scene) < 2 ^ 31
  /\ snd (scene_totals rig_scene) < 2 ^ 31
  /\ weights_in_range rig_scene
  /\ voff (@scene_generate sample_math rig_scene) = 6
  /\ position_slots (vb_trace (vertices (@scene_generate sample_math rig_scene)))
     = [0; 1; 2; 3; 4; 5]
  /\ ib_trace (indices (@scene_generate sample_math rig_scene)) = [0; 1; 2; 3; 4; 5].
Proof.
  assert (Hv : fst (scene_totals rig_scene) < 2 ^ 31) by (vm_compute; reflexivity).
  assert (Hi : snd (scene_totals rig_scene) < 2 ^ 31) by (vm_compute; reflexivity).
  assert (Hw : weights_in_range rig_scene).
  { unfold weights_in_range. repeat (apply List.Forall_cons || apply List.Forall_nil);
      vm_compute; repeat constructor; discriminate. }
  split; [exact Hv |]. split; [exact Hi |]. split; [exact Hw |].
  destruct (@passes_write_buffers_exactly sample_math rig_scene Hv Hi Hw)
    as (_ & Hvo & _ & Hvc & _ & _ & _ & Hpos & Hib & _).
  split; [rewrite Hvo, Hvc; reflexivity |].
  split.
  - rewrite Hpos. vm_compute. reflexivity.
  - rewrite Hib. vm_compute. reflexivity.
Defined.

(** * Further properties of the code *)

Import MoreSamples.

(** ** The layout of the flattened tree (Main.cpp, loadTree) *)

Import TreeLayout.

Lemma length_nodes_put (ns : list (option aiNode * Z)) (cur : Z) (p : option aiNode * Z) :
  0 <= cur ->
  Z.of_nat (length (nodes_put ns cur p)) = Z.max (Z.of_nat (length ns)) (cur + 1).
Proof.
  intros Hcur. unfold nodes_put, updateZ.
  destruct (Z.ltb_spec cur 0); [lia |].
  rewrite length_insert.
  destruct (Z.leb_spec (Z.of_nat (length ns)) cur).
  - rewrite length_app, length_replicate. lia.
  - lia.
Qed.

Lemma children_at_keep (ns ns' : list (option aiNode * Z)) (lo hi j : Z) :
  children_at ns j -> entry_ok ns lo hi j ->
  node_at ns' j = node_at ns j ->
  (forall k, lo <= k < hi -> node_at ns' k = node_at ns k) ->
  children_at ns' j.
Proof.
  intros Hch (n0 & c0 & Hat0 & _ & Hlo & Hhi) Hj Hkeep n c Hat i child Hi.
  rewrite Hj in Hat. rewrite Hat0 in Hat. injection Hat as <- <-.
  destruct (Hch n0 c0 Hat0 i child Hi) as (c' & Hc').
  exists c'. rewrite Hkeep; [exact Hc' |].
  apply lookup_lt_Some in Hi. unfold mNumChildren in Hhi. lia.
Qed.

Lemma names_joint_keep (ns ns' : list (option aiNode * Z)) (nm : string) (j : Z) :
  names_joint ns nm j -> node_at ns' j = node_at ns j -> names_joint ns' nm j.
Proof. intros (n & c & Hat & Hn & Hm) Hj. exists n, c. rewrite Hj. auto. Qed.

Lemma loadChildren_layout (children : list aiNode) :
  Forall layout_spec children ->
  forall (childIdx i : Z) (st : TreeState) (ret : option aiNode),
    0 <= childIdx -> 0 <= i ->
    childIdx + i + Z.of_nat (length children) <= tree_index st ->
    tree_index st + sum_desc children < 2 ^ 31 ->
    loop_post childIdx i children st
      (fst (loadChildren (fun child c s => loadTree child c s) childIdx children i (st, ret))).
Proof.
  induction 1 as [| child rest Hchild _ IH]; intros childIdx i st ret HcI Hi Hres Hmax.
  - cbn [loadChildren fst]. unfold loop_post, layout_post. cbn [length sum_desc fold_right].
    repeat split.
    + lia.
    + intros j Hj. lia.
    + auto.
    + intros nm j Hm. left. exact Hm.
    + intros j n c Hj. lia.
    + intros k c Hk. rewrite lookup_nil in Hk. discriminate.
  - cbn [loadChildren] in *. cbn [length sum_desc fold_right] in Hres, Hmax.
    fold (sum_desc rest) in Hmax.
    pose proof (descendants_nonneg child) as Hdc.
    pose proof (sum_desc_nonneg rest) as Hdr.
    rewrite uadd_small in * by lia.
    pose proof (loadTree_spec child (childIdx + i) st ltac:(lia) ltac:(lia)) as Hpost1.
    specialize (Hchild (childIdx + i) st ltac:(lia) ltac:(lia)).
    destruct (loadTree child (childIdx + i) st) as [st1 r] eqn:Hload. cbn [fst] in Hchild, Hpost1.
    destruct Hpost1 as (Hidx1 & Hroot1 & Hframe1 & Hok1 & _).
    pose proof (loadChildren_spec rest
                  ltac:(apply Forall_forall; intros c _; apply loadTree_spec)
                  childIdx (i + 1) st1
                  (match ret with Some _ => ret | None => r end)
                  ltac:(lia) ltac:(lia) ltac:(lia) ltac:(lia)) as Hpost'.
    specialize (IH childIdx (i + 1) st1
                  (match ret with Some _ => ret | None => r end)
                  ltac:(lia) ltac:(lia) ltac:(lia) ltac:(lia)).
    set (st' := fst (loadChildren _ childIdx rest (i + 1) (st1, _))) in *.
    destruct Hpost' as (Hidx' & Hframe' & _ & _).
    destruct IH as ((Hlen' & Hch' & Hmono' & Hsound' & Hcompl') & Hplaced').
    destruct Hchild as (Hlen1 & Hch1 & Hmono1 & Hsound1 & Hcompl1).
    cbv zeta in *. unfold written in *.
    assert (Hkeep : forall j, j = childIdx + i \/ tree_index st <= j < tree_index st1 ->
                      node_at (nodes st') j = node_at (nodes st1) j).
    { intros j Hj. apply Hframe'; lia. }
    assert (Hclass : forall j,
               (childIdx + i <= j < childIdx + i + Z.of_nat (S (length rest))
                \/ tree_index st <= j < tree_index st + (descendants child + sum_desc rest)) ->
               (j = childIdx + i \/ tree_index st <= j < tree_index st + descendants child)
               \/ (childIdx + (i + 1) <= j < childIdx + (i + 1) + Z.of_nat (length rest)
                   \/ tree_index st1 <= j < tree_index st1 + sum_desc rest)) by (intros j Hj; lia).
    unfold loop_post, layout_post. cbn [length sum_desc fold_right]. fold (sum_desc rest).
    repeat split.
    + lia.
    + intros j Hj. destruct (Hclass j Hj) as [Ha | Hb]; [| apply Hch'; exact Hb].
      eapply children_at_keep.
      * apply Hch1. exact Ha.
      * apply Hok1. lia.
      * apply Hkeep. lia.
      * intros k Hk. apply Hkeep. lia.
    + intros nm j Hm. apply Hmono', Hmono1, Hm.
    + intros nm j Hm. destruct (Hsound' nm j Hm) as [Hm1 | [Hw Hj]].
      * destruct (Hsound1 nm j Hm1) as [Hm0 | [Hw Hj]]; [left; exact Hm0 |].
        right. split; [lia |]. eapply names_joint_keep; [exact Hj | apply Hkeep; lia].
      * right. split; [lia | exact Hj].
    + intros j n c Hj Hat Hmesh. destruct (Hclass j Hj) as [Ha | Hb].
      * rewrite Hkeep in Hat by lia.
        destruct (Hcompl1 j n c Ha Hat Hmesh) as [j' Hj']. exists j'. apply Hmono'. exact Hj'.
      * apply (Hcompl' j n c Hb Hat Hmesh).
    + intros k c Hk. destruct k as [| k].
      * cbn in Hk. injection Hk as <-. exists (tree_index st).
        rewrite Z.add_0_r, Hkeep by lia. exact Hroot1.
      * cbn in Hk. destruct (Hplaced' k c Hk) as (c' & Hc'). exists c'.
        replace (childIdx + i + Z.of_nat (S k)) with (childIdx + (i + 1) + Z.of_nat k) by lia.
        exact Hc'.
Qed.

Lemma loadTree_layout (node : aiNode) : layout_spec node.
Proof.
  induction node as [node IH] using aiNode_children_ind.
  intros cur st Hcur Hmax.
  pose proof (loadTree_spec node cur st Hcur Hmax) as (Hidx & Hroot & _ & _ & _).
  pose proof (descendants_children node) as Hdesc.
  pose proof (sum_desc_nonneg (mChildren node)) as Hsum.
  assert (Hlen : 0 <= mNumChildren node) by (unfold mNumChildren; lia).
  destruct node as [nm t ms cs]. cbn [loadTree] in *. cbn [mChildren] in *.
  set (node := Build_aiNode nm t ms cs) in *.
  set (len := mNumChildren node) in *.
  rewrite (to_int_small len) in * by lia.
  rewrite (to_int_small (tree_index st + len)) in * by lia.
  set (nmap1 := if (mNumMeshes node =? 0) && bool_decide (node_map st !! mName node = None)
                then <[mName node := cur]> (node_map st) else node_map st) in *.
  set (st1 := {| nodes := nodes_put (nodes st) cur (Some node, tree_index st);
                 tree_index := tree_index st + len;
                 node_map := nmap1 |}) in *.
  assert (Hlencs : Z.of_nat (length cs) = len) by reflexivity.
  pose proof (loadChildren_layout cs IH (tree_index st) 0 st1 None
                ltac:(lia) ltac:(lia)
                ltac:(unfold st1; cbn [tree_index]; lia)
                ltac:(unfold st1; cbn [tree_index]; lia)) as Hloop.
  set (st' := fst (loadChildren _ (tree_index st) cs 0 (st1, None))) in *.
  destruct Hloop as ((Hlen' & Hch' & Hmono' & Hsound' & Hcompl') & Hplaced').
  cbn [tree_index nodes node_map st1] in *. rewrite Hlencs, Z.add_0_r in *.
  assert (Hmono1 : forall nm' j, node_map st !! nm' = Some j -> nmap1 !! nm' = Some j).
  { intros nm' j Hm. unfold nmap1.
    destruct (mNumMeshes node =? 0); cbn [andb]; [| exact Hm].
    case_bool_decide as Hnone; [| exact Hm].
    rewrite lookup_insert_ne; [exact Hm |]. intros <-. congruence. }
  unfold layout_post, written. repeat split.
  - rewrite length_nodes_put in Hlen' by lia. lia.
  - intros j [-> | Hj].
    + intros n c Hat i child Hi. rewrite Hroot in Hat. injection Hat as <- <-.
      cbn [mChildren] in Hi. apply Hplaced'. exact Hi.
    + apply Hch'. lia.
  - intros nm' j Hm. apply Hmono', Hmono1, Hm.
  - intros nm' j Hm. destruct (Hsound' nm' j Hm) as [Hm1 | [Hw Hj]].
    + unfold nmap1 in Hm1.
      destruct (Z.eqb_spec (mNumMeshes node) 0) as [Hmesh | Hmesh]; cbn [andb] in Hm1;
        [| left; exact Hm1].
      case_bool_decide as Hnone; [| left; exact Hm1].
      destruct (decide (mName node = nm')) as [<- | Hne].
      * rewrite lookup_insert_eq in Hm1. injection Hm1 as <-.
        right. split; [left; reflexivity |]. exists node, (tree_index st). auto.
      * rewrite lookup_insert_ne in Hm1 by exact Hne. left. exact Hm1.
    + right. split; [right; lia | exact Hj].
  - intros j n c [-> | Hj] Hat Hmesh.
    + rewrite Hroot in Hat. injection Hat as <- <-.
      assert (H1 : is_Some (nmap1 !! mName node)).
      { unfold nmap1. rewrite Hmesh, Z.eqb_refl. cbn [andb].
        case_bool_decide as Hnone.
        - rewrite lookup_insert_eq. eexists; reflexivity.
        - destruct (node_map st !! mName node) as [j |]; [eexists; reflexivity | congruence]. }
      destruct H1 as [j Hj]. exists j. apply Hmono'. exact Hj.
    + apply (Hcompl' j n c); [lia | exact Hat | exact Hmesh].
Qed.

(** X1: [loadTree] as [loadScene] calls it, on a tree of fewer than 2^31
    nodes: the array has one entry per node and no empty slot, and the
    children of the node of an entry are in its child block in the order
    of [mChildren], child [i] at slot [c + i]. *)
Theorem flatten_lists_children_in_order :
  forall root : aiNode,
    tree_size root < 2 ^ 31 ->
    Z.of_nat (length (flatten root)) = tree_size root
    /\ (forall j, 0 <= j < tree_size root -> exists n c, node_at (flatten root) j = Some (n, c))
    /\ (forall j n c, node_at (flatten root) j = Some (n, c) ->
          forall (i : nat) (child : aiNode), mChildren n !! i = Some child ->
            exists c', node_at (flatten root) (c + Z.of_nat i) = Some (child, c')).
Proof.
  intros root Hsize. unfold tree_size in *. unfold flatten.
  set (st0 := {| nodes := []; tree_index := 1; node_map := ∅ |}).
  pose proof (descendants_nonneg root) as Hd.
  pose proof (loadTree_spec root 0 st0 ltac:(cbn; lia) ltac:(cbn; lia)) as Hpost.
  pose proof (loadTree_layout root 0 st0 ltac:(cbn; lia) ltac:(cbn; lia)) as Hlay.
  set (st' := fst (loadTree root 0 st0)) in *.
  destruct Hpost as (Hidx & Hroot & Hframe & Hok & _).
  destruct Hlay as (Hlen & Hch & _ & _ & _).
  cbn [tree_index nodes st0 length] in *. unfold written in *.
  assert (Hfilled : forall j, 0 <= j < 1 + descendants root ->
                      exists n c, node_at (nodes st') j = Some (n, c)).
  { intros j Hj. destruct (Hok j ltac:(lia)) as (n & c & Hat & _). exists n, c. exact Hat. }
  assert (Hin : forall j n c, node_at (nodes st') j = Some (n, c) -> 0 <= j < 1 + descendants root).
  { intros j n c Hat.
    destruct (Z_lt_le_dec j 0) as [Hneg | Hnn];
      [| destruct (Z_lt_le_dec j (1 + descendants root)) as [Hlt | Hge]; [lia |]].
    - rewrite Hframe in Hat by lia. rewrite node_at_nil in Hat. discriminate.
    - rewrite Hframe in Hat by lia. rewrite node_at_nil in Hat. discriminate. }
  split; [| split].
  - destruct (Hfilled (descendants root) ltac:(lia)) as (n & c & Hat).
    unfold node_at, lookupZ in Hat.
    destruct (Z.ltb_spec (descendants root) 0); [lia |].
    destruct (nodes st' !! Z.to_nat (descendants root)) as [p |] eqn:Hl; [| discriminate].
    apply lookup_lt_Some in Hl. lia.
  - exact Hfilled.
  - intros j n c Hat. apply (Hch j); [| exact Hat].
    pose proof (Hin j n c Hat). lia.
Qed.

Lemma flatten_lists_children_in_order_witness :
  tree_size small_tree < 2 ^ 31
  /\ Z.of_nat (length (flatten small_tree)) = tree_size small_tree
  /\ (forall j, 0 <= j < tree_size small_tree ->
        exists n c, node_at (flatten small_tree) j = Some (n, c))
  /\ (forall j n c, node_at (flatten small_tree) j = Some (n, c) ->
        forall (i : nat) (child : aiNode), mChildren n !! i = Some child ->
          exists c', node_at (flatten small_tree) (c + Z.of_nat i) = Some (child, c')).
Proof.
  assert (Hsize : tree_size small_tree < 2 ^ 31) by (vm_compute; reflexivity).
  split; [exact Hsize | exact (flatten_lists_children_in_order small_tree Hsize)].
Defined.

(** X2: the name map [loadTree] fills, on a tree of fewer than 2^31 nodes: a
    name leads to a slot whose node has that name and no mesh; the name of
    every node without meshes is in the map; a name that only nodes with
    meshes carry is not. *)
Theorem joint_map_names_meshless_nodes :
  forall root : aiNode,
    tree_size root < 2 ^ 31 ->
    (forall nm j, joint_map root !! nm = Some j ->
       exists n c, node_at (flatten root) j = Some (n, c) /\ mName n = nm /\ mNumMeshes n = 0)
    /\ (forall j n c, node_at (flatten root) j = Some (n, c) -> mNumMeshes n = 0 ->
          is_Some (joint_map root !! mName n))
    /\ (forall nm,
          (forall j n c, node_at (flatten root) j = Some (n, c) -> mName n = nm ->
             mNumMeshes n <> 0) ->
          joint_map root !! nm = None).
Proof.
  intros root Hsize. unfold tree_size in *. unfold flatten, joint_map.
  set (st0 := {| nodes := []; tree_index := 1; node_map := ∅ |}).
  pose proof (descendants_nonneg root) as Hd.
  pose proof (loadTree_spec root 0 st0 ltac:(cbn; lia) ltac:(cbn; lia)) as Hpost.
  pose proof (loadTree_layout root 0 st0 ltac:(cbn; lia) ltac:(cbn; lia)) as Hlay.
  set (st' := fst (loadTree root 0 st0)) in *.
  destruct Hpost as (Hidx & _ & Hframe & _ & _).
  destruct Hlay as (_ & _ & _ & Hsound & Hcompl).
  cbn [tree_index nodes node_map st0] in *. unfold written in *.
  assert (Hsound' : forall nm j, node_map st' !! nm = Some j ->
            exists n c, node_at (nodes st') j = Some (n, c) /\ mName n = nm /\ mNumMeshes n = 0).
  { intros nm j Hm. destruct (Hsound nm j Hm) as [Hm0 | [_ Hj]]; [| exact Hj].
    rewrite lookup_empty in Hm0. discriminate. }
  split; [exact Hsound' | split].
  - intros j n c Hat Hmesh. apply (Hcompl j n c); [| exact Hat | exact Hmesh].
    destruct (Z_lt_le_dec j 0) as [Hneg | Hnn];
      [| destruct (Z_lt_le_dec j (1 + descendants root)) as [Hlt | Hge]; [lia |]].
    + rewrite Hframe in Hat by lia. rewrite node_at_nil in Hat. discriminate.
    + rewrite Hframe in Hat by lia. rewrite node_at_nil in Hat. discriminate.
  - intros nm Hall. destruct (node_map st' !! nm) as [j |] eqn:Hm; [| reflexivity].
    destruct (Hsound' nm j Hm) as (n & c & Hat & Hn & Hmesh).
    exfalso. exact (Hall j n c Hat Hn Hmesh).
Qed.

Lemma joint_map_names_meshless_nodes_witness :
  tree_size body_tree < 2 ^ 31
  /\ (forall nm j, joint_map body_tree !! nm = Some j ->
        exists n c, node_at (flatten body_tree) j = Some (n, c) /\ mName n = nm
                    /\ mNumMeshes n = 0)
  /\ joint_map body_tree !! "body" = None.
Proof.
  assert (Hsize : tree_size body_tree < 2 ^ 31) by (vm_compute; reflexivity).
  destruct (joint_map_names_meshless_nodes body_tree Hsize) as (Hs & _ & Hn).
  split; [exact Hsize |]. split; [exact Hs |].
  apply Hn. intros j n c Hat Hname.
  assert (Hj : j = 0 \/ j = 1).
  { unfold node_at, lookupZ in Hat. destruct (Z.ltb_spec j 0); [discriminate |].
    destruct (flatten body_tree !! Z.to_nat j) as [p |] eqn:Hl; [| discriminate].
    apply lookup_lt_Some in Hl.
    assert (Hlen : length (flatten body_tree) = 2%nat) by (vm_compute; reflexivity).
    rewrite Hlen in Hl. lia. }
  destruct Hj as [-> | ->]; vm_compute in Hat; injection Hat as <- <-;
    [discriminate Hname | discriminate].
Defined.

(** X3: [loadTree] hands back the first non-null result of its children, and
    a leaf hands back null: the result is null for every tree. *)
Theorem loadTree_returns_null :
  forall (node : aiNode) (cur : Z) (st : TreeState), snd (loadTree node cur st) = None.
Proof.
  induction node as [node IH] using aiNode_children_ind.
  intros cur st. destruct node as [nm t ms cs]. cbn [loadTree mChildren] in *.
  generalize (tree_index st) at 1 as childIdx.
  generalize ({| nodes := nodes_put (nodes st) cur (Some (Build_aiNode nm t ms cs), tree_index st);
                 tree_index := to_int (tree_index st + to_int (mNumChildren (Build_aiNode nm t ms cs)));
                 node_map := if (mNumMeshes (Build_aiNode nm t ms cs) =? 0)
                                && bool_decide (node_map st !! mName (Build_aiNode nm t ms cs) = None)
                             then <[mName (Build_aiNode nm t ms cs) := cur]> (node_map st)
                             else node_map st |}) as st1.
  generalize 0 as i.
  induction IH as [| child rest Hchild _ IHrest]; intros i st1 childIdx; cbn [loadChildren].
  - reflexivity.
  - specialize (Hchild (uadd childIdx i) st1).
    destruct (loadTree child (uadd childIdx i) st1) as [st2 r]. cbn [snd] in Hchild. subst r.
    apply IHrest.
Qed.

(** ** The mesh subsets (Main.cpp, getVertexCount) *)

Import MeshSubsets.

Lemma index_total_app (l1 l2 : list aiMesh) :
  index_total (l1 ++ l2) = index_total l1 + index_total l2.
Proof.
  unfold index_total. induction l1 as [| m l1 IH]; cbn [fold_right app]; [reflexivity | lia].
Qed.

Lemma index_total_nonneg (l : list aiMesh) : 0 <= index_total l.
Proof.
  unfold index_total. induction l as [| m l IH]; cbn [fold_right]; [lia |].
  assert (0 <= mNumFaces m) by (unfold mNumFaces; lia). lia.
Qed.

Lemma subsets_from_app (a : Z) (l1 l2 : list aiMesh) :
  subsets_from a (l1 ++ l2) = subsets_from a l1 ++ subsets_from (a + index_total l1) l2.
Proof.
  revert a. induction l1 as [| m l1 IH]; intros a; cbn [subsets_from index_total fold_right app].
  - rewrite Z.add_0_r. reflexivity.
  - rewrite IH. do 3 f_equal. unfold index_total. lia.
Qed.

Lemma count_mesh_counted (scene : aiScene) (st : CountState) (mesh_id : Z) :
  count_mesh scene st mesh_id
  = match counted scene mesh_id with
    | None => st
    | Some mesh =>
        {| meshes := meshes st ++
             [ {| name := mesh_mName mesh; start := icount st;
                  end_ := uadd (icount st) (to_uint (mNumFaces mesh * 3)) |} ];
           vcount := uadd (vcount st) (mNumVertices mesh);
           icount := uadd (icount st) (to_uint (mNumFaces mesh * 3)) |}
    end.
Proof.
  unfold count_mesh, counted, skipped.
  destruct (lookupZ (scene_mMeshes scene) mesh_id) as [mesh |]; [| reflexivity].
  destruct (negb (mPrimitiveTypes mesh =? aiPrimitiveType_TRIANGLE)
            || negb (HasPositions mesh) || negb (HasFaces mesh)); reflexivity.
Qed.

Lemma count_meshes_subsets (scene : aiScene) (ids : list Z) (st : CountState) :
  0 <= icount st -> icount st + index_total (omap (counted scene) ids) < 2 ^ 31 ->
  icount (fold_left (count_mesh scene) ids st)
    = icount st + index_total (omap (counted scene) ids)
  /\ meshes (fold_left (count_mesh scene) ids st)
     = meshes st ++ subsets_from (icount st) (omap (counted scene) ids).
Proof.
  revert st. induction ids as [| mesh_id ids IH]; intros st H0 Hmax.
  - cbn. rewrite app_nil_r. split; [lia | reflexivity].
  - cbn [fold_left]. rewrite count_mesh_counted.
    change (omap (counted scene) (mesh_id :: ids))
      with (match counted scene mesh_id with
            | Some mesh => mesh :: omap (counted scene) ids
            | None => omap (counted scene) ids
            end) in *.
    pose proof (index_total_nonneg (omap (counted scene) ids)) as Hnn.
    destruct (counted scene mesh_id) as [mesh |]; [| apply IH; assumption].
    change (index_total (mesh :: omap (counted scene) ids))
      with (mNumFaces mesh * 3 + index_total (omap (counted scene) ids)) in *.
    cbn [subsets_from].
    assert (Hnf : 0 <= mNumFaces mesh) by (unfold mNumFaces; lia).
    rewrite to_uint_small by lia. rewrite uadd_small by lia.
    set (st1 := {| meshes := _; vcount := _; icount := _ |}).
    destruct (IH st1 ltac:(unfold st1; cbn [icount]; lia) ltac:(unfold st1; cbn [icount]; lia))
      as [Hi Hm].
    rewrite Hi, Hm. unfold st1. cbn [icount meshes]. rewrite <- app_assoc.
    split; [lia | reflexivity].
Qed.

Lemma count_node_subsets (scene : aiScene) (node : aiNode) :
  forall st : CountState,
    0 <= icount st -> icount st + index_total (node_meshes scene node) < 2 ^ 31 ->
    icount (getVertexCount scene node st) = icount st + index_total (node_meshes scene node)
    /\ meshes (getVertexCount scene node st)
       = meshes st ++ subsets_from (icount st) (node_meshes scene node).
Proof.
  induction node as [node IH] using aiNode_children_ind.
  intros st H0. destruct node as [nm tr ms kids].
  cbn [getVertexCount node_meshes mChildren mMeshes] in *.
  rewrite index_total_app, subsets_from_app. intros Hmax.
  pose proof (index_total_nonneg (omap (counted scene) ms)) as Hnn1.
  pose proof (index_total_nonneg (concat (map (node_meshes scene) kids))) as Hnn2.
  destruct (count_meshes_subsets scene ms st H0 ltac:(lia)) as [Hi1 Hm1].
  revert Hi1 Hm1. generalize (fold_left (count_mesh scene) ms st). intros st1 Hi1 Hm1.
  rewrite app_assoc, <- Hm1, Z.add_assoc, <- Hi1.
  assert (H1 : 0 <= icount st1) by lia.
  assert (Hmax1 : icount st1 + index_total (concat (map (node_meshes scene) kids)) < 2 ^ 31) by lia.
  clear Hi1 Hm1 Hmax Hnn1 H0 st. revert st1 H1 Hmax1.
  induction IH as [| kid kids Hkid _ IHkids]; intros st H0 Hmax; cbn [fold_left map concat] in *.
  - cbn [index_total fold_right subsets_from]. rewrite app_nil_r. split; [lia | reflexivity].
  - rewrite index_total_app in *. rewrite subsets_from_app.
    pose proof (index_total_nonneg (node_meshes scene kid)) as Hk.
    pose proof (index_total_nonneg (concat (map (node_meshes scene) kids))) as Hks.
    destruct (Hkid st H0 ltac:(lia)) as [Hi1 Hm1].
    destruct (IHkids ltac:(apply index_total_nonneg) (getVertexCount scene kid st)
                ltac:(lia) ltac:(lia)) as [Hi2 Hm2].
    rewrite Hi2, Hm2, Hi1, Hm1, <- app_assoc. split; [lia | reflexivity].
Qed.

Lemma counted_has_faces (scene : aiScene) (mesh_id : Z) (mesh : aiMesh) :
  counted scene mesh_id = Some mesh -> 0 < mNumFaces mesh.
Proof.
  unfold counted, skipped, HasFaces.
  destruct (lookupZ (scene_mMeshes scene) mesh_id) as [m |]; [| discriminate].
  destruct (negb (mPrimitiveTypes m =? aiPrimitiveType_TRIANGLE)) eqn:H1; [discriminate |].
  destruct (negb (HasPositions m)) eqn:H2; [discriminate |].
  destruct (Z.ltb_spec 0 (mNumFaces m)); cbn [negb orb]; [| discriminate].
  intros [= <-]. assumption.
Qed.

Lemma node_meshes_have_faces (scene : aiScene) (node : aiNode) :
  Forall (fun mesh => 0 < mNumFaces mesh) (node_meshes scene node).
Proof.
  induction node as [node IH] using aiNode_children_ind.
  destruct node as [nm tr ms kids]. cbn [node_meshes mChildren mMeshes] in *.
  apply Forall_app. split.
  - apply Forall_forall. intros mesh Hin. apply list_elem_of_omap in Hin as (mesh_id & _ & Hc).
    exact (counted_has_faces scene mesh_id mesh Hc).
  - induction IH as [| kid kids Hkid _ IHkids]; cbn [map concat]; [constructor |].
    apply Forall_app. split; assumption.
Qed.

Lemma tiles_subsets_from (l : list aiMesh) (a : Z) :
  Forall (fun mesh => 0 < mNumFaces mesh) l ->
  tiles (subsets_from a l) a (a + index_total l).
Proof.
  intros Hl. revert a. induction Hl as [| mesh rest Hm _ IH]; intros a;
    cbn [subsets_from tiles index_total fold_right start end_].
  - lia.
  - split; [reflexivity |]. split; [lia |].
    fold (index_total rest). rewrite Z.add_assoc. apply IH.
Qed.

(** X4: the table of mesh subsets that [getVertexCount] leaves in [meshes],
    when the indices of the scene fit an [int]: one subset per counted
    mesh, in traversal order, under the name of the mesh; the first range
    starts at 0, each range is three indices per face long and starts where
    the one before ends, and the last one ends at the index count. *)
Theorem mesh_subsets_tile_index_range (scene : aiScene) :
  index_total (scene_meshes scene) < 2 ^ 31 ->
  icount (scene_counts scene) = index_total (scene_meshes scene)
  /\ meshes (scene_counts scene) = subsets_from 0 (scene_meshes scene)
  /\ tiles (meshes (scene_counts scene)) 0 (icount (scene_counts scene)).
Proof.
  intros Hmax. unfold scene_counts, scene_meshes in *.
  destruct (count_node_subsets scene (mRootNode scene)
              {| meshes := []; vcount := 0; icount := 0 |}
              ltac:(cbn; lia) ltac:(cbn [icount]; lia)) as [Hi Hm].
  cbn [icount meshes app] in Hi, Hm. rewrite Hi, Hm, Z.add_0_l.
  split; [reflexivity |]. split; [reflexivity |].
  apply (tiles_subsets_from _ 0). apply node_meshes_have_faces.
Qed.

Lemma mesh_subsets_tile_index_range_witness :
  index_total (scene_meshes rig_scene) < 2 ^ 31
  /\ icount (scene_counts rig_scene) = 6
  /\ meshes (scene_counts rig_scene)
     = [ {| name := "arm"; start := 0; end_ := 3 |};
         {| name := "triangle"; start := 3; end_ := 6 |} ].
Proof.
  assert (Hmax : index_total (scene_meshes rig_scene) < 2 ^ 31) by (vm_compute; reflexivity).
  destruct (mesh_subsets_tile_index_range rig_scene Hmax) as (Hi & Hm & _).
  split; [exact Hmax |]. split; [rewrite Hi | rewrite Hm]; vm_compute; reflexivity.
Defined.

(** ** Bone ids (Main.cpp, getNodeBone, loadMesh, generateMesh) *)

Import BoneTable.

Lemma table_step_refl (st : GenState) : table_step st st.
Proof. split; [lia | auto]. Qed.

Lemma table_step_same (st st' : GenState) :
  bones st' = bones st -> index st' = index st -> table_step st st'.
Proof. intros Hb Hi. unfold table_step. rewrite Hb, Hi. split; [lia | auto]. Qed.

Lemma table_step_trans (st1 st2 st3 : GenState) :
  table_step st1 st2 -> table_step st2 st3 -> table_step st1 st3.
Proof.
  intros [Hs1 Hd1] [Hs2 Hd2]. split; [lia |].
  intros Hmax Hd. apply Hd2; [exact Hmax |]. apply Hd1; [lia | exact Hd].
Qed.

Lemma table_step_fold {A : Type} (f : GenState -> A -> GenState) (l : list A) :
  (forall st a, table_step st (f st a)) -> forall st, table_step st (fold_left f l st).
Proof.
  intros Hf. induction l as [| a l IH]; intros st; cbn [fold_left].
  - apply table_step_refl.
  - eapply table_step_trans; [apply Hf | apply IH].
Qed.

Lemma bones_dense_insert (bs : gmap string Bone) (ix : Z) (nm : string) (t : aiMatrix4x4) :
  bs !! nm = None ->
  Z.of_nat (size (<[nm := {| id := to_uint ix; transform := t |}]> bs)) < 2 ^ 31 ->
  bones_dense bs ix ->
  bones_dense (<[nm := {| id := to_uint ix; transform := t |}]> bs) (to_int (ix + 1)).
Proof.
  intros Hnone Hmax (Hix & Hrange & Hinj & Hsurj).
  assert (Hsz : forall b : Bone, size (<[nm := b]> bs) = S (size bs))
    by (intros b; apply map_size_insert_None; exact Hnone).
  rewrite Hsz in Hmax.
  rewrite to_uint_small by lia. rewrite to_int_small by lia.
  split; [| split; [| split]].
  - rewrite Hsz. lia.
  - intros nm0 b Hb. destruct (decide (nm = nm0)) as [<- | Hne].
    + rewrite lookup_insert_eq in Hb. injection Hb as <-. cbn [id]. lia.
    + rewrite lookup_insert_ne in Hb by exact Hne. apply Hrange in Hb. lia.
  - intros nm1 nm2 b1 b2 H1 H2 Heq.
    destruct (decide (nm = nm1)) as [<- | Hne1]; destruct (decide (nm = nm2)) as [<- | Hne2].
    + reflexivity.
    + rewrite lookup_insert_eq in H1. rewrite lookup_insert_ne in H2 by exact Hne2.
      injection H1 as <-. cbn [id] in Heq. apply Hrange in H2. lia.
    + rewrite lookup_insert_eq in H2. rewrite lookup_insert_ne in H1 by exact Hne1.
      injection H2 as <-. cbn [id] in Heq. apply Hrange in H1. lia.
    + rewrite lookup_insert_ne in H1 by exact Hne1. rewrite lookup_insert_ne in H2 by exact Hne2.
      exact (Hinj nm1 nm2 b1 b2 H1 H2 Heq).
  - intros k Hk. destruct (Z.eq_dec k ix) as [-> | Hne].
    + exists nm, {| id := ix; transform := t |}. rewrite lookup_insert_eq. auto.
    + destruct (Hsurj k ltac:(lia)) as (nm' & b & Hb & Hid). exists nm', b.
      rewrite lookup_insert_ne; [auto |]. intros <-. congruence.
Qed.

Lemma getNodeBone_table `{AssimpMath} (st : GenState) (nm : string) (t : aiMatrix4x4) :
  table_step st
    (with_bones st (snd (fst (getNodeBone (bones st) (index st) nm t)))
                   (snd (getNodeBone (bones st) (index st) nm t))).
Proof.
  unfold getNodeBone. destruct (bones st !! nm) as [b |] eqn:Hb; cbn [fst snd].
  - apply table_step_same; reflexivity.
  - split; cbn [with_bones bones index].
    + rewrite map_size_insert_None by exact Hb. lia.
    + apply bones_dense_insert. exact Hb.
Qed.

Lemma load_vertex_table (mesh : aiMesh) (t : aiMatrix4x4) (nmat : aiMatrix3x3)
    (st : GenState) (i : Z) :
  table_step st (load_vertex mesh t nmat st i).
Proof.
  apply table_step_same; unfold load_vertex;
    destruct (HasNormals mesh), (HasTextureCoords0 mesh); reflexivity.
Qed.

Lemma load_face_table (mesh : aiMesh) (st : GenState) (f : Z) :
  table_step st (load_face mesh st f).
Proof. apply table_step_same; reflexivity. Qed.

Lemma load_weight_table (bidx : Z) (st : GenState) (vw : aiVertexWeight) :
  table_step st (load_weight bidx st vw).
Proof.
  apply table_step_same; unfold load_weight;
    destruct (find_slot _ _ bidx >=? 4); reflexivity.
Qed.

Lemma load_bone_table `{AssimpMath} (t : aiMatrix4x4) (st : GenState) (bone : aiBone) :
  table_step st (load_bone t st bone).
Proof.
  unfold load_bone. destruct (bones st !! bone_mName bone) as [b |] eqn:Hb.
  - apply table_step_fold. intros st' vw. apply load_weight_table.
  - set (st1 := with_bones st _ _).
    apply (table_step_trans st st1);
      [| apply table_step_fold; intros st' vw; apply load_weight_table].
    split; cbn [st1 with_bones bones index].
    + rewrite map_size_insert_None by exact Hb. lia.
    + apply bones_dense_insert. exact Hb.
Qed.

Lemma post_vertex_table `{AssimpMath} (nm : string) (t : aiMatrix4x4) (st : GenState) (i : Z) :
  table_step st (post_vertex nm t st i).
Proof.
  unfold post_vertex. destruct (SFeqb _ f_zero).
  - pose proof (getNodeBone_table st (String.append nm "_auto") t) as Hg.
    destruct (getNodeBone (bones st) (index st) (String.append nm "_auto") t) as [[d bs] ix].
    cbn [fst snd] in Hg. eapply table_step_trans; [exact Hg |].
    apply table_step_same; reflexivity.
  - apply table_step_same; reflexivity.
Qed.

Lemma default_vertex_table (d : Z) (st : GenState) (i : Z) :
  table_step st (default_vertex d st i).
Proof. apply table_step_same; reflexivity. Qed.

Lemma loadMesh_table `{AssimpMath} (scene : aiScene) (mesh_id : Z) (nm : string)
    (t : aiMatrix4x4) (st : GenState) :
  table_step st (snd (loadMesh scene mesh_id nm t st)).
Proof.
  unfold loadMesh.
  destruct (lookupZ (scene_mMeshes scene) mesh_id) as [mesh |]; [| apply table_step_refl].
  destruct (negb (mPrimitiveTypes mesh =? aiPrimitiveType_TRIANGLE)
            || negb (HasPositions mesh) || negb (HasFaces mesh)); [apply table_step_refl |].
  cbn [snd].
  set (st1 := fold_left (load_vertex mesh t (mat3_inverse_transpose t)) _ st).
  set (st2 := fold_left (load_face mesh) _ st1).
  set (st3 := if HasAnimations scene then _ else st2).
  apply (table_step_trans st st1);
    [apply table_step_fold; intros st' i; apply load_vertex_table |].
  apply (table_step_trans st1 st2);
    [apply table_step_fold; intros st' f; apply load_face_table |].
  apply (table_step_trans st2 st3); [| apply table_step_same; reflexivity].
  unfold st3. destruct (HasAnimations scene); [| apply table_step_refl].
  destruct (HasBones mesh).
  - apply (table_step_trans st2 (fold_left (load_bone t) (mBones mesh) st2));
      [apply table_step_fold; intros st' b; apply load_bone_table |].
    apply table_step_fold. intros st' i. apply post_vertex_table.
  - pose proof (getNodeBone_table st2 (String.append nm "_auto") t) as Hg.
    destruct (getNodeBone (bones st2) (index st2) (String.append nm "_auto") t) as [[d bs] ix].
    cbn [fst snd] in Hg. eapply table_step_trans; [exact Hg |].
    apply table_step_fold. intros st' i. apply default_vertex_table.
Qed.

Lemma generateMesh_table `{AssimpMath} (scene : aiScene) (node : aiNode) :
  forall (t : aiMatrix4x4) (st : GenState), table_step st (generateMesh scene node t st).
Proof.
  induction node as [node IH] using aiNode_children_ind.
  intros t st. destruct node as [nm tr ms kids].
  cbn [generateMesh mChildren mMeshes mName mTransformation] in *.
  set (mat := mat4_mul t tr).
  apply (table_step_trans st
           (fold_left (fun st mesh_id => snd (loadMesh scene mesh_id nm mat st)) ms st));
    [apply (table_step_fold (fun st mesh_id => snd (loadMesh scene mesh_id nm mat st)));
     intros st' mesh_id; apply loadMesh_table |].
  generalize (fold_left (fun st mesh_id => snd (loadMesh scene mesh_id nm mat st)) ms st).
  induction IH as [| kid kids Hkid _ IHkids]; intros st1; cbn [fold_left].
  - apply table_step_refl.
  - eapply table_step_trans; [apply Hkid | apply IHkids].
Qed.

(** X5: bone ids after the emission pass: as long as the table ends with
    fewer than 2^31 bones, the ids are the numbers from 0 to the number of
    bones minus one, no two names share an id, and [index] is the number of
    bones. *)
Theorem bone_ids_are_dense `{AssimpMath} (scene : aiScene) :
  Z.of_nat (size (bones (scene_generate scene))) < 2 ^ 31 ->
  bones_dense (bones (scene_generate scene)) (index (scene_generate scene)).
Proof.
  intros Hmax. unfold scene_generate in *.
  destruct (generateMesh_table scene (mRootNode scene) identity (scene_start scene)) as [_ Hd].
  apply Hd; [exact Hmax |].
  unfold scene_start. cbn [bones index]. unfold bones_dense.
  rewrite map_size_empty. split; [reflexivity |]. split; [| split].
  - intros nm b Hb. rewrite lookup_empty in Hb. discriminate.
  - intros nm1 nm2 b1 b2 Hb. rewrite lookup_empty in Hb. discriminate.
  - intros k Hk. lia.
Qed.

Lemma bone_ids_are_dense_witness :
  Z.of_nat (size (bones (@scene_generate sample_math rig_scene))) < 2 ^ 31
  /\ bones_dense (bones (@scene_generate sample_math rig_scene))
                 (index (@scene_generate sample_math rig_scene)).
Proof.
  assert (Hmax : Z.of_nat (size (bones (@scene_generate sample_math rig_scene))) < 2 ^ 31)
    by (vm_compute; reflexivity).
  split; [exact Hmax | exact (@bone_ids_are_dense sample_math rig_scene Hmax)].
Defined.

(** ** The key-frame blocks (Main.cpp, writeVectorArray and writeQuatArray) *)

Import KeyArrays.

Lemma fold_upto_sorted (step : list Z -> Z -> list Z) (n : Z) :
  (forall ar i, step ar i = ar \/ step ar i = ar ++ [i]) ->
  0 <= n ->
  StronglySorted Z.lt (fold_left step (seqZ 0 n) [])
  /\ Forall (fun i => 0 <= i < n) (fold_left step (seqZ 0 n) [])
  /\ Z.of_nat (length (fold_left step (seqZ 0 n) [])) <= n.
Proof.
  intros Hstep Hn. pattern n. apply natlike_ind; [| | exact Hn].
  - change (fold_left step (seqZ 0 0) []) with (@nil Z).
    split; [constructor | split; [constructor | cbn [length]; lia]].
  - intros m Hm (IHs & IHb & IHl). unfold Z.succ. rewrite seqZ_app by lia. rewrite fold_left_app.
    change (seqZ (0 + m) 1) with [0 + m]. cbn [fold_left]. rewrite Z.add_0_l.
    assert (IHb' : Forall (fun i => 0 <= i < m + 1) (fold_left step (seqZ 0 m) [])).
    { eapply Forall_impl; [exact IHb |]. cbv beta. intros i Hi. lia. }
    destruct (Hstep (fold_left step (seqZ 0 m) []) m) as [-> | ->];
      [split; [assumption | split; [assumption | lia]] |].
    split; [| split].
    + clear IHb' IHl. induction IHs as [| a l Hl IHl Ha]; cbn [app].
      * constructor; constructor.
      * apply Forall_cons in IHb as [Ham IHb]. constructor; [apply IHl; exact IHb |].
        apply Forall_app. split; [exact Ha |]. constructor; [lia | constructor].
    + apply Forall_app. split; [exact IHb' |]. constructor; [lia | constructor].
    + rewrite length_app. cbn [length]. lia.
Qed.

Lemma fold_samples {A : Type} (h : list item -> A -> list item) (g : A -> list item) :
  (forall file a, h file a = file ++ g a) ->
  forall l file, fold_left h l file = file ++ concat (map g l).
Proof.
  intros Hh l. induction l as [| a l IH]; intros file; cbn [fold_left map concat].
  - rewrite app_nil_r. reflexivity.
  - rewrite IH, Hh, <- app_assoc. reflexivity.
Qed.

Lemma length_concat_const {A B : Type} (g : A -> list B) (l : list A) (n : nat) :
  (forall a, length (g a) = n) -> length (concat (map g l)) = (n * length l)%nat.
Proof.
  intros Hg. induction l as [| a l IH]; cbn [map concat length]; [lia |].
  rewrite length_app, Hg, IH. lia.
Qed.

(** X6: the two key-frame writers, for a track of fewer than 2^28 keys: the
    block is the int [4 * n] (vectors) or [5 * n] (rotations), [n] being
    the number of retained keys, followed by that many floats, the samples
    of the retained keys; the retained keys are keys of the track, taken
    in increasing order. *)
Theorem key_arrays_are_counted `{AssimpMath} :
  forall (file : list item) (vkeys : list aiVectorKey) (qkeys : list aiQuatKey),
    Z.of_nat (length vkeys) < 2 ^ 28 -> Z.of_nat (length qkeys) < 2 ^ 28 ->
    (writeVectorArray file vkeys
     = file ++ Int (4 * Z.of_nat (length (vector_ar vkeys)))
               :: concat (map (vector_sample vkeys) (vector_ar vkeys))
     /\ Z.of_nat (length (concat (map (vector_sample vkeys) (vector_ar vkeys))))
        = 4 * Z.of_nat (length (vector_ar vkeys))
     /\ StronglySorted Z.lt (vector_ar vkeys)
     /\ Forall (fun i => 0 <= i < Z.of_nat (length vkeys)) (vector_ar vkeys))
    /\ (writeQuatArray file qkeys
        = file ++ Int (5 * Z.of_nat (length (quat_ar qkeys)))
                  :: concat (map (quat_sample qkeys) (quat_ar qkeys))
        /\ Z.of_nat (length (concat (map (quat_sample qkeys) (quat_ar qkeys))))
           = 5 * Z.of_nat (length (quat_ar qkeys))
        /\ StronglySorted Z.lt (quat_ar qkeys)
        /\ Forall (fun i => 0 <= i < Z.of_nat (length qkeys)) (quat_ar qkeys)).
Proof.
  intros file vkeys qkeys Hv Hq.
  destruct (fold_upto_sorted (vector_step vkeys (Z.of_nat (length vkeys)))
              (Z.of_nat (length vkeys)) (vector_step_cases vkeys _) ltac:(lia)) as (Hvs & Hvb & Hvl).
  destruct (fold_upto_sorted (quat_step qkeys (Z.of_nat (length qkeys)))
              (Z.of_nat (length qkeys)) (quat_step_cases qkeys _) ltac:(lia)) as (Hqs & Hqb & Hql).
  fold (vector_ar_upto vkeys (Z.of_nat (length vkeys))) in Hvs, Hvb, Hvl.
  fold (vector_ar vkeys) in Hvs, Hvb, Hvl.
  fold (quat_ar_upto qkeys (Z.of_nat (length qkeys))) in Hqs, Hqb, Hql.
  fold (quat_ar qkeys) in Hqs, Hqb, Hql.
  split.
  - split; [| split; [| split; [exact Hvs | exact Hvb]]].
    + unfold writeVectorArray.
      rewrite (fold_samples _ (vector_sample vkeys))
        by (intros f i; unfold writeFloat, vector_sample; rewrite <- !app_assoc; reflexivity).
      unfold writeInt. rewrite <- app_assoc. cbn [app]. do 3 f_equal.
      rewrite to_int_small by lia. lia.
    + rewrite (length_concat_const _ _ 4) by reflexivity. lia.
  - split; [| split; [| split; [exact Hqs | exact Hqb]]].
    + unfold writeQuatArray.
      rewrite (fold_samples _ (quat_sample qkeys))
        by (intros f i; unfold writeFloat, quat_sample; rewrite <- !app_assoc; reflexivity).
      unfold writeInt. rewrite <- app_assoc. cbn [app]. do 3 f_equal.
      rewrite to_int_small by lia. lia.
    + rewrite (length_concat_const _ _ 5) by reflexivity. lia.
Qed.

Lemma key_arrays_are_counted_witness :
  Z.of_nat (length jitter_track) < 2 ^ 28
  /\ Z.of_nat (length moving_rotations) < 2 ^ 28
  /\ writeVectorArray [] jitter_track
     = Int 8 :: concat (map (vector_sample jitter_track) [0; 3])
  /\ @writeQuatArray sample_math [] moving_rotations
     = Int 10 :: concat (map (quat_sample moving_rotations) [0; 1]).
Proof.
  assert (Hv : Z.of_nat (length jitter_track) < 2 ^ 28) by (vm_compute; reflexivity).
  assert (Hq : Z.of_nat (length moving_rotations) < 2 ^ 28) by (vm_compute; reflexivity).
  destruct (@key_arrays_are_counted sample_math [] jitter_track moving_rotations Hv Hq)
    as ((Hw1 & _) & (Hw2 & _)).
  split; [exact Hv |]. split; [exact Hq |]. split.
  - rewrite Hw1. vm_compute. reflexivity.
  - rewrite Hw2. vm_compute. reflexivity.
Defined.

(** ** Vertex data (Main.cpp, loadMesh) *)

Import Cells.

Lemma vb_get_cell (vb : VertexBuffer) (v a : Z) :
  vb_get vb v a = getAttrib (default [] (cell_at vb v a)).
Proof.
  unfold vb_get, cell_at. destruct (lookupZ (vb_data vb) v) as [attrs |]; [| reflexivity].
  destruct (lookupZ attrs a); reflexivity.
Qed.

Lemma cell_at_set_eq (vb : VertexBuffer) (v a : Z) (val : float4) (cell : list spec_float) :
  cell_at vb v a = Some cell ->
  cell_at (vb_set vb v a val) v a = Some (setAttrib (length cell) val).
Proof.
  unfold cell_at, vb_set. cbn [vb_data].
  destruct (lookupZ (vb_data vb) v) as [attrs |] eqn:Hv; [| discriminate].
  intros Ha. rewrite Ha.
  rewrite lookupZ_updateZ_eq by (eapply lookupZ_Some_range; exact Hv).
  apply lookupZ_updateZ_eq. eapply lookupZ_Some_range; exact Ha.
Qed.

Lemma cell_at_set_ne (vb : VertexBuffer) (v a v' a' : Z) (val : float4) :
  v <> v' \/ a <> a' -> cell_at (vb_set vb v a val) v' a' = cell_at vb v' a'.
Proof.
  intros Hne. unfold cell_at, vb_set. cbn [vb_data].
  destruct (lookupZ (vb_data vb) v) as [attrs |] eqn:Hv; [| reflexivity].
  destruct (lookupZ attrs a) as [cell |] eqn:Ha; [| reflexivity].
  destruct (Z.eq_dec v v') as [<- | Hv'].
  - rewrite lookupZ_updateZ_eq by (eapply lookupZ_Some_range; exact Hv). rewrite Hv.
    apply lookupZ_updateZ_ne. destruct Hne; congruence.
  - rewrite lookupZ_updateZ_ne by exact Hv'. reflexivity.
Qed.

Lemma length_setAttrib (n : nat) (val : float4) : (n <= 4)%nat -> length (setAttrib n val) = n.
Proof. intros Hn. unfold setAttrib. rewrite length_take. cbn [length]. lia. Qed.

Lemma has_cell_set (vb : VertexBuffer) (v a v' a' : Z) (val : float4) (n : nat) :
  has_cell vb v' a' n -> has_cell (vb_set vb v a val) v' a' n.
Proof.
  intros (cell & Hc & Hlen & Hn).
  destruct (Z.eq_dec v v') as [<- | Hv]; [destruct (Z.eq_dec a a') as [<- | Ha] |].
  - exists (setAttrib (length cell) val). rewrite (cell_at_set_eq vb v a val cell Hc).
    rewrite length_setAttrib by lia. auto.
  - exists cell. rewrite cell_at_set_ne by (right; exact Ha). auto.
  - exists cell. rewrite cell_at_set_ne by (left; exact Hv). auto.
Qed.

Lemma vb_get_set_cell (vb : VertexBuffer) (v a : Z) (val : float4) (n : nat) :
  has_cell vb v a n -> vb_get (vb_set vb v a val) v a = getAttrib (setAttrib n val).
Proof.
  intros (cell & Hc & Hlen & Hn). rewrite vb_get_cell, (cell_at_set_eq vb v a val cell Hc), Hlen.
  reflexivity.
Qed.

Lemma only_refl (Q : Z -> Z -> Prop) (st : GenState) : only Q st st.
Proof. repeat split; auto. Qed.

Lemma only_trans (Q : Z -> Z -> Prop) (st1 st2 st3 : GenState) :
  only Q st1 st2 -> only Q st2 st3 -> only Q st1 st3.
Proof.
  intros (Hv1 & Hh1 & Hc1) (Hv2 & Hh2 & Hc2). repeat split.
  - congruence.
  - auto.
  - intros v a Hq. rewrite Hc2, Hc1 by exact Hq. reflexivity.
Qed.

Lemma only_weaken (Q Q' : Z -> Z -> Prop) (st st' : GenState) :
  (forall v a, Q v a -> Q' v a) -> only Q st st' -> only Q' st st'.
Proof. intros Hq (Hv & Hh & Hc). repeat split; auto. Qed.

Lemma only_same (Q : Z -> Z -> Prop) (st st' : GenState) :
  vertices st' = vertices st -> voff st' = voff st -> only Q st st'.
Proof. intros Hvs Hvo. unfold only. rewrite Hvs, Hvo. repeat split; auto. Qed.

Lemma only_set (Q : Z -> Z -> Prop) (st : GenState) (v a : Z) (val : float4) :
  Q v a -> only Q st (with_vertices st (vb_set (vertices st) v a val)).
Proof.
  intros Hq. repeat split; cbn [with_vertices vertices voff].
  - intros v' a' n. apply has_cell_set.
  - intros v' a' Hn. apply cell_at_set_ne.
    destruct (Z.eq_dec v v') as [<- | Hv]; [| left; exact Hv].
    right. intros <-. contradiction.
Qed.

Lemma only_fold {A : Type} (Q : Z -> Z -> Prop) (f : GenState -> A -> GenState) (l : list A) :
  (forall st a, In a l -> only Q st (f st a)) -> forall st, only Q st (fold_left f l st).
Proof.
  induction l as [| a l IH]; intros Hf st; cbn [fold_left].
  - apply only_refl.
  - eapply only_trans; [apply Hf; left; reflexivity |].
    apply IH. intros st' a' Hin. apply Hf. right. exact Hin.
Qed.

Lemma vb_get_keep (vb vb' : VertexBuffer) (v a : Z) :
  cell_at vb' v a = cell_at vb v a -> vb_get vb' v a = vb_get vb v a.
Proof. intros Hc. rewrite !vb_get_cell, Hc. reflexivity. Qed.

Lemma holds_vertex_keep (mesh : aiMesh) (t : aiMatrix4x4) (nmat : aiMatrix3x3)
    (vb vb' : VertexBuffer) (v i : Z) :
  (forall a, ~ bone_attr a -> cell_at vb' v a = cell_at vb v a) ->
  holds_vertex mesh t nmat vb v i -> holds_vertex mesh t nmat vb' v i.
Proof.
  intros Hk (Hp & Hn & Hu). unfold holds_vertex.
  rewrite !(vb_get_keep vb vb') by (apply Hk; unfold bone_attr; intros [? | ?]; discriminate).
  auto.
Qed.

Lemma load_vertex_only (mesh : aiMesh) (t : aiMatrix4x4) (nmat : aiMatrix3x3)
    (st : GenState) (i : Z) :
  only (fun v a => v = uadd (voff st) i /\ ~ bone_attr a) st (load_vertex mesh t nmat st i).
Proof.
  unfold load_vertex.
  set (st0 := with_bounds st _).
  set (st1 := with_vertices st0 _).
  assert (Hq : forall a, a = POSITION \/ a = NORMAL \/ a = TEX_COORD ->
                 uadd (voff st) i = uadd (voff st) i /\ ~ bone_attr a).
  { intros a Ha. split; [reflexivity |]. unfold bone_attr.
    intros [? | ?]; destruct Ha as [? | [? | ?]]; subst; discriminate. }
  assert (H1 : only (fun v a => v = uadd (voff st) i /\ ~ bone_attr a) st st1).
  { apply (only_trans _ st st0); [apply only_same; reflexivity |].
    apply (only_set _ st0). apply Hq. auto. }
  destruct (HasNormals mesh), (HasTextureCoords0 mesh).
  - eapply only_trans; [eapply only_trans; [exact H1 |] |].
    + apply (only_set _ st1 (uadd (voff st) i) NORMAL). apply Hq. auto.
    + apply (only_set _ _ (uadd (voff st) i) TEX_COORD). apply Hq. auto.
  - eapply only_trans; [exact H1 |].
    apply (only_set _ st1 (uadd (voff st) i) NORMAL). apply Hq. auto.
  - eapply only_trans; [exact H1 |].
    apply (only_set _ st1 (uadd (voff st) i) TEX_COORD). apply Hq. auto.
  - exact H1.
Qed.

Lemma load_vertex_vertices (mesh : aiMesh) (t : aiMatrix4x4) (nmat : aiMatrix3x3)
    (st : GenState) (i : Z) :
  vertices (load_vertex mesh t nmat st i)
  = let v := uadd (voff st) i in
    let vb1 := vb_set (vertices st) v POSITION (position_of mesh t i) in
    let vb2 := if HasNormals mesh then vb_set vb1 v NORMAL (normal_of mesh nmat i) else vb1 in
    if HasTextureCoords0 mesh
    then vb_set vb2 v TEX_COORD
           (let uv := nth (Z.to_nat i) (default [] (mTextureCoords0 mesh)) zero3 in
            make4 (vx uv) (vy uv) (vz uv) f32_one)
    else vb2.
Proof.
  unfold load_vertex. destruct (HasNormals mesh), (HasTextureCoords0 mesh); reflexivity.
Qed.

Lemma load_vertex_holds (mesh : aiMesh) (t : aiMatrix4x4) (nmat : aiMatrix3x3)
    (st : GenState) (i : Z) :
  geometry_slot (vertices st) (uadd (voff st) i) ->
  holds_vertex mesh t nmat (vertices (load_vertex mesh t nmat st i)) (uadd (voff st) i) i.
Proof.
  intros (Hp & Hn & Hu). rewrite load_vertex_vertices. unfold holds_vertex. cbv zeta.
  set (v := uadd (voff st) i).
  set (vb1 := vb_set (vertices st) v POSITION (position_of mesh t i)).
  assert (Hp1 : vb_get vb1 v POSITION = position_of mesh t i).
  { unfold vb1. rewrite (vb_get_set_cell _ _ _ _ 3 Hp). reflexivity. }
  assert (Hn1 : has_cell vb1 v NORMAL 3) by apply has_cell_set, Hn.
  assert (Hu1 : has_cell vb1 v TEX_COORD 2) by apply has_cell_set, Hu.
  destruct (HasNormals mesh), (HasTextureCoords0 mesh).
  - split; [| split]; intros.
    + rewrite !vb_get_keep with (vb := vb1); [exact Hp1 |].
      rewrite !cell_at_set_ne by (right; discriminate). reflexivity.
    + rewrite vb_get_keep with (vb := vb_set vb1 v NORMAL (normal_of mesh nmat i)).
      * rewrite (vb_get_set_cell _ _ _ _ 3 Hn1). reflexivity.
      * apply cell_at_set_ne. right. discriminate.
    + rewrite (vb_get_set_cell _ _ _ _ 2); [reflexivity |]. apply has_cell_set, Hu1.
  - split; [| split]; intros; [| | discriminate].
    + rewrite vb_get_keep with (vb := vb1); [exact Hp1 |].
      apply cell_at_set_ne. right. discriminate.
    + rewrite (vb_get_set_cell _ _ _ _ 3 Hn1). reflexivity.
  - split; [| split]; intros; [| discriminate |].
    + rewrite vb_get_keep with (vb := vb1); [exact Hp1 |].
      apply cell_at_set_ne. right. discriminate.
    + rewrite (vb_get_set_cell _ _ _ _ 2 Hu1). reflexivity.
  - split; [exact Hp1 | split; intros; discriminate].
Qed.

Lemma fold_snoc {A : Type} (f : A -> Z -> A) (n : Z) (a : A) :
  0 <= n -> fold_left f (seqZ 0 (Z.succ n)) a = f (fold_left f (seqZ 0 n) a) n.
Proof.
  intros Hn. unfold Z.succ. rewrite seqZ_app by lia. rewrite fold_left_app.
  change (seqZ (0 + n) 1) with [0 + n]. cbn [fold_left]. rewrite Z.add_0_l. reflexivity.
Qed.

Lemma load_vertices_hold (mesh : aiMesh) (t : aiMatrix4x4) (nmat : aiMatrix3x3)
    (st : GenState) (n : Z) :
  0 <= n -> 0 <= voff st -> voff st + n < 2 ^ 31 ->
  (forall i, 0 <= i < n -> geometry_slot (vertices st) (voff st + i)) ->
  only (fun v a => voff st <= v < voff st + n /\ ~ bone_attr a) st
       (fold_left (load_vertex mesh t nmat) (seqZ 0 n) st)
  /\ forall i, 0 <= i < n ->
       holds_vertex mesh t nmat
         (vertices (fold_left (load_vertex mesh t nmat) (seqZ 0 n) st)) (voff st + i) i.
Proof.
  intros Hn Hv0. pattern n. apply natlike_ind; [| | exact Hn].
  - intros _ _. split; [apply only_refl | intros i Hi; lia].
  - intros m Hm IH Hmax Hslots. rewrite fold_snoc by exact Hm.
    destruct (IH ltac:(lia) ltac:(intros i Hi; apply Hslots; lia)) as [Honly Hholds].
    set (stm := fold_left (load_vertex mesh t nmat) (seqZ 0 m) st) in *.
    destruct Honly as (Hvo & Hshape & Hcells).
    pose proof (load_vertex_only mesh t nmat stm m) as Hstep.
    assert (Hum : uadd (voff stm) m = voff st + m) by (rewrite Hvo; apply uadd_small; lia).
    rewrite Hum in Hstep.
    split.
    + apply (only_trans _ st stm).
      * repeat split; [exact Hvo | exact Hshape |].
        intros v a Hq. apply Hcells. intros [Hr Hb]. apply Hq. split; [lia | exact Hb].
      * eapply only_weaken; [| exact Hstep]. cbv beta. intros v a [-> Hb]. split; [lia | exact Hb].
    + intros i Hi. destruct (Z.eq_dec i m) as [-> | Hne].
      * rewrite <- Hum. apply load_vertex_holds. rewrite Hum.
        destruct (Hslots m ltac:(lia)) as (Hp & Hnn & Hu).
        repeat split; apply Hshape; assumption.
      * eapply holds_vertex_keep; [| apply Hholds; lia].
        intros a Ha. destruct Hstep as (_ & _ & Hc). apply Hc. intros [Heq _]. lia.
Qed.

Lemma load_face_only (Q : Z -> Z -> Prop) (mesh : aiMesh) (st : GenState) (f : Z) :
  only Q st (load_face mesh st f).
Proof. apply only_same; reflexivity. Qed.

Lemma load_weight_only (bidx : Z) (st : GenState) (vw : aiVertexWeight) :
  only (fun _ a => bone_attr a) st (load_weight bidx st vw).
Proof.
  unfold load_weight. destruct (find_slot _ _ bidx >=? 4); [apply only_refl |].
  set (v := uadd (voff st) (mVertexId vw)).
  apply (only_trans _ st (with_vertices st (vb_set (vertices st) v BONE_IDX
           (vec4_put (vb_get (vertices st) v BONE_IDX)
              (find_slot (vb_get (vertices st) v BONE_WEIGHT) (vb_get (vertices st) v BONE_IDX) bidx)
              (f32_of_Z bidx))))).
  - apply only_set. left. reflexivity.
  - apply (only_set _ (with_vertices st _) v BONE_WEIGHT). right. reflexivity.
Qed.

Lemma load_bone_only `{AssimpMath} (t : aiMatrix4x4) (st : GenState) (bone : aiBone) :
  only (fun _ a => bone_attr a) st (load_bone t st bone).
Proof.
  unfold load_bone. destruct (bones st !! bone_mName bone) as [b |].
  - apply only_fold. intros st' vw _. apply load_weight_only.
  - set (st1 := with_bones st _ _).
    apply (only_trans _ st st1); [apply only_same; reflexivity |].
    apply only_fold. intros st' vw _. apply load_weight_only.
Qed.

Lemma post_vertex_only `{AssimpMath} (nm : string) (t : aiMatrix4x4) (st : GenState) (i : Z) :
  only (fun _ a => bone_attr a) st (post_vertex nm t st i).
Proof.
  unfold post_vertex. set (v := uadd (voff st) i).
  destruct (SFeqb _ f_zero).
  - destruct (getNodeBone (bones st) (index st) (String.append nm "_auto") t) as [[d bs] ix].
    set (st0 := with_bones st bs ix).
    apply (only_trans _ st st0); [apply only_same; reflexivity |].
    set (w1 := make4 f32_one _ _ _).
    apply (only_trans _ st0 (with_vertices st0 (vb_set (vertices st0) v BONE_WEIGHT w1)));
      [apply only_set; right; reflexivity |].
    set (st1 := with_vertices st0 _).
    apply (only_trans _ st1 (with_vertices st1 (vb_set (vertices st1) v BONE_IDX
             (make4 (f32_of_Z d) f_zero f_zero f_zero))));
      [apply only_set; left; reflexivity |].
    set (st2 := with_vertices st1 _).
    apply (only_set _ st2 v BONE_WEIGHT). right. reflexivity.
  - apply only_set. right. reflexivity.
Qed.

Lemma default_vertex_only (d : Z) (st : GenState) (i : Z) :
  only (fun v a => v = uadd (voff st) i /\ bone_attr a) st (default_vertex d st i).
Proof.
  unfold default_vertex. set (v := uadd (voff st) i).
  apply (only_trans _ st (with_vertices st (vb_set (vertices st) v BONE_IDX
           (make4 (f32_of_Z d) f_zero f_zero f_zero)))).
  - apply only_set. split; [reflexivity | left; reflexivity].
  - apply (only_set _ (with_vertices st _) v BONE_WEIGHT). split; [reflexivity | right; reflexivity].
Qed.

(** The part of [loadMesh] after the vertex and face loops (lines 96-135)
    writes bone attributes only. *)
Lemma skin_phase_only `{AssimpMath} (scene : aiScene) (mesh : aiMesh) (nm : string)
    (t : aiMatrix4x4) (st2 : GenState) :
  only (fun _ a => bone_attr a) st2
    (if HasAnimations scene then
       if HasBones mesh then
         fold_left (post_vertex nm t) (seqZ 0 (mNumVertices mesh))
           (fold_left (load_bone t) (mBones mesh) st2)
       else
         let '(default_bone, bs, ix) :=
           getNodeBone (bones st2) (index st2) (String.append nm "_auto") t in
         fold_left (default_vertex default_bone) (seqZ 0 (mNumVertices mesh))
           (with_bones st2 bs ix)
     else st2).
Proof.
  destruct (HasAnimations scene); [| apply only_refl].
  destruct (HasBones mesh).
  - apply (only_trans _ st2 (fold_left (load_bone t) (mBones mesh) st2)).
    + apply only_fold. intros st' b _. apply load_bone_only.
    + apply only_fold. intros st' i _. apply post_vertex_only.
  - destruct (getNodeBone (bones st2) (index st2) (String.append nm "_auto") t) as [[d bs] ix].
    apply (only_trans _ st2 (with_bones st2 bs ix)); [apply only_same; reflexivity |].
    apply only_fold. intros st' i _.
    eapply only_weaken; [| apply default_vertex_only]. cbv beta. intros v a [_ Ha]. exact Ha.
Qed.

(** X7: [loadMesh] on a mesh it does not skip, the slots of its vertices
    being in the buffer with the three geometry attributes: vertex [i] of
    the mesh is stored in slot [voff + i], its position multiplied by the
    matrix passed in, its normal by the inverse transpose and normalised,
    its texture coordinate cut to two components; the geometry of all
    other slots stays as it was. *)
Theorem loadMesh_stores_geometry `{AssimpMath} (scene : aiScene) (mesh_id : Z) (nm : string)
    (t : aiMatrix4x4) (st : GenState) (mesh : aiMesh) :
  lookupZ (scene_mMeshes scene) mesh_id = Some mesh -> skipped mesh = false ->
  0 <= voff st -> voff st + mNumVertices mesh < 2 ^ 31 ->
  (forall i, 0 <= i < mNumVertices mesh -> geometry_slot (vertices st) (voff st + i)) ->
  (forall i, 0 <= i < mNumVertices mesh ->
     holds_vertex mesh t (mat3_inverse_transpose t)
       (vertices (snd (loadMesh scene mesh_id nm t st))) (voff st + i) i)
  /\ (forall v a, ~ (voff st <= v < voff st + mNumVertices mesh) -> ~ bone_attr a ->
        vb_get (vertices (snd (loadMesh scene mesh_id nm t st))) v a = vb_get (vertices st) v a).
Proof.
  intros Hmesh Hskip Hv0 Hmax Hslots. unfold loadMesh. rewrite Hmesh.
  unfold skipped in Hskip. rewrite Hskip. cbn [snd with_offsets vertices].
  assert (Hnv : 0 <= mNumVertices mesh) by (unfold mNumVertices; lia).
  destruct (load_vertices_hold mesh t (mat3_inverse_transpose t) st (mNumVertices mesh)
              Hnv Hv0 Hmax Hslots) as [Honly1 Hholds1].
  set (st1 := fold_left (load_vertex mesh t (mat3_inverse_transpose t)) _ st) in *.
  set (st2 := fold_left (load_face mesh) _ st1).
  assert (Honly2 : only (fun _ a => bone_attr a) st1 st2).
  { apply only_fold. intros st' f _. apply load_face_only. }
  pose proof (skin_phase_only scene mesh nm t st2) as Honly3.
  set (st3 := if HasAnimations scene then _ else st2) in *.
  pose proof (only_trans _ _ _ _ Honly2 Honly3) as (_ & _ & Hkeep).
  split.
  - intros i Hi. eapply holds_vertex_keep; [| apply Hholds1; exact Hi].
    intros a Ha. apply Hkeep. exact Ha.
  - intros v a Hv Ha. apply vb_get_keep. rewrite Hkeep by exact Ha.
    destruct Honly1 as (_ & _ & Hc). apply Hc. intros [Hr _]. exact (Hv Hr).
Qed.

Lemma triangle_slots (i : Z) :
  0 <= i < 3 -> geometry_slot (vertices (scene_start triangle_scene)) (0 + i).
Proof.
  intros Hi. assert (Hc : i = 0 \/ i = 1 \/ i = 2) by lia.
  destruct Hc as [-> | [-> | ->]];
    (split; [| split]); eexists; (split; [vm_compute; reflexivity | split; [reflexivity | lia]]).
Qed.

Lemma loadMesh_stores_geometry_witness :
  lookupZ (scene_mMeshes triangle_scene) 0 = Some triangle_mesh
  /\ skipped triangle_mesh = false
  /\ 0 <= voff (scene_start triangle_scene)
  /\ voff (scene_start triangle_scene) + mNumVertices triangle_mesh < 2 ^ 31
  /\ vb_get (vertices (snd (@loadMesh sample_math triangle_scene 0 "root" unit4
                              (scene_start triangle_scene)))) 1 POSITION
     = make4 f32_one f_zero f_zero f32_one.
Proof.
  assert (H1 : lookupZ (scene_mMeshes triangle_scene) 0 = Some triangle_mesh) by reflexivity.
  assert (H2 : skipped triangle_mesh = false) by reflexivity.
  assert (H3 : 0 <= voff (scene_start triangle_scene)) by (vm_compute; discriminate).
  assert (H4 : voff (scene_start triangle_scene) + mNumVertices triangle_mesh < 2 ^ 31)
    by (vm_compute; reflexivity).
  destruct (@loadMesh_stores_geometry sample_math triangle_scene 0 "root" unit4
              (scene_start triangle_scene) triangle_mesh H1 H2 H3 H4 triangle_slots)
    as [Hholds _].
  repeat (split; [assumption |]).
  destruct (Hholds 1 ltac:(vm_compute; split; [discriminate | reflexivity])) as [Hp _].
  change (voff (scene_start triangle_scene) + 1) with 1 in Hp. rewrite Hp.
  vm_compute. reflexivity.
Defined.

Lemma default_vertex_binds (d : Z) (st : GenState) (i : Z) :
  bone_slot (vertices st) (uadd (voff st) i) ->
  bound_to (vertices (default_vertex d st i)) (uadd (voff st) i) d.
Proof.
  intros [Hi Hw]. unfold default_vertex, bound_to. cbn [with_vertices vertices].
  set (v := uadd (voff st) i). split.
  - rewrite vb_get_keep with (vb := vb_set (vertices st) v BONE_IDX
                                      (make4 (f32_of_Z d) f_zero f_zero f_zero)).
    + rewrite (vb_get_set_cell _ _ _ _ 4 Hi). reflexivity.
    + apply cell_at_set_ne. right. discriminate.
  - rewrite (vb_get_set_cell _ _ _ _ 4); [reflexivity |]. apply has_cell_set, Hw.
Qed.

Lemma default_vertices_bind (d : Z) (st : GenState) (n : Z) :
  0 <= n -> 0 <= voff st -> voff st + n < 2 ^ 31 ->
  (forall i, 0 <= i < n -> bone_slot (vertices st) (voff st + i)) ->
  only (fun v a => voff st <= v < voff st + n /\ bone_attr a) st
       (fold_left (default_vertex d) (seqZ 0 n) st)
  /\ bones (fold_left (default_vertex d) (seqZ 0 n) st) = bones st
  /\ forall i, 0 <= i < n ->
       bound_to (vertices (fold_left (default_vertex d) (seqZ 0 n) st)) (voff st + i) d.
Proof.
  intros Hn Hv0. pattern n. apply natlike_ind; [| | exact Hn].
  - intros _ _. split; [apply only_refl | split; [reflexivity | intros i Hi; lia]].
  - intros m Hm IH Hmax Hslots. rewrite fold_snoc by exact Hm.
    destruct (IH ltac:(lia) ltac:(intros i Hi; apply Hslots; lia)) as (Honly & Hbones & Hbound).
    set (stm := fold_left (default_vertex d) (seqZ 0 m) st) in *.
    destruct Honly as (Hvo & Hshape & Hcells).
    pose proof (default_vertex_only d stm m) as Hstep.
    assert (Hum : uadd (voff stm) m = voff st + m) by (rewrite Hvo; apply uadd_small; lia).
    rewrite Hum in Hstep.
    split; [| split].
    + apply (only_trans _ st stm).
      * repeat split; [exact Hvo | exact Hshape |].
        intros v a Hq. apply Hcells. intros [Hr Hb]. apply Hq. split; [lia | exact Hb].
      * eapply only_weaken; [| exact Hstep]. cbv beta. intros v a [-> Hb]. split; [lia | exact Hb].
    + exact Hbones.
    + intros i Hi. destruct (Z.eq_dec i m) as [-> | Hne].
      * rewrite <- Hum. apply default_vertex_binds. rewrite Hum.
        destruct (Hslots m ltac:(lia)) as [Hi' Hw']. split; apply Hshape; assumption.
      * destruct (Hbound i ltac:(lia)) as [Hbi Hbw]. destruct Hstep as (_ & _ & Hc).
        split; (rewrite vb_get_keep with (vb := vertices stm); [assumption |]);
          apply Hc; intros [Heq _]; lia.
Qed.

Lemma geometry_loops_only (mesh : aiMesh) (t : aiMatrix4x4) (nmat : aiMatrix3x3)
    (st : GenState) :
  only (fun _ a => ~ bone_attr a) st
    (fold_left (load_face mesh) (seqZ 0 (mNumFaces mesh))
       (fold_left (load_vertex mesh t nmat) (seqZ 0 (mNumVertices mesh)) st)).
Proof.
  apply (only_trans _ st (fold_left (load_vertex mesh t nmat) (seqZ 0 (mNumVertices mesh)) st)).
  - apply only_fold. intros st' i _.
    eapply only_weaken; [| apply load_vertex_only]. cbv beta. intros v a [_ Ha]. exact Ha.
  - apply only_fold. intros st' f _. apply load_face_only.
Qed.

(** X8: in a scene with animations, [loadMesh] binds every vertex of a mesh
    without bones to one bone, with weight 1: the bone registered under the
    name of the node followed by [_auto]. *)
Theorem boneless_mesh_follows_its_node `{AssimpMath} (scene : aiScene) (mesh_id : Z)
    (nm : string) (t : aiMatrix4x4) (st : GenState) (mesh : aiMesh) :
  lookupZ (scene_mMeshes scene) mesh_id = Some mesh -> skipped mesh = false ->
  HasAnimations scene = true -> HasBones mesh = false ->
  0 <= voff st -> voff st + mNumVertices mesh < 2 ^ 31 ->
  (forall i, 0 <= i < mNumVertices mesh -> bone_slot (vertices st) (voff st + i)) ->
  exists b,
    bones (snd (loadMesh scene mesh_id nm t st)) !! String.append nm "_auto" = Some b
    /\ forall i, 0 <= i < mNumVertices mesh ->
         bound_to (vertices (snd (loadMesh scene mesh_id nm t st))) (voff st + i) (id b).
Proof.
  intros Hmesh Hskip Hanim Hbones Hv0 Hmax Hslots. unfold loadMesh. rewrite Hmesh.
  unfold skipped in Hskip. rewrite Hskip, Hanim, Hbones. cbn [snd].
  assert (Hnv : 0 <= mNumVertices mesh) by (unfold mNumVertices; lia).
  pose proof (geometry_loops_only mesh t (mat3_inverse_transpose t) st) as (Hvo & Hshape & _).
  set (st2 := fold_left (load_face mesh) _ _) in *.
  pose proof (getNodeBone_registers (bones st2) (index st2) (String.append nm "_auto") t)
    as (b & Hb & Hid).
  destruct (getNodeBone (bones st2) (index st2) (String.append nm "_auto") t) as [[d bs] ix].
  cbn [fst snd] in Hb, Hid.
  destruct (default_vertices_bind d (with_bones st2 bs ix) (mNumVertices mesh) Hnv)
    as (_ & Hbs & Hbound).
  - cbn [with_bones voff]. lia.
  - cbn [with_bones voff]. lia.
  - intros i Hi. cbn [with_bones voff vertices]. rewrite Hvo.
    destruct (Hslots i Hi) as [Hi' Hw']. split; apply Hshape; assumption.
  - exists b. cbn [with_offsets bones vertices]. rewrite Hbs. cbn [with_bones bones].
    split; [exact Hb |]. intros i Hi. rewrite Hid.
    specialize (Hbound i Hi). cbn [with_bones voff] in Hbound. rewrite Hvo in Hbound.
    exact Hbound.
Qed.

Lemma rig_bone_slots (i : Z) :
  0 <= i < 3 -> bone_slot (vertices (scene_start rig_scene)) (0 + i).
Proof.
  intros Hi. assert (Hc : i = 0 \/ i = 1 \/ i = 2) by lia.
  destruct Hc as [-> | [-> | ->]];
    split; eexists; (split; [vm_compute; reflexivity | split; [reflexivity | lia]]).
Qed.

Lemma boneless_mesh_follows_its_node_witness :
  lookupZ (scene_mMeshes rig_scene) 2 = Some triangle_mesh
  /\ skipped triangle_mesh = false
  /\ HasAnimations rig_scene = true
  /\ HasBones triangle_mesh = false
  /\ exists b,
       bones (snd (@loadMesh sample_math rig_scene 2 "hand" unit4 (scene_start rig_scene)))
         !! "hand_auto"%string = Some b
       /\ forall i, 0 <= i < 3 ->
            bound_to (vertices (snd (@loadMesh sample_math rig_scene 2 "hand" unit4
                                       (scene_start rig_scene)))) (0 + i) (id b).
Proof.
  assert (H1 : lookupZ (scene_mMeshes rig_scene) 2 = Some triangle_mesh) by reflexivity.
  assert (H2 : skipped triangle_mesh = false) by reflexivity.
  assert (H3 : HasAnimations rig_scene = true) by reflexivity.
  assert (H4 : HasBones triangle_mesh = false) by reflexivity.
  repeat (split; [assumption |]).
  apply (@boneless_mesh_follows_its_node sample_math rig_scene 2 "hand" unit4
           (scene_start rig_scene) triangle_mesh H1 H2 H3 H4).
  - vm_compute. discriminate.
  - vm_compute. reflexivity.
  - exact rig_bone_slots.
Defined.

(** ** Indices (VertexFormat.h, IndexBuffer; Main.cpp, loadMesh) *)

Import Corners.

Lemma setIndex_fits (vertex_count value : Z) :
  0 <= value < vertex_count -> vertex_count < 2 ^ 32 ->
  setIndex (index_type (IndexFormat_new vertex_count)) value = value.
Proof.
  intros Hv Hmax. unfold IndexFormat_new.
  change uchar_max with 255. change ushort_max with 65535.
  destruct (Z.ltb_spec vertex_count 255); [| destruct (Z.ltb_spec vertex_count 65535)];
    cbn [index_type setIndex]; unfold to_uchar, to_ushort, to_uint; apply Z.mod_small; lia.
Qed.

Lemma ib_get_set (ib : IndexBuffer) (s value k : Z) :
  0 <= s < Z.of_nat (length (ib_data ib)) ->
  ib_get (ib_set ib s value) k
  = if k =? s then setIndex (index_type (ib_format ib)) value else ib_get ib k.
Proof.
  intros Hs. unfold ib_get, ib_set. cbn [ib_data ib_format].
  destruct (Z.eqb_spec k s) as [-> | Hne].
  - rewrite lookupZ_updateZ_eq by exact Hs. reflexivity.
  - rewrite lookupZ_updateZ_ne by congruence. reflexivity.
Qed.

Lemma length_updateZ {A : Type} (l : list A) (i : Z) (a : A) : length (updateZ l i a) = length l.
Proof. unfold updateZ. destruct (i <? 0); [reflexivity | apply length_insert]. Qed.



Lemma same_indices_refl (st : GenState) : same_indices st st.
Proof. repeat split. Qed.

Lemma same_indices_trans (st1 st2 st3 : GenState) :
  same_indices st1 st2 -> same_indices st2 st3 -> same_indices st1 st3.
Proof. intros (H1 & H2 & H3) (H4 & H5 & H6). repeat split; congruence. Qed.

Lemma same_indices_fold {A : Type} (f : GenState -> A -> GenState) (l : list A) :
  (forall st a, same_indices st (f st a)) -> forall st, same_indices st (fold_left f l st).
Proof.
  intros Hf. induction l as [| a l IH]; intros st; cbn [fold_left].
  - apply same_indices_refl.
  - eapply same_indices_trans; [apply Hf | apply IH].
Qed.

Lemma load_vertex_same_indices (mesh : aiMesh) (t : aiMatrix4x4) (nmat : aiMatrix3x3)
    (st : GenState) (i : Z) :
  same_indices st (load_vertex mesh t nmat st i).
Proof.
  unfold load_vertex. destruct (HasNormals mesh), (HasTextureCoords0 mesh); repeat split.
Qed.

Lemma load_weight_same_indices (bidx : Z) (st : GenState) (vw : aiVertexWeight) :
  same_indices st (load_weight bidx st vw).
Proof. unfold load_weight. destruct (find_slot _ _ bidx >=? 4); repeat split. Qed.

Lemma load_bone_same_indices `{AssimpMath} (t : aiMatrix4x4) (st : GenState) (bone : aiBone) :
  same_indices st (load_bone t st bone).
Proof.
  unfold load_bone. destruct (bones st !! bone_mName bone) as [b |].
  - apply same_indices_fold. intros st' vw. apply load_weight_same_indices.
  - set (st1 := with_bones st _ _).
    apply (same_indices_trans st st1); [repeat split |].
    apply same_indices_fold. intros st' vw. apply load_weight_same_indices.
Qed.

Lemma post_vertex_same_indices `{AssimpMath} (nm : string) (t : aiMatrix4x4)
    (st : GenState) (i : Z) :
  same_indices st (post_vertex nm t st i).
Proof.
  unfold post_vertex. destruct (SFeqb _ f_zero); [| repeat split].
  destruct (getNodeBone (bones st) (index st) (String.append nm "_auto") t) as [[d bs] ix].
  repeat split.
Qed.

Lemma default_vertex_same_indices (d : Z) (st : GenState) (i : Z) :
  same_indices st (default_vertex d st i).
Proof. repeat split. Qed.

Lemma skin_phase_same_indices `{AssimpMath} (scene : aiScene) (mesh : aiMesh) (nm : string)
    (t : aiMatrix4x4) (st2 : GenState) :
  same_indices st2
    (if HasAnimations scene then
       if HasBones mesh then
         fold_left (post_vertex nm t) (seqZ 0 (mNumVertices mesh))
           (fold_left (load_bone t) (mBones mesh) st2)
       else
         let '(default_bone, bs, ix) :=
           getNodeBone (bones st2) (index st2) (String.append nm "_auto") t in
         fold_left (default_vertex default_bone) (seqZ 0 (mNumVertices mesh))
           (with_bones st2 bs ix)
     else st2).
Proof.
  destruct (HasAnimations scene); [| apply same_indices_refl].
  destruct (HasBones mesh).
  - apply (same_indices_trans st2 (fold_left (load_bone t) (mBones mesh) st2)).
    + apply same_indices_fold. intros st' b. apply load_bone_same_indices.
    + apply same_indices_fold. intros st' i. apply post_vertex_same_indices.
  - destruct (getNodeBone (bones st2) (index st2) (String.append nm "_auto") t) as [[d bs] ix].
    apply (same_indices_trans st2 (with_bones st2 bs ix)); [repeat split |].
    apply same_indices_fold. intros st' i. apply default_vertex_same_indices.
Qed.

(** One face: three slots written, the rest kept. *)
Lemma load_face_get (mesh : aiMesh) (st : GenState) (f : Z) :
  0 <= f -> 0 <= ioff st -> ioff st + f * 3 + 3 <= Z.of_nat (length (ib_data (indices st))) ->
  ioff st + f * 3 + 3 < 2 ^ 31 ->
  ioff (load_face mesh st f) = ioff st /\ voff (load_face mesh st f) = voff st
  /\ vertices (load_face mesh st f) = vertices st
  /\ ib_format (indices (load_face mesh st f)) = ib_format (indices st)
  /\ length (ib_data (indices (load_face mesh st f))) = length (ib_data (indices st))
  /\ forall k,
       ib_get (indices (load_face mesh st f)) k
       = if (ioff st + f * 3 <=? k) && (k <? ioff st + f * 3 + 3)
         then setIndex (index_type (ib_format (indices st)))
                (to_uint (corner mesh f (k - (ioff st + f * 3)) + voff st))
         else ib_get (indices st) k.
Proof.
  intros Hf Hio Hlen Hmax. unfold load_face. change (seqZ 0 3) with [0; 1; 2].
  cbn [fold_left with_indices ioff voff vertices indices].
  rewrite (to_uint_small (f * 3)) by lia.
  rewrite !(to_uint_small (ioff st + f * 3 + _)) by lia.
  rewrite !to_int_small by lia.
  repeat split.
  - cbn [ib_set ib_data]. rewrite !length_updateZ. reflexivity.
  - intros k.
    rewrite ib_get_set by (cbn [ib_set ib_data]; rewrite !length_updateZ; lia).
    rewrite ib_get_set by (cbn [ib_set ib_data]; rewrite !length_updateZ; lia).
    rewrite ib_get_set by lia.
    cbn [ib_set ib_format]. unfold corner.
    destruct (Z.eqb_spec k (ioff st + f * 3 + 2)) as [-> | H2].
    { replace (ioff st + f * 3 + 2 - (ioff st + f * 3)) with 2 by lia.
      destruct (Z.leb_spec (ioff st + f * 3) (ioff st + f * 3 + 2)); [| lia].
      destruct (Z.ltb_spec (ioff st + f * 3 + 2) (ioff st + f * 3 + 3)); [| lia]. reflexivity. }
    destruct (Z.eqb_spec k (ioff st + f * 3 + 1)) as [-> | H1].
    { replace (ioff st + f * 3 + 1 - (ioff st + f * 3)) with 1 by lia.
      destruct (Z.leb_spec (ioff st + f * 3) (ioff st + f * 3 + 1)); [| lia].
      destruct (Z.ltb_spec (ioff st + f * 3 + 1) (ioff st + f * 3 + 3)); [| lia]. reflexivity. }
    destruct (Z.eqb_spec k (ioff st + f * 3 + 0)) as [-> | H0].
    { replace (ioff st + f * 3 + 0 - (ioff st + f * 3)) with 0 by lia.
      destruct (Z.leb_spec (ioff st + f * 3) (ioff st + f * 3 + 0)); [| lia].
      destruct (Z.ltb_spec (ioff st + f * 3 + 0) (ioff st + f * 3 + 3)); [| lia]. reflexivity. }
    destruct (Z.leb_spec (ioff st + f * 3) k); [| reflexivity].
    destruct (Z.ltb_spec k (ioff st + f * 3 + 3)); [lia | reflexivity].
Qed.

Lemma load_faces_get (mesh : aiMesh) (st : GenState) (n : Z) :
  0 <= n -> 0 <= ioff st -> ioff st + n * 3 <= Z.of_nat (length (ib_data (indices st))) ->
  ioff st + n * 3 < 2 ^ 31 ->
  let st' := fold_left (load_face mesh) (seqZ 0 n) st in
  ioff st' = ioff st /\ voff st' = voff st /\ vertices st' = vertices st
  /\ ib_format (indices st') = ib_format (indices st)
  /\ length (ib_data (indices st')) = length (ib_data (indices st))
  /\ (forall f i, 0 <= f < n -> 0 <= i < 3 ->
        ib_get (indices st') (ioff st + f * 3 + i)
        = setIndex (index_type (ib_format (indices st))) (to_uint (corner mesh f i + voff st)))
  /\ (forall k, ~ (ioff st <= k < ioff st + n * 3) ->
        ib_get (indices st') k = ib_get (indices st) k).
Proof.
  intros Hn Hio. pattern n. apply natlike_ind; [| | exact Hn].
  - intros _ _. cbn zeta. change (fold_left (load_face mesh) (seqZ 0 0) st) with st.
    repeat split; intros; lia.
  - intros m Hm IH Hlen Hmax. cbn zeta in *.
    assert (Hsnoc : fold_left (load_face mesh) (seqZ 0 (Z.succ m)) st
                    = load_face mesh (fold_left (load_face mesh) (seqZ 0 m) st) m).
    { unfold Z.succ. rewrite seqZ_app by lia. rewrite fold_left_app.
      change (seqZ (0 + m) 1) with [0 + m]. cbn [fold_left]. rewrite Z.add_0_l. reflexivity. }
    rewrite Hsnoc.
    destruct (IH ltac:(lia) ltac:(lia)) as (Hi1 & Hv1 & Hvs1 & Hf1 & Hl1 & Hin1 & Hout1).
    set (stm := fold_left (load_face mesh) (seqZ 0 m) st) in *.
    destruct (load_face_get mesh stm m Hm ltac:(lia) ltac:(rewrite Hi1, Hl1; lia)
                ltac:(rewrite Hi1; lia)) as (Hi2 & Hv2 & Hvs2 & Hf2 & Hl2 & Hget).
    rewrite Hi1, Hv1, Hf1 in Hget.
    repeat split; try congruence.
    + intros f i Hf Hi. rewrite Hget.
      destruct (Z.eq_dec f m) as [-> | Hne].
      * destruct (Z.leb_spec (ioff st + m * 3) (ioff st + m * 3 + i)); [| lia].
        destruct (Z.ltb_spec (ioff st + m * 3 + i) (ioff st + m * 3 + 3)); [| lia].
        cbn [andb]. replace (ioff st + m * 3 + i - (ioff st + m * 3)) with i by lia. reflexivity.
      * destruct (Z.leb_spec (ioff st + m * 3) (ioff st + f * 3 + i)); cbn [andb];
          [lia | apply Hin1; lia].
    + intros k Hk. rewrite Hget.
      destruct (Z.leb_spec (ioff st + m * 3) k); cbn [andb].
      * destruct (Z.ltb_spec k (ioff st + m * 3 + 3)); [lia | apply Hout1; lia].
      * apply Hout1. lia.
Qed.

(** X10: [loadMesh] on a mesh it does not skip writes, for corner [i] of face
    [f], the index of that corner plus the vertex offset of the mesh to slot
    [ioff + 3 f + i]; when the buffer has the width [IndexFormat] picks for
    a vertex count above all these values, they are stored as they are.
    The slots outside the three-per-face block of the mesh are not
    touched. *)
Theorem loadMesh_rebases_indices `{AssimpMath} (scene : aiScene) (mesh_id : Z) (nm : string)
    (t : aiMatrix4x4) (st : GenState) (mesh : aiMesh) (vertex_count : Z) :
  lookupZ (scene_mMeshes scene) mesh_id = Some mesh -> skipped mesh = false ->
  0 <= ioff st ->
  ioff st + mNumFaces mesh * 3 <= Z.of_nat (length (ib_data (indices st))) ->
  ioff st + mNumFaces mesh * 3 < 2 ^ 31 ->
  ib_format (indices st) = IndexFormat_new vertex_count -> vertex_count < 2 ^ 31 ->
  (forall f i, 0 <= f < mNumFaces mesh -> 0 <= i < 3 ->
     0 <= corner mesh f i + voff st < vertex_count) ->
  (forall f i, 0 <= f < mNumFaces mesh -> 0 <= i < 3 ->
     ib_get (indices (snd (loadMesh scene mesh_id nm t st))) (ioff st + f * 3 + i)
     = corner mesh f i + voff st)
  /\ (forall k, ~ (ioff st <= k < ioff st + mNumFaces mesh * 3) ->
        ib_get (indices (snd (loadMesh scene mesh_id nm t st))) k = ib_get (indices st) k).
Proof.
  intros Hmesh Hskip Hio Hlen Hmax Hfmt Hvc Hvalid. unfold loadMesh. rewrite Hmesh.
  unfold skipped in Hskip. rewrite Hskip. cbn [snd with_offsets indices].
  assert (Hnf : 0 <= mNumFaces mesh) by (unfold mNumFaces; lia).
  set (st1 := fold_left (load_vertex mesh t (mat3_inverse_transpose t)) _ st).
  assert (H1 : same_indices st st1).
  { apply same_indices_fold. intros st' i. apply load_vertex_same_indices. }
  destruct H1 as (Hx1 & Hi1 & Hv1).
  destruct (load_faces_get mesh st1 (mNumFaces mesh) Hnf ltac:(lia)
              ltac:(rewrite Hx1, Hi1; lia) ltac:(rewrite Hi1; lia))
    as (_ & _ & _ & _ & _ & Hin & Hout).
  set (st2 := fold_left (load_face mesh) _ st1) in *.
  pose proof (skin_phase_same_indices scene mesh nm t st2) as (Hx3 & _ & _).
  set (st3 := if HasAnimations scene then _ else st2) in *.
  rewrite Hx3. rewrite Hi1, Hv1, Hx1 in Hin. rewrite Hi1, Hx1 in Hout.
  split; [| exact Hout].
  intros f i Hf Hi. rewrite (Hin f i Hf Hi), Hfmt.
  specialize (Hvalid f i Hf Hi).
  rewrite to_uint_small by lia. apply setIndex_fits; lia.
Qed.

Lemma rig_corners (f i : Z) :
  0 <= f < mNumFaces triangle_mesh -> 0 <= i < 3 ->
  0 <= corner triangle_mesh f i + voff (scene_start rig_scene) < 6.
Proof.
  intros Hf Hi. assert (Hf0 : f = 0) by (change (mNumFaces triangle_mesh) with 1 in Hf; lia).
  subst f. assert (Hc : i = 0 \/ i = 1 \/ i = 2) by lia.
  destruct Hc as [-> | [-> | ->]]; vm_compute; split; congruence.
Qed.

Lemma loadMesh_rebases_indices_witness :
  lookupZ (scene_mMeshes rig_scene) 2 = Some triangle_mesh
  /\ skipped triangle_mesh = false
  /\ ib_format (indices (scene_start rig_scene)) = IndexFormat_new 6
  /\ ib_get (indices (snd (@loadMesh sample_math rig_scene 2 "hand" unit4
                             (scene_start rig_scene)))) (0 + 0 * 3 + 2)
     = corner triangle_mesh 0 2 + voff (scene_start rig_scene).
Proof.
  assert (H1 : lookupZ (scene_mMeshes rig_scene) 2 = Some triangle_mesh) by reflexivity.
  assert (H2 : skipped triangle_mesh = false) by reflexivity.
  assert (H3 : ib_format (indices (scene_start rig_scene)) = IndexFormat_new 6) by reflexivity.
  repeat (split; [assumption |]).
  refine (proj1 (@loadMesh_rebases_indices sample_math rig_scene 2 "hand" unit4
                   (scene_start rig_scene) triangle_mesh 6 H1 H2 _ _ _ H3 _ rig_corners)
                0 2 _ _); vm_compute; try reflexivity; try discriminate;
    split; try reflexivity; discriminate.
Defined.

(** ** Attribute layout and vertex buffer access (VertexFormat.h) *)

Import Formats.

Lemma bytes_of_app (ds es : list AttribDecl) : bytes_of (ds ++ es) = bytes_of ds + bytes_of es.
Proof. induction ds as [| d ds IH]; cbn [app bytes_of fold_right] in *; [reflexivity |]. unfold bytes_of in *. lia. Qed.

Lemma decl_bytes_range (d : AttribDecl) : 1 <= decl_elems d <= 4 -> 1 <= decl_bytes d <= 16.
Proof. unfold decl_bytes. destruct (decl_type d); cbn [sizeof]; lia. Qed.

Lemma bytes_of_nonneg (ds : list AttribDecl) :
  List.Forall (fun d => 1 <= decl_elems d <= 4) ds -> 0 <= bytes_of ds.
Proof.
  induction 1 as [| d ds Hd _ IH]; cbn [bytes_of fold_right]; [lia |].
  pose proof (decl_bytes_range d Hd). unfold bytes_of in IH. lia.
Qed.

Lemma bitfield_fits (w z : Z) : 0 <= w -> 0 <= z < 2 ^ w -> bitfield w z = z.
Proof.
  intros Hw Hz. unfold bitfield. rewrite Z.land_ones by exact Hw. apply Z.mod_small. exact Hz.
Qed.

(** X11: [VertexFormat::addAttribute], [createAttribType]: after any run of
    calls with one to four elements each, as long as the attributes before
    the last one take fewer than 64 bytes together (the width of the
    [offset] bit-field), the attributes are laid out back to back in call
    order: each offset is the number of bytes of the attributes before it,
    each size is element size times element count, and the bytes per
    vertex are the total. *)
Theorem attributes_are_packed_in_order (ds : list AttribDecl) :
  List.Forall (fun d => 1 <= decl_elems d <= 4) ds ->
  bytes_of (removelast ds) < 64 ->
  let fmt := fold_left add_decl ds VertexFormat_new in
  bpv fmt = bytes_of ds
  /\ attributes fmt
     = imap (fun i d => {| offset := bytes_of (take i ds); bpa := decl_bytes d;
                           numElements := decl_elems d; normalized := decl_normalized d;
                           elementType := decl_type d |}) ds.
Proof.
  cbv zeta. induction ds as [| d ds IH] using rev_ind; intros Hall Hsum; [split; reflexivity |].
  apply Forall_app in Hall as [Hall Hd]. inversion Hd as [| ? ? Hd' _]; subst.
  rewrite removelast_last in Hsum.
  pose proof (bytes_of_nonneg ds Hall) as H0.
  pose proof (decl_bytes_range d Hd') as Hb.
  assert (Hprev : bytes_of (removelast ds) < 64).
  { destruct ds as [| e ds' _] using rev_ind; [cbn; lia |].
    rewrite removelast_last. rewrite bytes_of_app in Hsum, H0.
    apply Forall_app in Hall as [Hall' He]. pose proof (bytes_of_nonneg ds' Hall').
    inversion He; subst. pose proof (decl_bytes_range e ltac:(assumption)).
    cbn [bytes_of fold_right] in Hsum. unfold bytes_of in *. lia. }
  destruct (IH Hall Hprev) as [Hbpv Hattrs].
  rewrite fold_left_app. cbn [fold_left].
  set (f0 := fold_left add_decl ds VertexFormat_new) in *.
  unfold add_decl, addAttribute.
  unfold createAttribType. cbn [bpv attributes bpa]. rewrite Hbpv, Hattrs.
  fold (decl_bytes d).
  rewrite (bitfield_fits 6 (decl_bytes d)) by lia.
  rewrite (bitfield_fits 6 (bytes_of ds)) by lia.
  rewrite (bitfield_fits 3 (decl_elems d)) by lia.
  split.
  - rewrite bytes_of_app. cbn [bytes_of fold_right]. unfold to_uchar.
    rewrite Z.mod_small; unfold bytes_of in *; lia.
  - rewrite imap_app. cbn [imap]. rewrite Nat.add_0_r.
    rewrite take_app_length. f_equal.
    apply imap_ext. intros i e He. cbv beta.
    rewrite take_app_le; [reflexivity |]. apply lookup_lt_Some in He. lia.
Qed.

Lemma attributes_are_packed_in_order_witness :
  List.map offset
    (attributes (fold_left add_decl
       [ {| decl_type := TYPE_FLOAT; decl_elems := 3; decl_normalized := false |};
         {| decl_type := TYPE_HALF_FLOAT; decl_elems := 2; decl_normalized := false |};
         {| decl_type := TYPE_UCHAR; decl_elems := 4; decl_normalized := true |};
         {| decl_type := TYPE_FLOAT; decl_elems := 4; decl_normalized := false |} ]
       VertexFormat_new))
  = [0; 12; 16; 20]
  /\ bpv (fold_left add_decl
       [ {| decl_type := TYPE_FLOAT; decl_elems := 3; decl_normalized := false |};
         {| decl_type := TYPE_HALF_FLOAT; decl_elems := 2; decl_normalized := false |};
         {| decl_type := TYPE_UCHAR; decl_elems := 4; decl_normalized := true |};
         {| decl_type := TYPE_FLOAT; decl_elems := 4; decl_normalized := false |} ]
       VertexFormat_new) = 36.
Proof.
  assert (Hall : List.Forall (fun d => 1 <= decl_elems d <= 4)
            [ {| decl_type := TYPE_FLOAT; decl_elems := 3; decl_normalized := false |};
              {| decl_type := TYPE_HALF_FLOAT; decl_elems := 2; decl_normalized := false |};
              {| decl_type := TYPE_UCHAR; decl_elems := 4; decl_normalized := true |};
              {| decl_type := TYPE_FLOAT; decl_elems := 4; decl_normalized := false |} ]).
  { repeat constructor; cbn; lia. }
  destruct (attributes_are_packed_in_order _ Hall ltac:(vm_compute; reflexivity)) as [Hb Ha].
  split; [rewrite Ha; reflexivity | rewrite Hb; reflexivity].
Defined.

Lemma getAttrib_setAttrib (n : Z) (val : float4) :
  1 <= n <= 4 -> getAttrib (setAttrib (Z.to_nat n) val) = widen n val.
Proof.
  intros Hn. assert (Hc : n = 1 \/ n = 2 \/ n = 3 \/ n = 4) by lia.
  destruct val. destruct Hc as [-> | [-> | [-> | ->]]]; reflexivity.
Qed.

Lemma new_buffer_cell (fmt : VertexFormat) (vert v a : Z) (ty : AttribType) :
  0 <= v < vert -> lookupZ (attributes fmt) a = Some ty ->
  cell_at (VertexBuffer_new fmt vert) v a
  = Some (replicate (Z.to_nat (numElements ty)) f_zero).
Proof.
  intros Hv Ha. unfold cell_at, VertexBuffer_new, lookupZ in *. cbn [vb_data].
  destruct (Z.ltb_spec v 0); [lia |]. destruct (Z.ltb_spec a 0); [discriminate |].
  rewrite lookup_replicate_2 by lia.
  rewrite list_lookup_fmap, Ha. reflexivity.
Qed.

Lemma writes_keep_cells (ws : list Write) (vb : VertexBuffer) (v a : Z) (n : nat) :
  has_cell vb v a n -> has_cell (fold_left apply_write ws vb) v a n.
Proof.
  revert vb. induction ws as [| w ws IH]; intros vb Hc; [exact Hc |].
  cbn [fold_left]. apply IH. apply has_cell_set. exact Hc.
Qed.

(** The buffer cell by cell: after any run of [set] calls on a new
    buffer, [get] on a vertex of the buffer and an attribute of [n]
    elements returns the value of the last call for that vertex and
    attribute, its first [n] components kept and the others reading 0, 0
    and 1; where no call was made the stored components read 0. *)
Lemma cells_read_last_write (fmt : VertexFormat) (vert : Z) (ws : list Write)
    (v a : Z) (ty : AttribType) :
  0 <= v < vert -> lookupZ (attributes fmt) a = Some ty -> 1 <= numElements ty <= 4 ->
  vb_get (fold_left apply_write ws (VertexBuffer_new fmt vert)) v a
  = widen (numElements ty) (default zero4 (last_write ws v a)).
Proof.
  intros Hv Ha Hn.
  assert (Hcell : has_cell (VertexBuffer_new fmt vert) v a (Z.to_nat (numElements ty))).
  { eexists. split; [apply new_buffer_cell; eassumption |]. rewrite length_replicate. lia. }
  induction ws as [| w ws IH] using rev_ind.
  - cbn [fold_left last_write default]. rewrite vb_get_cell.
    rewrite (new_buffer_cell fmt vert v a ty Hv Ha). cbn [default].
    assert (Hc : numElements ty = 1 \/ numElements ty = 2 \/ numElements ty = 3
                 \/ numElements ty = 4) by lia.
    destruct Hc as [-> | [-> | [-> | ->]]]; reflexivity.
  - unfold last_write in *. rewrite !fold_left_app. cbn [fold_left]. unfold apply_write at 1.
    destruct (Z.eqb_spec (w_vertex w) v) as [-> | Hvne];
      [destruct (Z.eqb_spec (w_attribute w) a) as [-> | Hane] |]; cbn [andb default].
    + rewrite (vb_get_set_cell _ _ _ _ (Z.to_nat (numElements ty)))
        by (apply writes_keep_cells; exact Hcell).
      apply getAttrib_setAttrib. exact Hn.
    + rewrite <- IH. apply vb_get_keep. apply cell_at_set_ne. right. exact Hane.
    + rewrite <- IH. apply vb_get_keep. apply cell_at_set_ne. left. exact Hvne.
Qed.

(** *** The buffer over the bytes of its block *)

Import ByteBlock.

Lemma elems_of_app (ds es : list AttribDecl) : elems_of (ds ++ es) = elems_of ds + elems_of es.
Proof.
  unfold elems_of. induction ds as [| d ds IH]; cbn [app fold_right]; [reflexivity | lia].
Qed.

Lemma bytes_of_floats (ds : list AttribDecl) :
  List.Forall float_decl ds -> bytes_of ds = 4 * elems_of ds.
Proof.
  intros Hall. induction Hall as [| d ds (Ht & _ & _) _ IH]; [reflexivity |].
  change (bytes_of (d :: ds)) with (decl_bytes d + bytes_of ds).
  change (elems_of (d :: ds)) with (decl_elems d + elems_of ds).
  unfold decl_bytes. rewrite Ht, IH. cbn [sizeof]. lia.
Qed.

Lemma elems_of_nonneg (ds : list AttribDecl) : List.Forall float_decl ds -> 0 <= elems_of ds.
Proof.
  intros Hall. induction Hall as [| d ds (_ & _ & Hn) _ IH]; [unfold elems_of; cbn; lia |].
  change (elems_of (d :: ds)) with (decl_elems d + elems_of ds). lia.
Qed.

Lemma float_decl_elems (ds : list AttribDecl) :
  List.Forall float_decl ds -> List.Forall (fun d => 1 <= decl_elems d <= 4) ds.
Proof. apply List.Forall_impl. intros d (_ & _ & Hn). exact Hn. Qed.

(** The prefix sums: attribute [a] ends before the later ones begin, and
    the last one ends with the vertex. *)
Lemma elems_take_le (ds : list AttribDecl) (n : nat) :
  List.Forall float_decl ds -> 0 <= elems_of (take n ds) <= elems_of ds.
Proof.
  intros Hall. rewrite <- (take_drop n ds) at 3. rewrite elems_of_app.
  pose proof (elems_of_nonneg _ (Forall_take _ n _ Hall)).
  pose proof (elems_of_nonneg _ (Forall_drop _ n _ Hall)). lia.
Qed.

Lemma elems_prefix (ds : list AttribDecl) (a : nat) (d : AttribDecl) :
  List.Forall float_decl ds -> ds !! a = Some d ->
  0 <= elems_of (take a ds)
  /\ elems_of (take a ds) + decl_elems d = elems_of (take (S a) ds)
  /\ 1 <= decl_elems d <= 4
  /\ forall b, (a < b)%nat -> elems_of (take (S a) ds) <= elems_of (take b ds) <= elems_of ds.
Proof.
  intros Hall Ha. split; [apply elems_take_le, Hall | split; [| split]].
  - rewrite (take_S_r _ _ _ Ha), elems_of_app. unfold elems_of at 3. cbn [fold_right]. lia.
  - rewrite List.Forall_forall in Hall.
    apply (Hall d). apply list_elem_of_In. eapply list_elem_of_lookup_2. exact Ha.
  - intros b Hb. split; [| apply elems_take_le, Hall].
    replace (take (S a) ds) with (take (S a) (take b ds))
      by (rewrite take_take, Nat.min_l by lia; reflexivity).
    apply elems_take_le. apply Forall_take. exact Hall.
Qed.

Lemma add_decls_lookup (ds : list AttribDecl) :
  List.Forall (fun d => 1 <= decl_elems d <= 4) ds ->
  bytes_of (removelast ds) < 64 ->
  bpv (fold_left add_decl ds VertexFormat_new) = bytes_of ds
  /\ length (attributes (fold_left add_decl ds VertexFormat_new)) = length ds
  /\ forall (a : nat) (d : AttribDecl), ds !! a = Some d ->
       attributes (fold_left add_decl ds VertexFormat_new) !! a
       = Some {| offset := bytes_of (take a ds); bpa := decl_bytes d;
                 numElements := decl_elems d; normalized := decl_normalized d;
                 elementType := decl_type d |}.
Proof.
  induction ds as [| d ds IH] using rev_ind; intros Hall Hsum.
  - split; [reflexivity | split; [reflexivity |]]. intros a d Ha. discriminate.
  - apply Forall_app in Hall as [Hall Hd]. inversion Hd as [| ? ? Hd' _]; subst.
    rewrite removelast_last in Hsum.
    pose proof (bytes_of_nonneg ds Hall) as H0.
    pose proof (decl_bytes_range d Hd') as Hb.
    assert (Hprev : bytes_of (removelast ds) < 64).
    { destruct ds as [| e ds' _] using rev_ind; [cbn; lia |].
      rewrite removelast_last. rewrite bytes_of_app in Hsum, H0.
      apply Forall_app in Hall as [Hall' He]. pose proof (bytes_of_nonneg ds' Hall').
      inversion He; subst. pose proof (decl_bytes_range e ltac:(assumption)).
      cbn [bytes_of fold_right] in Hsum. unfold bytes_of in *. lia. }
    destruct (IH Hall Hprev) as (Hbpv & Hlen & Hattrs).
    rewrite fold_left_app. cbn [fold_left].
    set (f0 := fold_left add_decl ds VertexFormat_new) in *.
    unfold add_decl, addAttribute, createAttribType. cbn [bpv attributes bpa].
    rewrite Hbpv. fold (decl_bytes d).
    rewrite (bitfield_fits 6 (decl_bytes d)) by lia.
    rewrite (bitfield_fits 6 (bytes_of ds)) by lia.
    rewrite (bitfield_fits 3 (decl_elems d)) by lia.
    split; [| split].
    + rewrite bytes_of_app. cbn [bytes_of fold_right]. unfold to_uchar.
      rewrite Z.mod_small; unfold bytes_of in *; lia.
    + rewrite !length_app, Hlen. reflexivity.
    + intros a e Ha. destruct (Nat.lt_ge_cases a (length ds)) as [Hlt | Hge].
      * rewrite lookup_app_l in Ha by exact Hlt. rewrite lookup_app_l by lia.
        rewrite (Hattrs a e Ha). rewrite take_app_le by lia. reflexivity.
      * rewrite lookup_app_r in Ha by exact Hge.
        destruct (a - length ds)%nat as [| k] eqn:Hk; [| destruct k; discriminate].
        injection Ha as <-. assert (a = length ds) by lia. subst a.
        rewrite lookup_app_r by lia. rewrite Hlen, Nat.sub_diag. cbn [lookup list_lookup].
        rewrite take_app_length. reflexivity.
Qed.

Lemma word_store_spec (words : list spec_float) (q : Z) (x : spec_float) :
  0 <= q < Z.of_nat (length words) ->
  word_store words (4 * q) x = Some (updateZ words q x).
Proof.
  intros Hq. unfold word_store.
  replace ((4 * q) mod 4) with 0 by (rewrite Z.mul_comm, Z_mod_mult; reflexivity).
  replace (4 * q / 4) with q by (rewrite Z.mul_comm, Z_div_mult; lia).
  cbn [Z.eqb]. unfold lookupZ. destruct (Z.ltb_spec q 0); [lia |].
  destruct (words !! Z.to_nat q) eqn:Hl; [reflexivity |].
  apply lookup_ge_None in Hl. lia.
Qed.

Lemma word_load_spec (words : list spec_float) (q : Z) :
  word_load words (4 * q) = lookupZ words q.
Proof.
  unfold word_load.
  replace ((4 * q) mod 4) with 0 by (rewrite Z.mul_comm, Z_mod_mult; reflexivity).
  replace (4 * q / 4) with q by (rewrite Z.mul_comm, Z_div_mult; lia).
  reflexivity.
Qed.

(** Storing [xs] from word [q] on: the words of the run hold [xs], the
    others are as before. *)
Lemma store_floats_spec (xs : list spec_float) :
  forall (words : list spec_float) (q : Z),
    0 <= q -> q + Z.of_nat (length xs) <= Z.of_nat (length words) ->
    exists words',
      store_floats words (4 * q) xs = Some words'
      /\ length words' = length words
      /\ (forall i : nat, (i < length xs)%nat -> lookupZ words' (q + Z.of_nat i) = xs !! i)
      /\ (forall j, ~ (q <= j < q + Z.of_nat (length xs)) -> lookupZ words' j = lookupZ words j).
Proof.
  induction xs as [| x xs IH]; intros words q Hq Hlen.
  - exists words. cbn [store_floats length].
    split; [reflexivity | split; [reflexivity | split; [intros i Hi; lia | auto]]].
  - cbn [store_floats length] in *. rewrite word_store_spec by lia.
    replace (4 * q + 4) with (4 * (q + 1)) by lia.
    destruct (IH (updateZ words q x) (q + 1) ltac:(lia)
                ltac:(rewrite length_updateZ; lia)) as (words' & Hs & Hl & Hin & Hout).
    exists words'. split; [exact Hs |]. split; [rewrite Hl; apply length_updateZ |]. split.
    + intros i Hi. destruct i as [| i].
      * rewrite Z.add_0_r. rewrite Hout by lia. cbn [lookup list_lookup].
        apply lookupZ_updateZ_eq. lia.
      * replace (q + Z.of_nat (S i)) with (q + 1 + Z.of_nat i) by lia.
        rewrite Hin by lia. reflexivity.
    + intros j Hj. rewrite Hout by lia. apply lookupZ_updateZ_ne. lia.
Qed.

Lemma load_floats_spec (words : list spec_float) (l : list spec_float) (n : nat) :
  forall q : Z,
    (n <= length l)%nat ->
    (forall i : nat, (i < n)%nat -> lookupZ words (q + Z.of_nat i) = l !! i) ->
    load_floats words (4 * q) n = Some (take n l).
Proof.
  revert l. induction n as [| n IH]; intros l q Hn Hl; [reflexivity |].
  cbn [load_floats]. rewrite word_load_spec.
  destruct l as [| x l]; [cbn in Hn; lia |].
  pose proof (Hl O ltac:(lia)) as H0. rewrite Z.add_0_r in H0. rewrite H0. cbn [lookup list_lookup].
  replace (4 * q + 4) with (4 * (q + 1)) by lia.
  rewrite (IH l (q + 1)); [reflexivity | cbn in Hn; lia |].
  intros i Hi. replace (q + 1 + Z.of_nat i) with (q + Z.of_nat (S i)) by lia.
  rewrite Hl by lia. reflexivity.
Qed.


Lemma word_of_range (ds : list AttribDecl) (vert v : Z) (a : nat) (d : AttribDecl) :
  List.Forall float_decl ds -> 0 <= v < vert -> ds !! a = Some d ->
  0 <= word_of ds v a /\ word_of ds v a + decl_elems d <= elems_of ds * vert.
Proof.
  intros Hall Hv Ha. unfold word_of.
  destruct (elems_prefix ds a d Hall Ha) as (H0 & Hs & Hn & Hmono).
  pose proof (elems_take_le ds (S a) Hall) as [_ Hle].
  pose proof (elems_of_nonneg ds Hall). nia.
Qed.

Lemma word_of_apart (ds : list AttribDecl) (vert v v' : Z) (a a' : nat) (d d' : AttribDecl) :
  List.Forall float_decl ds -> 0 <= v < vert -> 0 <= v' < vert ->
  ds !! a = Some d -> ds !! a' = Some d' -> v <> v' \/ a <> a' ->
  word_of ds v a + decl_elems d <= word_of ds v' a'
  \/ word_of ds v' a' + decl_elems d' <= word_of ds v a.
Proof.
  intros Hall Hv Hv' Ha Ha' Hne. unfold word_of.
  destruct (elems_prefix ds a d Hall Ha) as (H0 & Hs & Hn & Hmono).
  destruct (elems_prefix ds a' d' Hall Ha') as (H0' & Hs' & Hn' & Hmono').
  pose proof (elems_take_le ds (S a) Hall) as [_ Hle].
  pose proof (elems_take_le ds (S a') Hall) as [_ Hle'].
  pose proof (elems_of_nonneg ds Hall) as HE.
  destruct (Z.lt_trichotomy v v') as [Hlt | [Heq | Hgt]].
  - left. nia.
  - subst v'. destruct (Nat.lt_trichotomy a a') as [Hlt | [Heq | Hgt]].
    + left. pose proof (Hmono a' Hlt). lia.
    + subst a'. destruct Hne; congruence.
    + right. pose proof (Hmono' a Hgt). lia.
  - right. nia.
Qed.

Lemma last_write_snoc (ws : list Write) (w : Write) (v a : Z) :
  last_write (ws ++ [w]) v a
  = if (w_vertex w =? v) && (w_attribute w =? a) then Some (w_value w) else last_write ws v a.
Proof. unfold last_write. rewrite fold_left_app. reflexivity. Qed.

Lemma run_writes_snoc (ws : list Write) (w : Write) (bb : ByteBuffer) :
  run_writes (ws ++ [w]) bb
  = match run_writes ws bb with
    | Some b => bb_set b (w_vertex w) (w_attribute w) (w_value w)
    | None => None
    end.
Proof. unfold run_writes. rewrite fold_left_app. reflexivity. Qed.

Lemma lookupZ_nat {A : Type} (l : list A) (a : nat) : lookupZ l (Z.of_nat a) = l !! a.
Proof.
  unfold lookupZ. destruct (Z.ltb_spec (Z.of_nat a) 0); [lia |]. rewrite Nat2Z.id. reflexivity.
Qed.

Lemma length_comps (val : float4) : length (comps val) = 4%nat.
Proof. reflexivity. Qed.

(** The address [set] and [get] compute, in a format of [float]
    attributes whose offsets do not wrap. *)
Lemma bb_offset_float (ds : list AttribDecl) (vert : Z) (bb : ByteBuffer) (v : Z) (a : nat)
    (d : AttribDecl) :
  List.Forall float_decl ds -> bytes_of (removelast ds) < 64 ->
  0 <= v < vert -> vert * bytes_of ds < 2 ^ 31 ->
  bb_format bb = fold_left add_decl ds VertexFormat_new -> ds !! a = Some d ->
  exists ty, bb_offset bb v (Z.of_nat a) = Some (4 * word_of ds v a, ty)
             /\ float_attrib ty = true /\ numElements ty = decl_elems d
             /\ lookupZ (attributes (bb_format bb)) (Z.of_nat a) = Some ty.
Proof.
  intros Hall Hsum Hv Hmax Hfmt Ha.
  destruct (add_decls_lookup ds (float_decl_elems ds Hall) Hsum) as (Hbpv & _ & Hattrs).
  specialize (Hattrs a d Ha). rewrite <- Hfmt in Hbpv, Hattrs.
  destruct (word_of_range ds vert v a d Hall Hv Ha) as [Hq0 Hq1].
  destruct (elems_prefix ds a d Hall Ha) as (_ & _ & Hnd & _).
  exists {| offset := bytes_of (take a ds); bpa := decl_bytes d;
            numElements := decl_elems d; normalized := decl_normalized d;
            elementType := decl_type d |}.
  unfold bb_offset. rewrite lookupZ_nat, Hattrs.
  split; [| split; [| split; [reflexivity | reflexivity]]].
  - cbn [offset]. rewrite Hbpv. f_equal. f_equal.
    rewrite (bytes_of_floats ds Hall) in *.
    rewrite (bytes_of_floats (take a ds)) by (apply Forall_take; exact Hall).
    unfold word_of in *. rewrite to_int_small by nia. lia.
  - rewrite List.Forall_forall in Hall.
    destruct (Hall d) as (Ht & Hnorm & Hn);
      [apply list_elem_of_In; eapply list_elem_of_lookup_2; exact Ha |].
    unfold float_attrib. cbn [elementType normalized numElements]. rewrite Ht, Hnorm.
    cbn [negb andb]. apply andb_true_iff. split; apply Z.leb_le; lia.
Qed.

Lemma bb_set_holds (ds : list AttribDecl) (vert : Z) (ws : list Write) (bb : ByteBuffer)
    (w : Write) :
  List.Forall float_decl ds -> bytes_of (removelast ds) < 64 ->
  vert * bytes_of ds < 2 ^ 31 ->
  bb_format bb = fold_left add_decl ds VertexFormat_new ->
  holds_writes ds vert ws (bb_words bb) ->
  0 <= w_vertex w < vert -> 0 <= w_attribute w < Z.of_nat (length ds) ->
  exists bb', bb_set bb (w_vertex w) (w_attribute w) (w_value w) = Some bb'
              /\ bb_format bb' = bb_format bb
              /\ holds_writes ds vert (ws ++ [w]) (bb_words bb').
Proof.
  intros Hall Hsum Hmax Hfmt (Hlen & Hinv) Hv Ha.
  destruct w as [v0 a0 val]. cbn [w_vertex w_attribute w_value] in *.
  assert (Ha0 : exists d0, ds !! Z.to_nat a0 = Some d0).
  { destruct (ds !! Z.to_nat a0) eqn:Hl; [eexists; reflexivity |].
    apply lookup_ge_None in Hl. lia. }
  destruct Ha0 as [d0 Hd0].
  destruct (bb_offset_float ds vert bb v0 (Z.to_nat a0) d0 Hall Hsum Hv Hmax Hfmt Hd0)
    as (ty & Hoff & Hfl & Hne & _).
  rewrite Z2Nat.id in Hoff by lia.
  destruct (word_of_range ds vert v0 (Z.to_nat a0) d0 Hall Hv Hd0) as [Hq0 Hq1].
  destruct (elems_prefix ds _ d0 Hall Hd0) as (_ & _ & Hn0 & _).
  assert (Hlset : length (setAttrib (Z.to_nat (decl_elems d0)) val) = Z.to_nat (decl_elems d0)).
  { unfold setAttrib. rewrite length_take. cbn [length]. lia. }
  destruct (store_floats_spec (setAttrib (Z.to_nat (decl_elems d0)) val) (bb_words bb)
              (word_of ds v0 (Z.to_nat a0)) Hq0 ltac:(rewrite Hlset; lia))
    as (words' & Hs & Hl' & Hin & Hout).
  unfold bb_set. rewrite Hoff, Hfl, Hne, Hs. eexists. split; [reflexivity |].
  split; [reflexivity |]. cbn [bb_words]. split; [rewrite Hl'; exact Hlen |].
  intros v a d i Hvr Had Hi. rewrite last_write_snoc. cbn [w_vertex w_attribute w_value].
  destruct (Z.eqb_spec v0 v) as [-> | Hvne];
    [destruct (Z.eqb_spec a0 (Z.of_nat a)) as [-> | Hane] |]; cbn [andb default].
  - rewrite Nat2Z.id in *. assert (d0 = d) by congruence. subst d0.
    rewrite Hin by lia. unfold setAttrib. fold (comps val).
    apply lookup_take_lt. exact Hi.
  - rewrite Hout; [apply (Hinv v a d i); assumption |].
    destruct (word_of_apart ds vert v v a (Z.to_nat a0) d d0 Hall Hvr Hvr Had Hd0
                ltac:(right; lia)); lia.
  - rewrite Hout; [apply (Hinv v a d i); assumption |].
    destruct (word_of_apart ds vert v v0 a (Z.to_nat a0) d d0 Hall Hvr Hv Had Hd0
                ltac:(left; congruence)); lia.
Qed.

Lemma run_writes_hold (ds : list AttribDecl) (vert : Z) (ws : list Write) :
  List.Forall float_decl ds -> bytes_of (removelast ds) < 64 -> 0 <= vert ->
  vert * bytes_of ds < 2 ^ 31 ->
  List.Forall (fun w => 0 <= w_vertex w < vert
                        /\ 0 <= w_attribute w < Z.of_nat (length ds)) ws ->
  exists bb, run_writes ws (ByteBuffer_new (fold_left add_decl ds VertexFormat_new) vert) = Some bb
             /\ bb_format bb = fold_left add_decl ds VertexFormat_new
             /\ holds_writes ds vert ws (bb_words bb).
Proof.
  intros Hall Hsum Hvert Hmax. induction ws as [| w ws IH] using rev_ind; intros Hws.
  - eexists. split; [reflexivity |]. split; [reflexivity |].
    destruct (add_decls_lookup ds (float_decl_elems ds Hall) Hsum) as (Hbpv & _ & _).
    pose proof (elems_of_nonneg ds Hall) as HE.
    assert (Hsize : to_int (bpv (fold_left add_decl ds VertexFormat_new) * vert) / 4
                    = elems_of ds * vert).
    { rewrite Hbpv. rewrite (bytes_of_floats ds Hall) in *.
      rewrite to_int_small by nia.
      replace (4 * elems_of ds * vert) with (elems_of ds * vert * 4) by lia.
      apply Z_div_mult. lia. }
    cbn [ByteBuffer_new bb_words]. rewrite Hsize. split.
    + rewrite length_replicate. rewrite Z2Nat.id by nia. reflexivity.
    + intros v a d i Hv Ha Hi.
      destruct (word_of_range ds vert v a d Hall Hv Ha) as [Hq0 Hq1].
      destruct (elems_prefix ds a d Hall Ha) as (_ & _ & Hn & _).
      unfold lookupZ. destruct (Z.ltb_spec (word_of ds v a + Z.of_nat i) 0); [lia |].
      rewrite lookup_replicate_2 by lia.
      cbn [last_write fold_left default]. unfold comps, zero4. cbn [vec4_x vec4_y vec4_z vec4_w].
      destruct i as [| [| [| [| i]]]]; try reflexivity. lia.
  - apply Forall_app in Hws as [Hws Hw]. inversion Hw as [| ? ? [Hwv Hwa] _]; subst.
    destruct (IH Hws) as (bb & Hrun & Hfmt & Hinv).
    destruct (bb_set_holds ds vert ws bb w Hall Hsum Hmax Hfmt Hinv Hwv Hwa)
      as (bb' & Hset & Hf' & Hinv').
    exists bb'. rewrite run_writes_snoc, Hrun. split; [exact Hset |].
    split; [congruence | exact Hinv'].
Qed.


(** X12: [VertexBuffer::set] and [get] on the bytes of the block.  For a
    format made by [addAttribute] calls of non-normalized [float]
    attributes of 1 to 4 elements whose offsets fit their 6 bits, a
    buffer whose block fits an [int], and any run of [set] calls on a new
    buffer, each on a vertex of the buffer and an attribute of the format:
    every call stays inside the block, no call overwrites the bytes of
    another vertex or attribute, and [get] on a vertex and an attribute of
    [n] elements returns the value of the last call for that vertex and
    attribute, its first [n] components kept and the others reading 0, 0
    and 1; where no call was made the stored components read 0.  The
    buffer kept cell by cell returns the same values. *)
Theorem get_returns_last_set (ds : list AttribDecl) (vert : Z) (ws : list Write) :
  List.Forall float_decl ds -> bytes_of (removelast ds) < 64 ->
  0 <= vert -> vert * bytes_of ds < 2 ^ 31 ->
  List.Forall (fun w => 0 <= w_vertex w < vert
                        /\ 0 <= w_attribute w < Z.of_nat (length ds)) ws ->
  exists bb,
    run_writes ws (ByteBuffer_new (fold_left add_decl ds VertexFormat_new) vert) = Some bb
    /\ forall (v a : Z) (d : AttribDecl),
         0 <= v < vert -> lookupZ ds a = Some d ->
         bb_get bb v a = Some (widen (decl_elems d) (default zero4 (last_write ws v a)))
         /\ vb_get (fold_left apply_write ws
                      (VertexBuffer_new (fold_left add_decl ds VertexFormat_new) vert)) v a
            = widen (decl_elems d) (default zero4 (last_write ws v a)).
Proof.
  intros Hall Hsum Hvert Hmax Hws.
  destruct (run_writes_hold ds vert ws Hall Hsum Hvert Hmax Hws)
    as (bb & Hrun & Hfmt & Hlen & Hinv).
  exists bb. split; [exact Hrun |].
  intros v a d Hv Ha.
  assert (Ha0 : 0 <= a) by (unfold lookupZ in Ha; destruct (Z.ltb_spec a 0); [discriminate | lia]).
  assert (Had : ds !! Z.to_nat a = Some d).
  { unfold lookupZ in Ha. destruct (Z.ltb_spec a 0); [lia | exact Ha]. }
  destruct (bb_offset_float ds vert bb v (Z.to_nat a) d Hall Hsum Hv Hmax Hfmt Had)
    as (ty & Hoff & Hfl & Hne & Hty).
  rewrite Z2Nat.id in Hoff, Hty by lia.
  destruct (elems_prefix ds _ d Hall Had) as (_ & _ & Hn & _).
  split.
  - unfold bb_get. rewrite Hoff, Hfl, Hne.
    rewrite (load_floats_spec (bb_words bb)
               (comps (default zero4 (last_write ws v a))) (Z.to_nat (decl_elems d))).
    + f_equal. apply (getAttrib_setAttrib (decl_elems d)). exact Hn.
    + rewrite length_comps. lia.
    + intros i Hi. rewrite (Hinv v (Z.to_nat a) d i Hv Had Hi). rewrite Z2Nat.id by lia.
      reflexivity.
  - rewrite Hfmt in Hty. rewrite <- Hne.
    apply cells_read_last_write; [exact Hv | exact Hty | lia].
Qed.

(** The theorem at the five attributes of a skinned scene and three
    vertices. *)
Lemma get_returns_last_set_witness :
  List.Forall float_decl skinned_decls
  /\ bytes_of (removelast skinned_decls) < 64
  /\ exists bb,
       run_writes bone_writes
         (ByteBuffer_new (fold_left add_decl skinned_decls VertexFormat_new) 3) = Some bb
       /\ bb_get bb 1 POSITION = Some (make4 (f32_of_Z 9) (f32_of_Z 9) (f32_of_Z 9) f32_one)
       /\ bb_get bb 1 BONE_WEIGHT = Some (f4 5 6 7 8)
       /\ bb_get bb 2 NORMAL = Some (make4 f_zero f_zero f_zero f32_one).
Proof.
  assert (Hall : List.Forall float_decl skinned_decls).
  { repeat constructor; cbn; lia. }
  assert (Hsum : bytes_of (removelast skinned_decls) < 64) by (vm_compute; reflexivity).
  assert (Hws : List.Forall (fun w => 0 <= w_vertex w < 3
                                /\ 0 <= w_attribute w < Z.of_nat (length skinned_decls))
                  bone_writes).
  { repeat constructor; vm_compute; (reflexivity || discriminate). }
  split; [exact Hall |]. split; [exact Hsum |].
  destruct (get_returns_last_set skinned_decls 3 bone_writes Hall Hsum
              ltac:(lia) ltac:(vm_compute; reflexivity) Hws) as (bb & Hrun & Hget).
  exists bb. split; [exact Hrun |]. split; [| split].
  - rewrite (proj1 (Hget 1 POSITION (float_n 3) ltac:(lia) eq_refl)). reflexivity.
  - rewrite (proj1 (Hget 1 BONE_WEIGHT (float_n 4) ltac:(lia) eq_refl)). reflexivity.
  - rewrite (proj1 (Hget 2 NORMAL (float_n 3) ltac:(lia) eq_refl)). reflexivity.
Defined.

(** Without the bound on the offsets the attributes overlap: with five
    attributes of four [float]s the offsets are 0, 16, 32, 48 and 0 again,
    and a [set] on the fifth attribute is read back by [get] on the first. *)
Lemma wrapped_offsets_overlap :
  List.map offset (attributes (fold_left add_decl (replicate 5 (float_n 4)) VertexFormat_new))
  = [0; 16; 32; 48; 0]
  /\ match bb_set (ByteBuffer_new (fold_left add_decl (replicate 5 (float_n 4)) VertexFormat_new) 1)
              0 4 (f4 5 6 7 8) with
     | Some bb => bb_get bb 0 0
     | None => None
     end = Some (f4 5 6 7 8).
Proof. split; vm_compute; reflexivity. Qed.

(** ** The 16-bit float codec on all bit patterns (ieee754_2008.h, half_float.h) *)

Import HalfBits.

Lemma half_eqb_eq (a b : IEEE754_half) : half_eqb a b = true -> a = b.
Proof.
  destruct a as [m1 e1 s1], b as [m2 e2 s2]. unfold half_eqb. cbn [mantissa e sign].
  intros H. apply andb_true_iff in H as [H Hs]. apply andb_true_iff in H as [Hm He].
  apply Z.eqb_eq in Hm, He, Hs. congruence.
Qed.

Lemma encodes_to_eq (f : spec_float) (h : IEEE754_half) :
  encodes_to f h = true -> convertToIEEE754 f = Some h.
Proof.
  unfold encodes_to. destruct (convertToIEEE754 f) as [h' |]; [| discriminate].
  intros H. apply half_eqb_eq in H. congruence.
Qed.

Lemma sf_same_eq (a b : spec_float) : sf_same a b = true -> a = b.
Proof.
  destruct a as [s1 | s1 | | s1 m1 e1], b as [s2 | s2 | | s2 m2 e2]; cbn [sf_same];
    try discriminate; try reflexivity.
  - intros H. apply eqb_prop in H. congruence.
  - intros H. apply eqb_prop in H. congruence.
  - intros H. apply andb_true_iff in H as [H He]. apply andb_true_iff in H as [Hs Hm].
    apply eqb_prop in Hs. apply Pos.eqb_eq in Hm. apply Z.eqb_eq in He. congruence.
Qed.

Lemma all_halves_spec (lo hi : Z) (P : IEEE754_half -> bool) :
  all_halves lo hi P = true ->
  forall h, half_fields h -> lo <= e h < hi -> P h = true.
Proof.
  unfold all_halves. intros Hall [m ex s] (Hm & He & Hs) Hr. cbn [mantissa e sign] in *.
  rewrite forallb_forall in Hall.
  specialize (Hall m ltac:(apply list_elem_of_In, elem_of_seqZ; lia)).
  rewrite forallb_forall in Hall.
  specialize (Hall ex ltac:(apply list_elem_of_In, elem_of_seqZ; lia)).
  rewrite forallb_forall in Hall.
  apply Hall. assert (Hc : s = 0 \/ s = 1) by lia. destruct Hc as [-> | ->]; cbn; auto.
Qed.

(** X13: decoding a half and encoding the result gives the half back, for
    every bit pattern with exponent field up to 29 except negative zero,
    and for the two infinities. *)
Theorem half_decode_encode (h : IEEE754_half) :
  half_fields h ->
  e h <= 29 \/ (e h = 31 /\ mantissa h = 0) ->
  ~ (sign h = 1 /\ e h = 0 /\ mantissa h = 0) ->
  convertToIEEE754 (convertToFloat h) = Some h.
Proof.
  intros Hf Hr Hnz. apply encodes_to_eq.
  assert (Hall : all_halves 0 30
            (fun h => (sign h =? 1) && (e h =? 0) && (mantissa h =? 0)
                      || encodes_to (convertToFloat h) h) = true)
    by (vm_compute; reflexivity).
  destruct Hr as [Hr | [He Hm]].
  - pose proof (all_halves_spec _ _ _ Hall h Hf ltac:(destruct Hf as (_ & ? & _); lia)) as Hh.
    cbv beta in Hh. apply orb_true_iff in Hh as [Hh | Hh]; [| exact Hh].
    exfalso. apply Hnz.
    apply andb_true_iff in Hh as [Hh H3]. apply andb_true_iff in Hh as [H1 H2].
    apply Z.eqb_eq in H1, H2, H3. auto.
  - destruct h as [m ex s]. cbn [mantissa e sign] in *. subst m ex.
    destruct Hf as (_ & _ & Hs). cbn [sign] in Hs.
    assert (Hc : s = 0 \/ s = 1) by lia. destruct Hc as [-> | ->]; reflexivity.
Qed.

Lemma half_decode_encode_witness :
  half_fields {| mantissa := 512; e := 15; sign := 1 |}
  /\ convertToIEEE754 (convertToFloat {| mantissa := 512; e := 15; sign := 1 |})
     = Some {| mantissa := 512; e := 15; sign := 1 |}.
Proof.
  assert (Hf : half_fields {| mantissa := 512; e := 15; sign := 1 |})
    by (unfold half_fields; cbn; lia).
  split; [exact Hf |].
  apply (half_decode_encode _ Hf); cbn [e sign mantissa]; [left; lia | lia].
Defined.

(** X14: the halves of the top binade, exponent field 30 (magnitudes from
    32768 on), do not survive: decoded and encoded again they come back
    with exponent field 29 and the mantissa doubled modulo 2^10. *)
Theorem half_top_binade_is_folded (h : IEEE754_half) :
  half_fields h -> e h = 30 ->
  convertToIEEE754 (convertToFloat h)
  = Some {| mantissa := (2 * mantissa h) mod 2 ^ 10; e := 29; sign := sign h |}.
Proof.
  intros Hf He. apply encodes_to_eq.
  assert (Hall : all_halves 30 31
            (fun h => encodes_to (convertToFloat h)
                        {| mantissa := (2 * mantissa h) mod 2 ^ 10; e := 29; sign := sign h |})
            = true) by (vm_compute; reflexivity).
  exact (all_halves_spec _ _ _ Hall h Hf ltac:(lia)).
Qed.

Lemma half_top_binade_is_folded_witness :
  half_fields {| mantissa := 1023; e := 30; sign := 0 |}
  /\ convertToIEEE754 (convertToFloat {| mantissa := 1023; e := 30; sign := 0 |})
     = Some {| mantissa := 1022; e := 29; sign := 0 |}.
Proof.
  assert (Hf : half_fields {| mantissa := 1023; e := 30; sign := 0 |})
    by (unfold half_fields; cbn; lia).
  split; [exact Hf |].
  exact (half_top_binade_is_folded _ Hf eq_refl).
Defined.

(** X15: negating a half negates the float it stands for, NaN staying NaN, and
    negating twice gives the half back. *)
Theorem half_neg_negates (h : IEEE754_half) :
  half_fields h ->
  convertToFloat (half_neg h) = SFopp (convertToFloat h)
  /\ half_neg (half_neg h) = h.
Proof.
  intros Hf. split.
  - apply sf_same_eq.
    assert (Hall : all_halves 0 32
              (fun h => sf_same (convertToFloat (half_neg h)) (SFopp (convertToFloat h))) = true)
      by (vm_compute; reflexivity).
    exact (all_halves_spec _ _ _ Hall h Hf ltac:(destruct Hf as (_ & ? & _); lia)).
  - destruct h as [m ex s]. destruct Hf as (_ & _ & Hs). cbn [sign] in Hs.
    assert (Hc : s = 0 \/ s = 1) by lia. destruct Hc as [-> | ->]; reflexivity.
Qed.

Lemma half_neg_negates_witness :
  half_fields {| mantissa := 0; e := 15; sign := 0 |}
  /\ convertToFloat (half_neg {| mantissa := 0; e := 15; sign := 0 |}) = SFopp f32_one.
Proof.
  assert (Hf : half_fields {| mantissa := 0; e := 15; sign := 0 |})
    by (unfold half_fields; cbn; lia).
  split; [exact Hf |].
  rewrite (proj1 (half_neg_negates _ Hf)). vm_compute. reflexivity.
Defined.

Lemma option_half_eqb_eq (a b : option IEEE754_half) : option_half_eqb a b = true -> a = b.
Proof.
  destruct a as [x |], b as [y |]; cbn [option_half_eqb]; try discriminate; [| reflexivity].
  intros H. apply half_eqb_eq in H. congruence.
Qed.

(** X16: the [double] conversions agree with the [float] ones on every half:
    decoding to [double] gives the [float] result converted to [double],
    and encoding that [double] gives what encoding the [float] gives. *)
Theorem half_double_twins_agree (h : IEEE754_half) :
  half_fields h ->
  convertToDouble h = f64_of_f32 (convertToFloat h)
  /\ convertToIEEE754_double (convertToDouble h) = convertToIEEE754 (convertToFloat h).
Proof.
  intros Hf. split.
  - apply sf_same_eq.
    assert (Hall : all_halves 0 32
              (fun h => sf_same (convertToDouble h) (f64_of_f32 (convertToFloat h))) = true)
      by (vm_compute; reflexivity).
    exact (all_halves_spec _ _ _ Hall h Hf ltac:(destruct Hf as (_ & ? & _); lia)).
  - apply option_half_eqb_eq.
    assert (Hall : all_halves 0 32
              (fun h => option_half_eqb (convertToIEEE754_double (convertToDouble h))
                          (convertToIEEE754 (convertToFloat h))) = true)
      by (vm_compute; reflexivity).
    exact (all_halves_spec _ _ _ Hall h Hf ltac:(destruct Hf as (_ & ? & _); lia)).
Qed.

Lemma half_double_twins_agree_witness :
  half_fields {| mantissa := 5; e := 3; sign := 1 |}
  /\ convertToDouble {| mantissa := 5; e := 3; sign := 1 |}
     = f64_of_f32 (convertToFloat {| mantissa := 5; e := 3; sign := 1 |}).
Proof.
  assert (Hf : half_fields {| mantissa := 5; e := 3; sign := 1 |})
    by (unfold half_fields; cbn; lia).
  split; [exact Hf | exact (proj1 (half_double_twins_agree _ Hf))].
Defined.

Lemma bitfield_small (w z : Z) : 0 <= w -> 0 <= z < 2 ^ w -> bitfield w z = z.
Proof.
  intros Hw Hz. unfold bitfield. rewrite Z.land_ones by exact Hw. apply Z.mod_small. exact Hz.
Qed.

(** X17: the encoder on a normal [float] (24 mantissa digits [m], value
    [m * 2^ex]) below 2^15 in magnitude: the half gets the leading
    mantissa bits, the bits below being cut off, not rounded.  From 2^-14
    on the half is normal, eleven digits of [m] with the leading one left
    out; below it is a subnormal, with exponent field 0. *)
Theorem half_encode_truncates (s : bool) (m : positive) (ex : Z) :
  digits2_pos m = 24%positive -> -149 <= ex <= -9 ->
  convertToIEEE754 (S754_finite s m ex)
  = Some (if -37 <=? ex
          then {| mantissa := Zpos m / 2 ^ 13 - 2 ^ 10; e := ex + 38;
                  sign := if s then 1 else 0 |}
          else {| mantissa := Zpos m / 2 ^ (- ex - 24); e := 0;
                  sign := if s then 1 else 0 |}).
Proof.
  intros Hd Hex. unfold convertToIEEE754.
  assert (Hlt : SFltb (S754_finite s m ex) f_zero = s) by (destruct s; reflexivity).
  rewrite Hlt.
  assert (Hv : (if (if s then 1 else 0) =? 1 then SFopp (S754_finite s m ex) else S754_finite s m ex)
               = S754_finite false m ex) by (destruct s; reflexivity).
  rewrite Hv. rewrite SFeqb_finite_refl. cbn [negb].
  change (SFeqb (S754_finite false m ex) f_inf) with false.
  change (SFeqb (S754_finite false m ex) f_zero) with false.
  cbv iota.
  assert (Hfr : SFfrexp prec32 emax32 (S754_finite false m ex)
                = (S754_finite false m (-24), ex + 24)).
  { unfold SFfrexp, prec32, emax32. rewrite Hd. cbn [Z.leb Z.compare Pos.compare Pos.compare_cont].
    reflexivity. }
  rewrite Hfr.
  pose proof (digits2_pos_bounds m) as [Hlo Hhi]. rewrite Hd in Hlo, Hhi.
  change (2 ^ (24 - 1)) with (2 ^ 23) in Hlo.
  unfold E_MIN, E_MAX, MANTISSA, clamp.
  destruct (Z.leb_spec (-37) ex) as [Hn | Hsub].
  - destruct (Z.gtb_spec (ex + 24) (-14)); [| lia].
    destruct (Z.gtb_spec (ex + 24) 15); [lia |].
    destruct (Z.eqb_spec (ex + 24) (-14)); [lia |]. cbn [negb].
    rewrite SFldexp_exact by (assumption || lia).
    replace (10 + 1 + (ex + 24) - (ex + 24) - 24) with (-13) by lia.
    unfold static_cast_uint16, trunc_to_Z. change (0 <=? -13) with false. cbv iota.
    change (- (-13)) with 13.
    rewrite Z.shiftr_div_pow2 by lia.
    assert (Hq : 2 ^ 10 <= Zpos m / 2 ^ 13 < 2 ^ 11).
    { split.
      - apply Z.div_le_lower_bound; [lia |]. change (2 ^ 13 * 2 ^ 10) with (2 ^ 23). lia.
      - apply Z.div_lt_upper_bound; [lia |]. change (2 ^ 13 * 2 ^ 11) with (2 ^ 24). lia. }
    change ushort_max with 65535.
    destruct (Z.leb_spec 0 (Zpos m / 2 ^ 13)); [| lia].
    destruct (Z.leb_spec (Zpos m / 2 ^ 13) 65535); [| lia]. cbn [andb].
    do 2 f_equal.
    + unfold bitfield. rewrite Z.land_ones by lia.
      symmetry. apply (Z.mod_unique_pos _ _ 1); lia.
    + rewrite bitfield_small by lia. lia.
  - destruct (Z.gtb_spec (ex + 24) (-14)); [lia |].
    cbn [Z.eqb Pos.eqb negb].
    rewrite SFldexp_exact by (assumption || lia).
    replace (10 + 0 + (ex + 24) - -14 - 24) with (ex + 24) by lia.
    unfold static_cast_uint16, trunc_to_Z.
    destruct (Z.leb_spec 0 (ex + 24)); [lia |].
    rewrite Z.shiftr_div_pow2 by lia.
    replace (- (ex + 24)) with (- ex - 24) by lia.
    assert (Hq : 0 <= Zpos m / 2 ^ (- ex - 24) < 2 ^ 10).
    { split.
      - apply Z.div_pos; [lia | apply Z.pow_pos_nonneg; lia].
      - apply Z.div_lt_upper_bound; [apply Z.pow_pos_nonneg; lia |].
        rewrite <- Z.pow_add_r by lia.
        assert (2 ^ 24 <= 2 ^ (- ex - 24 + 10)) by (apply Z.pow_le_mono_r; lia). lia. }
    change ushort_max with 65535.
    destruct (Z.leb_spec 0 (Zpos m / 2 ^ (- ex - 24))); [| lia].
    destruct (Z.leb_spec (Zpos m / 2 ^ (- ex - 24)) 65535); [| lia]. cbn [andb].
    do 2 f_equal. apply bitfield_small; lia.
Qed.

(** The theorem at 1.5 (mantissa [0xC00000], exponent -23), which has an
    exact half, and at the float next above it, cut down to the same half. *)
Lemma half_encode_truncates_witness :
  digits2_pos 12582912 = 24%positive /\ -149 <= -23 <= -9
  /\ convertToIEEE754 (S754_finite false 12582912 (-23))
     = Some {| mantissa := 512; e := 15; sign := 0 |}
  /\ convertToIEEE754 (S754_finite false 12582913 (-23))
     = Some {| mantissa := 512; e := 15; sign := 0 |}.
Proof.
  assert (Hd : digits2_pos 12582912 = 24%positive) by reflexivity.
  assert (Hd' : digits2_pos 12582913 = 24%positive) by reflexivity.
  assert (Hex : -149 <= -23 <= -9) by lia.
  split; [exact Hd |]. split; [exact Hex |]. split.
  - rewrite (half_encode_truncates false 12582912 (-23) Hd Hex). reflexivity.
  - rewrite (half_encode_truncates false 12582913 (-23) Hd' Hex). reflexivity.
Defined.

(** ** Bounding boxes (BBox.h; Main.cpp, loadMesh and loadScene) *)

Import Bounds.

Lemma SFleb_key (a b : spec_float) :
  SFleb a b = true <-> is_nan a = false /\ is_nan b = false /\ key_le (sf_key a) (sf_key b).
Proof.
  unfold SFleb.
  destruct a as [sa | sa | | sa ma ea], b as [sb | sb | | sb mb eb];
    cbn [SFcompare is_nan sf_key key_le];
    try (destruct sa); try (destruct sb); cbn [sf_key key_le];
    try (split; [intros H; try discriminate H; repeat split; lia
                | intros (H1 & H2 & H3); try discriminate; try reflexivity; lia]).
  - change (PosDef.Pos.compare_cont Eq ma mb) with (Pos.compare ma mb).
    destruct (Z.compare_spec ea eb); [destruct (Pos.compare_spec ma mb) | |]; cbn [CompOpp];
      (split; [intros Hc; try discriminate Hc; repeat split; lia
              | intros (H1 & H2 & H3); try reflexivity; lia]).
  - change (PosDef.Pos.compare_cont Eq ma mb) with (Pos.compare ma mb).
    destruct (Z.compare_spec ea eb); [destruct (Pos.compare_spec ma mb) | |];
      (split; [intros Hc; try discriminate Hc; repeat split; lia
              | intros (H1 & H2 & H3); try reflexivity; lia]).
Qed.

Lemma SFltb_key (a b : spec_float) :
  SFltb a b = true <-> is_nan a = false /\ is_nan b = false /\ key_lt (sf_key a) (sf_key b).
Proof.
  unfold SFltb.
  destruct a as [sa | sa | | sa ma ea], b as [sb | sb | | sb mb eb];
    cbn [SFcompare is_nan sf_key key_lt];
    try (destruct sa); try (destruct sb); cbn [sf_key key_lt];
    try (split; [intros H; try discriminate H; repeat split; lia
                | intros (H1 & H2 & H3); try discriminate; try reflexivity; lia]).
  - change (PosDef.Pos.compare_cont Eq ma mb) with (Pos.compare ma mb).
    destruct (Z.compare_spec ea eb); [destruct (Pos.compare_spec ma mb) | |]; cbn [CompOpp];
      (split; [intros Hc; try discriminate Hc; repeat split; lia
              | intros (H1 & H2 & H3); try reflexivity; lia]).
  - change (PosDef.Pos.compare_cont Eq ma mb) with (Pos.compare ma mb).
    destruct (Z.compare_spec ea eb); [destruct (Pos.compare_spec ma mb) | |];
      (split; [intros Hc; try discriminate Hc; repeat split; lia
              | intros (H1 & H2 & H3); try reflexivity; lia]).
Qed.

Lemma SFleb_refl (a : spec_float) : is_nan a = false -> SFleb a a = true.
Proof.
  intros Ha. apply SFleb_key. repeat split; try assumption.
  destruct (sf_key a) as [[a1 a2] a3]. cbn. lia.
Qed.

Lemma SFleb_trans (a b c : spec_float) :
  SFleb a b = true -> SFleb b c = true -> SFleb a c = true.
Proof.
  rewrite !SFleb_key. intros (Ha & Hb & Hab) (_ & Hc & Hbc). repeat split; try assumption.
  destruct (sf_key a) as [[a1 a2] a3], (sf_key b) as [[b1 b2] b3], (sf_key c) as [[c1 c2] c3].
  cbn in *. lia.
Qed.

Lemma SFltb_leb (a b : spec_float) : SFltb a b = true -> SFleb a b = true.
Proof.
  rewrite SFltb_key, SFleb_key. intros (Ha & Hb & Hab). repeat split; try assumption.
  destruct (sf_key a) as [[a1 a2] a3], (sf_key b) as [[b1 b2] b3]. cbn in *. lia.
Qed.

Lemma SFltb_false_leb (a b : spec_float) :
  is_nan a = false -> is_nan b = false -> SFltb a b = false -> SFleb b a = true.
Proof.
  intros Ha Hb Hlt. apply SFleb_key. repeat split; try assumption.
  destruct (SFltb a b) eqn:H; [discriminate |].
  assert (Hn : ~ key_lt (sf_key a) (sf_key b)).
  { intros Hk. assert (SFltb a b = true) by (apply SFltb_key; auto). congruence. }
  destruct (sf_key a) as [[a1 a2] a3], (sf_key b) as [[b1 b2] b3]. cbn in *. lia.
Qed.

Lemma SFleb_not_nan (a b : spec_float) :
  SFleb a b = true -> is_nan a = false /\ is_nan b = false.
Proof. rewrite SFleb_key. tauto. Qed.

(** [min] and [max] of common.h against the order. *)
Lemma min_le_l (a b : spec_float) : is_nan a = false -> is_nan b = false ->
  SFleb (BBox.min a b) a = true.
Proof.
  intros Ha Hb. unfold BBox.min. destruct (SFltb a b) eqn:Hlt.
  - apply SFleb_refl. exact Ha.
  - apply SFltb_false_leb; assumption.
Qed.

Lemma min_le_r (a b : spec_float) : is_nan b = false -> SFleb (BBox.min a b) b = true.
Proof.
  intros Hb. unfold BBox.min. destruct (SFltb a b) eqn:Hlt.
  - apply SFltb_leb. exact Hlt.
  - apply SFleb_refl. exact Hb.
Qed.

Lemma max_ge_l (a b : spec_float) : is_nan a = false -> is_nan b = false ->
  SFleb a (BBox.max a b) = true.
Proof.
  intros Ha Hb. unfold BBox.max. destruct (SFltb b a) eqn:Hlt.
  - apply SFleb_refl. exact Ha.
  - apply SFltb_false_leb; assumption.
Qed.

Lemma max_ge_r (a b : spec_float) : is_nan b = false -> SFleb b (BBox.max a b) = true.
Proof.
  intros Hb. unfold BBox.max. destruct (SFltb b a) eqn:Hlt.
  - apply SFltb_leb. exact Hlt.
  - apply SFleb_refl. exact Hb.
Qed.

Lemma contains_axis_add (lo hi p : spec_float) :
  is_nan p = false -> contains_axis (BBox.min lo p) (BBox.max hi p) p = true.
Proof.
  intros Hp. unfold contains_axis. rewrite min_le_r, max_ge_r by exact Hp. reflexivity.
Qed.

Lemma contains_axis_grow (lo hi p q : spec_float) :
  is_nan p = false -> contains_axis lo hi q = true ->
  contains_axis (BBox.min lo p) (BBox.max hi p) q = true.
Proof.
  unfold contains_axis. intros Hp [Hlo Hhi]%andb_prop.
  destruct (SFleb_not_nan _ _ Hlo) as [Hl _]. destruct (SFleb_not_nan _ _ Hhi) as [_ Hh].
  rewrite (SFleb_trans _ lo q), (SFleb_trans q hi); auto using min_le_l, max_ge_l.
Qed.

Lemma contains_add_point (b : BBox.BBox3D) (p : vec3 spec_float) :
  nan_free p -> contains (BBox.add_point b p) p = true.
Proof.
  intros (Hx & Hy & Hz). unfold contains, BBox.add_point. cbn [BBox.botLeft BBox.topRight vec3_x vec3_y vec3_z].
  rewrite !contains_axis_add by assumption. reflexivity.
Qed.

Lemma contains_add_point_grow (b : BBox.BBox3D) (p q : vec3 spec_float) :
  nan_free p -> contains b q = true -> contains (BBox.add_point b p) q = true.
Proof.
  intros (Hx & Hy & Hz). unfold contains, BBox.add_point.
  cbn [BBox.botLeft BBox.topRight vec3_x vec3_y vec3_z].
  intros [[H1 H2]%andb_prop H3]%andb_prop.
  rewrite !contains_axis_grow by assumption. reflexivity.
Qed.

Lemma fold_add_point_grow (pts : list (vec3 spec_float)) (b : BBox.BBox3D) (q : vec3 spec_float) :
  List.Forall nan_free pts -> contains b q = true ->
  contains (fold_left BBox.add_point pts b) q = true.
Proof.
  revert b. induction pts as [| p pts IH]; intros b Hall Hq; [exact Hq |].
  cbn [fold_left]. inversion Hall; subst. apply IH; [assumption |].
  apply contains_add_point_grow; assumption.
Qed.

(** X18: [operator+=(const vec3<E>&)] and [contains]: whatever box the
    points are added to, as long as no coordinate of a point is a NaN the
    box contains every point added, and every point it contained before. *)
Theorem box_contains_added_points (pts : list (vec3 spec_float)) (b : BBox.BBox3D) :
  List.Forall nan_free pts ->
  (forall p, In p pts -> contains (fold_left BBox.add_point pts b) p = true)
  /\ (forall q, contains b q = true -> contains (fold_left BBox.add_point pts b) q = true).
Proof.
  intros Hall. split; [| intros q Hq; apply fold_add_point_grow; assumption].
  revert b. induction pts as [| p0 pts IH]; intros b p Hin; [destruct Hin |].
  inversion Hall; subst. cbn [fold_left]. destruct Hin as [-> | Hin].
  - apply fold_add_point_grow; [assumption |]. apply contains_add_point. assumption.
  - apply IH; assumption.
Qed.

Lemma SFleb_ltb_false (a b : spec_float) : SFleb a b = true -> SFltb b a = false.
Proof.
  intros Hle. destruct (SFltb b a) eqn:Hlt; [| reflexivity].
  apply SFleb_key in Hle. apply SFltb_key in Hlt.
  destruct Hle as (_ & _ & Hle). destruct Hlt as (_ & _ & Hlt).
  destruct (sf_key a) as [[a1 a2] a3], (sf_key b) as [[b1 b2] b3]. cbn in *. lia.
Qed.

Lemma min_cases (a b : spec_float) : BBox.min a b = a \/ BBox.min a b = b.
Proof. unfold BBox.min. destruct (SFltb a b); auto. Qed.

Lemma max_cases (a b : spec_float) : BBox.max a b = a \/ BBox.max a b = b.
Proof. unfold BBox.max. destruct (SFltb b a); auto. Qed.

(** Each bound of the box after a run of additions is the bound it had or
    a coordinate of a point added. *)
Lemma fold_add_point_bounds (pts : list (vec3 spec_float)) (b : BBox.BBox3D) :
  let b' := fold_left BBox.add_point pts b in
  In (vec3_x (BBox.botLeft b')) (vec3_x (BBox.botLeft b) :: map vec3_x pts)
  /\ In (vec3_y (BBox.botLeft b')) (vec3_y (BBox.botLeft b) :: map vec3_y pts)
  /\ In (vec3_z (BBox.botLeft b')) (vec3_z (BBox.botLeft b) :: map vec3_z pts)
  /\ In (vec3_x (BBox.topRight b')) (vec3_x (BBox.topRight b) :: map vec3_x pts)
  /\ In (vec3_y (BBox.topRight b')) (vec3_y (BBox.topRight b) :: map vec3_y pts)
  /\ In (vec3_z (BBox.topRight b')) (vec3_z (BBox.topRight b) :: map vec3_z pts).
Proof.
  cbv zeta. revert b. induction pts as [| p pts IH]; intros b.
  - cbn. tauto.
  - cbn [fold_left map]. destruct (IH (BBox.add_point b p)) as (H1 & H2 & H3 & H4 & H5 & H6).
    cbn [BBox.add_point BBox.botLeft BBox.topRight vec3_x vec3_y vec3_z] in H1, H2, H3, H4, H5, H6.
    assert (Hstep : forall (c q : spec_float) (l : list spec_float) (x m : spec_float),
              (m = c \/ m = q) -> In x (m :: l) -> In x (c :: q :: l)).
    { intros c q l x m Hm [<- | Hx]; [destruct Hm as [-> | ->]; cbn; auto | cbn; auto]. }
    split; [exact (Hstep _ _ _ _ _ (min_cases _ _) H1) |].
    split; [exact (Hstep _ _ _ _ _ (min_cases _ _) H2) |].
    split; [exact (Hstep _ _ _ _ _ (min_cases _ _) H3) |].
    split; [exact (Hstep _ _ _ _ _ (max_cases _ _) H4) |].
    split; [exact (Hstep _ _ _ _ _ (max_cases _ _) H5) |].
    exact (Hstep _ _ _ _ _ (max_cases _ _) H6).
Qed.

Lemma add_point_first (p : vec3 spec_float) :
  in_range p ->
  BBox.add_point BBox.BBox3D_new p = {| BBox.botLeft := p; BBox.topRight := p |}.
Proof.
  intros ((Hx1 & Hx2) & (Hy1 & Hy2) & (Hz1 & Hz2)). destruct p as [x y z].
  cbn [vec3_x vec3_y vec3_z] in *.
  unfold BBox.add_point, BBox.BBox3D_new, BBox.min, BBox.max.
  cbn [BBox.botLeft BBox.topRight vec3_x vec3_y vec3_z].
  rewrite !SFleb_ltb_false by assumption. reflexivity.
Qed.

Lemma in_range_nan_free (p : vec3 spec_float) : in_range p -> nan_free p.
Proof.
  intros ((Hx & _) & (Hy & _) & (Hz & _)).
  repeat split; eapply SFleb_not_nan; eassumption.
Qed.

Lemma contains_valid (b : BBox.BBox3D) (p : vec3 spec_float) :
  contains b p = true -> valid b = true.
Proof.
  unfold contains, contains_axis, valid.
  intros [[[X1 X2]%andb_prop [Y1 Y2]%andb_prop]%andb_prop [Z1 Z2]%andb_prop]%andb_prop.
  rewrite (SFleb_trans _ _ _ X1 X2), (SFleb_trans _ _ _ Y1 Y2), (SFleb_trans _ _ _ Z1 Z2).
  reflexivity.
Qed.

(** X19: the default box and [operator+=(const vec3<E>&)]: the box of the
    default constructor contains no point at all; once points of the
    double range have been added to it, it is valid, it contains each of
    them, and each of its six bounds is that coordinate of one of them:
    it is the smallest box around the points. *)
Theorem default_box_grows_tight (p0 : vec3 spec_float) (pts : list (vec3 spec_float)) :
  List.Forall in_range (p0 :: pts) ->
  let b := fold_left BBox.add_point (p0 :: pts) BBox.BBox3D_new in
  (forall q, contains BBox.BBox3D_new q = false)
  /\ valid b = true
  /\ (forall p, In p (p0 :: pts) -> contains b p = true)
  /\ In (vec3_x (BBox.botLeft b)) (map vec3_x (p0 :: pts))
  /\ In (vec3_y (BBox.botLeft b)) (map vec3_y (p0 :: pts))
  /\ In (vec3_z (BBox.botLeft b)) (map vec3_z (p0 :: pts))
  /\ In (vec3_x (BBox.topRight b)) (map vec3_x (p0 :: pts))
  /\ In (vec3_y (BBox.topRight b)) (map vec3_y (p0 :: pts))
  /\ In (vec3_z (BBox.topRight b)) (map vec3_z (p0 :: pts)).
Proof.
  intros Hall. cbv zeta.
  assert (Hnan : List.Forall nan_free (p0 :: pts)).
  { eapply List.Forall_impl; [| exact Hall]. apply in_range_nan_free. }
  assert (Hin : forall p, In p (p0 :: pts) ->
            contains (fold_left BBox.add_point (p0 :: pts) BBox.BBox3D_new) p = true).
  { generalize BBox.BBox3D_new. generalize (p0 :: pts) Hnan. clear.
    induction l as [| a l IH]; intros Hn b p Hp; [destruct Hp |].
    inversion Hn; subst. cbn [fold_left]. destruct Hp as [-> | Hp].
    - apply fold_add_point_grow; [assumption |]. apply contains_add_point. assumption.
    - apply IH; assumption. }
  split; [| split; [| split]].
  - intros q. unfold contains, contains_axis, BBox.BBox3D_new.
    cbn [BBox.botLeft BBox.topRight vec3_x vec3_y vec3_z].
    destruct (SFleb BBox.MAX_VALUE (vec3_x q)) eqn:H1; [| reflexivity].
    destruct (SFleb (vec3_x q) BBox.MIN_VALUE) eqn:H2; [| reflexivity].
    pose proof (SFleb_trans _ _ _ H1 H2) as Hbad. vm_compute in Hbad. discriminate.
  - apply (contains_valid _ p0). apply Hin. left. reflexivity.
  - exact Hin.
  - cbn [fold_left]. inversion Hall; subst. rewrite add_point_first by assumption.
    pose proof (fold_add_point_bounds pts {| BBox.botLeft := p0; BBox.topRight := p0 |}) as Hb.
    cbv zeta in Hb. cbn [BBox.botLeft BBox.topRight] in Hb. exact Hb.
Qed.

Lemma default_box_grows_tight_witness :
  fold_left BBox.add_point [pt 1 5 (-2); pt (-3) 2 0; pt 4 (-1) 7] BBox.BBox3D_new
  = {| BBox.botLeft := pt (-3) (-1) (-2); BBox.topRight := pt 4 5 7 |}
  /\ contains (fold_left BBox.add_point [pt 1 5 (-2); pt (-3) 2 0; pt 4 (-1) 7] BBox.BBox3D_new)
       (pt (-3) 2 0) = true.
Proof.
  split; [vm_compute; reflexivity |].
  assert (Hall : List.Forall in_range [pt 1 5 (-2); pt (-3) 2 0; pt 4 (-1) 7]).
  { repeat constructor. }
  destruct (default_box_grows_tight _ _ Hall) as (_ & _ & Hin & _).
  apply Hin. right. left. reflexivity.
Defined.

Lemma box_contains_added_points_witness :
  contains (fold_left BBox.add_point [pt 1 5 (-2); pt 4 (-1) 7]
              {| BBox.botLeft := pt 0 0 0; BBox.topRight := pt 2 2 2 |}) (pt 4 (-1) 7) = true
  /\ contains (fold_left BBox.add_point [pt 1 5 (-2); pt 4 (-1) 7]
                 {| BBox.botLeft := pt 0 0 0; BBox.topRight := pt 2 2 2 |}) (pt 1 1 1) = true.
Proof.
  assert (Hall : List.Forall nan_free [pt 1 5 (-2); pt 4 (-1) 7]).
  { repeat constructor. }
  destruct (box_contains_added_points _ {| BBox.botLeft := pt 0 0 0; BBox.topRight := pt 2 2 2 |}
              Hall) as [Hin Hkeep].
  split; [apply Hin; right; left; reflexivity | apply Hkeep; vm_compute; reflexivity].
Defined.

Lemma leb_max (a b p : spec_float) :
  is_nan a = false -> SFleb (BBox.max a b) p = SFleb a p && SFleb b p.
Proof.
  intros Ha. unfold BBox.max. destruct (SFltb b a) eqn:Hlt.
  - destruct (SFleb a p) eqn:Hap; [| reflexivity]. symmetry.
    apply (SFleb_trans b a p); [apply SFltb_leb; exact Hlt | exact Hap].
  - destruct (SFleb b p) eqn:Hbp; [| rewrite andb_false_r; reflexivity].
    rewrite andb_true_r. symmetry. apply (SFleb_trans a b p); [| exact Hbp].
    apply (SFltb_false_leb b a); [| exact Ha | exact Hlt].
    exact (proj1 (SFleb_not_nan _ _ Hbp)).
Qed.

Lemma leb_min (a b p : spec_float) :
  is_nan a = false -> SFleb p (BBox.min a b) = SFleb p a && SFleb p b.
Proof.
  intros Ha. unfold BBox.min. destruct (SFltb a b) eqn:Hlt.
  - destruct (SFleb p a) eqn:Hap; [| reflexivity]. symmetry.
    apply (SFleb_trans p a b); [exact Hap | apply SFltb_leb; exact Hlt].
  - destruct (SFleb p b) eqn:Hbp; [| rewrite andb_false_r; reflexivity].
    rewrite andb_true_r. symmetry. apply (SFleb_trans p b a); [exact Hbp |].
    apply (SFltb_false_leb a b); [exact Ha | | exact Hlt].
    exact (proj2 (SFleb_not_nan _ _ Hbp)).
Qed.

Lemma valid_nan_free (a : BBox.BBox3D) :
  valid a = true -> nan_free (BBox.botLeft a) /\ nan_free (BBox.topRight a).
Proof.
  unfold valid. intros [[X Y]%andb_prop Z]%andb_prop.
  apply SFleb_not_nan in X, Y, Z. unfold nan_free. tauto.
Qed.

(** X20: [intersection], [intersects] and [valid]: for two valid boxes, a
    point is in the intersection exactly when it is in both, and the boxes
    intersect exactly when the intersection is valid. *)
Theorem intersection_is_common_part (a b : BBox.BBox3D) :
  valid a = true -> valid b = true ->
  (forall p, contains (intersection a b) p = contains a p && contains b p)
  /\ intersects a b = valid (intersection a b).
Proof.
  intros Ha Hb.
  destruct (valid_nan_free a Ha) as ((Hax & Hay & Haz) & (Hbx & Hby & Hbz)).
  split.
  - intros p. unfold contains, contains_axis, intersection, vec3_max, vec3_min.
    cbn [BBox.botLeft BBox.topRight vec3_x vec3_y vec3_z].
    rewrite !leb_max, !leb_min by assumption.
    repeat match goal with |- context [SFleb ?x ?y] =>
      let v := fresh "c" in generalize (SFleb x y); intros v end.
    repeat match goal with c : bool |- _ => destruct c end; reflexivity.
  - unfold intersects, valid, intersection, vec3_max, vec3_min in *.
    cbn [BBox.botLeft BBox.topRight vec3_x vec3_y vec3_z].
    rewrite !leb_max by assumption.
    rewrite !leb_min by assumption.
    apply andb_prop in Ha as [[X1 Y1]%andb_prop Z1].
    apply andb_prop in Hb as [[X2 Y2]%andb_prop Z2].
    rewrite X1, Y1, Z1, X2, Y2, Z2.
    repeat match goal with |- context [SFleb ?x ?y] =>
      let v := fresh "c" in generalize (SFleb x y); intros v end.
    repeat match goal with c : bool |- _ => destruct c end; reflexivity.
Qed.

Lemma intersection_is_common_part_witness :
  intersection {| BBox.botLeft := pt 0 0 0; BBox.topRight := pt 4 4 4 |}
               {| BBox.botLeft := pt 2 (-1) 1; BBox.topRight := pt 6 3 2 |}
  = {| BBox.botLeft := pt 2 0 1; BBox.topRight := pt 4 3 2 |}
  /\ intersects {| BBox.botLeft := pt 0 0 0; BBox.topRight := pt 4 4 4 |}
                {| BBox.botLeft := pt 2 (-1) 1; BBox.topRight := pt 6 3 2 |} = true.
Proof.
  split; [vm_compute; reflexivity |].
  destruct (intersection_is_common_part
              {| BBox.botLeft := pt 0 0 0; BBox.topRight := pt 4 4 4 |}
              {| BBox.botLeft := pt 2 (-1) 1; BBox.topRight := pt 6 3 2 |}
              ltac:(vm_compute; reflexivity) ltac:(vm_compute; reflexivity)) as [_ ->].
  vm_compute. reflexivity.
Defined.

Lemma fold_keeps_bounds {A : Type} (f : GenState -> A -> GenState) (l : list A) (st : GenState) :
  (forall st a, bounds (f st a) = bounds st) -> bounds (fold_left f l st) = bounds st.
Proof.
  intros Hf. revert st. induction l as [| a l IH]; intros st; [reflexivity |].
  cbn [fold_left]. rewrite IH. apply Hf.
Qed.

Lemma load_vertex_bounds (mesh : aiMesh) (t : aiMatrix4x4) (nmat : aiMatrix3x3)
    (st : GenState) (i : Z) :
  bounds (load_vertex mesh t nmat st i) = BBox.add_point (bounds st) (world_point mesh t i).
Proof.
  unfold load_vertex. destruct (HasNormals mesh), (HasTextureCoords0 mesh); reflexivity.
Qed.

Lemma load_vertices_bounds (mesh : aiMesh) (t : aiMatrix4x4) (nmat : aiMatrix3x3)
    (l : list Z) (st : GenState) :
  bounds (fold_left (load_vertex mesh t nmat) l st)
  = fold_left BBox.add_point (List.map (world_point mesh t) l) (bounds st).
Proof.
  revert st. induction l as [| i l IH]; intros st; [reflexivity |].
  cbn [fold_left List.map]. rewrite IH, load_vertex_bounds. reflexivity.
Qed.

Lemma load_face_bounds (mesh : aiMesh) (st : GenState) (f : Z) :
  bounds (load_face mesh st f) = bounds st.
Proof. reflexivity. Qed.

Lemma load_weight_bounds (bidx : Z) (st : GenState) (vw : aiVertexWeight) :
  bounds (load_weight bidx st vw) = bounds st.
Proof. unfold load_weight. destruct (_ >=? 4); reflexivity. Qed.

Lemma load_bone_bounds `{AssimpMath} (t : aiMatrix4x4) (st : GenState) (bone : aiBone) :
  bounds (load_bone t st bone) = bounds st.
Proof.
  unfold load_bone. destruct (bones st !! bone_mName bone);
    rewrite fold_keeps_bounds by apply load_weight_bounds; reflexivity.
Qed.

Lemma post_vertex_bounds `{AssimpMath} (nm : string) (t : aiMatrix4x4) (st : GenState) (i : Z) :
  bounds (post_vertex nm t st i) = bounds st.
Proof.
  unfold post_vertex. destruct (SFeqb _ f_zero); [| reflexivity].
  destruct (getNodeBone _ _ _ _) as [[d bs] ix]. reflexivity.
Qed.

Lemma default_vertex_bounds (d : Z) (st : GenState) (i : Z) :
  bounds (default_vertex d st i) = bounds st.
Proof. reflexivity. Qed.

Lemma loadMesh_bounds `{AssimpMath} (scene : aiScene) (mesh_id : Z) (nm : string)
    (t : aiMatrix4x4) (st : GenState) :
  bounds (snd (loadMesh scene mesh_id nm t st))
  = fold_left BBox.add_point (mesh_points scene t mesh_id) (bounds st).
Proof.
  unfold loadMesh, mesh_points. destruct (lookupZ (scene_mMeshes scene) mesh_id) as [mesh |];
    [| reflexivity].
  fold (skipped mesh). destruct (skipped mesh); [reflexivity |].
  cbn [snd with_offsets bounds].
  rewrite <- load_vertices_bounds with (nmat := mat3_inverse_transpose t).
  set (st1 := fold_left (load_vertex mesh t (mat3_inverse_transpose t)) _ st).
  rewrite <- (fold_keeps_bounds (load_face mesh) (seqZ 0 (mNumFaces mesh)) st1 (load_face_bounds mesh)).
  set (st2 := fold_left (load_face mesh) _ st1).
  destruct (HasAnimations scene); [| reflexivity].
  destruct (HasBones mesh).
  - rewrite fold_keeps_bounds by apply post_vertex_bounds.
    rewrite fold_keeps_bounds by apply load_bone_bounds. reflexivity.
  - destruct (getNodeBone _ _ _ _) as [[d bs] ix].
    rewrite fold_keeps_bounds by apply default_vertex_bounds. reflexivity.
Qed.

Lemma generateMesh_bounds `{AssimpMath} (scene : aiScene) (node : aiNode) :
  forall (t : aiMatrix4x4) (st : GenState),
    bounds (generateMesh scene node t st)
    = fold_left BBox.add_point (node_points scene node t) (bounds st).
Proof.
  induction node as [node IH] using aiNode_children_ind. intros t st.
  destruct node as [nm tr ms cs].
  cbn [generateMesh node_points mName mTransformation mMeshes mChildren] in *.
  set (mat := mat4_mul t tr). rewrite fold_left_app.
  assert (Hm : forall l st0,
            bounds (fold_left (fun st mesh_id => snd (loadMesh scene mesh_id nm mat st)) l st0)
            = fold_left BBox.add_point (List.concat (List.map (mesh_points scene mat) l))
                (bounds st0)).
  { induction l as [| m l IHl]; intros st0; [reflexivity |].
    cbn [fold_left List.map List.concat]. rewrite fold_left_app, IHl, loadMesh_bounds.
    reflexivity. }
  rewrite <- Hm.
  set (st1 := fold_left _ ms st). clearbody st1. clear Hm.
  revert st1. induction cs as [| c cs IHc]; intros st1; [reflexivity |].
  cbn [fold_left List.map List.concat]. rewrite fold_left_app.
  inversion IH as [| ? ? Hc Hcs]; subst.
  rewrite IHc by exact Hcs. rewrite Hc. reflexivity.
Qed.

(** X21: [loadScene], [generateMesh], [loadMesh]: the bounds the emission
    pass ends with are the default box grown by the transformed position
    of every vertex of every mesh the walk loads, in the order of the
    walk, and by nothing else; if none of these coordinates is a NaN, the
    bounds contain each of these positions. *)
Theorem scene_bounds_contain_vertices `{AssimpMath} (scene : aiScene) :
  List.Forall nan_free (node_points scene (mRootNode scene) identity) ->
  bounds (scene_generate scene)
  = fold_left BBox.add_point (node_points scene (mRootNode scene) identity) BBox.BBox3D_new
  /\ forall p, In p (node_points scene (mRootNode scene) identity) ->
       contains (bounds (scene_generate scene)) p = true.
Proof.
  intros Hall. unfold scene_generate. rewrite generateMesh_bounds.
  split; [reflexivity |]. cbn [scene_start bounds].
  generalize BBox.BBox3D_new. revert Hall.
  generalize (node_points scene (mRootNode scene) identity).
  induction l as [| a l IH]; intros Hn b p Hp; [destruct Hp |].
  inversion Hn; subst. cbn [fold_left]. destruct Hp as [-> | Hp].
  - apply fold_add_point_grow; [assumption |]. apply contains_add_point. assumption.
  - apply IH; assumption.
Qed.

Lemma scene_bounds_contain_vertices_witness :
  List.Forall nan_free (@node_points sample_math rig_scene (mRootNode rig_scene) identity)
  /\ length (@node_points sample_math rig_scene (mRootNode rig_scene) identity) = 6%nat
  /\ forall p, In p (@node_points sample_math rig_scene (mRootNode rig_scene) identity) ->
       contains (bounds (@scene_generate sample_math rig_scene)) p = true.
Proof.
  assert (Hall : List.Forall nan_free
                   (@node_points sample_math rig_scene (mRootNode rig_scene) identity)).
  { vm_compute. repeat constructor. }
  split; [exact Hall |]. split; [vm_compute; reflexivity |].
  exact (proj2 (@scene_bounds_contain_vertices sample_math rig_scene Hall)).
Defined.

(** ** Animation channels and the flattened tree (Main.cpp, loadScene, loadTree,
    loadAnimation) *)

Lemma to_short_small (z : Z) : - 2 ^ 15 <= z < 2 ^ 15 -> to_short z = z.
Proof. intros Hz. unfold to_short. rewrite Z.mod_small; lia. Qed.

Lemma load_channel_starts `{AssimpMath} (NO_SCALE : bool) (nmap : gmap string Z)
    (n : aiNodeAnim) (j : Z) :
  nmap !! mNodeName n = Some j ->
  exists rest, forall file,
    load_channel NO_SCALE nmap file n = file ++ Short (to_short j) :: rest.
Proof.
  intros Hj.
  assert (H0 : exists rest, load_channel NO_SCALE nmap [] n = Short (to_short j) :: rest).
  { unfold load_channel. rewrite Hj. destruct NO_SCALE.
    - rewrite (writeQuatArray_appends (writeVectorArray _ _)).
      rewrite (writeVectorArray_appends (writeShort [] _)).
      unfold writeShort, writeFloat, writeInt. cbn [app]. rewrite <- !app_assoc. cbn [app].
      eexists. reflexivity.
    - rewrite (writeVectorArray_appends (writeQuatArray _ _)).
      rewrite (writeQuatArray_appends (writeVectorArray _ _)).
      rewrite (writeVectorArray_appends (writeShort [] _)).
      unfold writeShort. cbn [app]. rewrite <- !app_assoc. cbn [app].
      eexists. reflexivity. }
  destruct H0 as [rest Hrest]. exists rest. intros file.
  rewrite load_channel_appends, Hrest. reflexivity.
Qed.

(** X22: [loadScene], [loadTree] and [loadAnimation] together, for a tree
    of fewer than 2^15 nodes (the joint index is written as a [short]): a
    channel whose node name is that of a node without meshes writes a
    record that starts with the array index of such a node; a channel
    whose node name only nodes with meshes carry, or no node at all,
    writes nothing. *)
Theorem channels_point_at_joints `{AssimpMath} (NO_SCALE : bool) (root : aiNode)
    (n : aiNodeAnim) :
  tree_size root < 2 ^ 15 ->
  ((exists j node c, node_at (flatten root) j = Some (node, c)
                     /\ mName node = mNodeName n /\ mNumMeshes node = 0) ->
   exists j node c rest,
     0 <= j < tree_size root
     /\ node_at (flatten root) j = Some (node, c)
     /\ mName node = mNodeName n /\ mNumMeshes node = 0
     /\ forall file, load_channel NO_SCALE (joint_map root) file n = file ++ Short j :: rest)
  /\ ((forall j node c, node_at (flatten root) j = Some (node, c) ->
         mName node = mNodeName n -> mNumMeshes node <> 0) ->
      forall file, load_channel NO_SCALE (joint_map root) file n = file).
Proof.
  intros Hsize. unfold tree_size in *. unfold flatten, joint_map.
  set (st0 := {| nodes := []; tree_index := 1; node_map := ∅ |}).
  pose proof (descendants_nonneg root) as Hd.
  pose proof (loadTree_spec root 0 st0 ltac:(cbn; lia) ltac:(cbn; lia)) as Hpost.
  pose proof (loadTree_layout root 0 st0 ltac:(cbn; lia) ltac:(cbn; lia)) as Hlay.
  set (st' := fst (loadTree root 0 st0)) in *.
  destruct Hpost as (Hidx & _ & Hframe & _ & _).
  destruct Hlay as (_ & _ & _ & Hsound & Hcompl).
  cbn [tree_index nodes node_map st0] in *. unfold written in *.
  assert (Hin : forall j node c, node_at (nodes st') j = Some (node, c) ->
                  0 <= j < 1 + descendants root).
  { intros j node c Hat.
    destruct (Z_lt_le_dec j 0) as [Hneg | Hnn];
      [| destruct (Z_lt_le_dec j (1 + descendants root)) as [Hlt | Hge]; [lia |]].
    - rewrite Hframe in Hat by lia. rewrite node_at_nil in Hat. discriminate.
    - rewrite Hframe in Hat by lia. rewrite node_at_nil in Hat. discriminate. }
  assert (Hsound' : forall nm j, node_map st' !! nm = Some j ->
            exists node c, node_at (nodes st') j = Some (node, c) /\ mName node = nm
                           /\ mNumMeshes node = 0).
  { intros nm j Hm. destruct (Hsound nm j Hm) as [Hm0 | [_ Hj]]; [| exact Hj].
    rewrite lookup_empty in Hm0. discriminate. }
  split.
  - intros (j0 & node0 & c0 & Hat0 & Hname0 & Hmesh0).
    destruct (Hcompl j0 node0 c0 ltac:(pose proof (Hin j0 node0 c0 Hat0); lia) Hat0 Hmesh0)
      as [j Hj].
    rewrite Hname0 in Hj.
    destruct (Hsound' _ j Hj) as (node & c & Hat & Hname & Hmesh).
    destruct (load_channel_starts NO_SCALE (node_map st') n j Hj) as [rest Hrest].
    pose proof (Hin j node c Hat) as Hr.
    exists j, node, c, rest. split; [exact Hr |]. split; [exact Hat |].
    split; [exact Hname |]. split; [exact Hmesh |].
    intros file. rewrite Hrest, to_short_small by lia. reflexivity.
  - intros Hnone file. unfold load_channel.
    destruct (node_map st' !! mNodeName n) as [j |] eqn:Hj; [| reflexivity].
    destruct (Hsound' _ j Hj) as (node & c & Hat & Hname & Hmesh).
    exfalso. exact (Hnone j node c Hat Hname Hmesh).
Qed.

Lemma channels_point_at_joints_witness :
  tree_size body_tree < 2 ^ 15
  /\ (exists j node c rest,
        0 <= j < tree_size body_tree
        /\ node_at (flatten body_tree) j = Some (node, c)
        /\ mName node = "root"%string /\ mNumMeshes node = 0
        /\ forall file,
             @load_channel sample_math false (joint_map body_tree) file (channel_of "root")
             = file ++ Short j :: rest)
  /\ (forall file,
        @load_channel sample_math false (joint_map body_tree) file (channel_of "body") = file).
Proof.
  assert (Hsize : tree_size body_tree < 2 ^ 15) by (vm_compute; reflexivity).
  split; [exact Hsize |]. split.
  - apply (proj1 (@channels_point_at_joints sample_math false body_tree (channel_of "root") Hsize)).
    exists 0, body_tree, 1. repeat split.
  - apply (proj2 (@channels_point_at_joints sample_math false body_tree (channel_of "body") Hsize)).
    intros j node c Hat Hname.
    assert (Hj : j = 0 \/ j = 1).
    { unfold node_at, lookupZ in Hat. destruct (Z.ltb_spec j 0); [discriminate |].
      destruct (flatten body_tree !! Z.to_nat j) as [p |] eqn:Hl; [| discriminate].
      apply lookup_lt_Some in Hl.
      assert (Hlen : length (flatten body_tree) = 2%nat) by (vm_compute; reflexivity).
      rewrite Hlen in Hl. lia. }
    destruct Hj as [-> | ->]; vm_compute in Hat; injection Hat as <- <-;
      [discriminate Hname | discriminate].
Defined.

(** ** The post-pass over a mesh (Main.cpp, loadMesh lines 97-128) *)

Import SkinPass.










(** ** Accesses outside the buffers (Main.cpp, loadMesh and loadScene) *)

Import ByteBlock.

(** C10 fails on two scenes.  With 32768 animations [(short)mNumAnimations]
    is negative, so the format has the three attributes of an unskinned
    scene and no attribute 3 or 4, while [HasAnimations()] holds and
    [loadMesh] calls [set] on [BONE_IDX] and [BONE_WEIGHT] for every
    vertex.  With a bone weight for vertex 7 of a mesh of 3 vertices the
    passes agree on 3 vertices and the block has 192 bytes, and
    [loadMesh] calls [get] and [set] on vertex 7, at the bytes 480 and
    496. *)
Lemma stray_weight_writes_past_buffer :
  (HasAnimations crowded_scene = true
   /\ nAnim crowded_scene = -32768
   /\ length (attributes (scene_format crowded_scene)) = 3%nat
   /\ lookupZ (attributes (scene_format crowded_scene)) BONE_IDX = None
   /\ lookupZ (attributes (scene_format crowded_scene)) BONE_WEIGHT = None
   /\ voff (@scene_generate sample_math crowded_scene) = vcount (scene_counts crowded_scene)
   /\ In (0, BONE_IDX) (vb_trace (vertices (@scene_generate sample_math crowded_scene)))
   /\ In (0, BONE_WEIGHT) (vb_trace (vertices (@scene_generate sample_math crowded_scene))))
  /\ (vcount (scene_counts stray_scene) = 3
      /\ voff (@scene_generate sample_math stray_scene) = 3
      /\ vb_vertices (vertices (@scene_generate sample_math stray_scene)) = 3
      /\ vb_getSize (vertices (@scene_generate sample_math stray_scene)) = 192
      /\ mesh_vertex_ids stray_mesh = [7]
      /\ In (7, BONE_IDX) (vb_trace (vertices (@scene_generate sample_math stray_scene)))
      /\ In (7, BONE_WEIGHT) (vb_trace (vertices (@scene_generate sample_math stray_scene)))
      /\ option_map fst (bb_offset (ByteBuffer_new (scene_format stray_scene) 3) 7 BONE_IDX)
         = Some 480
      /\ option_map fst (bb_offset (ByteBuffer_new (scene_format stray_scene) 3) 7 BONE_WEIGHT)
         = Some 496
      /\ bb_get (ByteBuffer_new (scene_format stray_scene) 3) 7 BONE_WEIGHT = None
      /\ bb_set (ByteBuffer_new (scene_format stray_scene) 3) 7 BONE_WEIGHT
           (make4 f32_one f_zero f_zero f_zero) = None).
Proof.
  split.
  - split; [vm_compute; reflexivity |]. split; [vm_compute; reflexivity |].
    split; [vm_compute; reflexivity |]. split; [vm_compute; reflexivity |].
    split; [vm_compute; reflexivity |]. split; [vm_compute; reflexivity |].
    split; vm_compute; tauto.
  - split; [vm_compute; reflexivity |]. split; [vm_compute; reflexivity |].
    split; [vm_compute; reflexivity |]. split; [vm_compute; reflexivity |].
    split; [vm_compute; reflexivity |].
    split; [vm_compute; tauto |]. split; [vm_compute; tauto |].
    split; [vm_compute; reflexivity |]. split; [vm_compute; reflexivity |].
    split; vm_compute; reflexivity.
Qed.
